(* ===== verification/_CoqProject ===== *)
-Q . S2P
Prelude.v
RustString.v
RustNum.v
RustNet.v
Metrics.v
Cache.v
CacheSpec.v
CacheProps.v
CacheRefine.v
Config.v
ConfigProps.v
Blocklist.v
BlocklistProps.v
Dns.v
DnsSample.v
Zone.v
Keys.v
ZoneSample.v
ZoneProps.v
KeysProps.v
Filter.v
FilterProps.v
Dns64.v
Resolver.v
QnameMin.v
QnameMinProps.v
Forward.v
ForwardSafe.v
ForwardProps.v
Proxy.v
ProxyProps.v
Tcp.v
TcpProps.v
QueryLog.v
QueryLogProps.v
Udp.v
UdpProps.v
Secondary.v
SecondaryProps.v
Catalog.v
Notify.v
CatalogProps.v
ZoneManager.v
ZoneManagerProps.v
Net.v
NetProps.v
System.v
SystemProps.v
AnswerProps.v
ServerProps.v
Api.v
ApiProps.v
Auth.v
Apps.v
Main.v
MainProps.v
