(* ===== verification/Prelude.v ===== *)
(** * Heimdallr: a verification library of the DNS server

    Heimdallr is a forwarding and authoritative DNS server on top of the hickory libraries.  A
    request arrives over UDP, TCP (optionally behind a PROXY header), TLS or HTTPS; the request
    handler answers NOTIFY itself and gives everything else to the catalog of the server library,
    whose root zone is the forwarding authority.  That authority looks in the response cache, asks
    upstream (through QNAME minimization when it is on), applies DNS64, DNAME substitution and
    the answer checks of the filter, stores the answer and returns it.  Zones are loaded from
    files, edited over HTTP, or transferred from a primary.

    ** Files

    Every component file has a module of its own name; [XProps] holds the theorems about [X].

    - [Prelude]: the [result] type of fallible code with its bind, the notation of early returns
      (in [result_scope]), the rewriting base [results], tactics, and lemmas on lists and loops.
    - [RustString], [RustNum], [RustNet]: what the sources use of the Rust standard library:
      [str] methods on byte strings (white space and case conversion as Unicode has them), integer
      parsing and printing at their width, big-endian bytes, prefix masks, and the parsers and
      printers of addresses and socket addresses.
    - [Metrics] (src/core/metrics/mod.rs): the registry of counters, which wrap at 64 bits, and
      its text form.  The global registry is a state that is threaded.
    - [Cache] (src/core/cache/mod.rs): keys, entries, configuration, the map with the list of keys
      that orders evictions, every operation, and the snapshot file over the class [Storage].
      Instants and durations are nanoseconds.  [CacheSpec] has the invariant [wf], the step
      relation of interleaved operations and the abstract bounded queue; [CacheProps] the theorems;
      [CacheRefine] compares histories of calls with the queue.
    - [Config] (src/config/mod.rs, [load_config] of src/main.rs): all sections with their
      defaults, [validate], derived values, reading with command-line overrides.
    - [Blocklist] (src/core/filter/blocklist.rs): list parsing, meta-lists, suffix matching.
    - [Dns]: the interface [Hickory] of names, messages and their encoding, with the facts the
      sources rely on as laws; the record types and data the sources mention; the world of a
      request (cache, counters, log of upstream queries, clock) and the monad of request code.
      [DnsSample] is an instance of that interface on which the witnesses run.
    - [Zone] (src/core/zone/file.rs, src/core/zone/record.rs): loading a zone, replacing the SOA
      mail box, record types and data, listing, inserting and deleting records, the text that is
      written back.  Record store, zone-file parser and file system are the class [ZoneLib].
    - [Keys] (src/core/dnssec/keygen.rs, src/core/dnssec/mod.rs, src/net/cert.rs): key files and
      certificates over the class [KeyLib].  [ZoneSample] is an instance of both classes.
    - [Filter] (src/core/filter/mod.rs): modules [Cidr] and [Filter].
    - [Dns64] (src/core/resolver/dns64.rs), [Resolver] (src/core/resolver/mod.rs).
    - [QnameMin] (src/core/resolver/qname_min.rs): the class [QnameMinResolver] is the trait of
      that name; the forwarding authority is proved against its hickory instance.
    - [Forward] (src/core/resolver/forward.rs): the lookup of the forwarding authority, one
      definition per numbered part of it.  [ForwardSafe] has the safety logic (hint base
      [safety]) by which the theorems of [ForwardProps] are proved.
    - [Proxy] (src/net/proxy.rs), [Udp] (src/net/udp.rs), and [Tcp] (src/net/tcp.rs), where a
      connection is live: the bytes that have arrived and what follows them.
    - [QueryLog] (src/core/log/query_log.rs): the writer of the query log as a state machine, whose
      actions are those of the senders and the rounds of its task (which panics for an interval of 0).
    - [Secondary]: module [Secondary] (src/core/zone/secondary.rs), the AXFR client, and module
      [Handler] (src/net/handler.rs), the NOTIFY handler, which reads the notified name in lower case.
    - [Catalog] (src/core/zone/catalog.rs), [Notify] (src/core/zone/notify.rs): catalog zones and the
      NOTIFY sender; the theorems on both are in [CatalogProps].
    - [ZoneManager] (src/core/zone/mod.rs): module [ZoneCatalog], the catalog of the server as a map,
      and module [ZoneManager], the loading of all zones with the tasks that it starts.
    - [Net] (src/net/mod.rs): module [Persist], the cache on disk, and module [Net], the start of the
      server from its configuration: catalog, certificate, listeners.
    - [System]: the parts at work.  Module [Serving] is the running server as a step relation on the
      shared cache: requests, the prefetch tasks they spawn (src/core/resolver/forward.rs), and what
      they do to one another's cache ([interferes]); module [Run] is [Net::run] as a whole
      (src/net/mod.rs), from the snapshot on disk to the snapshot on disk; module [Whole] is a server
      with its catalog: questions to zones and forwarder, NOTIFY messages and the refreshes they start
      (src/net/handler.rs).  [SystemProps] has the theorems on runs and on routing, [AnswerProps] the one
      on where answers come from, [ServerProps] the one on the whole server.
    - [Api] (src/api/mod.rs): the table of routes, the handlers, the dispatch and the accept loop, over
      the class [Axum] of the router and the decoding of path parameters.  [Auth] (src/auth/mod.rs), [Apps] (src/apps/mod.rs).
    - [Main] (src/main.rs): what the process does before it serves, with the small modules
      src/core/mod.rs, src/core/rec, src/dhcp and src/cluster.

    ** Conventions

    Definitions keep the names of the source where they can.  Integers are [Z] with their
    wrap-around written out by [wrap]; bytes are integers, strings are byte strings.  A hash map
    that is only looked up is a [gmap]; where its iteration order can show, the order is an
    argument, and theorems quantify over it.  Errors are [Err] values with one constructor per
    way to fail.  Code that can panic on an index returns the error [Panic].  Code that can loop
    has fuel, [None] is "does not return", and the theorems show that the fuel given is enough:
    the length of the key list for evictions (each round takes a key off it), the length of the
    text for suffix walks, the depth bound of meta-lists plus two, the number of labels of a
    name (at most 127) for peeling, the number of bytes of a stream for the message loops (each
    round takes at least two).

    Waiting: what a peer does is a stream of bytes so far, followed by its end, an error, silence or
    nothing yet ([StreamEnd] of [Secondary] and of [Tcp]), and a task on such a stream has finished or
    waits ([Transfer], [Progress]).  Reads with a time limit end on silence and the others wait, so
    that a run that never ends is the one that still waits on every longer stream.

    Concurrency: the tasks of the server share the cache behind a lock and the counters.  A
    request sees, each time it takes the lock, whatever the other tasks did to the cache
    ([others] of [Dns.Env]).  The theorems on one request assume that the others keep its invariant
    ([ForwardSafe.rely]) and show what the request itself does in between ([ForwardSafe.activity]).
    [System.Serving.interferes] closes the circle: there the others are requests and prefetch tasks of
    the same server, interleaved to any depth, and nothing is assumed of them.  The global counters
    are threaded through each request; what other requests add to them meanwhile is left out.

    How the parts are composed: [Main.main] gives a valid configuration to the tasks; [Net.start]
    calls the zone manager ([ZoneManager.load_all], which uses [Zone], [Keys] and starts the tasks of
    [Secondary] and [Catalog]), puts the forwarder of [Forward] at the root of the catalog and
    registers the listeners, among them that of [Tcp]; the handlers of [Api] call the operations of
    [Zone] on the same files; a NOTIFY of [Notify] is answered by [Handler].  [System.Run.run] puts
    [Persist], [Net.start] and the requests of [Forward] together, [System.Whole.step] the catalog of
    [Net.start], [Forward] and [Handler].  A file system appears as
    the state that is threaded; the snapshot of the cache is kept in one of its own.

    ** What is proved

    - The running server: from any snapshot on disk, through every interleaving of requests, it stays
      consistent, asks upstream nothing but what a question gives rise to, answers every request and
      ends with its cache saved (C1); its answers are upstream's
      answers to the same question, or what minimization and DNS64 make of such answers (C4); every question is answered by
      the zone or the forwarder that the configuration says, whatever else goes on (C2); what a
      snapshot holds is answered for ever (C9).
    - Cache: every interleaving of operations keeps the key list and the map consistent and the
      map within its size (C3); any history of calls replies what a bounded first-in first-out
      queue replies (C5);
      insertion returns exactly for positive sizes (C13); what the cache is after a restart (C12).
    - Resolution: a lookup always returns, keeps the cache consistent, asks upstream only what its
      question gives rise to and stores only under its question (C6); minimization ends and equals a reference (C10);
      misses followed by hits, errors and DNS64 answers (C11, C38, C37); DNS64 addresses (C27).
    - Start-up: validation accepts exactly the valid configurations (C15), and what start-up accepts
      is valid and cannot make the cache diverge (C16); what the process does with its arguments and
      when it ends (C36); the zones that are loaded and served (C8); the server that is started (C7);
      the life of signing keys (C23).
    - Lists and filter: matching is suffix matching on labels (C24); loading ends and loads exactly
      the listed names (C25); prefix arithmetic (C26); the rebinding and CNAME checks (C39).
    - Network: what a connection is answered, and when it ends or waits (C14); the PROXY parser reads back version 2 headers
      (C28), never reads outside its buffer (C29), and which client addresses can result (C30); the
      answers to UDP queries, whatever the order of their tasks (C35).
    - Zones: when transfers end or wait, with one SOA record and a zone of what was sent (C31), what a first
      message decides (C32); the members of a catalog (C33); NOTIFY from the sender to the refresh
      (C34); accepted record data is well formed (C40); the effect of record edits on the zone
      file, the records that the store refuses included (C19).
    - HTTP: a created record is listed, unless the store refuses it, and a deleted one is not (C20); which requests change files,
      and how (C21); what reading gives (C22).
    - Query log: accepted events are flushed (C17), exactly once and in order (C18).

    Further lemmas, on lookup, eviction, reaping and the metered lookup of the cache, on NOTIFY, the subtree of
    a blocked name, the normal form of loaded
    names, the independence of the order of rules, the peeling of labels, ANY questions, client
    subnets, the text of the metrics and the configured name servers, stand beside these.

    ** Not modelled

    The hickory, axum, TLS, SQL and cryptography libraries, sockets and the file system, other than
    through the interfaces above; so the search of the catalog is a function with the documented
    behaviour, and HTTP on a connection and the end of the serving are parameters.  Of the sources:
    benchmarks and the build script.  Log output is left out. *)

From stdpp Require Import base list gmap strings numbers pretty option.
From Stdlib Require Import ZArith Lia.

(** Concatenation of byte strings computes on its first argument. *)
#[global] Arguments String.append : simpl nomatch.

(** ** Errors as values: Rust's [Result] *)

Inductive result (E A : Type) : Type :=
  | Ok (a : A)
  | Err (e : E).
Arguments Ok {E A} a.
Arguments Err {E A} e.

#[export] Instance result_ret E : MRet (result E) := λ A a, Ok a.
#[export] Instance result_bind E : MBind (result E) := λ A B f m,
  match m with Ok a => f a | Err e => Err e end.
#[export] Instance result_fmap E : FMap (result E) := λ A B f m,
  match m with Ok a => Ok (f a) | Err e => Err e end.

#[export] Instance result_eq_dec `{EqDecision E, EqDecision A} : EqDecision (result E A).
Proof. solve_decision. Defined.

(** [Option::ok_or], [anyhow::Context] on an option: a missing value becomes an error. *)
Definition ok_or {E A} (e : E) (o : option A) : result E A :=
  match o with Some a => Ok a | None => Err e end.

(** [Result::ok]. *)
Definition result_ok {E A} (r : result E A) : option A :=
  match r with Ok a => Some a | Err _ => None end.

(** [bail!] behind a guard: an early return with an error. *)
Definition ensure {E} (b : bool) (e : E) : result E unit :=
  if b then Ok tt else Err e.

(** A check whose only result is its error, before the rest of the function: [check?; rest]. *)
Declare Scope result_scope.
Delimit Scope result_scope with result.
Notation "m ;? k" := (mbind (λ _, k) m)
  (at level 100, k at level 200, right associativity) : result_scope.

Lemma bind_Ok {E A B} (f : A → result E B) (m : result E A) (b : B) :
  (m ≫= f) = Ok b ↔ ∃ a, m = Ok a ∧ f a = Ok b.
Proof. destruct m; simpl; naive_solver. Qed.

Lemma bind_Err {E A B} (f : A → result E B) (m : result E A) (e : E) :
  (m ≫= f) = Err e ↔ m = Err e ∨ ∃ a, m = Ok a ∧ f a = Err e.
Proof. destruct m; simpl; naive_solver. Qed.

Lemma ok_or_Ok {E A} (e : E) (o : option A) a : ok_or e o = Ok a ↔ o = Some a.
Proof. destruct o; simpl; naive_solver. Qed.

Lemma ok_or_Err {E A} (e e' : E) (o : option A) : ok_or e o = Err e' ↔ o = None ∧ e = e'.
Proof. destruct o; simpl; naive_solver. Qed.

Lemma ensure_Ok {E} b (e : E) u : ensure b e = Ok u ↔ b = true.
Proof. destruct b, u; simpl; naive_solver. Qed.

Lemma ensure_Err {E} b (e e' : E) : ensure b e = Err e' ↔ b = false ∧ e = e'.
Proof. destruct b; simpl; naive_solver. Qed.

(** A check that is run for its error only. *)
Lemma then_Ok {E B} (m : result E unit) (k : result E B) b :
  (m ;? k)%result = Ok b ↔ m = Ok tt ∧ k = Ok b.
Proof. destruct m as [[]|]; simpl; naive_solver. Qed.

Lemma then_Err {E B} (m : result E unit) (k : result E B) e :
  (m ;? k)%result = Err e ↔ m = Err e ∨ (m = Ok tt ∧ k = Err e).
Proof. destruct m as [[]|]; simpl; naive_solver. Qed.

(** Successful and failing runs of checked code as propositions. *)
Create HintDb results.
#[export] Hint Rewrite @then_Ok @ensure_Ok @ok_or_Ok @then_Err @ensure_Err @ok_or_Err : results.

(** ** Tactics *)

(** Case analysis on the next [if], [match] or [decide] of the goal or of a hypothesis. *)
Ltac split_match :=
  match goal with
  | |- context [if ?b then _ else _] => destruct b eqn:?
  | |- context [match ?x with _ => _ end] => destruct x eqn:?
  end.
Ltac split_match_in H :=
  match type of H with
  | context [if ?b then _ else _] => destruct b eqn:?
  | context [match ?x with _ => _ end] => destruct x eqn:?
  end.

(** A predicate on every element of an explicit list. *)
Ltac each_element tac := repeat (apply Forall_cons_2; [solve [tac]|]); apply Forall_nil_2.

(** Turns boolean tests of the models into propositions. *)
Ltac breflect :=
  repeat match goal with
  | H : bool_decide _ = true |- _ => apply bool_decide_eq_true_1 in H
  | H : bool_decide _ = false |- _ => apply bool_decide_eq_false_1 in H
  | H : (_ && _)%bool = true |- _ => apply andb_true_iff in H as [??]
  | H : (_ || _)%bool = false |- _ => apply orb_false_iff in H as [??]
  | H : negb _ = true |- _ => apply negb_true_iff in H
  | H : negb _ = false |- _ => apply negb_false_iff in H
  | H : (_ <? _)%Z = true |- _ => apply Z.ltb_lt in H
  | H : (_ <? _)%Z = false |- _ => apply Z.ltb_ge in H
  | H : (_ <=? _)%Z = true |- _ => apply Z.leb_le in H
  | H : (_ <=? _)%Z = false |- _ => apply Z.leb_gt in H
  | H : (_ =? _)%Z = true |- _ => apply Z.eqb_eq in H
  | H : (_ =? _)%Z = false |- _ => apply Z.eqb_neq in H
  | H : (_ <? _)%nat = true |- _ => apply Nat.ltb_lt in H
  | H : (_ <? _)%nat = false |- _ => apply Nat.ltb_ge in H
  | H : (_ <=? _)%nat = true |- _ => apply Nat.leb_le in H
  | H : (_ <=? _)%nat = false |- _ => apply Nat.leb_gt in H
  | H : (_ =? _)%nat = true |- _ => apply Nat.eqb_eq in H
  | H : (_ =? _)%nat = false |- _ => apply Nat.eqb_neq in H
  end.

(** Inverts the successful or failing run of a chain of [?]-operators. *)
Ltac run_inv :=
  repeat match goal with
  | H : _ ≫= _ = Ok _ |- _ => apply bind_Ok in H as (? & ? & ?)
  | H : ok_or _ _ = Ok _ |- _ => apply ok_or_Ok in H
  | H : ensure _ _ = Ok _ |- _ => apply ensure_Ok in H
  | H : ok_or _ _ = Err _ |- _ => apply ok_or_Err in H as [??]
  | H : ensure _ _ = Err _ |- _ => apply ensure_Err in H as [??]
  | H : Ok _ = Ok _ |- _ => injection H as H
  | H : Err _ = Err _ |- _ => injection H as H
  | H : Ok _ = Err _ |- _ => discriminate H
  | H : Err _ = Ok _ |- _ => discriminate H
  end; subst.

(** ** Lists *)

Lemma list_filter_id {A} (P : A → Prop) `{∀ x, Decision (P x)} (l : list A) :
  (∀ x, x ∈ l → P x) → filter P l = l.
Proof.
  induction l as [|a l IH]; intros Hl; [done|].
  rewrite filter_cons_True by (apply Hl; set_solver). f_equal. apply IH. set_solver.
Qed.

Lemma list_filter_none {A} (P : A → Prop) `{∀ x, Decision (P x)} (l : list A) :
  (∀ x, x ∈ l → ¬ P x) → filter P l = [].
Proof.
  induction l as [|a l IH]; intros Hl; [done|].
  rewrite filter_cons_False by (apply Hl; set_solver). apply IH. set_solver.
Qed.

Lemma list_omap_cons {A B} (f : A → option B) x l :
  omap f (x :: l) = match f x with Some y => y :: omap f l | None => omap f l end.
Proof. done. Qed.

(** [foldl] of an operation that keeps a predicate. *)
Lemma foldl_invariant {A B} (P : A → Prop) (f : A → B → A) (l : list B) a :
  (∀ a b, P a → P (f a b)) → P a → P (foldl f a l).
Proof. intros Hf. revert a. induction l as [|b l IH]; simpl; auto. Qed.

Lemma list_filter_iff_in {A} (P Q : A → Prop) `{∀ x, Decision (P x), ∀ x, Decision (Q x)} (l : list A) :
  (∀ x, x ∈ l → P x ↔ Q x) → filter P l = filter Q l.
Proof.
  induction l as [|a l IH]; intros Hl; [done|]. rewrite !filter_cons.
  rewrite (IH ltac:(set_solver)).
  assert (P a ↔ Q a) as Ha by (apply Hl; set_solver).
  repeat case_decide; tauto.
Qed.

(** [Iterator::find]: the first element that satisfies a predicate. *)
Lemma head_filter_first {A} (P : A → Prop) `{∀ x, Decision (P x)} (l : list A) :
  match head (filter P l) with
  | Some x => ∃ before after, l = before ++ x :: after ∧ P x ∧ Forall (λ y, ¬ P y) before
  | None => Forall (λ y, ¬ P y) l
  end.
Proof.
  induction l as [|a l IH]; [by apply Forall_nil_2|]. destruct (decide (P a)) as [Ha|Ha].
  - rewrite filter_cons_True by done. simpl. exists [], l. split_and!; [done..|by apply Forall_nil_2].
  - rewrite filter_cons_False by done. destruct (head (filter P l)) as [x|].
    + destruct IH as (before & after & -> & Hx & Hb). exists (a :: before), after.
      split_and!; [done..|by apply Forall_cons_2].
    + by apply Forall_cons_2.
Qed.

(** A loop whose body may run out of fuel: if the body returns and keeps [P], so does the loop. *)
Lemma foldl_option_invariant {A B} (P : A → Prop) (f : A → B → option A) (l : list B) a :
  (∀ a b, P a → b ∈ l → ∃ a', f a b = Some a' ∧ P a') → P a →
  ∃ a', foldl (λ acc b, a ← acc; f a b) (Some a) l = Some a' ∧ P a'.
Proof.
  revert a. induction l as [|b l IH]; intros a Hf Ha; simpl; [by exists a|].
  destruct (Hf a b) as (a' & -> & Ha'); [done|set_solver|].
  apply IH; [|done]. intros a1 b1 H1 Hin. apply Hf; [done|set_solver].
Qed.
