(* ===== verification/RustString.v ===== *)
(** * Rust's [str]: the operations of the standard library the sources call

    A Rust [String] is a sequence of UTF-8 bytes; the model is the byte string
    [string] (one [ascii] per byte).  Every function below is the standard
    library's function of the same name, on the byte representation.  White
    space is Unicode's [White_Space], recognised on its UTF-8 encoding. *)

From Stdlib Require Import Ascii String Lia.
From stdpp Require Import base list strings numbers.
From S2P Require Import Prelude.


Module Str.

(** ** Tests and searches *)

(** [str::starts_with] and [str::strip_prefix] with a string pattern. *)
Fixpoint strip_prefix (p s : string) : option string :=
  match p, s with
  | EmptyString, _ => Some s
  | String a p', String b s' => if Ascii.eqb a b then strip_prefix p' s' else None
  | String _ _, EmptyString => None
  end.

Definition starts_with (p s : string) : bool :=
  match strip_prefix p s with Some _ => true | None => false end.

(** [str::strip_suffix]. *)
Fixpoint strip_suffix (p s : string) : option string :=
  if String.eqb s p then Some EmptyString else
  match s with
  | EmptyString => None
  | String a s' => String a <$> strip_suffix p s'
  end.

Definition ends_with (p s : string) : bool :=
  match strip_suffix p s with Some _ => true | None => false end.

(** [str::contains] with a [char] pattern. *)
Fixpoint contains (c : ascii) (s : string) : bool :=
  match s with
  | EmptyString => false
  | String a s' => Ascii.eqb a c || contains c s'
  end.

(** [str::split_once] with a [char]: the text before and after the first occurrence. *)
Fixpoint split_once (c : ascii) (s : string) : option (string * string) :=
  match s with
  | EmptyString => None
  | String a s' =>
      if Ascii.eqb a c then Some (EmptyString, s')
      else prod_map (String a) id <$> split_once c s'
  end.

(** [str::split] with a [char]: the fields between occurrences, at least one. *)
Fixpoint split_acc (c : ascii) (cur s : string) : list string :=
  match s with
  | EmptyString => [cur]
  | String a s' =>
      if Ascii.eqb a c then cur :: split_acc c EmptyString s'
      else split_acc c (cur +:+ String a EmptyString) s'
  end.

Definition split (c : ascii) (s : string) : list string := split_acc c EmptyString s.

(** [str::replace] of a [char] by a [char]. *)
Fixpoint replace (c d : ascii) (s : string) : string :=
  match s with
  | EmptyString => EmptyString
  | String a s' => String (if Ascii.eqb a c then d else a) (replace c d s')
  end.

(** [str::trim_end_matches] and [str::trim_start_matches] with a [char]. *)
Fixpoint trim_end_matches (c : ascii) (s : string) : string :=
  match s with
  | EmptyString => EmptyString
  | String a s' =>
      match trim_end_matches c s' with
      | EmptyString => if Ascii.eqb a c then EmptyString else String a EmptyString
      | String _ _ as t => String a t
      end
  end.

Fixpoint trim_start_matches (c : ascii) (s : string) : string :=
  match s with
  | EmptyString => EmptyString
  | String a s' => if Ascii.eqb a c then trim_start_matches c s' else s
  end.

Definition trim_matches (c : ascii) (s : string) : string :=
  trim_end_matches c (trim_start_matches c s).

(** [str::to_ascii_lowercase]: only the bytes [A]..[Z] change. *)
Definition ascii_lower (a : ascii) : ascii :=
  let n := nat_of_ascii a in
  if (65 <=? n)%nat && (n <=? 90)%nat then ascii_of_nat (n + 32) else a.

Fixpoint to_ascii_lowercase (s : string) : string :=
  match s with
  | EmptyString => EmptyString
  | String a s' => String (ascii_lower a) (to_ascii_lowercase s')
  end.

(** [str::to_uppercase], as far as a comparison of its result with ASCII text can tell.  Beside the
    ASCII letters, the characters whose upper case is ASCII are the dotless i, the long s, the
    sharp s and the Latin ligatures; the upper case of every other character holds a character
    that is not ASCII, and the character is kept here. *)
Definition ascii_upper (a : ascii) : ascii :=
  let n := nat_of_ascii a in
  if (97 <=? n)%nat && (n <=? 122)%nat then ascii_of_nat (n - 32) else a.

Definition upper_two (n m : N) : option string :=
  if (n =? 195)%N && (m =? 159)%N then Some "SS"%string
  else if (n =? 196)%N && (m =? 177)%N then Some "I"%string
  else if (n =? 197)%N && (m =? 191)%N then Some "S"%string
  else None.

Definition upper_three (n m k : N) : option string :=
  if (n =? 239)%N && (m =? 172)%N && (128 <=? k)%N
  then nth (N.to_nat (k - 128)) (Some <$> ["FF"; "FI"; "FL"; "FFI"; "FFL"; "ST"; "ST"]%string) None
  else None.

Fixpoint to_uppercase (s : string) : string :=
  match s with
  | EmptyString => EmptyString
  | String a s1 =>
      match s1 with
      | EmptyString => String (ascii_upper a) EmptyString
      | String b s2 =>
          match upper_two (N_of_ascii a) (N_of_ascii b) with
          | Some u => u +:+ to_uppercase s2
          | None =>
              match s2 with
              | EmptyString => String (ascii_upper a) (to_uppercase s1)
              | String c s3 =>
                  match upper_three (N_of_ascii a) (N_of_ascii b) (N_of_ascii c) with
                  | Some u => u +:+ to_uppercase s3
                  | None => String (ascii_upper a) (to_uppercase s1)
                  end
              end
          end
      end
  end.

(** ** White space *)

Definition byte_at (i : nat) (s : string) : nat :=
  match String.get i s with Some a => nat_of_ascii a | None => 0 end.

(** Length in bytes of the white-space character [s] starts with, 0 if it starts with
    another character: TAB, LF, VT, FF, CR, space, U+0085, U+00A0, U+1680,
    U+2000..U+200A, U+2028, U+2029, U+202F, U+205F, U+3000. *)
Definition ws_len (s : string) : nat :=
  let b0 := byte_at 0 s in let b1 := byte_at 1 s in let b2 := byte_at 2 s in
  if (b0 =? 32)%nat || ((9 <=? b0)%nat && (b0 <=? 13)%nat) then 1
  else if (b0 =? 194)%nat && ((b1 =? 133)%nat || (b1 =? 160)%nat) then 2
  else if (b0 =? 225)%nat && (b1 =? 154)%nat && (b2 =? 128)%nat then 3
  else if (b0 =? 226)%nat && (b1 =? 128)%nat &&
          (((128 <=? b2)%nat && (b2 <=? 138)%nat)
           || (b2 =? 168)%nat || (b2 =? 169)%nat || (b2 =? 175)%nat) then 3
  else if (b0 =? 226)%nat && (b1 =? 129)%nat && (b2 =? 159)%nat then 3
  else if (b0 =? 227)%nat && (b1 =? 128)%nat && (b2 =? 128)%nat then 3
  else 0.

(** [skip] is the number of bytes of the current white-space character still to drop. *)
Fixpoint trim_start_from (skip : nat) (s : string) : string :=
  match s with
  | EmptyString => EmptyString
  | String _ s' =>
      match skip with
      | S k => trim_start_from k s'
      | O => match ws_len s with O => s | S k => trim_start_from k s' end
      end
  end.

Definition trim_start (s : string) : string := trim_start_from 0 s.

Fixpoint trim_end (s : string) : string :=
  match s with
  | EmptyString => EmptyString
  | String a s' =>
      match trim_start s with EmptyString => EmptyString | String _ _ => String a (trim_end s') end
  end.

(** [str::trim]. *)
Definition trim (s : string) : string := trim_end (trim_start s).

(** [str::split_whitespace]: the maximal non-empty fields free of white space. *)
Definition emit (cur : string) (rest : list string) : list string :=
  match cur with EmptyString => rest | String _ _ => cur :: rest end.

Fixpoint split_ws_from (skip : nat) (cur s : string) : list string :=
  match s with
  | EmptyString => emit cur []
  | String a s' =>
      match skip with
      | S k => split_ws_from k cur s'
      | O => match ws_len s with
             | O => split_ws_from 0 (cur +:+ String a EmptyString) s'
             | S k => emit cur (split_ws_from k EmptyString s')
             end
      end
  end.

Definition split_whitespace (s : string) : list string := split_ws_from 0 EmptyString s.

(** [str::lines]: fields ended by LF or CRLF; a last field without LF keeps its CR, and an
    empty last field is dropped. *)
Definition LF : ascii := ascii_of_nat 10.
Definition CR : ascii := ascii_of_nat 13.

Definition strip_cr (s : string) : string :=
  match strip_suffix (String CR EmptyString) s with Some t => t | None => s end.

Fixpoint lines_acc (cur s : string) : list string :=
  match s with
  | EmptyString => emit cur []
  | String a s' =>
      if Ascii.eqb a LF then strip_cr cur :: lines_acc EmptyString s'
      else lines_acc (cur +:+ String a EmptyString) s'
  end.

Definition lines (s : string) : list string := lines_acc EmptyString s.

End Str.

(** ** Lemmas on byte strings *)

Module StrFacts.
Import Str.

Lemma app_nil_r (s : string) : s +:+ EmptyString = s.
Proof. induction s as [|a s IH]; simpl; [done|by rewrite IH]. Qed.

Lemma app_assoc (s t u : string) : s +:+ (t +:+ u) = (s +:+ t) +:+ u.
Proof. induction s as [|a s IH]; simpl; [done|by rewrite IH]. Qed.

Lemma length_app (s t : string) : String.length (s +:+ t) = (String.length s + String.length t)%nat.
Proof. induction s as [|a s IH]; simpl; [done|by rewrite IH]. Qed.

Lemma app_eq_nil (s t : string) : s +:+ t = EmptyString → s = EmptyString ∧ t = EmptyString.
Proof. destruct s; naive_solver. Qed.

Lemma app_inj_l (s t u : string) : s +:+ t = s +:+ u → t = u.
Proof. induction s as [|a s IH]; simpl; intros H; [done|]. by injection H as ?%IH. Qed.

Lemma app_snoc_cons (s : string) a (t : string) :
  (s +:+ String a EmptyString) +:+ t = s +:+ String a t.
Proof. by rewrite <- app_assoc. Qed.

Lemma eqb_refl (a : ascii) : Ascii.eqb a a = true.
Proof. by apply Ascii.eqb_eq. Qed.

Lemma strip_prefix_Some p s t : strip_prefix p s = Some t ↔ s = p +:+ t.
Proof.
  revert s. induction p as [|a p IH]; intros s; simpl; [naive_solver|].
  destruct s as [|b s]; [naive_solver|].
  destruct (Ascii.eqb_spec a b) as [->|]; [rewrite IH|]; naive_solver.
Qed.

Lemma starts_with_true p s : starts_with p s = true ↔ ∃ t, s = p +:+ t.
Proof.
  unfold starts_with. destruct (strip_prefix p s) as [t|] eqn:E.
  - apply strip_prefix_Some in E. naive_solver.
  - split; [done|]. intros [t Ht]. apply strip_prefix_Some in Ht. congruence.
Qed.

Lemma strip_suffix_Some p s t : strip_suffix p s = Some t ↔ s = t +:+ p.
Proof.
  revert t. induction s as [|a s IH]; intros t; cbn [strip_suffix].
  - destruct (String.eqb_spec EmptyString p) as [<-|]; rewrite ?app_nil_r; split; try naive_solver.
    intros H. symmetry in H. apply app_eq_nil in H as [??]; congruence.
  - destruct (String.eqb_spec (String a s) p) as [<-|Hne].
    + split; [naive_solver|]. destruct t as [|b t]; [done|].
      intros H%(f_equal String.length). simpl in H. rewrite length_app in H. simpl in H. lia.
    + rewrite fmap_Some. split.
      * intros (x & Hx & ->). apply IH in Hx as ->. done.
      * destruct t as [|b t]; simpl; intros H; [congruence|]. injection H as -> ->.
        exists t. split; [by apply IH|done].
Qed.

Lemma ends_with_true p s : ends_with p s = true ↔ ∃ t, s = t +:+ p.
Proof.
  unfold ends_with. destruct (strip_suffix p s) as [t|] eqn:E.
  - apply strip_suffix_Some in E. naive_solver.
  - split; [done|]. intros [t Ht]. apply strip_suffix_Some in Ht. congruence.
Qed.

Lemma contains_app c s t : contains c (s +:+ t) = contains c s || contains c t.
Proof. induction s as [|a s IH]; simpl; [done|]. by rewrite IH, orb_assoc. Qed.

Lemma contains_split c s : contains c s = true ↔ ∃ p q, s = p +:+ String c q.
Proof.
  split.
  - induction s as [|a s IH]; simpl; [done|].
    destruct (Ascii.eqb_spec a c) as [->|]; simpl.
    + intros _. by exists EmptyString, s.
    + intros (p & q & ->)%IH. by exists (String a p), q.
  - intros (p & q & ->). rewrite contains_app. simpl. by rewrite eqb_refl, orb_true_r.
Qed.

Lemma split_once_Some c s p q :
  split_once c s = Some (p, q) ↔ s = p +:+ String c q ∧ contains c p = false.
Proof.
  revert p. induction s as [|a s IH]; intros p; simpl.
  { split; [done|]. intros [H _]. by destruct p. }
  destruct (Ascii.eqb_spec a c) as [->|Hne].
  - split; [naive_solver|]. destruct p as [|b p]; simpl; [naive_solver|].
    intros [H Hp]. injection H as <- ->. by rewrite eqb_refl in Hp.
  - rewrite fmap_Some. split.
    + intros ([x y] & Hx & E). simpl in E. injection E as -> ->.
      apply IH in Hx as [-> Hc]. split; [done|]. simpl. apply Ascii.eqb_neq in Hne. by rewrite Hne.
    + destruct p as [|b p]; simpl; intros [H Hp]; [congruence|]. injection H as -> ->.
      apply orb_false_iff in Hp as [_ Hp]. exists (p, q). split; [by apply IH|done].
Qed.

Lemma split_once_None c s : split_once c s = None ↔ contains c s = false.
Proof.
  induction s as [|a s IH]; simpl; [done|].
  destruct (Ascii.eqb a c); simpl; [done|]. rewrite fmap_None. done.
Qed.

(** *** [split] *)

Fixpoint join_fields (c : ascii) (l : list string) : string :=
  match l with
  | [] => EmptyString
  | [x] => x
  | x :: l' => x +:+ String c (join_fields c l')
  end.

Lemma join_fields_cons c x l : l ≠ [] → join_fields c (x :: l) = x +:+ String c (join_fields c l).
Proof. by destruct l. Qed.

Lemma split_acc_nonnil c cur s : split_acc c cur s ≠ [].
Proof. revert cur. induction s as [|a s IH]; intros cur; simpl; [done|]. by destruct (Ascii.eqb a c). Qed.

Lemma split_acc_join c cur s : join_fields c (split_acc c cur s) = cur +:+ s.
Proof.
  revert cur. induction s as [|a s IH]; intros cur; simpl; [by rewrite app_nil_r|].
  destruct (Ascii.eqb_spec a c) as [->|].
  - rewrite join_fields_cons by apply split_acc_nonnil. by rewrite IH.
  - by rewrite IH, app_snoc_cons.
Qed.

Lemma split_join c s : join_fields c (split c s) = s.
Proof. unfold split. by rewrite split_acc_join. Qed.

Lemma split_nonnil c s : split c s ≠ [].
Proof. apply split_acc_nonnil. Qed.

Lemma split_acc_no_sep c cur s :
  contains c cur = false → Forall (λ f, contains c f = false) (split_acc c cur s).
Proof.
  revert cur. induction s as [|a s IH]; intros cur Hc; simpl; [by repeat constructor|].
  destruct (Ascii.eqb a c) eqn:E.
  - constructor; [done|]. by apply IH.
  - apply IH. rewrite contains_app. simpl. by rewrite Hc, E.
Qed.

(** *** Trimming *)

Lemma trim_end_matches_app c s : ∃ n, s = trim_end_matches c s +:+ String.concat EmptyString (replicate n (String c EmptyString)).
Proof.
  induction s as [|a s [n IH]]; simpl; [by exists 0%nat|].
  destruct (trim_end_matches c s) as [|b t] eqn:E; simpl in IH |- *.
  - destruct (Ascii.eqb_spec a c) as [->|]; simpl.
    + exists (S n). rewrite IH at 1. by destruct n.
    + exists n. by rewrite IH at 1.
  - exists n. simpl. f_equal. exact IH.
Qed.

Lemma trim_end_matches_last c s p : trim_end_matches c s ≠ p +:+ String c EmptyString.
Proof.
  revert p. induction s as [|a s IH]; intros p; simpl; [by destruct p|].
  destruct (trim_end_matches c s) as [|b t] eqn:E.
  - destruct (Ascii.eqb_spec a c) as [->|]; [by destruct p|].
    destruct p as [|x [|y p]]; simpl; congruence.
  - destruct p as [|x p]; simpl; [congruence|]. intros H. injection H as -> H. by apply (IH p).
Qed.

Lemma trim_end_matches_id c s :
  (∀ p, s ≠ p +:+ String c EmptyString) → trim_end_matches c s = s.
Proof.
  induction s as [|a s IH]; simpl; intros H; [done|].
  rewrite IH by (intros p Hp; apply (H (String a p)); simpl; by rewrite Hp).
  destruct s as [|b s]; [|done].
  destruct (Ascii.eqb_spec a c) as [->|]; [|done]. by destruct (H EmptyString).
Qed.

Lemma trim_end_matches_idemp c s : trim_end_matches c (trim_end_matches c s) = trim_end_matches c s.
Proof. apply trim_end_matches_id. intros p. apply trim_end_matches_last. Qed.

Lemma trim_end_matches_snoc c s : trim_end_matches c (s +:+ String c EmptyString) = trim_end_matches c s.
Proof.
  induction s as [|a s IH]; simpl; [by rewrite eqb_refl|]. by rewrite IH.
Qed.

(** *** Lower case *)

Lemma ascii_lower_idemp a : ascii_lower (ascii_lower a) = ascii_lower a.
Proof. by destruct a as [[] [] [] [] [] [] [] []]. Qed.

Lemma to_ascii_lowercase_idemp s : to_ascii_lowercase (to_ascii_lowercase s) = to_ascii_lowercase s.
Proof. induction s as [|a s IH]; simpl; [done|]. by rewrite ascii_lower_idemp, IH. Qed.

Lemma to_ascii_lowercase_app s t :
  to_ascii_lowercase (s +:+ t) = to_ascii_lowercase s +:+ to_ascii_lowercase t.
Proof. induction s as [|a s IH]; simpl; [done|]. by rewrite IH. Qed.

(** Lowering changes only ASCII letters, and raising undoes it. *)
Lemma ascii_lower_code a :
  ascii_upper (ascii_lower a) = ascii_upper a ∧
  (ascii_lower a = a ∨ (N_of_ascii a < 128 ∧ N_of_ascii (ascii_lower a) < 128)%N).
Proof. destruct a as [[] [] [] [] [] [] [] []]; (split; [reflexivity|]); first [by left|right; split; reflexivity]. Qed.

Lemma upper_two_low n m : (n < 128 ∨ m < 128)%N → upper_two n m = None.
Proof. intros Hl. unfold upper_two. repeat case_match; rewrite ?andb_true_iff, ?N.eqb_eq in *; lia || done. Qed.

Lemma upper_three_low n m k : (n < 128 ∨ m < 128 ∨ k < 128)%N → upper_three n m k = None.
Proof. intros Hl. unfold upper_three. destruct (_ && _)%bool eqn:E; [|done].
  rewrite !andb_true_iff, !N.eqb_eq, N.leb_le in E. lia.
Qed.

Lemma upper_two_lower a b :
  upper_two (N_of_ascii (ascii_lower a)) (N_of_ascii (ascii_lower b)) =
  upper_two (N_of_ascii a) (N_of_ascii b).
Proof.
  destruct (ascii_lower_code a) as [_ [->|[??]]]; [|by rewrite !upper_two_low by lia].
  destruct (ascii_lower_code b) as [_ [->|[??]]]; [done|by rewrite !upper_two_low by lia].
Qed.

Lemma upper_three_lower a b c :
  upper_three (N_of_ascii (ascii_lower a)) (N_of_ascii (ascii_lower b)) (N_of_ascii (ascii_lower c)) =
  upper_three (N_of_ascii a) (N_of_ascii b) (N_of_ascii c).
Proof.
  destruct (ascii_lower_code a) as [_ [->|[??]]]; [|by rewrite !upper_three_low by lia].
  destruct (ascii_lower_code b) as [_ [->|[??]]]; [|by rewrite !upper_three_low by lia].
  destruct (ascii_lower_code c) as [_ [->|[??]]]; [done|by rewrite !upper_three_low by lia].
Qed.

Lemma to_uppercase_lowercase s : to_uppercase (to_ascii_lowercase s) = to_uppercase s.
Proof.
  induction s as [s IH] using (induction_ltof1 _ String.length). unfold ltof in IH.
  destruct s as [|a s1]; [done|]. destruct s1 as [|b s2]; simpl.
  { f_equal. apply ascii_lower_code. }
  rewrite upper_two_lower. destruct (upper_two _ _); [rewrite IH; [done|simpl; lia]|].
  assert (String (ascii_upper (ascii_lower a)) (to_uppercase (to_ascii_lowercase (String b s2))) =
          String (ascii_upper a) (to_uppercase (String b s2))) as Hstep.
  { f_equal; [apply ascii_lower_code|]. apply IH. simpl. lia. }
  simpl in Hstep. destruct s2 as [|c s3]; [exact Hstep|].
  simpl. rewrite upper_three_lower. destruct (upper_three _ _ _); [rewrite IH; [done|simpl; lia]|].
  exact Hstep.
Qed.

Lemma ascii_lower_dot a : Ascii.eqb (ascii_lower a) "." = Ascii.eqb a ".".
Proof. by destruct a as [[] [] [] [] [] [] [] []]. Qed.

Lemma ascii_lower_slash a : Ascii.eqb (ascii_lower a) "/" = Ascii.eqb a "/".
Proof. by destruct a as [[] [] [] [] [] [] [] []]. Qed.

Lemma trim_dots_lowercase s :
  trim_end_matches "." (to_ascii_lowercase s) = to_ascii_lowercase (trim_end_matches "." s).
Proof.
  induction s as [|a s IH]; cbn [to_ascii_lowercase trim_end_matches]; [done|]. rewrite IH.
  destruct (trim_end_matches "." s) as [|b t]; cbn [to_ascii_lowercase]; [|done].
  rewrite ascii_lower_dot. by destruct (Ascii.eqb a ".").
Qed.

Lemma contains_slash_lowercase s : contains "/" (to_ascii_lowercase s) = contains "/" s.
Proof. induction s as [|a s IH]; simpl; [done|]. by rewrite ascii_lower_slash, IH. Qed.

Lemma trim_end_matches_prefix c s t :
  trim_end_matches c t ≠ EmptyString → trim_end_matches c (s +:+ t) = s +:+ trim_end_matches c t.
Proof.
  intros Ht. induction s as [|a s IH]; simpl; [done|]. rewrite IH.
  destruct s as [|b s]; [|done]. simpl. by destruct (trim_end_matches c t).
Qed.

Lemma contains_trim_end_matches c d s :
  contains c s = false → contains c (trim_end_matches d s) = false.
Proof.
  intros Hs. destruct (trim_end_matches_app d s) as [n Hn]. rewrite Hn, contains_app in Hs.
  by apply orb_false_iff in Hs as [? _].
Qed.

(** Replacing a character by one that does not occur loses nothing. *)
Lemma replace_inj c d s t :
  contains d s = false → contains d t = false → replace c d s = replace c d t → s = t.
Proof.
  revert t. induction s as [|a s IH]; intros [|b t]; try done. cbn [contains replace].
  intros [Ha Hs]%orb_false_iff [Hb Ht]%orb_false_iff [= Hab Hst]. f_equal; [|by apply IH].
  apply Ascii.eqb_neq in Ha, Hb. destruct (Ascii.eqb_spec a c), (Ascii.eqb_spec b c); congruence.
Qed.

Lemma trim_end_replace c d s :
  contains d s = false → trim_end_matches d (replace c d s) = replace c d (trim_end_matches c s).
Proof.
  induction s as [|a s IH]; [done|]. cbn [contains]. intros [Ha Hs]%orb_false_iff.
  cbn [replace trim_end_matches]. rewrite (IH Hs). apply Ascii.eqb_neq in Ha.
  destruct (trim_end_matches c s) as [|b t]; cbn [replace]; [|done].
  destruct (Ascii.eqb_spec a c) as [->|Hac]; [by rewrite eqb_refl|].
  cbn [replace]. destruct (Ascii.eqb_spec a d); [done|].
  by rewrite (proj2 (Ascii.eqb_neq a c) Hac).
Qed.

(** A string cut at its first [c] and at another [c]. *)
Lemma first_cut c (a rest p e : string) :
  contains c a = false → a +:+ String c rest = p +:+ String c e →
  (p = a ∧ rest = e) ∨ ∃ p', rest = p' +:+ String c e.
Proof.
  revert p. induction a as [|x a IH]; intros p Ha H; simpl in H.
  - destruct p as [|y p]; simpl in H; [injection H as H2; by left|].
    injection H as H1 H2. right. by exists p.
  - simpl in Ha. apply orb_false_iff in Ha as [Hx Ha].
    destruct p as [|y p]; simpl in H; injection H as H1 H2.
    + subst. by rewrite eqb_refl in Hx.
    + subst. destruct (IH p Ha H2) as [[-> ->]|]; [by left|by right].
Qed.

(** *** Lines *)

Lemma lines_acc_cons cur s rest :
  contains LF s = false →
  lines_acc cur (s +:+ String LF rest) = strip_cr (cur +:+ s) :: lines_acc EmptyString rest.
Proof.
  revert cur. induction s as [|a s IH]; intros cur; simpl.
  - intros _. by rewrite app_nil_r.
  - intros [Ha Hs]%orb_false_iff. rewrite Ha, IH by done. by rewrite app_snoc_cons.
Qed.

Lemma lines_cons s rest :
  contains LF s = false → contains CR s = false → lines (s +:+ String LF rest) = s :: lines rest.
Proof.
  intros Hl Hr. unfold lines. rewrite lines_acc_cons by done. simpl. f_equal.
  unfold strip_cr. destruct (strip_suffix _ s) as [t|] eqn:E; [|done].
  apply strip_suffix_Some in E. rewrite E in Hr. rewrite contains_app in Hr. simpl in Hr.
  by rewrite orb_true_r in Hr.
Qed.

End StrFacts.
