(* ===== verification/RustNum.v ===== *)
(** * Rust's machine integers

    Unsigned integers of width [w] are [Z] in [0, 2^w); the release profile of the
    crate leaves overflow checks off, so [+] and [*] wrap.  The file also holds
    big-endian byte conversions ([to_be_bytes], [from_be_bytes]) and [FromStr] of
    the integer types. *)

From Stdlib Require Import Ascii String ZArith Lia.
From stdpp Require Import base list strings numbers.
From S2P Require Import Prelude.

Local Open Scope Z_scope.

Definition u8_max : Z := 255.
Definition u16_max : Z := 65535.
Definition u32_max : Z := 4294967295.
Definition u64_max : Z := 18446744073709551615.
Definition u128_max : Z := 2 ^ 128 - 1.

(** [x] reduced to [w] bits, the result of a wrapping operation or of an [as] cast. *)
Definition wrap (w x : Z) : Z := x mod 2 ^ w.

Definition is_uint (w x : Z) : Prop := 0 ≤ x < 2 ^ w.
Definition is_byte (x : Z) : Prop := 0 ≤ x < 256.

#[export] Instance is_byte_dec x : Decision (is_byte x).
Proof. unfold is_byte. apply _. Defined.

Lemma wrap_range w x : 0 ≤ w → 0 ≤ wrap w x < 2 ^ w.
Proof. intros. unfold wrap. apply Z.mod_pos_bound. apply Z.pow_pos_nonneg; lia. Qed.

Lemma wrap_small w x : 0 ≤ x < 2 ^ w → wrap w x = x.
Proof. apply Z.mod_small. Qed.

(** ** Big-endian bytes *)

Fixpoint be_combine_from (acc : Z) (l : list Z) : Z :=
  match l with [] => acc | b :: l' => be_combine_from (acc * 256 + b) l' end.

(** [uN::from_be_bytes]. *)
Definition be_combine (l : list Z) : Z := be_combine_from 0 l.

(** [uN::to_be_bytes] for an integer of [n] bytes. *)
Fixpoint be_split (n : nat) (x : Z) : list Z :=
  match n with O => [] | S n' => (x / 256 ^ Z.of_nat n') mod 256 :: be_split n' x end.

Lemma be_combine_from_spec acc l :
  be_combine_from acc l = acc * 256 ^ Z.of_nat (length l) + be_combine l.
Proof.
  unfold be_combine. revert acc. induction l as [|b l IH]; intros acc; cbn [be_combine_from length].
  - change (256 ^ Z.of_nat 0) with 1. lia.
  - rewrite (IH (acc * 256 + b)), (IH (0 * 256 + b)), Nat2Z.inj_succ, Z.pow_succ_r by lia. ring.
Qed.

Lemma be_combine_cons b l : be_combine (b :: l) = b * 256 ^ Z.of_nat (length l) + be_combine l.
Proof. unfold be_combine at 1. cbn [be_combine_from]. by rewrite be_combine_from_spec. Qed.

Lemma be_combine_range l :
  Forall is_byte l → 0 ≤ be_combine l < 256 ^ Z.of_nat (length l).
Proof.
  induction 1 as [|b l Hb _ IH]; [done|].
  rewrite be_combine_cons. cbn [length]. rewrite Nat2Z.inj_succ, Z.pow_succ_r by lia.
  unfold is_byte in Hb. nia.
Qed.

Lemma length_be_split n x : length (be_split n x) = n.
Proof. induction n; simpl; auto. Qed.

Lemma be_split_bytes n x : Forall is_byte (be_split n x).
Proof.
  induction n; simpl; constructor; [|done].
  unfold is_byte. apply Z.mod_pos_bound. lia.
Qed.

Lemma be_combine_split n x : be_combine (be_split n x) = x mod 256 ^ Z.of_nat n.
Proof.
  induction n as [|n IH]; [by rewrite Z.mod_1_r|].
  cbn [be_split]. rewrite be_combine_cons, length_be_split, IH.
  rewrite Nat2Z.inj_succ, Z.pow_succ_r by lia.
  assert (0 < 256 ^ Z.of_nat n) by (apply Z.pow_pos_nonneg; lia).
  rewrite (Z.mul_comm 256), Z.rem_mul_r by lia. ring.
Qed.

Lemma be_split_add_high m n b y :
  (m ≤ n)%nat → be_split m (b * 256 ^ Z.of_nat n + y) = be_split m y.
Proof.
  induction m as [|m IHm]; intros Hm; [done|]. cbn [be_split]. f_equal; [|apply IHm; lia].
  assert (256 ^ Z.of_nat n = 256 ^ Z.of_nat (n - S m) * 256 * 256 ^ Z.of_nat m) as ->.
  { replace (Z.of_nat n) with (Z.of_nat (n - S m) + 1 + Z.of_nat m) by lia.
    rewrite !Z.pow_add_r by lia. lia. }
  rewrite Z.add_comm, !Z.mul_assoc, Z.div_add by (apply Z.pow_nonzero; lia).
  by rewrite Z.mod_add by lia.
Qed.

Lemma be_split_combine l : Forall is_byte l → be_split (length l) (be_combine l) = l.
Proof.
  induction 1 as [|b l Hb Hl IH]; [done|].
  cbn [length be_split]. rewrite be_combine_cons.
  pose proof (be_combine_range l Hl) as Hr. unfold is_byte in Hb.
  f_equal; [|by rewrite be_split_add_high].
  rewrite Z.add_comm, Z.div_add by lia. rewrite Z.div_small by lia. rewrite Z.mod_small; lia.
Qed.

Lemma be_combine_inj l l' :
  Forall is_byte l → Forall is_byte l' → length l = length l' →
  be_combine l = be_combine l' → l = l'.
Proof.
  intros Hl Hl' Hlen Heq. rewrite <- (be_split_combine l Hl), <- (be_split_combine l' Hl').
  by rewrite Hlen, Heq.
Qed.

(** ** Masks *)

(** [(!0) << k] on a [w]-bit integer. *)
Definition high_mask (w k : Z) : Z := wrap w (Z.shiftl (2 ^ w - 1) k).

Lemma land_high_mask w k x :
  0 ≤ k ≤ w → 0 ≤ x < 2 ^ w → Z.land x (high_mask w k) = x / 2 ^ k * 2 ^ k.
Proof.
  intros Hk Hx. rewrite <- Z.shiftr_div_pow2, <- Z.shiftl_mul_pow2 by lia.
  apply Z.bits_inj'. intros n Hn. rewrite Z.land_spec, Z.shiftl_spec by lia.
  unfold high_mask, wrap. rewrite Z.testbit_mod_pow2 by lia. rewrite (Z.shiftl_spec (2 ^ w - 1)) by lia.
  destruct (decide (n < w)) as [Hnw|Hnw].
  2: { assert (Z.testbit x n = false) as Hb.
       { destruct (decide (x = 0)) as [->|]; [apply Z.bits_0|]. apply Z.bits_above_log2; [lia|].
         assert (Z.log2 x < w) by (apply Z.log2_lt_pow2; lia). lia. }
       rewrite Hb. simpl. destruct (decide (k ≤ n)).
       - rewrite Z.shiftr_spec by lia. by replace (n - k + k) with n by lia.
       - by rewrite (Z.testbit_neg_r (Z.shiftr x k)) by lia. }
  rewrite (proj2 (Z.ltb_lt n w)) by lia. rewrite andb_true_l.
  destruct (decide (k ≤ n)).
  - rewrite Z.shiftr_spec by lia. replace (n - k + k) with n by lia.
    replace (2 ^ w - 1) with (Z.ones w) by (rewrite Z.ones_equiv; lia).
    rewrite Z.ones_spec_low by lia. by rewrite andb_true_r.
  - rewrite (Z.testbit_neg_r (2 ^ w - 1)), (Z.testbit_neg_r (Z.shiftr x k)) by lia.
    by rewrite andb_false_r.
Qed.

(** ** [FromStr] of integers *)

(** [char::to_digit] for radix 10 and 16. *)
Definition to_digit (radix : Z) (a : ascii) : option Z :=
  let n := Z.of_nat (nat_of_ascii a) in
  let d := if (48 <=? n) && (n <=? 57) then n - 48
           else if (97 <=? n) && (n <=? 122) then n - 87
           else if (65 <=? n) && (n <=? 90) then n - 55
           else radix in
  if d <? radix then Some d else None.

(** All of [s] read as decimal digits after the accumulator, failing on another character
    or as soon as the value leaves [0, max]. *)
Fixpoint digits_upto (max acc : Z) (s : string) : option Z :=
  match s with
  | EmptyString => Some acc
  | String a s' =>
      d ← to_digit 10 a;
      let acc' := acc * 10 + d in
      if acc' <=? max then digits_upto max acc' s' else None
  end.

(** [uN::from_str]: at least one digit, an optional leading plus sign. *)
Definition parse_uint (max : Z) (s : string) : option Z :=
  match s with
  | EmptyString => None
  | String a s' =>
      if Ascii.eqb a "+" then
        match s' with EmptyString => None | String _ _ => digits_upto max 0 s' end
      else digits_upto max 0 s
  end.

Definition parse_u8 : string → option Z := parse_uint u8_max.
Definition parse_u16 : string → option Z := parse_uint u16_max.
Definition parse_u32 : string → option Z := parse_uint u32_max.

(** [i32::from_str]: an optional sign, then digits within range of the sign. *)
Definition parse_i32 (s : string) : option Z :=
  match s with
  | EmptyString => None
  | String a s' =>
      if Ascii.eqb a "-" then
        match s' with EmptyString => None | String _ _ => Z.opp <$> digits_upto 2147483648 0 s' end
      else if Ascii.eqb a "+" then
        match s' with EmptyString => None | String _ _ => digits_upto 2147483647 0 s' end
      else digits_upto 2147483647 0 s
  end.

Lemma to_digit_range radix a d : 0 ≤ radix → to_digit radix a = Some d → 0 ≤ d < radix.
Proof.
  unfold to_digit. intros Hr H.
  repeat split_match_in H; breflect; simplify_eq; lia.
Qed.

Lemma digits_upto_range max acc s n :
  0 ≤ acc → acc ≤ max → digits_upto max acc s = Some n → 0 ≤ n ≤ max.
Proof.
  revert acc. induction s as [|a s IH]; simpl; intros acc H0 H1 H; [by simplify_eq|].
  destruct (to_digit 10 a) as [d|] eqn:Hd; simpl in H; [|done].
  apply to_digit_range in Hd; [|lia].
  destruct (_ <=? _) eqn:E; [|done]. breflect. eapply IH; [| |exact H]; lia.
Qed.

Lemma parse_uint_range max s n : 0 ≤ max → parse_uint max s = Some n → 0 ≤ n ≤ max.
Proof.
  intros Hm H. destruct s as [|a s]; [done|]. unfold parse_uint in H.
  destruct (Ascii.eqb a "+").
  - destruct s; [done|]. by eapply digits_upto_range in H.
  - by eapply digits_upto_range in H.
Qed.

(** Decimal and hexadecimal printing ([Display], [LowerHex]) of a non-negative integer. *)
(** A larger bound reads the same number. *)
Lemma parse_uint_widen max max' s n : max ≤ max' → parse_uint max s = Some n → parse_uint max' s = Some n.
Proof.
  intros Hm. assert (∀ s acc, digits_upto max acc s = Some n → digits_upto max' acc s = Some n) as Hd.
  { clear s. induction s as [|c s IH]; intros acc; cbn [digits_upto]; [done|].
    destruct (to_digit 10 c) as [d|]; [|done]. cbn [mbind option_bind].
    destruct (Z.leb_spec (acc * 10 + d) max); [|done]. rewrite (proj2 (Z.leb_le _ _)) by lia. apply IH. }
  unfold parse_uint. destruct s as [|c s]; [done|]. destruct (Ascii.eqb c "+"); [|apply Hd].
  destruct s; [done|apply Hd].
Qed.

Lemma parse_i32_range s n : parse_i32 s = Some n → -2147483648 ≤ n ≤ 2147483647.
Proof.
  destruct s as [|a s]; [done|]. unfold parse_i32. destruct (Ascii.eqb a "-").
  - destruct s; [done|]. intros (m & Hm & ->)%fmap_Some. apply digits_upto_range in Hm; lia.
  - destruct (Ascii.eqb a "+"); [destruct s; [done|]|]; intros Hm; apply digits_upto_range in Hm; lia.
Qed.

Definition digit_char (d : Z) : ascii :=
  ascii_of_nat (Z.to_nat (if d <? 10 then d + 48 else d + 87)).

Fixpoint print_radix_from (fuel : nat) (radix x : Z) (acc : string) : string :=
  match fuel with
  | O => acc
  | S k =>
      let acc' := String (digit_char (x mod radix)) acc in
      if x <? radix then acc' else print_radix_from k radix (x / radix) acc'
  end.

(** 128 digits cover every integer below [2^128] in any radix from 2 on. *)
Definition print_dec (x : Z) : string := print_radix_from 128 10 x EmptyString.
Definition print_hex (x : Z) : string := print_radix_from 128 16 x EmptyString.

(** *** Printing and reading back *)

Lemma to_digit_char d : 0 ≤ d < 10 → to_digit 10 (digit_char d) = Some d ∧ digit_char d ≠ "+"%char.
Proof.
  intros Hd. assert (∃ n, (n < 10)%nat ∧ d = Z.of_nat n) as (n & Hn & ->).
  { exists (Z.to_nat d). lia. }
  do 10 (destruct n as [|n]; [split; done|]). lia.
Qed.

Lemma digits_upto_print fuel max x s :
  0 ≤ x ≤ max → x < 10 ^ Z.of_nat fuel → (0 < fuel)%nat →
  digits_upto max 0 (print_radix_from fuel 10 x s) = digits_upto max x s.
Proof.
  revert x s. induction fuel as [|fuel IH]; intros x s Hx Hf Hp; [lia|]. cbn [print_radix_from].
  destruct (to_digit_char (x mod 10)) as [Hd _]; [pose proof (Z.mod_pos_bound x 10); lia|].
  destruct (Z.ltb_spec x 10) as [Hlt|Hge].
  - rewrite Z.mod_small in * by lia. cbn [digits_upto]. rewrite Hd. cbn [mbind option_bind].
    by rewrite Z.mul_0_l, Z.add_0_l, (proj2 (Z.leb_le x max)) by lia.
  - pose proof (Z.div_mod x 10 ltac:(lia)) as Hdm.
    pose proof (Z.mod_pos_bound x 10 ltac:(lia)) as Hm.
    rewrite Nat2Z.inj_succ, Z.pow_succ_r in Hf by lia.
    destruct fuel as [|fuel]; [simpl in Hf; lia|].
    rewrite IH by lia. cbn [digits_upto]. rewrite Hd. cbn [mbind option_bind].
    replace (x / 10 * 10 + x mod 10) with x by lia. by rewrite (proj2 (Z.leb_le x max)) by lia.
Qed.

(** The first character printed is a digit. *)
Lemma print_radix_head fuel x s :
  0 ≤ x → (0 < fuel)%nat → ∃ d t, 0 ≤ d < 10 ∧ print_radix_from fuel 10 x s = String (digit_char d) t.
Proof.
  revert x s. induction fuel as [|fuel IH]; intros x s Hx Hp; [lia|]. cbn [print_radix_from].
  pose proof (Z.mod_pos_bound x 10 ltac:(lia)) as Hm.
  destruct (x <? 10); [by eexists _, _|].
  destruct fuel as [|fuel]; [by eexists _, _|]. apply IH; [|lia]. apply Z.div_pos; lia.
Qed.

Lemma parse_print_dec max x : 0 ≤ x ≤ max → x < 10 ^ 128 → parse_uint max (print_dec x) = Some x.
Proof.
  intros Hx Hb. unfold print_dec.
  pose proof (digits_upto_print 128 max x EmptyString Hx Hb ltac:(lia)) as Hd.
  destruct (print_radix_head 128 x EmptyString) as (d & t & Hdd & Ht); [lia|lia|].
  rewrite Ht in *. unfold parse_uint. destruct (to_digit_char d Hdd) as [_ Hne].
  apply Ascii.eqb_neq in Hne. by rewrite Hne.
Qed.
