(* ===== verification/RustNet.v ===== *)
(** * Rust's [std::net]: addresses, their parsers and their [Display]

    [Ipv4Addr] and [Ipv6Addr] are their octets in network order.  The parsers are the
    recursive-descent parser of [core::net::parser]: a reader takes the remaining text
    and returns a value with the rest, or nothing, in which case no text is consumed. *)

From Stdlib Require Import Ascii String ZArith Lia.
From stdpp Require Import base list gmap strings numbers countable.
From S2P Require Import Prelude RustString RustNum.

Local Open Scope Z_scope.

(** ** Addresses *)

Record Ipv4Addr := V4Octets { v4_octets : list Z }.
Record Ipv6Addr := V6Octets { v6_octets : list Z }.

Inductive IpAddr :=
  | IpV4 (a : Ipv4Addr)
  | IpV6 (a : Ipv6Addr).

(** [SocketAddr]: the scope id and the flow label of a V6 address are 0 in every value the
    sources build; a parsed scope id is kept. *)
Inductive SocketAddr :=
  | SockV4 (ip : Ipv4Addr) (port : Z)
  | SockV6 (ip : Ipv6Addr) (port : Z) (scope_id : Z).

Definition sock_ip (s : SocketAddr) : IpAddr :=
  match s with SockV4 a _ => IpV4 a | SockV6 a _ _ => IpV6 a end.

Definition v4_wf (a : Ipv4Addr) : Prop := length (v4_octets a) = 4%nat ∧ Forall is_byte (v4_octets a).
Definition v6_wf (a : Ipv6Addr) : Prop := length (v6_octets a) = 16%nat ∧ Forall is_byte (v6_octets a).
Definition ip_wf (a : IpAddr) : Prop := match a with IpV4 a => v4_wf a | IpV6 a => v6_wf a end.

#[export] Instance v4_eq_dec : EqDecision Ipv4Addr.
Proof. solve_decision. Defined.
#[export] Instance v6_eq_dec : EqDecision Ipv6Addr.
Proof. solve_decision. Defined.
#[export] Instance ip_eq_dec : EqDecision IpAddr.
Proof. solve_decision. Defined.
#[export] Instance sock_eq_dec : EqDecision SocketAddr.
Proof. solve_decision. Defined.

#[export] Instance v4_countable : Countable Ipv4Addr.
Proof. refine (inj_countable' v4_octets V4Octets _). by intros []. Defined.
#[export] Instance v6_countable : Countable Ipv6Addr.
Proof. refine (inj_countable' v6_octets V6Octets _). by intros []. Defined.
#[export] Instance ip_countable : Countable IpAddr.
Proof.
  refine (inj_countable' (λ a, match a with IpV4 x => inl x | IpV6 x => inr x end)
            (λ s, match s with inl x => IpV4 x | inr x => IpV6 x end) _).
  by intros [].
Defined.

(** [Ipv4Addr::new], [UNSPECIFIED], and the conversions with [u32] and [u128]. *)
Definition ipv4 (a b c d : Z) : Ipv4Addr := V4Octets [a; b; c; d].
Definition v4_unspecified : Ipv4Addr := ipv4 0 0 0 0.
Definition v6_unspecified : Ipv6Addr := V6Octets (replicate 16 0).
Definition v4_to_u32 (a : Ipv4Addr) : Z := be_combine (v4_octets a).
Definition v4_of_u32 (x : Z) : Ipv4Addr := V4Octets (be_split 4 x).
Definition v6_to_u128 (a : Ipv6Addr) : Z := be_combine (v6_octets a).
Definition v6_of_u128 (x : Z) : Ipv6Addr := V6Octets (be_split 16 x).

(** [Ipv6Addr::from([u16; 8])] and [Ipv6Addr::segments]. *)
Definition v6_of_segments (l : list Z) : Ipv6Addr := V6Octets (l ≫= be_split 2).

Fixpoint pair_segments (l : list Z) : list Z :=
  match l with a :: b :: l' => a * 256 + b :: pair_segments l' | _ => [] end.
Definition v6_segments (a : Ipv6Addr) : list Z := pair_segments (v6_octets a).

Lemma v4_to_u32_range a : v4_wf a → 0 ≤ v4_to_u32 a < 2 ^ 32.
Proof. intros [Hl Hb]. pose proof (be_combine_range _ Hb) as Hr. rewrite Hl in Hr. exact Hr. Qed.

Lemma v4_to_u32_inj a b : v4_wf a → v4_wf b → v4_to_u32 a = v4_to_u32 b → a = b.
Proof.
  destruct a as [x], b as [y]. intros [Hl Hb] [Hl' Hb'] Heq. simpl in *. f_equal.
  apply be_combine_inj; [done|done|congruence|done].
Qed.

Lemma v4_of_u32_wf x : v4_wf (v4_of_u32 x).
Proof. split; [apply length_be_split|apply be_split_bytes]. Qed.

Lemma v4_to_of_u32 x : 0 ≤ x < 2 ^ 32 → v4_to_u32 (v4_of_u32 x) = x.
Proof. intros. unfold v4_to_u32, v4_of_u32. cbn [v4_octets]. rewrite be_combine_split. by apply Z.mod_small. Qed.

Lemma v6_to_u128_range a : v6_wf a → 0 ≤ v6_to_u128 a < 2 ^ 128.
Proof. intros [Hl Hb]. pose proof (be_combine_range _ Hb) as Hr. rewrite Hl in Hr. exact Hr. Qed.

Lemma v6_of_u128_wf x : v6_wf (v6_of_u128 x).
Proof. split; [apply length_be_split|apply be_split_bytes]. Qed.

Lemma v6_to_of_u128 x : 0 ≤ x < 2 ^ 128 → v6_to_u128 (v6_of_u128 x) = x.
Proof. intros. unfold v6_to_u128, v6_of_u128. cbn [v6_octets]. rewrite be_combine_split. by apply Z.mod_small. Qed.

(** The four octets of a well-formed address. *)
Lemma v4_wf_octets a :
  v4_wf a → ∃ w x y z, v4_octets a = [w; x; y; z] ∧ is_byte w ∧ is_byte x ∧ is_byte y ∧ is_byte z ∧
    v4_to_u32 a = w * 2 ^ 24 + x * 2 ^ 16 + y * 2 ^ 8 + z.
Proof.
  intros [Hl Hb]. unfold v4_to_u32. destruct (v4_octets a) as [|w [|x [|y [|z [|]]]]]; try done.
  repeat match type of Hb with Forall _ (_ :: _) => apply Forall_cons_1 in Hb as [? Hb] end.
  exists w, x, y, z. split_and!; try done.
  unfold be_combine. cbn [be_combine_from]. lia.
Qed.

(** ** Classification *)

(** Octet [i]; every well-formed address has all of its octets. *)
Definition octet (i : nat) (l : list Z) : Z := nth i l 0.

(** [Ipv4Addr::is_loopback], [is_private], [is_link_local]. *)
Definition v4_is_loopback (a : Ipv4Addr) : bool := octet 0 (v4_octets a) =? 127.
Definition v4_is_private (a : Ipv4Addr) : bool :=
  let o0 := octet 0 (v4_octets a) in let o1 := octet 1 (v4_octets a) in
  (o0 =? 10) || ((o0 =? 172) && (16 <=? o1) && (o1 <=? 31)) || ((o0 =? 192) && (o1 =? 168)).
Definition v4_is_link_local (a : Ipv4Addr) : bool :=
  (octet 0 (v4_octets a) =? 169) && (octet 1 (v4_octets a) =? 254).

(** [Ipv6Addr::is_loopback], [is_unique_local], [is_unspecified]. *)
Definition v6_is_loopback (a : Ipv6Addr) : bool := v6_to_u128 a =? 1.
Definition v6_is_unique_local (a : Ipv6Addr) : bool :=
  Z.land (be_combine (take 2 (v6_octets a))) 0xfe00 =? 0xfc00.
Definition v6_is_unspecified (a : Ipv6Addr) : bool := v6_to_u128 a =? 0.

(** ** Readers *)

Definition reader (A : Type) : Type := string → option (A * string).

Definition read_given_char (c : ascii) : reader unit := λ s,
  match s with String a s' => if Ascii.eqb a c then Some (tt, s') else None | EmptyString => None end.

(** The digits at the front of [s]: their value, their number and the rest; nothing when the
    value passes [max] or more than [max_digits] digits come. *)
Fixpoint read_digits (radix max : Z) (max_digits : nat) (acc : Z) (n : nat) (s : string) :
    option (Z * nat * string) :=
  match s with
  | EmptyString => Some (acc, n, s)
  | String a s' =>
      match to_digit radix a with
      | None => Some (acc, n, s)
      | Some d =>
          let acc' := acc * radix + d in
          if (max_digits <=? n)%nat || (max <? acc') then None
          else read_digits radix max max_digits acc' (S n) s'
      end
  end.

(** [Parser::read_number].  With a digit limit the value is computed in [u32] and then
    converted, without one it is checked at each digit: both fail exactly when the value of
    the digits does not fit. *)
Definition read_number (radix max : Z) (max_digits : nat) (allow_zero_prefix : bool) : reader Z := λ s,
  '(v, n, rest) ← read_digits radix max max_digits 0 0 s;
  if (n =? 0)%nat then None
  else if negb allow_zero_prefix && Str.starts_with "0" s && (1 <? n)%nat then None
  else Some (v, rest).

(** [Parser::read_separator]: the separator is expected before every element but the first. *)
Definition read_separator {A} (sep : ascii) (index : nat) (r : reader A) : reader A := λ s,
  match index with
  | O => r s
  | S _ => '(_, s') ← read_given_char sep s; r s'
  end.

Definition read_v4_octet (index : nat) : reader Z :=
  read_separator "." index (read_number 10 u8_max 3 false).

Definition read_ipv4_addr : reader Ipv4Addr := λ s,
  '(a, s) ← read_v4_octet 0 s;
  '(b, s) ← read_v4_octet 1 s;
  '(c, s) ← read_v4_octet 2 s;
  '(d, s) ← read_v4_octet 3 s;
  Some (ipv4 a b c d, s).

(** [read_groups] of [read_ipv6_addr]: up to [limit] groups from index [i] on; the groups,
    whether an embedded IPv4 address ended them, and the rest. *)
Fixpoint read_groups (fuel limit i : nat) (s : string) : list Z * bool * string :=
  match fuel with
  | O => ([], false, s)
  | S k =>
      let v4 := if (i <? limit - 1)%nat then read_separator ":" i read_ipv4_addr s else None in
      match v4 with
      | Some (a, s') =>
          ([be_combine (take 2 (v4_octets a)); be_combine (drop 2 (v4_octets a))], true, s')
      | None =>
          match read_separator ":" i (read_number 16 u16_max 4 true) s with
          | Some (g, s') => let '(gs, b, s'') := read_groups k limit (S i) s' in (g :: gs, b, s'')
          | None => ([], false, s)
          end
      end
  end.

Definition read_ipv6_addr : reader Ipv6Addr := λ s,
  let '(head, head_ipv4, s) := read_groups 8 8 0 s in
  if (length head =? 8)%nat then Some (v6_of_segments head, s)
  else if head_ipv4 then None
  else
    '(_, s) ← read_given_char ":" s;
    '(_, s) ← read_given_char ":" s;
    let limit := (8 - (length head + 1))%nat in
    let '(tail, _, s) := read_groups limit limit 0 s in
    Some (v6_of_segments (head ++ replicate (8 - length head - length tail) 0 ++ tail), s).

Definition read_ip_addr : reader IpAddr := λ s,
  match read_ipv4_addr s with
  | Some (a, s') => Some (IpV4 a, s')
  | None => '(a, s') ← read_ipv6_addr s; Some (IpV6 a, s')
  end.

(** [read_number(10, None, true)] for the 16-bit port and the 32-bit scope id: the number of
    digits is bounded by the text only. *)
Definition read_port : reader Z := λ s,
  '(_, s') ← read_given_char ":" s; read_number 10 u16_max (String.length s') true s'.
Definition read_scope_id : reader Z := λ s,
  '(_, s') ← read_given_char "%" s; read_number 10 u32_max (String.length s') true s'.

Definition read_socket_addr_v4 : reader SocketAddr := λ s,
  '(ip, s) ← read_ipv4_addr s;
  '(port, s) ← read_port s;
  Some (SockV4 ip port, s).

Definition read_socket_addr_v6 : reader SocketAddr := λ s,
  '(_, s) ← read_given_char "[" s;
  '(ip, s) ← read_ipv6_addr s;
  let '(scope_id, s) := default (0, s) (read_scope_id s) in
  '(_, s) ← read_given_char "]" s;
  '(port, s) ← read_port s;
  Some (SockV6 ip port scope_id, s).

Definition read_socket_addr : reader SocketAddr := λ s,
  match read_socket_addr_v4 s with Some r => Some r | None => read_socket_addr_v6 s end.

(** [Parser::parse_with]: the reader must consume the whole text. *)
Definition parse_with {A} (r : reader A) (s : string) : option A :=
  match r s with Some (a, EmptyString) => Some a | _ => None end.

(** [FromStr] of the address types; [Ipv4Addr] refuses more than 15 bytes at once. *)
Definition parse_ipv4 (s : string) : option Ipv4Addr :=
  if (15 <? String.length s)%nat then None else parse_with read_ipv4_addr s.
Definition parse_ipv6 : string → option Ipv6Addr := parse_with read_ipv6_addr.
Definition parse_ip : string → option IpAddr := parse_with read_ip_addr.
Definition parse_socket_addr : string → option SocketAddr := parse_with read_socket_addr.

(** What the readers return is in range. *)
Lemma read_digits_range radix max md acc n s v n' rest :
  0 ≤ radix → 0 ≤ acc ≤ max → read_digits radix max md acc n s = Some (v, n', rest) → 0 ≤ v ≤ max.
Proof.
  intros Hr. revert acc n. induction s as [|a s IH]; intros acc n Hacc; cbn [read_digits].
  { by intros [= <- _ _]. }
  destruct (to_digit radix a) as [d|] eqn:Hd; [|by intros [= <- _ _]].
  apply to_digit_range in Hd; [|done]. destruct (_ || _) eqn:E; [done|]. breflect.
  apply IH. nia.
Qed.

Lemma read_number_range radix max md z s v rest :
  0 ≤ radix → 0 ≤ max → read_number radix max md z s = Some (v, rest) → 0 ≤ v ≤ max.
Proof.
  intros Hr Hm. unfold read_number. intros ([[v' n] rest'] & Hd & H)%bind_Some.
  destruct (n =? 0)%nat; [done|]. destruct (_ && _); [done|]. injection H as <- <-.
  by eapply read_digits_range in Hd.
Qed.

Lemma read_v4_octet_range i s v rest : read_v4_octet i s = Some (v, rest) → is_byte v.
Proof.
  assert (∀ s v rest, read_number 10 u8_max 3 false s = Some (v, rest) → is_byte v) as Hn.
  { intros s' v' rest' H. apply read_number_range in H; unfold is_byte, u8_max in *; lia. }
  unfold read_v4_octet, read_separator. destruct i; [apply Hn|].
  intros ([? ?] & _ & H)%bind_Some. by eapply Hn.
Qed.

Lemma parse_ipv4_wf s a : parse_ipv4 s = Some a → v4_wf a.
Proof.
  unfold parse_ipv4, parse_with. destruct (_ <? _)%nat; [done|].
  destruct (read_ipv4_addr s) as [[a' [|]]|] eqn:E; try done. intros [= <-].
  unfold read_ipv4_addr in E.
  apply bind_Some in E as ([w s1] & Hw%read_v4_octet_range & E).
  apply bind_Some in E as ([x s2] & Hx%read_v4_octet_range & E).
  apply bind_Some in E as ([y s3] & Hy%read_v4_octet_range & E).
  apply bind_Some in E as ([z s4] & Hz%read_v4_octet_range & E).
  injection E as <- _. split; [done|]. do 4 (apply Forall_cons_2; [done|]). constructor.
Qed.

Lemma read_groups_length fuel limit i s gs b rest :
  (i + fuel = limit)%nat → read_groups fuel limit i s = (gs, b, rest) → (length gs ≤ fuel)%nat.
Proof.
  revert i s gs b rest. induction fuel as [|fuel IH]; intros i s gs b rest Hi; cbn [read_groups].
  { intros [= <- _ _]. simpl. lia. }
  destruct (i <? limit - 1)%nat eqn:Hlt; breflect.
  - destruct (read_separator ":" i read_ipv4_addr s) as [[a s']|]; [intros [= <- _ _]; simpl; lia|].
    destruct (read_separator ":" i (read_number 16 u16_max 4 true) s) as [[g s']|];
      [|intros [= <- _ _]; simpl; lia].
    destruct (read_groups fuel limit (S i) s') as [[gs' b'] s''] eqn:E. intros [= <- _ _].
    apply IH in E; simpl; lia.
  - destruct (read_separator ":" i (read_number 16 u16_max 4 true) s) as [[g s']|];
      [|intros [= <- _ _]; simpl; lia].
    destruct (read_groups fuel limit (S i) s') as [[gs' b'] s''] eqn:E. intros [= <- _ _].
    apply IH in E; simpl; lia.
Qed.

Lemma v6_of_segments_wf l : length l = 8%nat → v6_wf (v6_of_segments l).
Proof.
  intros Hl. unfold v6_wf, v6_of_segments. cbn [v6_octets].
  assert (length (l ≫= be_split 2) = 2 * length l)%nat as ->.
  { clear Hl. induction l as [|x l IH]; [done|].
    change ((x :: l) ≫= be_split 2) with (be_split 2 x ++ (l ≫= be_split 2)).
    rewrite length_app, length_be_split, IH. simpl. lia. }
  split; [lia|]. clear Hl. induction l as [|x l IH]; [apply Forall_nil_2|].
  change ((x :: l) ≫= be_split 2) with (be_split 2 x ++ (l ≫= be_split 2)).
  apply Forall_app. split; [apply be_split_bytes|done].
Qed.

Lemma parse_ipv6_wf s a : parse_ipv6 s = Some a → v6_wf a.
Proof.
  unfold parse_ipv6, parse_with. destruct (read_ipv6_addr s) as [[a' [|]]|] eqn:E; try done.
  intros [= <-]. unfold read_ipv6_addr in E.
  destruct (read_groups 8 8 0 s) as [[head hb] s1] eqn:Hh. apply read_groups_length in Hh; [|done].
  destruct (Nat.eqb_spec (length head) 8).
  { injection E as <- _. by apply v6_of_segments_wf. }
  destruct hb; [done|]. apply bind_Some in E as ([? s2] & _ & E).
  apply bind_Some in E as ([? s3] & _ & E).
  destruct (read_groups _ _ 0 s3) as [[tail tb] s4] eqn:Ht. apply read_groups_length in Ht; [|done].
  injection E as <- _. apply v6_of_segments_wf. rewrite !length_app, length_replicate. lia.
Qed.

(** ** Display *)

Definition join (sep : string) (l : list string) : string :=
  match l with
  | [] => EmptyString
  | x :: l' => foldl (λ acc y, acc +:+ sep +:+ y) x l'
  end.

Definition show_ipv4 (a : Ipv4Addr) : string := join "." (print_dec <$> v4_octets a).

(** What is displayed is read back. *)
Lemma read_digits_app radix max md acc n s v k rest :
  read_digits radix max md acc n s = Some (v, k, EmptyString) →
  match rest with String c _ => to_digit radix c = None | EmptyString => True end →
  read_digits radix max md acc n (s +:+ rest) = Some (v, k, rest).
Proof.
  intros Hd Hr. revert acc n Hd. induction s as [|c s IH]; intros acc n; cbn [read_digits String.append].
  - intros [= -> ->]. destruct rest; cbn [read_digits]; [done|]. by rewrite Hr.
  - destruct (to_digit radix c); [|done]. destruct (_ || _); [done|]. apply IH.
Qed.

Lemma octet_text x :
  is_byte x →
  ∃ k, read_digits 10 u8_max 3 0 0 (print_dec x) = Some (x, k, EmptyString) ∧ (0 < k)%nat ∧
    Str.starts_with "0" (print_dec x) && (1 <? k)%nat = false ∧ (0 < String.length (print_dec x) ≤ 3)%nat ∧
    Str.contains "/" (print_dec x) = false.
Proof.
  assert (forallb (λ n, let s := print_dec (Z.of_nat n) in
            match read_digits 10 u8_max 3 0 0 s with
            | Some (v, k, EmptyString) => (v =? Z.of_nat n) && (0 <? k)%nat &&
                negb (Str.starts_with "0" s && (1 <? k)%nat) && (0 <? String.length s)%nat &&
                (String.length s <=? 3)%nat && negb (Str.contains "/" s)
            | _ => false
            end) (seq 0 256) = true) as Hall by (vm_compute; reflexivity).
  intros Hx. unfold is_byte in Hx. rewrite forallb_forall in Hall.
  specialize (Hall (Z.to_nat x) ltac:(apply in_seq; lia)). rewrite Z2Nat.id in Hall by lia. cbv zeta in Hall.
  destruct (read_digits 10 u8_max 3 0 0 (print_dec x)) as [[[v k] [|]]|]; try done.
  breflect. subst v. exists k. by split_and!.
Qed.

Lemma read_octet_shown i x rest :
  is_byte x → match rest with String c _ => to_digit 10 c = None | EmptyString => True end →
  read_v4_octet i ((if i is O then EmptyString else ".") +:+ print_dec x +:+ rest) = Some (x, rest).
Proof.
  intros Hx Hr. destruct (octet_text x Hx) as (k & Hd & Hk & Hz & Hl & _).
  assert (read_number 10 u8_max 3 false (print_dec x +:+ rest) = Some (x, rest)) as Hn.
  { unfold read_number. rewrite (read_digits_app _ _ _ _ _ _ _ _ _ Hd Hr). cbn [mbind option_bind].
    rewrite (proj2 (Nat.eqb_neq _ _)) by lia. cbn [negb andb].
    assert (Str.starts_with "0" (print_dec x +:+ rest) = Str.starts_with "0" (print_dec x)) as ->; [|by rewrite Hz].
    destruct (print_dec x) as [|c s]; [simpl in Hl; lia|]. unfold Str.starts_with.
    cbn [String.append Str.strip_prefix]. by destruct (Ascii.eqb "0" c). }
  unfold read_v4_octet, read_separator. by destruct i.
Qed.

Lemma parse_show_ipv4 a : v4_wf a → parse_ipv4 (show_ipv4 a) = Some a.
Proof.
  intros (w & x & y & z & Ho & Hw & Hx & Hy & Hz & _)%v4_wf_octets. unfold parse_ipv4, show_ipv4. rewrite Ho.
  cbn [fmap list_fmap join foldl]. rewrite <- !StrFacts.app_assoc.
  destruct (octet_text w Hw) as (_ & _ & _ & _ & Hlw & _), (octet_text x Hx) as (_ & _ & _ & _ & Hlx & _),
    (octet_text y Hy) as (_ & _ & _ & _ & Hly & _), (octet_text z Hz) as (_ & _ & _ & _ & Hlz & _).
  rewrite (proj2 (Nat.ltb_ge _ _)) by (rewrite !StrFacts.length_app; simpl; lia).
  unfold parse_with, read_ipv4_addr.
  pose proof (read_octet_shown 0 w ("." +:+ print_dec x +:+ "." +:+ print_dec y +:+ "." +:+ print_dec z) Hw eq_refl) as E.
  cbn [String.append] in E |- *. rewrite E. cbn [mbind option_bind].
  pose proof (read_octet_shown 1 x ("." +:+ print_dec y +:+ "." +:+ print_dec z) Hx eq_refl) as E1.
  cbn [String.append] in E1. rewrite E1. cbn [mbind option_bind].
  pose proof (read_octet_shown 2 y ("." +:+ print_dec z) Hy eq_refl) as E2.
  cbn [String.append] in E2. rewrite E2. cbn [mbind option_bind].
  pose proof (read_octet_shown 3 z EmptyString Hz I) as E3. rewrite StrFacts.app_nil_r in E3.
  cbn [String.append] in E3. rewrite E3. cbn [mbind option_bind].
  unfold ipv4. rewrite <- Ho. by destruct a.
Qed.

Lemma show_ipv4_no_slash a : v4_wf a → Str.contains "/" (show_ipv4 a) = false.
Proof.
  intros (w & x & y & z & Ho & Hw & Hx & Hy & Hz & _)%v4_wf_octets. unfold show_ipv4. rewrite Ho.
  cbn [fmap list_fmap join foldl]. rewrite !StrFacts.contains_app.
  destruct (octet_text w Hw) as (_ & _ & _ & _ & _ & ->), (octet_text x Hx) as (_ & _ & _ & _ & _ & ->),
    (octet_text y Hy) as (_ & _ & _ & _ & _ & ->), (octet_text z Hz) as (_ & _ & _ & _ & _ & ->). done.
Qed.

(** The leftmost longest run of zero segments: start and length. *)
Fixpoint longest_zeros (i : nat) (cur best : nat * nat) (l : list Z) : nat * nat :=
  match l with
  | [] => best
  | x :: l' =>
      if x =? 0 then
        let start := if (cur.2 =? 0)%nat then i else cur.1 in
        let cur' := (start, S cur.2) in
        longest_zeros (S i) cur' (if (best.2 <? cur'.2)%nat then cur' else best) l'
      else longest_zeros (S i) (0, 0)%nat best l'
  end.

Definition show_segments (l : list Z) : string := join ":" (print_hex <$> l).

Definition show_ipv6 (a : Ipv6Addr) : string :=
  let segs := v6_segments a in
  if bool_decide (take 6 segs = [0; 0; 0; 0; 0; 0xffff]) then
    "::ffff:" +:+ show_ipv4 (V4Octets (drop 12 (v6_octets a)))
  else
    let '(start, len) := longest_zeros 0 (0, 0)%nat (0, 0)%nat segs in
    if (1 <? len)%nat then
      show_segments (take start segs) +:+ "::" +:+ show_segments (drop (start + len) segs)
    else show_segments segs.

Definition show_ip (a : IpAddr) : string :=
  match a with IpV4 a => show_ipv4 a | IpV6 a => show_ipv6 a end.

Example parse_ipv4_sample : parse_ipv4 "192.168.1.100" = Some (ipv4 192 168 1 100).
Proof. vm_compute. reflexivity. Qed.
Example parse_ipv4_octal : parse_ipv4 "192.168.01.1" = None.
Proof. vm_compute. reflexivity. Qed.
Example parse_ipv6_sample :
  parse_ipv6 "64:ff9b::192.0.2.1" = Some (v6_of_segments [0x64; 0xff9b; 0; 0; 0; 0; 0xc000; 0x201]).
Proof. vm_compute. reflexivity. Qed.
Example show_ipv6_sample : show_ipv6 (v6_of_segments [0x2001; 0xdb8; 0; 0; 0; 0; 0; 1]) = "2001:db8::1".
Proof. vm_compute. reflexivity. Qed.
Example parse_socket_sample : parse_socket_addr "[::]:53" = Some (SockV6 v6_unspecified 53 0).
Proof. vm_compute. reflexivity. Qed.
Example parse_socket_bad : parse_socket_addr "999.999.999.999:5380" = None.
Proof. vm_compute. reflexivity. Qed.
