(* ===== verification/Metrics.v ===== *)
(** * The metrics registry ([src/core/metrics/mod.rs])

    [MetricsRegistry] is a map of atomic 64-bit counters, filled with every metric at
    construction.  The process-wide [GLOBAL_METRICS] is a value of this type that the
    operations of the other components thread through ([increment_global]). *)

From Stdlib Require Import Ascii String ZArith Lia.
From stdpp Require Import base list gmap strings numbers countable.
From S2P Require Import Prelude RustString RustNum.

Local Open Scope Z_scope.

Module Metrics.

Inductive MetricName :=
  | CacheHitsTotal
  | CacheMissesTotal
  | QueriesTotal
  | BlockedTotal
  | Dns64SynthesizedTotal
  | QminStepsTotal
  | CnameChainTruncatedTotal
  | RebindingDetectedTotal.

#[export] Instance MetricName_eq_dec : EqDecision MetricName.
Proof. solve_decision. Defined.

(** The array literal both [new] and [serialize] iterate over. *)
Definition all_metrics : list MetricName :=
  [CacheHitsTotal; CacheMissesTotal; QueriesTotal; BlockedTotal; Dns64SynthesizedTotal;
   QminStepsTotal; CnameChainTruncatedTotal; RebindingDetectedTotal].

Definition metric_index (m : MetricName) : nat :=
  match m with
  | CacheHitsTotal => 0 | CacheMissesTotal => 1 | QueriesTotal => 2 | BlockedTotal => 3
  | Dns64SynthesizedTotal => 4 | QminStepsTotal => 5 | CnameChainTruncatedTotal => 6
  | RebindingDetectedTotal => 7
  end.

#[export] Instance MetricName_countable : Countable MetricName.
Proof.
  refine (inj_countable metric_index (λ n, all_metrics !! n) _). by intros [].
Defined.

Definition label (m : MetricName) : string :=
  match m with
  | CacheHitsTotal => "cache_hits_total"
  | CacheMissesTotal => "cache_misses_total"
  | QueriesTotal => "queries_total"
  | BlockedTotal => "blocked_total"
  | Dns64SynthesizedTotal => "dns64_synthesized_total"
  | QminStepsTotal => "qmin_steps_total"
  | CnameChainTruncatedTotal => "cname_chain_truncated_total"
  | RebindingDetectedTotal => "rebinding_detected_total"
  end.

Definition metric_type (m : MetricName) : string := "counter".

Definition description (m : MetricName) : string :=
  match m with
  | CacheHitsTotal => "Total cache hits"
  | CacheMissesTotal => "Total cache misses"
  | QueriesTotal => "Total queries (optional qtype label)"
  | BlockedTotal => "Total blocked queries"
  | Dns64SynthesizedTotal => "Total synthesized AAAA from A"
  | QminStepsTotal => "Total QNAME minimization steps"
  | CnameChainTruncatedTotal => "Total truncated CNAME chains"
  | RebindingDetectedTotal => "Total rebinding detections"
  end.

Record MetricsRegistry := { counters : gmap MetricName Z }.

Definition new : MetricsRegistry :=
  {| counters := foldl (λ m name, <[name := 0]> m) ∅ all_metrics |}.

(** [AtomicU64::fetch_add] wraps; a name that is not in the map is skipped. *)
Definition increment (r : MetricsRegistry) (name : MetricName) (delta : Z) : MetricsRegistry :=
  match counters r !! name with
  | Some v => {| counters := <[name := wrap 64 (v + delta)]> (counters r) |}
  | None => r
  end.

Definition read (r : MetricsRegistry) (name : MetricName) : Z :=
  default 0 (counters r !! name).

(** A text followed by a line feed. *)
Definition line (s : string) : string := s +:+ String Str.LF EmptyString.

Definition serialize_one (r : MetricsRegistry) (name : MetricName) : string :=
  line ("# TYPE " +:+ label name +:+ " " +:+ metric_type name) +:+
  line ("# HELP " +:+ label name +:+ " " +:+ description name) +:+
  line (label name +:+ " " +:+ print_dec (read r name)).

Definition serialize (r : MetricsRegistry) : string :=
  foldl (λ out name, out +:+ serialize_one r name) EmptyString all_metrics.

Definition reset (r : MetricsRegistry) : MetricsRegistry :=
  {| counters := (λ _, 0) <$> counters r |}.

(** The registry is filled: every metric has a counter, each within 64 bits. *)
Definition filled (r : MetricsRegistry) : Prop :=
  ∀ name, ∃ v, counters r !! name = Some v ∧ 0 ≤ v < 2 ^ 64.

(** ** Lemmas *)

Lemma new_lookup name : counters new !! name = Some 0.
Proof. by destruct name. Qed.

Lemma new_filled : filled new.
Proof. intros name. exists 0. rewrite new_lookup. done. Qed.

Lemma read_new name : read new name = 0.
Proof. unfold read. by rewrite new_lookup. Qed.

Lemma increment_filled r name delta : filled r → filled (increment r name delta).
Proof.
  intros Hr name'. destruct (Hr name) as (v & Hv & Hrange). unfold increment. rewrite Hv. simpl.
  destruct (decide (name = name')) as [<-|Hne].
  - rewrite lookup_insert_eq. eexists; split; [done|]. apply wrap_range. lia.
  - rewrite lookup_insert_ne by done. apply Hr.
Qed.

Lemma reset_filled r : filled r → filled (reset r).
Proof.
  intros Hr name. destruct (Hr name) as (v & Hv & _). exists 0.
  unfold reset. cbn [counters]. rewrite lookup_fmap, Hv. done.
Qed.

Lemma read_increment r name delta name' :
  filled r →
  read (increment r name delta) name' =
    if decide (name = name') then wrap 64 (read r name + delta) else read r name'.
Proof.
  intros Hr. destruct (Hr name) as (v & Hv & _). unfold read, increment. rewrite Hv. simpl.
  rewrite lookup_insert. by case_decide.
Qed.

Lemma read_increment_eq r name delta :
  filled r → 0 ≤ read r name + delta < 2 ^ 64 →
  read (increment r name delta) name = read r name + delta.
Proof. intros. rewrite read_increment by done. rewrite decide_True by done. by apply wrap_small. Qed.

Lemma read_increment_ne r name delta name' :
  name ≠ name' → read (increment r name delta) name' = read r name'.
Proof.
  intros. unfold read, increment. destruct (counters r !! name); [|done]. cbn [counters].
  by rewrite lookup_insert_ne.
Qed.

Lemma digit_char_not_break d : 0 ≤ d < 16 → digit_char d ≠ Str.LF ∧ digit_char d ≠ Str.CR.
Proof.
  intros Hd. assert (∃ n, (n < 16)%nat ∧ d = Z.of_nat n) as (n & Hn & ->).
  { exists (Z.to_nat d). lia. }
  do 16 (destruct n as [|n]; [split; done|]). lia.
Qed.

Lemma print_radix_no_break fuel x acc c :
  (c = Str.LF ∨ c = Str.CR) → Str.contains c acc = false →
  Str.contains c (print_radix_from fuel 10 x acc) = false.
Proof.
  intros Hc. revert x acc. induction fuel as [|k IH]; intros x acc Hacc; simpl; [done|].
  assert (Str.contains c (String (digit_char (x mod 10)) acc) = false) as Hacc'.
  { simpl. rewrite Hacc, orb_false_r. apply Ascii.eqb_neq.
    destruct (digit_char_not_break (x mod 10)) as [??]; [|destruct Hc; subst; done].
    pose proof (Z.mod_pos_bound x 10). lia. }
  destruct (x <? 10); [done|]. by apply IH.
Qed.

Lemma lines_line s rest :
  Str.contains Str.LF s = false → Str.contains Str.CR s = false →
  Str.lines (line s +:+ rest) = s :: Str.lines rest.
Proof. intros. unfold line. rewrite StrFacts.app_snoc_cons. by apply StrFacts.lines_cons. Qed.

Lemma lines_serialize_one r name rest :
  Str.lines (serialize_one r name +:+ rest) =
    ("# TYPE " +:+ label name +:+ " " +:+ metric_type name)
    :: ("# HELP " +:+ label name +:+ " " +:+ description name)
    :: (label name +:+ " " +:+ print_dec (read r name)) :: Str.lines rest.
Proof.
  pose proof (λ c H, print_radix_no_break 128 (read r name) EmptyString c H eq_refl) as Hp.
  unfold serialize_one. rewrite <- !StrFacts.app_assoc.
  rewrite !lines_line; [done|..]; try (by destruct name);
    rewrite !StrFacts.contains_app; unfold print_dec; rewrite Hp by auto; by destruct name.
Qed.

Lemma lines_serialize r :
  Str.lines (serialize r) =
    all_metrics ≫= λ name,
      ["# TYPE " +:+ label name +:+ " " +:+ metric_type name;
       "# HELP " +:+ label name +:+ " " +:+ description name;
       label name +:+ " " +:+ print_dec (read r name)].
Proof.
  unfold serialize.
  assert (∀ l acc, foldl (λ out name, out +:+ serialize_one r name) acc l
            = acc +:+ foldr (λ name out, serialize_one r name +:+ out) EmptyString l) as ->.
  { induction l as [|m l IH]; intros acc; simpl; [by rewrite StrFacts.app_nil_r|].
    by rewrite IH, <- StrFacts.app_assoc. }
  cbn [String.append].
  induction all_metrics as [|m l IH]; [done|]. cbn [foldr mbind list_bind].
  rewrite lines_serialize_one, IH. done.
Qed.

(** ** The theorem *)

(** A scraper: the value on the line of the label, if it is a 64-bit number. *)
Definition scrape (text : string) (name : MetricName) : option Z :=
  head (omap (λ l, s ← Str.strip_prefix (label name +:+ " ") l; parse_uint u64_max s) (Str.lines text)).

Lemma strip_other_label name name' s :
  name ≠ name' → Str.strip_prefix (label name +:+ " ") (label name' +:+ " " +:+ s) = None.
Proof. by destruct name, name'. Qed.

Lemma strip_own_label name s : Str.strip_prefix (label name +:+ " ") (label name +:+ " " +:+ s) = Some s.
Proof. by destruct name. Qed.

Lemma strip_comment name s t :
  Str.strip_prefix (label name +:+ " ") ("# TYPE " +:+ s) = None ∧
  Str.strip_prefix (label name +:+ " ") ("# HELP " +:+ t) = None.
Proof. by destruct name. Qed.

Lemma scrape_metrics r l name :
  filled r →
  head (omap (λ x, s ← Str.strip_prefix (label name +:+ " ") x; parse_uint u64_max s)
    (l ≫= λ n, ["# TYPE " +:+ label n +:+ " " +:+ metric_type n;
                "# HELP " +:+ label n +:+ " " +:+ description n;
                label n +:+ " " +:+ print_dec (read r n)]))
  = if decide (name ∈ l) then Some (read r name) else None.
Proof.
  intros Hr. induction l as [|n l IH]; [done|].
  match goal with |- context [(n :: l) ≫= ?f] => change ((n :: l) ≫= f) with (f n ++ (l ≫= f)) end.
  cbn [app]. rewrite !list_omap_cons.
  destruct (strip_comment name (label n +:+ " " +:+ metric_type n) (label n +:+ " " +:+ description n)) as [-> ->].
  cbn [mbind option_bind]. destruct (decide (name = n)) as [<-|Hne].
  - rewrite strip_own_label. cbn [mbind option_bind]. destruct (Hr name) as (v & Hv & Hb).
    unfold read at 1. rewrite Hv. cbn [default from_option]. unfold id.
    rewrite parse_print_dec by (unfold u64_max; lia). cbn [head].
    rewrite decide_True by set_solver. unfold read. by rewrite Hv.
  - rewrite strip_other_label by done. cbn [mbind option_bind]. rewrite IH.
    destruct (decide (name ∈ l)); [rewrite decide_True by set_solver|rewrite decide_False by set_solver]; done.
Qed.

(** The text of the metrics endpoint gives every metric back: the value a scraper reads for a
    metric is the value of its counter, before and after an increment of any size (modulo 2^64), and 0
    after a reset. *)
Lemma scrape_serialize r name delta :
  filled r →
  scrape (serialize r) name = Some (read r name) ∧
  scrape (serialize (increment r name delta)) name = Some (wrap 64 (read r name + delta)) ∧
  scrape (serialize (reset r)) name = Some 0.
Proof.
  intros Hr. assert (∀ r', filled r' → scrape (serialize r') name = Some (read r' name)) as Hs.
  { intros r' Hr'. unfold scrape. rewrite lines_serialize, scrape_metrics by done.
    rewrite decide_True; [done|]. destruct name; set_solver. }
  split_and!; [by apply Hs| |].
  - rewrite Hs by by apply increment_filled. by rewrite read_increment, decide_True.
  - rewrite Hs by by apply reset_filled. unfold read, reset. cbn [counters]. rewrite lookup_fmap.
    by destruct (counters r !! name).
Qed.

Lemma scrape_serialize_witness :
  scrape (serialize (increment new CacheHitsTotal 42)) CacheHitsTotal = Some 42.
Proof. exact (proj1 (proj2 (scrape_serialize new CacheHitsTotal 42 new_filled))). Defined.

End Metrics.
