(* ===== verification/Cache.v ===== *)
(** * The response cache ([src/core/cache/mod.rs])

    State: the [Cache] record of the source, with the [HashMap] as a [gmap] and the
    [Vec] of keys as a list.  Instants and durations are integers in nanoseconds; every
    operation that reads the clock takes the current instant.  Where the source iterates
    over the [HashMap], whose order is unspecified, the operation takes the iteration
    order as an argument and the theorems hold for every permutation of the map. *)

From Stdlib Require Import Ascii String ZArith Lia.
From stdpp Require Import base list gmap strings numbers countable fin_maps sorting.
From S2P Require Import Prelude RustString RustNum RustNet Metrics.

Local Open Scope Z_scope.

Module Cache.
Import Metrics.

(** ** Data *)

Record CacheKey := {
  key_qname : string;
  key_qtype : Z;
  key_client_subnet : option (IpAddr * Z)
}.

#[export] Instance CacheKey_eq_dec : EqDecision CacheKey.
Proof. solve_decision. Defined.
#[export] Instance CacheKey_countable : Countable CacheKey.
Proof.
  refine (inj_countable' (λ k, (key_qname k, key_qtype k, key_client_subnet k))
            (λ '(n, t, s), Build_CacheKey n t s) _).
  by intros [].
Defined.

(** Durations in nanoseconds. *)
Definition nanos_per_sec : Z := 1000000000.
Definition from_secs (s : Z) : Z := s * nanos_per_sec.
Definition as_secs (d : Z) : Z := d / nanos_per_sec.
(** The largest [Duration]: [u64::MAX] seconds and 999999999 nanoseconds. *)
Definition duration_max : Z := u64_max * nanos_per_sec + 999999999.

Record CacheEntry := {
  response_bytes : list Z;
  inserted_at : Z;
  original_ttl : Z;
  hit_count : Z;
  last_access : Z
}.

(** [Instant::elapsed], which saturates at zero. *)
Definition elapsed (now t : Z) : Z := Z.max 0 (now - t).

Definition ttl_remaining (now : Z) (e : CacheEntry) : Z :=
  let el := elapsed now (inserted_at e) in
  if original_ttl e <=? el then 0 else original_ttl e - el.

Definition is_expired (now : Z) (e : CacheEntry) : bool := ttl_remaining now e =? 0.

Definition is_stale (now : Z) (e : CacheEntry) (stale_window : Z) : bool :=
  is_expired now e && (elapsed now (inserted_at e) <=? original_ttl e + stale_window).

Record CacheConfig := {
  size_limit : nat;
  serve_stale : Z;
  prefetch : Z
}.

Definition CacheConfig_default : CacheConfig :=
  {| size_limit := Z.to_nat 50000; serve_stale := from_secs 30; prefetch := 2 |}.

Record Cache := {
  config : CacheConfig;
  entries : gmap CacheKey CacheEntry;
  access_order : list CacheKey;
  hits : Z;
  misses : Z
}.

(** ** Operations *)

Definition new (cfg : CacheConfig) : Cache :=
  {| config := cfg; entries := ∅; access_order := []; hits := 0; misses := 0 |}.

Definition touch (now : Z) (e : CacheEntry) : CacheEntry :=
  {| response_bytes := response_bytes e; inserted_at := inserted_at e;
     original_ttl := original_ttl e; hit_count := wrap 64 (hit_count e + 1);
     last_access := now |}.

Definition lookup (now : Z) (c : Cache) (key : CacheKey) : option (list Z * bool * Z) * Cache :=
  match entries c !! key with
  | None => (None, c)
  | Some entry =>
      let stale := is_stale now entry (serve_stale (config c)) in
      let entry' := touch now entry in
      (Some (response_bytes entry', stale, hit_count entry'),
       {| config := config c; entries := <[key := entry']> (entries c);
          access_order := access_order c; hits := wrap 64 (hits c + 1); misses := misses c |})
  end.

Definition record_miss (c : Cache) (m : MetricsRegistry) : Cache * MetricsRegistry :=
  ({| config := config c; entries := entries c; access_order := access_order c;
      hits := hits c; misses := wrap 64 (misses c + 1) |},
   increment m CacheMissesTotal 1).

Definition lookup_with_metrics (now : Z) (c : Cache) (m : MetricsRegistry) (key : CacheKey) :
    option (list Z * bool * Z) * Cache * MetricsRegistry :=
  match lookup now c key with
  | (Some r, c') => (Some r, c', increment m CacheHitsTotal 1)
  | (None, c') => let '(c'', m') := record_miss c' m in (None, c'', m')
  end.

Definition key_is_expired (now : Z) (c : Cache) (key : CacheKey) : bool :=
  match entries c !! key with Some e => is_expired now e | None => true end.

(** [Vec::retain(|k| k != key)]. *)
Definition retain_ne (key : CacheKey) (l : list CacheKey) : list CacheKey :=
  filter (λ k, k ≠ key) l.

Definition evict_lru (c : Cache) : Cache :=
  match access_order c with
  | [] => c
  | oldest :: rest =>
      {| config := config c; entries := delete oldest (entries c); access_order := rest;
         hits := hits c; misses := misses c |}
  end.

(** The [while] loop at the head of [insert]; [None] when the fuel runs out. *)
Fixpoint evict_while (fuel : nat) (c : Cache) : option Cache :=
  if (size_limit (config c) <=? size (entries c))%nat then
    match fuel with O => None | S k => evict_while k (evict_lru c) end
  else Some c.

Definition fresh_entry (now : Z) (bytes : list Z) (ttl : Z) : CacheEntry :=
  {| response_bytes := bytes; inserted_at := now; original_ttl := ttl; hit_count := 0;
     last_access := now |}.

(** The part of [insert] after the loop. *)
Definition store (now : Z) (c : Cache) (key : CacheKey) (bytes : list Z) (ttl : Z) : Cache :=
  let order := match entries c !! key with
               | Some _ => retain_ne key (access_order c)
               | None => access_order c
               end in
  {| config := config c; entries := <[key := fresh_entry now bytes ttl]> (entries c);
     access_order := order ++ [key]; hits := hits c; misses := misses c |}.

(** One round of the loop takes a key off [access_order] or changes nothing, so a run that
    has not stopped after [S (length (access_order c))] rounds never stops: [None] is
    divergence. *)
Definition insert (now : Z) (c : Cache) (key : CacheKey) (bytes : list Z) (ttl : Z) : option Cache :=
  c' ← evict_while (S (length (access_order c))) c;
  Some (store now c' key bytes ttl).

(** Expired, and past the serve-stale window too. *)
Definition is_dead (now window : Z) (e : CacheEntry) : bool :=
  is_expired now e && negb (is_stale now e window).

Definition drop_key (c : Cache) (key : CacheKey) : Cache :=
  {| config := config c; entries := delete key (entries c);
     access_order := retain_ne key (access_order c); hits := hits c; misses := misses c |}.

(** [iter] is the order in which the [HashMap] yields its items. *)
Definition reap_expired (now : Z) (iter : list (CacheKey * CacheEntry)) (c : Cache) : Cache :=
  let expired := (filter (λ p, is_dead now (serve_stale (config c)) p.2 = true) iter).*1 in
  foldl drop_key c expired.

Definition len (c : Cache) : nat := size (entries c).
Definition is_empty (c : Cache) : bool := (len c =? 0)%nat.

(** The product is a wrapping [u64] multiplication. *)
Definition should_prefetch (now : Z) (c : Cache) (key : CacheKey) : bool :=
  if prefetch (config c) =? 0 then false
  else match entries c !! key with
       | Some e =>
           ttl_remaining now e <? from_secs (wrap 64 (prefetch (config c) * hit_count e))
       | None => false
       end.

Definition clear (c : Cache) : Cache :=
  {| config := config c; entries := ∅; access_order := []; hits := 0; misses := 0 |}.

(** ** Persistence

    [std::fs] and [serde_json] are parameters: a file system with fallible reads and writes,
    and a fallible encoder of snapshots with its decoder. *)

(** A row of the snapshot: key, response, whole seconds of the TTL, hit count. *)
Definition SnapshotRow : Type := CacheKey * list Z * Z * Z.

Inductive IoError :=
  | NotFound
  | InvalidData
  | IoOther.

(** What the persistence code uses of the outside world, with the two facts it relies on:
    a file reads back as it was written, and a snapshot decodes to what was encoded. *)
Class Storage := {
  Fs : Type;
  fs_read_to_string : Fs → string → result IoError string;
  fs_write : Fs → string → string → result IoError Fs;
  json_to_string : list SnapshotRow → option string;
  json_from_str : string → option (list SnapshotRow);
  fs_write_read fs path s fs' :
    fs_write fs path s = Ok fs' → fs_read_to_string fs' path = Ok s;
  json_roundtrip rows s : json_to_string rows = Some s → json_from_str s = Some rows
}.

Section Persistence.
Context `{Storage}.

Definition snapshot_row (p : CacheKey * CacheEntry) : SnapshotRow :=
  (p.1, response_bytes p.2, as_secs (original_ttl p.2), hit_count p.2).

(** [iter] is the order in which the [HashMap] yields its items. *)
Definition save_to_file (iter : list (CacheKey * CacheEntry)) (fs : Fs) (path : string) :
    result IoError Fs :=
  encoded ← ok_or IoOther (json_to_string (snapshot_row <$> iter));
  fs_write fs path encoded.

Definition set_hit_count (n : Z) (e : CacheEntry) : CacheEntry :=
  {| response_bytes := response_bytes e; inserted_at := inserted_at e;
     original_ttl := original_ttl e; hit_count := n; last_access := last_access e |}.

(** The body of the loading loop, [None] if [insert] does not return. *)
Definition load_row (now : Z) (c : Cache) (row : SnapshotRow) : option Cache :=
  let '(key, bytes, ttl_sec, n) := row in
  c' ← insert now c key bytes (from_secs ttl_sec);
  Some {| config := config c'; entries := alter (set_hit_count n) key (entries c');
          access_order := access_order c'; hits := hits c'; misses := misses c' |}.

Fixpoint load_rows (now : Z) (c : Cache) (rows : list SnapshotRow) : option Cache :=
  match rows with
  | [] => Some c
  | row :: rest => c' ← load_row now c row; load_rows now c' rest
  end.

Definition load_config (rows : list SnapshotRow) : CacheConfig :=
  {| size_limit := Nat.max (length rows) 100; serve_stale := from_secs 30; prefetch := 0 |}.

(** The outer option is divergence, as in [insert]. *)
Definition load_from_file (now : Z) (fs : Fs) (path : string) : option (result IoError Cache) :=
  match fs_read_to_string fs path with
  | Err e => Some (Err e)
  | Ok text =>
      match json_from_str text with
      | None => Some (Err InvalidData)
      | Some rows => Ok <$> load_rows now (new (load_config rows)) rows
      end
  end.

End Persistence.

End Cache.
