(* ===== verification/CacheSpec.v ===== *)
(** * Correctness of the response cache

    The abstract cache is a queue of bindings, oldest first: [insert] drops from the front
    until there is room, removes the old binding of the key and appends the new one.  The
    implementation refines it ([absr]), and its map and its key list stay consistent in
    every reachable state ([wf]). *)

From Stdlib Require Import Ascii String ZArith Lia.
From stdpp Require Import base list gmap strings numbers countable fin_maps sorting.
From S2P Require Import Prelude RustString RustNum RustNet Metrics Cache.

Local Open Scope Z_scope.

Module CacheSpec.
Import Metrics Cache.

(** ** The invariant *)

(** The key list has no duplicates, holds exactly the keys of the map, and the map has at
    most [size_limit] entries. *)
Record wf (c : Cache) : Prop := {
  wf_nodup : NoDup (access_order c);
  wf_dom k : k ∈ access_order c ↔ is_Some (entries c !! k);
  wf_bound : (size (entries c) ≤ size_limit (config c))%nat
}.

Lemma wf_dom_set c : wf c → dom (entries c) = list_to_set (access_order c).
Proof.
  intros Hwf. apply set_eq. intros k. rewrite elem_of_dom, elem_of_list_to_set.
  symmetry. apply (wf_dom c Hwf).
Qed.

Lemma wf_size c : wf c → size (entries c) = length (access_order c).
Proof.
  intros Hwf. rewrite <- size_dom, (wf_dom_set c Hwf).
  apply size_list_to_set, (wf_nodup c Hwf).
Qed.

Lemma wf_new cfg : wf (new cfg).
Proof.
  split; simpl; [by apply NoDup_nil| |].
  - intros k. rewrite lookup_empty. split; [by intros ?%elem_of_nil|by intros [??]].
  - rewrite map_size_empty. lia.
Qed.

Lemma wf_clear c : wf c → wf (clear c).
Proof. intros _. apply (wf_new (config c)). Qed.

(** Replacing an entry of the map in place keeps the invariant. *)
Lemma wf_update c key (e : CacheEntry) h ms :
  wf c → is_Some (entries c !! key) →
  wf {| config := config c; entries := <[key := e]> (entries c);
        access_order := access_order c; hits := h; misses := ms |}.
Proof.
  intros [Hnd Hdom Hb] Hk. split; simpl; [done| |].
  - intros k. rewrite Hdom. destruct (decide (key = k)) as [<-|Hne].
    + by rewrite lookup_insert_eq.
    + by rewrite lookup_insert_ne.
  - destruct Hk as [e0 He0]. by rewrite map_size_insert_Some by (by eexists).
Qed.

Lemma wf_lookup now c key : wf c → wf (lookup now c key).2.
Proof.
  intros Hwf. unfold lookup. destruct (entries c !! key) eqn:E; simpl; [|done].
  apply wf_update; [done|]. by eexists.
Qed.

Lemma wf_record_miss c m : wf c → wf (record_miss c m).1.
Proof. intros [???]. by split. Qed.

Lemma wf_lookup_with_metrics now c m key : wf c → wf (lookup_with_metrics now c m key).1.2.
Proof.
  intros Hwf%(wf_lookup now c key). unfold lookup_with_metrics.
  destruct (lookup now c key) as [[r|] c']; simpl in *; [done|]. by apply (wf_record_miss c' m).
Qed.

Lemma elem_of_retain_ne key k l : k ∈ retain_ne key l ↔ k ≠ key ∧ k ∈ l.
Proof. unfold retain_ne. by rewrite list_elem_of_filter. Qed.

Lemma wf_drop_key c key : wf c → wf (drop_key c key).
Proof.
  intros [Hnd Hdom Hb]. split; simpl.
  - by apply NoDup_filter.
  - intros k. rewrite elem_of_retain_ne, Hdom. destruct (decide (key = k)) as [<-|Hne].
    + rewrite lookup_delete_eq. split; [naive_solver|by intros [??]].
    + rewrite lookup_delete_ne by done. naive_solver.
  - etrans; [|done]. apply map_subseteq_size, delete_subseteq.
Qed.

Lemma wf_reap now iter c : wf c → wf (reap_expired now iter c).
Proof.
  unfold reap_expired. apply foldl_invariant. intros; by apply wf_drop_key.
Qed.

Lemma evict_lru_cons c oldest rest :
  access_order c = oldest :: rest → wf c → evict_lru c = drop_key c oldest.
Proof.
  intros E [Hnd _ _]. unfold evict_lru, drop_key. rewrite E in Hnd |- *. f_equal.
  apply NoDup_cons in Hnd as [Hnot _]. unfold retain_ne.
  rewrite filter_cons_False by naive_solver. symmetry. apply list_filter_id.
  intros k Hk ->. done.
Qed.

Lemma evict_lru_nil c : access_order c = [] → evict_lru c = c.
Proof. intros E. unfold evict_lru. by rewrite E. Qed.

Lemma wf_evict c : wf c → wf (evict_lru c).
Proof.
  intros Hwf. destruct (access_order c) as [|k l] eqn:E.
  - unfold evict_lru. by rewrite E.
  - rewrite (evict_lru_cons c k l) by done. by apply wf_drop_key.
Qed.

Lemma config_evict c : config (evict_lru c) = config c.
Proof. unfold evict_lru. by destruct (access_order c). Qed.

Lemma wf_store now c key bytes ttl :
  wf c → (size (entries c) < size_limit (config c))%nat → wf (store now c key bytes ttl).
Proof.
  intros [Hnd Hdom Hb] Hlt. unfold store. destruct (entries c !! key) as [e|] eqn:E; split; simpl.
  - apply NoDup_app. split_and!.
    + by apply NoDup_filter.
    + intros k [Hk _]%elem_of_retain_ne Hk'%list_elem_of_singleton. done.
    + apply NoDup_singleton.
  - intros k. rewrite elem_of_app, elem_of_retain_ne, list_elem_of_singleton, Hdom.
    destruct (decide (key = k)) as [<-|Hne].
    + rewrite lookup_insert_eq. naive_solver.
    + rewrite lookup_insert_ne by done. naive_solver.
  - rewrite map_size_insert_Some by (by eexists). lia.
  - apply NoDup_app. split_and!; [done| |apply NoDup_singleton].
    intros k Hk ->%list_elem_of_singleton. apply Hdom in Hk as [??]. congruence.
  - intros k. rewrite elem_of_app, list_elem_of_singleton, Hdom.
    destruct (decide (key = k)) as [<-|Hne].
    + rewrite lookup_insert_eq. naive_solver.
    + rewrite lookup_insert_ne by done. naive_solver.
  - rewrite map_size_insert_None by done. lia.
Qed.

(** ** The abstract cache: a bounded queue of bindings, oldest first *)

Notation queue := (list (CacheKey * CacheEntry)).

(** Drops from the front until fewer than [limit] bindings are left. *)
Definition spec_evict (limit : nat) (q : queue) : queue := drop (S (length q) - limit) q.

Definition spec_remove (key : CacheKey) (q : queue) : queue := filter (λ p, p.1 ≠ key) q.

Definition spec_insert (limit : nat) (key : CacheKey) (e : CacheEntry) (q : queue) : queue :=
  spec_remove key (spec_evict limit q) ++ [(key, e)].

Definition spec_reap (now window : Z) (q : queue) : queue :=
  filter (λ p, is_dead now window p.2 = false) q.

(** The bindings of a map in the order of a list of keys. *)
Definition bindings (m : gmap CacheKey CacheEntry) (l : list CacheKey) : queue :=
  omap (λ k, pair k <$> m !! k) l.

(** The abstraction function: the key list with the entries of the map. *)
Definition absr (c : Cache) : queue := bindings (entries c) (access_order c).

Lemma bindings_cons m k l :
  bindings m (k :: l) = match m !! k with Some e => (k, e) :: bindings m l | None => bindings m l end.
Proof. unfold bindings. simpl. by destruct (m !! k). Qed.

Lemma bindings_app m l l' : bindings m (l ++ l') = bindings m l ++ bindings m l'.
Proof. apply omap_app. Qed.

Lemma bindings_elem m l k e : (k, e) ∈ bindings m l ↔ k ∈ l ∧ m !! k = Some e.
Proof.
  unfold bindings. rewrite list_elem_of_omap. setoid_rewrite fmap_Some. naive_solver.
Qed.

Lemma bindings_ext m m' l :
  (∀ k, k ∈ l → m !! k = m' !! k) → bindings m l = bindings m' l.
Proof.
  induction l as [|k l IH]; intros Hl; [done|].
  rewrite !bindings_cons, (Hl k), IH by set_solver. done.
Qed.

Lemma bindings_keys m l : (∀ k, k ∈ l → is_Some (m !! k)) → (bindings m l).*1 = l.
Proof.
  induction l as [|k l IH]; intros Hl; [done|]. rewrite bindings_cons.
  destruct (Hl k) as [e ->]; [set_solver|]. rewrite fmap_cons, IH by set_solver. done.
Qed.

Lemma bindings_remove m l key :
  bindings (delete key m) (retain_ne key l) = spec_remove key (bindings m l).
Proof.
  unfold spec_remove, retain_ne. induction l as [|k l IH]; [done|]. rewrite bindings_cons.
  destruct (decide (k = key)) as [->|Hne].
  - rewrite filter_cons_False by naive_solver.
    destruct (m !! key); [rewrite filter_cons_False by naive_solver|]; exact IH.
  - rewrite filter_cons_True, bindings_cons, lookup_delete_ne by done.
    destruct (m !! k); [rewrite filter_cons_True by done; f_equal|]; exact IH.
Qed.

Lemma absr_elem c k e : wf c → (k, e) ∈ absr c ↔ entries c !! k = Some e.
Proof.
  intros Hwf. unfold absr. rewrite bindings_elem. split; [naive_solver|].
  intros He. split; [|done]. apply (wf_dom c Hwf). by eexists.
Qed.

Lemma absr_keys c : wf c → (absr c).*1 = access_order c.
Proof. intros Hwf. apply bindings_keys. intros k. apply (wf_dom c Hwf). Qed.

Lemma length_absr c : wf c → length (absr c) = size (entries c).
Proof. intros Hwf. by rewrite (wf_size c Hwf), <- (absr_keys c Hwf), length_fmap. Qed.

Lemma absr_drop_key c key : absr (drop_key c key) = spec_remove key (absr c).
Proof. apply bindings_remove. Qed.

Lemma spec_remove_head key e q :
  NoDup ((key, e) :: q).*1 → spec_remove key ((key, e) :: q) = q.
Proof.
  rewrite fmap_cons. intros [Hk _]%NoDup_cons. unfold spec_remove.
  rewrite filter_cons_False by naive_solver.
  apply list_filter_id. intros [k' e'] Hin Heq. simpl in Heq. subst. apply Hk.
  apply list_elem_of_fmap. by exists (key, e').
Qed.

Lemma absr_evict c : wf c → absr (evict_lru c) = tail (absr c).
Proof.
  intros Hwf. destruct (access_order c) as [|k l] eqn:E.
  { rewrite evict_lru_nil by done. unfold absr. by rewrite E. }
  rewrite (evict_lru_cons c k l), absr_drop_key by done.
  destruct (wf_dom c Hwf k) as [[e He] _]; [rewrite E; set_solver|].
  assert (NoDup (absr c).*1) as Hnd by (rewrite absr_keys by done; apply (wf_nodup c Hwf)).
  unfold absr in *. rewrite E, bindings_cons, He in Hnd |- *. by apply spec_remove_head.
Qed.

(** ** The eviction loop *)

(** The loop stops within [fuel] rounds, having evicted what the abstract cache evicts. *)
Lemma evict_while_refines fuel c :
  wf c → (0 < size_limit (config c))%nat → (length (access_order c) < fuel)%nat →
  ∃ c', evict_while fuel c = Some c' ∧ wf c' ∧ config c' = config c ∧ hits c' = hits c ∧
    misses c' = misses c ∧ (size (entries c') < size_limit (config c))%nat ∧
    absr c' = spec_evict (size_limit (config c)) (absr c).
Proof.
  revert c. induction fuel as [|fuel IH]; intros c Hwf Hpos Hfuel; [lia|].
  cbn [evict_while]. unfold spec_evict. rewrite (length_absr c Hwf).
  destruct (_ <=? _)%nat eqn:Hcmp; breflect.
  - destruct (access_order c) as [|k l] eqn:E.
    { rewrite (wf_size c Hwf), E in Hcmp. simpl in Hcmp. lia. }
    assert (length (access_order (evict_lru c)) = length l) as Hl.
    { unfold evict_lru. by rewrite E. }
    assert (hits (evict_lru c) = hits c ∧ misses (evict_lru c) = misses c) as [Hh Hm].
    { unfold evict_lru. by rewrite E. }
    pose proof (wf_evict c Hwf) as Hwf'. pose proof (config_evict c) as Hcfg.
    destruct (IH (evict_lru c)) as (c' & Hrun & Hc' & Hcfg' & Hh' & Hm' & Hlt & Habs);
      [done|by rewrite Hcfg|rewrite Hl; simpl in Hfuel; lia|].
    exists c'. rewrite Hcfg in *. repeat (split; [congruence|]). rewrite Habs.
    unfold spec_evict. rewrite (length_absr _ Hwf'), (wf_size _ Hwf'), Hl, (absr_evict c Hwf).
    rewrite (wf_size c Hwf), E in Hcmp |- *. simpl in Hcmp |- *.
    replace (S (S (length l)) - size_limit (config c))%nat
      with (S (S (length l) - size_limit (config c))) by lia.
    destruct (absr c); cbn [tail]; [by rewrite !drop_nil|done].
  - exists c. repeat (split; [done|]).
    replace (S (size (entries c)) - size_limit (config c))%nat with 0%nat by lia. done.
Qed.

(** More fuel than [insert] gives the loop changes nothing: a run that has not stopped by
    then never stops. *)
Lemma evict_while_fuel fuel c :
  (length (access_order c) < fuel)%nat →
  evict_while fuel c = evict_while (S (length (access_order c))) c.
Proof.
  assert (∀ n d, access_order d = [] → (size_limit (config d) ≤ size (entries d))%nat →
            evict_while n d = None) as Hstuck.
  { induction n as [|n IHn]; intros d Hd Hle; cbn [evict_while];
      (rewrite (proj2 (Nat.leb_le _ _) Hle)); [done|].
    rewrite evict_lru_nil by done. by apply IHn. }
  revert c. induction fuel as [|fuel IH]; intros c Hf; [lia|].
  cbn [evict_while]. destruct (_ <=? _)%nat eqn:E; [|done]. breflect.
  destruct (access_order c) as [|k l] eqn:Ho.
  - rewrite evict_lru_nil by done. rewrite !Hstuck by done. done.
  - assert (length (access_order (evict_lru c)) = length l) as Hl.
    { unfold evict_lru. by rewrite Ho. }
    simpl in Hf. rewrite (IH (evict_lru c)) by lia. by rewrite Hl.
Qed.

Lemma absr_store now c key bytes ttl :
  wf c → absr (store now c key bytes ttl) =
    spec_remove key (absr c) ++ [(key, fresh_entry now bytes ttl)].
Proof.
  intros Hwf. unfold store, absr. cbn [access_order entries].
  rewrite bindings_app, (bindings_cons _ key), lookup_insert_eq. f_equal.
  rewrite <- bindings_remove.
  assert (match entries c !! key with Some _ => retain_ne key (access_order c) | None => access_order c end
          = retain_ne key (access_order c)) as ->.
  { destruct (entries c !! key) eqn:E; [done|]. symmetry. apply list_filter_id.
    intros k Hk ->. apply (wf_dom c Hwf) in Hk as [??]. congruence. }
  apply bindings_ext. intros k [Hk _]%elem_of_retain_ne.
  by rewrite lookup_insert_ne, lookup_delete_ne.
Qed.

(** ** Operations as steps

    The cache is shared behind a lock: tasks interleave whole operations.  A step is one
    operation by any task at any instant, together with its effect on the global metrics. *)

Inductive step : Cache * MetricsRegistry → Cache * MetricsRegistry → Prop :=
  | step_lookup now key c m : step (c, m) ((lookup now c key).2, m)
  | step_lookup_with_metrics now key c m r c' m' :
      lookup_with_metrics now c m key = (r, c', m') → step (c, m) (c', m')
  | step_record_miss c m : step (c, m) (record_miss c m)
  | step_insert now key bytes ttl c m c' :
      insert now c key bytes ttl = Some c' → step (c, m) (c', m)
  | step_reap now iter c m :
      iter ≡ₚ map_to_list (entries c) → step (c, m) (reap_expired now iter c, m)
  | step_clear c m : step (c, m) (clear c, m).

(** ** Reaping *)

Lemma foldl_drop_key_entries (l : list CacheKey) c k :
  entries (foldl drop_key c l) !! k = if decide (k ∈ l) then None else entries c !! k.
Proof.
  revert c. induction l as [|x l IH]; intros c; simpl; [done|].
  rewrite IH. simpl. destruct (decide (k ∈ l)) as [Hin|Hnin].
  - by rewrite decide_True by set_solver.
  - destruct (decide (x = k)) as [->|Hne].
    + rewrite lookup_delete_eq, decide_True by set_solver. done.
    + rewrite lookup_delete_ne, decide_False by set_solver. done.
Qed.

Lemma foldl_drop_key_absr (l : list CacheKey) c :
  absr (foldl drop_key c l) = filter (λ p, p.1 ∉ l) (absr c).
Proof.
  revert c. induction l as [|x l IH]; intros c; simpl.
  - symmetry. apply list_filter_id. set_solver.
  - rewrite IH, absr_drop_key. unfold spec_remove. rewrite list_filter_filter.
    apply list_filter_iff. intros [k e]. simpl. set_solver.
Qed.

Lemma foldl_drop_key_rest (l : list CacheKey) c :
  config (foldl drop_key c l) = config c ∧ hits (foldl drop_key c l) = hits c ∧
  misses (foldl drop_key c l) = misses c.
Proof. revert c. induction l as [|x l IH]; intros c; simpl; [done|]. apply (IH (drop_key c x)). Qed.

Lemma reaped_keys now iter c k :
  iter ≡ₚ map_to_list (entries c) →
  k ∈ (filter (λ p : CacheKey * CacheEntry, is_dead now (serve_stale (config c)) p.2 = true) iter).*1 ↔
  ∃ e, entries c !! k = Some e ∧ is_dead now (serve_stale (config c)) e = true.
Proof.
  intros Hiter. rewrite list_elem_of_fmap. setoid_rewrite list_elem_of_filter.
  setoid_rewrite Hiter. split.
  - intros ([k' e] & -> & Hd & He%elem_of_map_to_list). by exists e.
  - intros (e & He & Hd). exists (k, e). rewrite elem_of_map_to_list. done.
Qed.

Lemma reap_lookup now iter c k :
  iter ≡ₚ map_to_list (entries c) →
  entries (reap_expired now iter c) !! k =
    (e ← entries c !! k; if is_dead now (serve_stale (config c)) e then None else Some e).
Proof.
  intros Hiter. unfold reap_expired. rewrite foldl_drop_key_entries.
  case_decide as Hk; rewrite (reaped_keys now iter c k Hiter) in Hk.
  - destruct Hk as (e & He & Hd). rewrite He. simpl. by rewrite Hd.
  - destruct (entries c !! k) as [e|] eqn:He; [|done]. simpl.
    destruct (is_dead now (serve_stale (config c)) e) eqn:Hd; [|done].
    destruct Hk. by exists e.
Qed.

Lemma reap_absr now iter c :
  wf c → iter ≡ₚ map_to_list (entries c) →
  absr (reap_expired now iter c) = spec_reap now (serve_stale (config c)) (absr c).
Proof.
  intros Hwf Hiter. unfold reap_expired. rewrite foldl_drop_key_absr. unfold spec_reap.
  apply list_filter_iff_in. intros [k e] He%(absr_elem c k e Hwf).
  simpl. rewrite (reaped_keys now iter c k Hiter), <- not_true_iff_false.
  split; [|intros Hd (e' & He' & Hd'); congruence]. intros Hn Hd. apply Hn. by exists e.
Qed.

(** ** Insertion *)

Lemma insert_run now c key bytes ttl :
  wf c → (0 < size_limit (config c))%nat →
  ∃ c', insert now c key bytes ttl = Some c' ∧ wf c' ∧ config c' = config c ∧
    hits c' = hits c ∧ misses c' = misses c ∧
    absr c' = spec_insert (size_limit (config c)) key (fresh_entry now bytes ttl) (absr c).
Proof.
  intros Hwf Hpos.
  destruct (evict_while_refines (S (length (access_order c))) c)
    as (c1 & Hrun & Hwf1 & Hcfg & Hh & Hm & Hlt & Habs); [done|done|lia|].
  exists (store now c1 key bytes ttl). unfold insert. rewrite Hrun. split; [done|].
  rewrite <- Hcfg in Hlt. split_and!; [by apply wf_store|done|done|done|].
  rewrite absr_store by done. by rewrite Habs.
Qed.

Lemma config_lookup now c key : config (lookup now c key).2 = config c.
Proof. unfold lookup. by destruct (entries c !! key). Qed.

Lemma access_order_lookup now c key : access_order (lookup now c key).2 = access_order c.
Proof. unfold lookup. by destruct (entries c !! key). Qed.

Lemma step_keeps c m c' m' :
  step (c, m) (c', m') → wf c → (0 < size_limit (config c))%nat → filled m →
  wf c' ∧ config c' = config c ∧ filled m'.
Proof.
  inversion_clear 1; intros Hwf Hpos Hm.
  - split_and!; [by apply wf_lookup|apply config_lookup|done].
  - match goal with H : lookup_with_metrics _ _ _ _ = _ |- _ => rename H into Hl end.
    pose proof (wf_lookup_with_metrics now c m key Hwf) as Hwf'. rewrite Hl in Hwf'.
    pose proof (config_lookup now c key) as Hcfg. unfold lookup_with_metrics in Hl.
    destruct (lookup now c key) as [[r'|] c1]; simpl in *; simplify_eq;
      split_and!; try done; by apply increment_filled.
  - split_and!; [by apply (wf_record_miss c m)|done|by apply increment_filled].
  - match goal with H : insert _ _ _ _ _ = _ |- _ => rename H into Hi end.
    destruct (insert_run now c key bytes ttl Hwf Hpos) as (c1 & Hi' & Hwf' & Hcfg & _).
    simplify_eq. done.
  - split_and!; [by apply wf_reap| |done]. apply foldl_drop_key_rest.
  - split_and!; [by apply wf_clear|done|done].
Qed.

Lemma steps_keep x y :
  rtc step x y → wf x.1 → (0 < size_limit (config x.1))%nat → filled x.2 →
  wf y.1 ∧ config y.1 = config x.1 ∧ filled y.2.
Proof.
  induction 1 as [x|[c m] [c1 m1] z Hs _ IH]; intros Hwf Hpos Hm; [done|]. simpl in *.
  destruct (step_keeps c m c1 m1 Hs Hwf Hpos Hm) as (Hwf1 & Hcfg & Hm1).
  rewrite <- Hcfg in Hpos |- *. by apply IH.
Qed.

Lemma lookups_keep lks c :
  wf c → let c' := foldl (λ c '(t, k), (lookup t c k).2) c lks in
  wf c' ∧ config c' = config c ∧ access_order c' = access_order c.
Proof.
  revert c. induction lks as [|[t k] lks IH]; intros c Hwf; simpl; [done|].
  destruct (IH (lookup t c k).2) as (Hwf' & Hcfg & Ho); [by apply wf_lookup|].
  by rewrite Hcfg, Ho, config_lookup, access_order_lookup.
Qed.

Lemma is_expired_iff now e :
  is_expired now e = true ↔ original_ttl e ≤ elapsed now (inserted_at e).
Proof.
  unfold is_expired, ttl_remaining. split_match; breflect; rewrite Z.eqb_eq; lia.
Qed.

End CacheSpec.
