(* ===== verification/CacheProps.v ===== *)
(** * Properties of the response cache

    The theorems about [Cache] (operations), [CacheSpec] (invariant, abstract queue). *)

From Stdlib Require Import Ascii String ZArith Lia.
From stdpp Require Import base list gmap strings numbers countable fin_maps sorting relations.
From S2P Require Import Prelude RustString RustNum RustNet Metrics Cache CacheSpec.

Local Open Scope Z_scope.

Module CacheProps.
Import Metrics Cache CacheSpec.

(** ** Loading a snapshot *)

(** What a saved entry becomes: its clock restarts and its TTL loses the fraction. *)
Definition loaded_entry (now : Z) (e : CacheEntry) : CacheEntry :=
  {| response_bytes := response_bytes e; inserted_at := now;
     original_ttl := from_secs (as_secs (original_ttl e)); hit_count := hit_count e;
     last_access := now |}.

Lemma insert_room now c key bytes ttl :
  (size (entries c) < size_limit (config c))%nat →
  insert now c key bytes ttl = Some (store now c key bytes ttl).
Proof.
  intros Hlt. unfold insert. cbn [evict_while].
  by rewrite (proj2 (Nat.leb_gt _ _) Hlt).
Qed.

Lemma load_row_snapshot now c k e :
  (size (entries c) < size_limit (config c))%nat →
  ∃ c', load_row now c (snapshot_row (k, e)) = Some c' ∧ config c' = config c ∧
    entries c' = <[k := loaded_entry now e]> (entries c).
Proof.
  intros Hlt. unfold load_row, snapshot_row. cbn [fst snd]. rewrite insert_room by done.
  eexists. split; [done|]. split; [done|]. cbn [entries store].
  by rewrite alter_insert_eq.
Qed.

Lemma load_rows_snapshot now l c :
  NoDup l.*1 → (size (entries c) + length l ≤ size_limit (config c))%nat →
  ∃ c', load_rows now c (snapshot_row <$> l) = Some c' ∧ config c' = config c ∧
    entries c' = (loaded_entry now <$> (list_to_map l : gmap CacheKey CacheEntry)) ∪ entries c.
Proof.
  revert c. induction l as [|[k e] l IH]; intros c Hnd Hsz.
  { exists c. split_and!; [done|done|]. rewrite list_to_map_nil, fmap_empty. by rewrite (left_id_L ∅ (∪)). }
  rewrite fmap_cons in Hnd. apply NoDup_cons in Hnd as [Hk Hnd].
  destruct (load_row_snapshot now c k e) as (c1 & Hrow & Hcfg & Hent); [simpl in Hsz; lia|].
  destruct (IH c1 Hnd) as (c' & Hrun & Hcfg' & Hent').
  { rewrite Hent, Hcfg. simpl in Hsz. pose proof (map_size_insert k (loaded_entry now e) (entries c)) as Hs.
    destruct (entries c !! k); simpl in Hs; lia. }
  exists c'. rewrite fmap_cons. cbn [load_rows]. rewrite Hrow. cbn [mbind option_bind].
  split_and!; [done|congruence|].
  rewrite Hent', Hent, list_to_map_cons, fmap_insert, <- insert_union_l, insert_union_r; [done|].
  rewrite lookup_fmap, not_elem_of_list_to_map_1 by done. done.
Qed.

(** ** The theorems *)

(** C3: Whatever sequence of cache operations tasks interleave, at whatever instants, from a
    fresh cache with a positive size, the key list and the map of every reachable state
    agree (no duplicate, same keys), the map never exceeds the configured size, the
    configuration is unchanged and the global counters stay in range. *)
Theorem reachable_wf cfg m c m' :
  (0 < size_limit cfg)%nat → filled m → rtc step (new cfg, m) (c, m') →
  wf c ∧ config c = cfg ∧ (len c ≤ size_limit cfg)%nat ∧ filled m'.
Proof.
  intros Hpos Hm Hsteps.
  destruct (steps_keep _ _ Hsteps) as (Hwf & Hcfg & Hm'); [apply wf_new|done|done|].
  simpl in *. split_and!; [done|done| |done]. rewrite <- Hcfg. apply (wf_bound c Hwf).
Qed.

(** On a consistent cache with a positive size the operations implement a bounded queue
    of bindings, oldest first: [insert] returns and drops bindings from the front until there
    is room, removes the old binding of the key and appends the new one; [reap_expired]
    filters the queue by the serve-stale window; [lookup] finds exactly the bindings of the
    queue. *)
Lemma operations_refine_queue c now iter key bytes ttl :
  wf c → (0 < size_limit (config c))%nat → iter ≡ₚ map_to_list (entries c) →
  (∃ c', insert now c key bytes ttl = Some c' ∧ wf c' ∧
     absr c' = spec_insert (size_limit (config c)) key (fresh_entry now bytes ttl) (absr c)) ∧
  absr (reap_expired now iter c) = spec_reap now (serve_stale (config c)) (absr c) ∧
  (∀ e, (key, e) ∈ absr c ↔
     (lookup now c key).1 = Some (response_bytes e, is_stale now e (serve_stale (config c)),
                                  wrap 64 (hit_count e + 1)) ∧ entries c !! key = Some e).
Proof.
  intros Hwf Hpos Hiter. split_and!.
  - destruct (insert_run now c key bytes ttl Hwf Hpos) as (c' & Hi & Hwf' & _ & _ & _ & Habs).
    by exists c'.
  - by apply reap_absr.
  - intros e. rewrite absr_elem by done. unfold lookup. split; [|tauto].
    intros He. by rewrite He.
Qed.

(** C13: The eviction loop of [insert] stops on every consistent cache with a positive size;
    with size 0 it does not stop, whatever the number of rounds. *)
Theorem insert_returns_iff_positive_size now c key bytes ttl :
  wf c →
  (is_Some (insert now c key bytes ttl) ↔ (0 < size_limit (config c))%nat) ∧
  (size_limit (config c) = 0%nat → ∀ fuel, evict_while fuel c = None).
Proof.
  intros Hwf.
  assert (size_limit (config c) = 0%nat → ∀ fuel, evict_while fuel c = None) as H0.
  { intros Hz fuel. revert c Hwf Hz. induction fuel as [|fuel IH]; intros c Hwf Hz;
      cbn [evict_while]; rewrite Hz; [done|]. cbn [Nat.leb].
    apply IH; [by apply wf_evict|by rewrite config_evict]. }
  split; [|done]. split.
  - intros [c' Hi]. destruct (decide (size_limit (config c) = 0%nat)) as [Hz|]; [|lia].
    unfold insert in Hi. by rewrite H0 in Hi.
  - intros Hpos. destruct (insert_run now c key bytes ttl Hwf Hpos) as (c' & -> & _). by eexists.
Qed.

(** Eviction is first-in first-out: when the cache is full, inserting a new key evicts the
    entry inserted longest ago, even if it was looked up any number of times since. *)
Lemma full_insert_evicts_oldest_insertion now c key bytes ttl oldest rest lks :
  wf c → access_order c = oldest :: rest → size (entries c) = size_limit (config c) →
  key ≠ oldest →
  ∃ c', insert now (foldl (λ c '(t, k), (lookup t c k).2) c lks) key bytes ttl = Some c' ∧
    entries c' !! oldest = None ∧ is_Some (entries c' !! key).
Proof.
  intros Hwf Ho Hfull Hne.
  destruct (lookups_keep lks c Hwf) as (Hwf1 & Hcfg1 & Ho1).
  set (c1 := foldl _ c lks) in *.
  assert (0 < size_limit (config c1))%nat as Hpos.
  { rewrite Hcfg1, <- Hfull, (wf_size c Hwf), Ho. simpl. lia. }
  destruct (insert_run now c1 key bytes ttl Hwf1 Hpos) as (c' & Hi & Hwf' & _ & _ & _ & Habs).
  exists c'. split; [done|].
  assert (absr c1 = (take 1 (absr c1)) ++ spec_evict (size_limit (config c1)) (absr c1)) as Hsplit.
  { unfold spec_evict. rewrite length_absr, (wf_size c1 Hwf1), Ho1, Hcfg1, <- Hfull,
      (wf_size c Hwf), Ho by done. cbn [length].
    replace (S (S (length rest)) - S (length rest))%nat with 1%nat by lia. by rewrite take_drop. }
  split.
  - apply eq_None_not_Some. intros [e He]. apply (absr_elem c' _ _ Hwf') in He.
    rewrite Habs in He. unfold spec_insert, spec_remove in He.
    rewrite elem_of_app, list_elem_of_filter, list_elem_of_singleton in He.
    destruct He as [[_ He]|[= ? _]]; [|done].
    pose proof (wf_nodup c1 Hwf1) as Hnd. rewrite <- (absr_keys c1 Hwf1), Hsplit, fmap_app in Hnd.
    apply NoDup_app in Hnd as (_ & Hdisj & _). apply (Hdisj oldest).
    + rewrite fmap_take, absr_keys, Ho1, Ho by done. cbn. set_solver.
    + apply list_elem_of_fmap. by exists (oldest, e).
  - exists (fresh_entry now bytes ttl). apply (absr_elem c' _ _ Hwf'). rewrite Habs.
    unfold spec_insert. set_solver.
Qed.

(** [lookup] answers exactly for the keys of the map: it returns the stored bytes and the
    hit count after the call, counts the hit, changes no other entry and leaves the key order.
    The stale flag is set exactly while the entry is expired for at most the serve-stale
    window; an entry that expired longer ago is still served, flagged as not stale. *)
Lemma lookup_spec now c key :
  match entries c !! key with
  | None => lookup now c key = (None, c)
  | Some e =>
      let age := elapsed now (inserted_at e) in
      (lookup now c key).1 = Some (response_bytes e,
         bool_decide (original_ttl e ≤ age ≤ original_ttl e + serve_stale (config c)),
         wrap 64 (hit_count e + 1)) ∧
      hits (lookup now c key).2 = wrap 64 (hits c + 1) ∧
      entries (lookup now c key).2 !! key = Some (touch now e) ∧
      (∀ k, k ≠ key → entries (lookup now c key).2 !! k = entries c !! k) ∧
      access_order (lookup now c key).2 = access_order c
  end.
Proof.
  destruct (entries c !! key) as [e|] eqn:He; unfold lookup; rewrite He; [|done]. cbn.
  split_and!; try done.
  - do 3 f_equal. unfold is_stale. apply eq_true_iff_eq.
    rewrite andb_true_iff, is_expired_iff, Z.leb_le, bool_decide_eq_true. done.
  - apply lookup_insert_eq.
  - intros k Hk. by apply lookup_insert_ne.
Qed.

(** [reap_expired] removes exactly the entries that expired more than the serve-stale
    window ago, keeps every other entry and the relative order of the keys, and its result
    does not depend on the iteration order of the hash map. *)
Lemma reap_expired_exact now iter iter' c :
  wf c → 0 ≤ serve_stale (config c) →
  iter ≡ₚ map_to_list (entries c) → iter' ≡ₚ map_to_list (entries c) →
  reap_expired now iter c = reap_expired now iter' c ∧
  (∀ k e, entries (reap_expired now iter c) !! k = Some e ↔
     entries c !! k = Some e ∧
     elapsed now (inserted_at e) ≤ original_ttl e + serve_stale (config c)).
Proof.
  intros Hwf Hss Hi Hi'. split.
  - assert (entries (reap_expired now iter c) = entries (reap_expired now iter' c)) as He.
    { apply map_eq. intros k. by rewrite !reap_lookup. }
    assert (access_order (reap_expired now iter c) = access_order (reap_expired now iter' c)) as Ho.
    { rewrite <- (absr_keys _ (wf_reap now iter c Hwf)), <- (absr_keys _ (wf_reap now iter' c Hwf)).
      by rewrite !reap_absr. }
    unfold reap_expired in *.
    destruct (foldl_drop_key_rest ((filter (λ p : CacheKey * CacheEntry,
      is_dead now (serve_stale (config c)) p.2 = true) iter).*1) c) as (H1 & H2 & H3).
    destruct (foldl_drop_key_rest ((filter (λ p : CacheKey * CacheEntry,
      is_dead now (serve_stale (config c)) p.2 = true) iter').*1) c) as (H1' & H2' & H3').
    destruct (foldl drop_key c _), (foldl drop_key c _). simpl in *. congruence.
  - intros k e. rewrite reap_lookup by done. destruct (entries c !! k) as [e'|]; [|naive_solver].
    simpl. unfold is_dead, is_stale.
    destruct (is_expired now e') eqn:Hx; simpl.
    + destruct (Z.leb_spec (elapsed now (inserted_at e')) (original_ttl e' + serve_stale (config c)));
        simpl; split; [intros [= <-]|intros [[= <-] ?]| |intros [[= <-] ?]]; try done; lia.
    + rewrite <- not_true_iff_false, is_expired_iff in Hx.
      split; [intros [= <-]; split; [done|lia]|naive_solver].
Qed.

(** Loading a snapshot that holds each key once gives exactly the saved bindings. *)
Lemma load_rows_new now iter (m : gmap CacheKey CacheEntry) :
  iter ≡ₚ map_to_list m →
  ∃ c, load_rows now (new (load_config (snapshot_row <$> iter))) (snapshot_row <$> iter) = Some c ∧
    config c = load_config (snapshot_row <$> iter) ∧ entries c = loaded_entry now <$> m.
Proof.
  intros Hiter.
  assert (NoDup iter.*1) as Hnd by (rewrite Hiter; apply NoDup_fst_map_to_list).
  destruct (load_rows_snapshot now iter (new (load_config (snapshot_row <$> iter))) Hnd)
    as (c & Hrun & Hcfg & Hent).
  { cbn [new entries config load_config size_limit]. rewrite map_size_empty, length_fmap. lia. }
  exists c. split_and!; [done|done|]. rewrite Hent. cbn [new entries].
  rewrite (right_id_L ∅ (∪)). f_equal.
  rewrite (list_to_map_proper iter (map_to_list m) Hnd Hiter). apply list_to_map_to_list.
Qed.

(** Saving a cache and loading the file gives the same keys with the same responses and
    hit counts, whatever the iteration order of the hash map; loading always returns.  The
    clock of every entry restarts at the instant of loading with the whole seconds of its
    original TTL, and the configured size, stale window and prefetch factor are replaced. *)
Lemma save_load_roundtrip `{Storage} c iter fs fs' path now :
  iter ≡ₚ map_to_list (entries c) → save_to_file iter fs path = Ok fs' →
  ∃ c', load_from_file now fs' path = Some (Ok c') ∧
    entries c' = loaded_entry now <$> entries c ∧
    config c' = {| size_limit := Nat.max (len c) 100; serve_stale := from_secs 30; prefetch := 0 |}.
Proof.
  intros Hiter Hsave. unfold save_to_file in Hsave.
  apply bind_Ok in Hsave as (text & Htext & Hwrite).
  destruct (json_to_string _) as [text'|] eqn:Hjson; [|done]. simpl in Htext. simplify_eq.
  destruct (load_rows_new now iter (entries c) Hiter) as (c' & Hrun & Hcfg & Hent).
  exists c'. unfold load_from_file.
  rewrite (fs_write_read _ _ _ _ Hwrite), (json_roundtrip _ _ Hjson), Hrun.
  split_and!; [done|done|]. rewrite Hcfg. unfold load_config, len.
  by rewrite length_fmap, Hiter, length_map_to_list.
Qed.

(** A metered lookup counts exactly one hit or one miss, in the cache and in the global
    registry alike, according to whether the key is present, and touches no other metric. *)
Lemma lookup_with_metrics_accounting now c m key :
  filled m →
  let '(r, c', m') := lookup_with_metrics now c m key in
  r = (lookup now c key).1 ∧
  (is_Some r ↔ is_Some (entries c !! key)) ∧
  (is_Some r → hits c' = wrap 64 (hits c + 1) ∧ misses c' = misses c ∧
     read m' CacheHitsTotal = wrap 64 (read m CacheHitsTotal + 1) ∧
     ∀ n, n ≠ CacheHitsTotal → read m' n = read m n) ∧
  (r = None → hits c' = hits c ∧ misses c' = wrap 64 (misses c + 1) ∧
     read m' CacheMissesTotal = wrap 64 (read m CacheMissesTotal + 1) ∧
     ∀ n, n ≠ CacheMissesTotal → read m' n = read m n).
Proof.
  intros Hm. unfold lookup_with_metrics, lookup.
  assert (∀ n, read (increment m n 1) n = wrap 64 (read m n + 1)) as Hinc.
  { intros n. by rewrite read_increment, decide_True. }
  destruct (entries c !! key) as [e|] eqn:He; cbn;
    (split; [done|split; [split; [done|done] || (split; intros [? [=]])|split]]);
    intros Hr; try discriminate; try (by destruct Hr);
    (split_and!; [done|done|apply Hinc|]; intros n Hn; by apply read_increment_ne).
Qed.

(** ** A concrete storage

    A map from paths to texts, and snapshots written as the bits of their code number. *)

Fixpoint pos_text (p : positive) : string :=
  match p with
  | xH => EmptyString
  | xO p => String "0" (pos_text p)
  | xI p => String "1" (pos_text p)
  end.

Fixpoint text_pos (s : string) : option positive :=
  match s with
  | EmptyString => Some xH
  | String c s => p ← text_pos s; if (c =? "0")%char then Some (xO p)
                                  else if (c =? "1")%char then Some (xI p) else None
  end.

Lemma text_pos_text p : text_pos (pos_text p) = Some p.
Proof. induction p as [p IH|p IH|]; simpl; [| |done]; by rewrite IH. Qed.

#[export] Instance map_storage : Storage.
Proof.
  refine {|
    Fs := gmap string string;
    fs_read_to_string fs path := ok_or NotFound (fs !! path);
    fs_write fs path s := Ok (<[path := s]> fs);
    json_to_string rows := Some (pos_text (encode (rows : list (CacheKey * list Z * Z * Z))));
    json_from_str s := p ← text_pos s; decode (A := list (CacheKey * list Z * Z * Z)) p |}.
  - intros fs path s fs' [= <-]. by rewrite lookup_insert_eq.
  - intros rows s [= <-]. rewrite text_pos_text. cbn [mbind option_bind]. apply decode_encode.
Defined.

(** ** Witnesses *)

Definition key_a : CacheKey := {| key_qname := "a.example."; key_qtype := 1; key_client_subnet := None |}.
Definition key_b : CacheKey := {| key_qname := "b.example."; key_qtype := 28; key_client_subnet := None |}.
Definition key_c : CacheKey :=
  {| key_qname := "c.example."; key_qtype := 1; key_client_subnet := Some (IpV4 (ipv4 192 0 2 0), 24) |}.
Definition two : CacheConfig := {| size_limit := 2; serve_stale := from_secs 30; prefetch := 2 |}.

Definition one_entry : Cache := store 0 (new two) key_a [1; 2; 3] (from_secs 60).
Definition two_entries : Cache := store 5 one_entry key_b [4; 5] (from_secs 300 + 7).

Lemma one_entry_wf : wf one_entry.
Proof. apply wf_store; [apply wf_new|vm_compute; lia]. Qed.

Lemma two_entries_wf : wf two_entries.
Proof. apply wf_store; [apply one_entry_wf|vm_compute; lia]. Qed.

Lemma reachable_wf_witness :
  wf one_entry ∧ config one_entry = two ∧ (len one_entry ≤ 2)%nat ∧ filled Metrics.new.
Proof.
  apply (reachable_wf two Metrics.new one_entry Metrics.new); [simpl; lia|apply new_filled|].
  apply rtc_once. apply (step_insert 0 key_a [1; 2; 3] (from_secs 60)). vm_compute. reflexivity.
Defined.

Lemma operations_refine_queue_witness :
  (∃ c', insert 9 two_entries key_c [7] 1 = Some c' ∧ wf c' ∧
     absr c' = [(key_b, fresh_entry 5 [4; 5] (from_secs 300 + 7)); (key_c, fresh_entry 9 [7] 1)]) ∧
  absr (reap_expired (from_secs 91) (map_to_list (entries two_entries)) two_entries)
    = [(key_b, fresh_entry 5 [4; 5] (from_secs 300 + 7))].
Proof.
  destruct (operations_refine_queue two_entries 9 (map_to_list (entries two_entries)) key_c [7] 1)
    as (Hins & _ & _); [apply two_entries_wf|vm_compute; lia|reflexivity|].
  destruct (operations_refine_queue two_entries (from_secs 91) (map_to_list (entries two_entries)) key_c [7] 1)
    as (_ & Hreap & _); [apply two_entries_wf|vm_compute; lia|reflexivity|].
  split; [exact Hins|exact Hreap].
Defined.

Lemma insert_returns_witness :
  is_Some (insert 9 two_entries key_c [7] 1) ∧
  insert 9 (new {| size_limit := 0; serve_stale := 0; prefetch := 0 |}) key_c [7] 1 = None.
Proof.
  split.
  - apply (insert_returns_iff_positive_size 9 two_entries key_c [7] 1 two_entries_wf). vm_compute. lia.
  - unfold insert. rewrite (proj2 (insert_returns_iff_positive_size 9
      (new {| size_limit := 0; serve_stale := 0; prefetch := 0 |}) key_c [7] 1 (wf_new _)) eq_refl).
    reflexivity.
Defined.

Lemma full_insert_evicts_witness :
  ∃ c', insert 9 (foldl (λ c '(t, k), (lookup t c k).2) two_entries [(6, key_a); (7, key_a)])
          key_c [7] 1 = Some c' ∧
    entries c' !! key_a = None ∧ is_Some (entries c' !! key_c).
Proof.
  apply (full_insert_evicts_oldest_insertion 9 two_entries key_c [7] 1 key_a [key_b]
           [(6, key_a); (7, key_a)]);
    [apply two_entries_wf|reflexivity|vm_compute; reflexivity|discriminate].
Defined.

Lemma reap_expired_exact_witness :
  entries (reap_expired (from_secs 91) (map_to_list (entries two_entries)) two_entries) !! key_b
    = Some (fresh_entry 5 [4; 5] (from_secs 300 + 7)).
Proof.
  apply (reap_expired_exact (from_secs 91) (map_to_list (entries two_entries))
           (map_to_list (entries two_entries)) two_entries);
    [apply two_entries_wf|vm_compute; discriminate|reflexivity|reflexivity|].
  split; [vm_compute; reflexivity|vm_compute; discriminate].
Defined.

Lemma save_load_roundtrip_witness :
  ∃ fs' c', save_to_file (map_to_list (entries two_entries)) ∅ "cache.json" = Ok fs' ∧
    load_from_file 77 fs' "cache.json" = Some (Ok c') ∧
    entries c' !! key_b = Some (fresh_entry 77 [4; 5] (from_secs 300)).
Proof.
  destruct (save_to_file (map_to_list (entries two_entries)) ∅ "cache.json") as [fs'|e] eqn:E;
    [|discriminate E].
  destruct (save_load_roundtrip two_entries (map_to_list (entries two_entries)) ∅ fs' "cache.json" 77)
    as (c' & Hload & Hent & _); [reflexivity|exact E|].
  exists fs', c'. split; [reflexivity|]. split; [exact Hload|].
  rewrite Hent. vm_compute. reflexivity.
Defined.

Lemma lookup_with_metrics_witness :
  read (lookup_with_metrics 9 two_entries Metrics.new key_c).2 CacheMissesTotal = 1.
Proof.
  pose proof (lookup_with_metrics_accounting 9 two_entries Metrics.new key_c new_filled) as H.
  destruct (lookup_with_metrics 9 two_entries Metrics.new key_c) as [[r c'] m'] eqn:E.
  destruct H as (Hr & _ & _ & Hmiss). simpl.
  destruct Hmiss as (_ & _ & -> & _); [rewrite Hr; vm_compute; reflexivity|].
  vm_compute. reflexivity.
Defined.

End CacheProps.
