(* ===== verification/CacheRefine.v ===== *)
(** * The cache refines a bounded queue

    Every operation of [Cache] as a call with a reply, and the same calls on the abstract cache of
    [CacheSpec]: a queue of bindings with the counters beside it, and no map.  A history of calls has
    the same replies on both, so the map and the key list of the code cannot be observed. *)

From Stdlib Require Import Ascii String ZArith Lia.
From stdpp Require Import base list gmap strings numbers countable fin_maps sorting.
From S2P Require Import Prelude RustString RustNum RustNet Metrics Cache CacheSpec CacheProps.

Local Open Scope Z_scope.

Module CacheRefine.
Import Metrics Cache CacheSpec.

(** ** Calls *)

(** A call, with the instant at which it reads the clock; reaping also takes the order in which the
    hash map is then traversed. *)
Inductive Call :=
  | CallLookup (now : Z) (key : CacheKey)
  | CallLookupWithMetrics (now : Z) (key : CacheKey)
  | CallRecordMiss
  | CallIsExpired (now : Z) (key : CacheKey)
  | CallInsert (now : Z) (key : CacheKey) (bytes : list Z) (ttl : Z)
  | CallReapExpired (now : Z) (order : Cache → list (CacheKey * CacheEntry))
  | CallLen
  | CallIsEmpty
  | CallHits
  | CallMisses
  | CallShouldPrefetch (now : Z) (key : CacheKey)
  | CallClear.

Inductive Reply :=
  | Answer (r : option (list Z * bool * Z))
  | Flag (b : bool)
  | Number (n : Z)
  | Done.

(** The traversal yields the items of the map. *)
Definition traverses (call : Call) : Prop :=
  match call with
  | CallReapExpired _ order => ∀ c, order c ≡ₚ map_to_list (entries c)
  | _ => True
  end.

(** A call on the cache of the code and the global registry; [None] if it does not return. *)
Definition exec (call : Call) (s : Cache * MetricsRegistry) : option (Reply * (Cache * MetricsRegistry)) :=
  let '(c, m) := s in
  match call with
  | CallLookup now key => let '(r, c') := lookup now c key in Some (Answer r, (c', m))
  | CallLookupWithMetrics now key =>
      let '(r, c', m') := lookup_with_metrics now c m key in Some (Answer r, (c', m'))
  | CallRecordMiss => Some (Done, record_miss c m)
  | CallIsExpired now key => Some (Flag (key_is_expired now c key), (c, m))
  | CallInsert now key bytes ttl => c' ← insert now c key bytes ttl; Some (Done, (c', m))
  | CallReapExpired now order => Some (Done, (reap_expired now (order c) c, m))
  | CallLen => Some (Number (Z.of_nat (len c)), (c, m))
  | CallIsEmpty => Some (Flag (is_empty c), (c, m))
  | CallHits => Some (Number (hits c), (c, m))
  | CallMisses => Some (Number (misses c), (c, m))
  | CallShouldPrefetch now key => Some (Flag (should_prefetch now c key), (c, m))
  | CallClear => Some (Done, (clear c, m))
  end.

Fixpoint history (calls : list Call) (s : Cache * MetricsRegistry) :
    option (list Reply * (Cache * MetricsRegistry)) :=
  match calls with
  | [] => Some ([], s)
  | call :: rest =>
      '(r, s') ← exec call s;
      '(rs, s'') ← history rest s';
      Some (r :: rs, s'')
  end.

(** ** The abstract cache *)

Record Queue := {
  q_bindings : list (CacheKey * CacheEntry);
  q_hits : Z;
  q_misses : Z;
  q_metrics : MetricsRegistry
}.

Definition spec_find (key : CacheKey) (q : list (CacheKey * CacheEntry)) : option CacheEntry :=
  snd <$> head (filter (λ p, p.1 = key) q).

Definition spec_touch (now : Z) (key : CacheKey) (q : list (CacheKey * CacheEntry)) :
    list (CacheKey * CacheEntry) :=
  (λ p, if decide (p.1 = key) then (p.1, touch now p.2) else p) <$> q.

Definition set_bindings (q : list (CacheKey * CacheEntry)) (s : Queue) : Queue :=
  {| q_bindings := q; q_hits := q_hits s; q_misses := q_misses s; q_metrics := q_metrics s |}.

(** What a lookup answers with an entry: its bytes, whether it is stale, how often it was used. *)
Definition spec_answer (window now : Z) (e : CacheEntry) : list Z * bool * Z :=
  (response_bytes e, is_stale now e window, wrap 64 (hit_count e + 1)).

Definition spec_lookup (cfg : CacheConfig) (now : Z) (key : CacheKey) (s : Queue) :
    option (list Z * bool * Z) * Queue :=
  match spec_find key (q_bindings s) with
  | None => (None, s)
  | Some e =>
      (Some (spec_answer (serve_stale cfg) now e),
       {| q_bindings := spec_touch now key (q_bindings s); q_hits := wrap 64 (q_hits s + 1);
          q_misses := q_misses s; q_metrics := q_metrics s |})
  end.

Definition spec_count (name : MetricName) (s : Queue) : Queue :=
  {| q_bindings := q_bindings s; q_hits := q_hits s; q_misses := q_misses s;
     q_metrics := increment (q_metrics s) name 1 |}.

Definition spec_record_miss (s : Queue) : Queue :=
  {| q_bindings := q_bindings s; q_hits := q_hits s; q_misses := wrap 64 (q_misses s + 1);
     q_metrics := increment (q_metrics s) CacheMissesTotal 1 |}.

(** The same call on a queue bounded by the configured size; it always returns. *)
Definition spec_exec (cfg : CacheConfig) (call : Call) (s : Queue) : Reply * Queue :=
  let q := q_bindings s in
  match call with
  | CallLookup now key => let '(r, s') := spec_lookup cfg now key s in (Answer r, s')
  | CallLookupWithMetrics now key =>
      let '(r, s') := spec_lookup cfg now key s in
      (Answer r, match r with Some _ => spec_count CacheHitsTotal s' | None => spec_record_miss s' end)
  | CallRecordMiss => (Done, spec_record_miss s)
  | CallIsExpired now key => (Flag (from_option (is_expired now) true (spec_find key q)), s)
  | CallInsert now key bytes ttl =>
      (Done, set_bindings (spec_insert (size_limit cfg) key (fresh_entry now bytes ttl) q) s)
  | CallReapExpired now _ => (Done, set_bindings (spec_reap now (serve_stale cfg) q) s)
  | CallLen => (Number (Z.of_nat (length q)), s)
  | CallIsEmpty => (Flag (length q =? 0)%nat, s)
  | CallHits => (Number (q_hits s), s)
  | CallMisses => (Number (q_misses s), s)
  | CallShouldPrefetch now key =>
      (Flag (negb (prefetch cfg =? 0) &&
             from_option (λ e, ttl_remaining now e <? from_secs (wrap 64 (prefetch cfg * hit_count e))) false
               (spec_find key q)), s)
  | CallClear => (Done, {| q_bindings := []; q_hits := 0; q_misses := 0; q_metrics := q_metrics s |})
  end.

Fixpoint spec_history (cfg : CacheConfig) (calls : list Call) (s : Queue) : list Reply * Queue :=
  match calls with
  | [] => ([], s)
  | call :: rest =>
      let '(r, s') := spec_exec cfg call s in
      let '(rs, s'') := spec_history cfg rest s' in
      (r :: rs, s'')
  end.

(** ** The simulation *)

Definition abstraction (s : Cache * MetricsRegistry) : Queue :=
  {| q_bindings := absr s.1; q_hits := hits s.1; q_misses := misses s.1; q_metrics := s.2 |}.

Lemma spec_find_bindings m l key :
  spec_find key (bindings m l) = if decide (key ∈ l) then m !! key else None.
Proof.
  unfold spec_find. induction l as [|k l IH]; [done|]. rewrite bindings_cons.
  destruct (decide (k = key)) as [->|Hne].
  - rewrite (decide_True (P := key ∈ key :: l)) by set_solver.
    destruct (m !! key) as [e|] eqn:He; [by rewrite filter_cons_True|].
    rewrite IH. by case_decide.
  - transitivity (snd <$> head (filter (λ p : CacheKey * CacheEntry, p.1 = key) (bindings m l))).
    + destruct (m !! k); [by rewrite filter_cons_False|done].
    + rewrite IH. repeat case_decide; set_solver.
Qed.

Lemma spec_find_absr c key : wf c → spec_find key (absr c) = entries c !! key.
Proof.
  intros Hwf. unfold absr. rewrite spec_find_bindings. case_decide as Hk; [done|].
  rewrite (wf_dom c Hwf) in Hk. by apply eq_None_not_Some in Hk.
Qed.

Lemma bindings_touch now m l key e :
  m !! key = Some e → bindings (<[key := touch now e]> m) l = spec_touch now key (bindings m l).
Proof.
  intros He. induction l as [|k l IH]; [done|]. rewrite !bindings_cons. unfold spec_touch in *.
  destruct (decide (key = k)) as [<-|Hne].
  - rewrite lookup_insert_eq, He, fmap_cons. cbn [fst snd]. by rewrite decide_True, IH.
  - rewrite lookup_insert_ne by done. destruct (m !! k); [|done].
    rewrite fmap_cons. cbn [fst]. by rewrite decide_False, IH.
Qed.

Lemma lookup_simulated now c m key :
  wf c →
  spec_lookup (config c) now key (abstraction (c, m)) =
    ((lookup now c key).1, abstraction ((lookup now c key).2, m)).
Proof.
  intros Hwf. unfold spec_lookup, abstraction. cbn [fst snd q_bindings q_hits q_misses q_metrics].
  rewrite spec_find_absr by done. unfold lookup. destruct (entries c !! key) as [e|] eqn:He; [|done].
  unfold absr. cbn [fst snd entries access_order hits misses]. by rewrite (bindings_touch now _ _ key e He).
Qed.

(** Every call returns, replies what the queue replies, and leaves the abstraction of its state. *)
Lemma exec_simulated call c m :
  wf c → (0 < size_limit (config c))%nat → traverses call →
  ∃ r c' m', exec call (c, m) = Some (r, (c', m')) ∧ wf c' ∧ config c' = config c ∧
    spec_exec (config c) call (abstraction (c, m)) = (r, abstraction (c', m')).
Proof.
  intros Hwf Hpos Ht. destruct call; cbn [exec spec_exec traverses] in *.
  - rewrite lookup_simulated by done. pose proof (wf_lookup now c key Hwf). pose proof (config_lookup now c key).
    destruct (lookup now c key) as [r c']. by exists (Answer r), c', m.
  - rewrite lookup_simulated by done. pose proof (wf_lookup now c key Hwf) as Hc.
    pose proof (config_lookup now c key) as Hcfg. unfold lookup_with_metrics.
    destruct (lookup now c key) as [[r|] c']; cbn [fst snd record_miss] in *; [by eauto 10|].
    eexists _, _, _. split; [done|]. split; [by apply (wf_record_miss c' m)|done].
  - eexists _, _, _. split; [done|]. split; [by apply (wf_record_miss c m)|done].
  - eexists _, _, _. split_and!; [done|done|done|]. cbn [abstraction fst snd q_bindings].
    rewrite spec_find_absr by done. unfold key_is_expired. by destruct (entries c !! key).
  - destruct (insert_run now c key bytes ttl Hwf Hpos) as (c' & Hi & Hc & Hcfg & Hh & Hmi & Ha).
    exists Done, c', m. rewrite Hi. split_and!; [done|done|done|].
    unfold set_bindings, abstraction. cbn [fst snd q_bindings q_hits q_misses q_metrics]. by rewrite <- Ha, Hh, Hmi.
  - exists Done, (reap_expired now (order c) c), m. pose proof (Ht c) as Hord.
    destruct (foldl_drop_key_rest
      (filter (λ p : CacheKey * CacheEntry, is_dead now (serve_stale (config c)) p.2 = true) (order c)).*1 c)
      as (Hcfg & Hh & Hmi).
    split_and!; [done|by apply wf_reap|exact Hcfg|]. unfold set_bindings, abstraction.
    cbn [fst snd q_bindings q_hits q_misses q_metrics]. rewrite reap_absr by done.
    unfold reap_expired. by rewrite Hh, Hmi.
  - eexists _, _, _. split_and!; [done|done|done|]. cbn [abstraction fst q_bindings]. by rewrite length_absr.
  - eexists _, _, _. split_and!; [done|done|done|]. cbn [abstraction fst q_bindings]. by rewrite length_absr.
  - by eauto 10.
  - by eauto 10.
  - eexists _, _, _. split_and!; [done|done|done|]. cbn [abstraction fst snd q_bindings].
    rewrite spec_find_absr by done. unfold should_prefetch. destruct (prefetch (config c) =? 0); [done|].
    by destruct (entries c !! key).
  - eexists _, _, _. split_and!; [done|by apply wf_clear|done|done].
Qed.

Lemma history_simulated calls c m :
  wf c → (0 < size_limit (config c))%nat → Forall traverses calls →
  ∃ rs c' m', history calls (c, m) = Some (rs, (c', m')) ∧ wf c' ∧ config c' = config c ∧
    spec_history (config c) calls (abstraction (c, m)) = (rs, abstraction (c', m')).
Proof.
  revert c m. induction calls as [|call calls IH]; intros c m Hwf Hpos Ht; [by exists [], c, m|].
  apply Forall_cons_1 in Ht as [Hcall Ht].
  destruct (exec_simulated call c m Hwf Hpos Hcall) as (r & c1 & m1 & Hrun & Hwf1 & Hcfg1 & Hs).
  destruct (IH c1 m1) as (rs & c' & m' & Hrest & Hwf' & Hcfg' & Hs'); [done|by rewrite Hcfg1|done|].
  rewrite Hcfg1 in Hs', Hcfg'. exists (r :: rs), c', m'. cbn [history spec_history].
  rewrite Hrun, Hs. cbn [mbind option_bind]. by rewrite Hrest, Hs'.
Qed.

(** C5: The cache refines a bounded first-in first-out queue.  Any history of calls, of all its
    operations at any instants, returns on a fresh cache of positive size, and its replies are those
    of the queue: a lookup finds the binding of the key and updates it in place, an insertion drops
    bindings from the front until there is room and moves the key to the back, reaping drops the
    bindings past the serve-stale window; the state in the end is that of the queue, whatever the
    order in which the hash map is traversed. *)
Theorem cache_refines_queue cfg m calls :
  (0 < size_limit cfg)%nat → Forall traverses calls →
  ∃ replies c m', history calls (new cfg, m) = Some (replies, (c, m')) ∧ wf c ∧
    spec_history cfg calls {| q_bindings := []; q_hits := 0; q_misses := 0; q_metrics := m |} =
      (replies, {| q_bindings := absr c; q_hits := hits c; q_misses := misses c; q_metrics := m' |}).
Proof.
  intros Hpos Ht.
  destruct (history_simulated calls (new cfg) m (wf_new cfg) Hpos Ht) as (rs & c & m' & Hrun & Hwf & _ & Hs).
  by exists rs, c, m'.
Qed.

(** ** Witness *)

(** Two keys fill the cache; the first is looked up and then evicted by a third one. *)
Definition calls_example : list Call :=
  [CallInsert 0 CacheProps.key_a [1] (from_secs 60); CallInsert 1 CacheProps.key_b [2] (from_secs 60);
   CallLookup 2 CacheProps.key_a; CallInsert 3 CacheProps.key_c [3] (from_secs 60);
   CallLookupWithMetrics 4 CacheProps.key_a; CallReapExpired 5 (λ c, map_to_list (entries c));
   CallLookup (from_secs 70) CacheProps.key_b; CallLen].

Lemma cache_refines_queue_witness :
  ∃ c m', history calls_example (new CacheProps.two, Metrics.new) =
    Some ([Done; Done; Answer (Some ([1], false, 1)); Done; Answer None; Done;
           Answer (Some ([2], true, 1)); Number 2], (c, m')) ∧ wf c.
Proof.
  destruct (cache_refines_queue CacheProps.two Metrics.new calls_example) as (rs & c & m' & Hrun & Hwf & Hs).
  - vm_compute. lia.
  - unfold calls_example. repeat (apply Forall_cons_2; [cbn; done|]). apply Forall_nil_2.
  - exists c, m'. split; [|exact Hwf]. rewrite Hrun. do 2 f_equal.
    apply (f_equal fst) in Hs. cbn [fst] in Hs. rewrite <- Hs. vm_compute. reflexivity.
Defined.

End CacheRefine.
