(* ===== verification/Config.v ===== *)
(** * Configuration ([src/config/mod.rs], and the loading of it in [src/main.rs])

    The configuration records with their defaults, [validate] with its error for each check,
    and the choice and override of the configuration at start-up.  The TOML deserialiser,
    the file system and the hexadecimal decoder are parameters. *)

From Stdlib Require Import Ascii String ZArith Lia.
From stdpp Require Import base list gmap strings numbers.
From S2P Require Import Prelude RustString RustNum RustNet.

Local Open Scope Z_scope.
Local Open Scope result_scope.

Module Config.

(** ** Data *)

Inductive QnameMinMode := Incremental | Aggressive | Strict.

Record ResolverQnameMinimization := {
  qmin_enable : bool;
  qmin_mode : QnameMinMode;
  qmin_max_iterations : Z
}.

Record ResolverConfig := {
  forwarders : list string;
  forward_protocol : string;
  qname_minimization : ResolverQnameMinimization;
  qname_randomization : bool;
  ecs : bool;
  concurrency : Z;
  dns64_prefix : option string;
  timeout_ms : Z
}.

Record CacheSection := {
  cache_size : Z;
  cache_serve_stale : bool;
  cache_prefetch : Z;
  cache_persistent : option string;
  persistent_max_age_days : Z
}.

Record DnssecConfig := {
  validation : bool;
  anchors : option string;
  signing : bool;
  provider : string
}.

Record PerClientFilter := { block : bool }.

Record FilterConfig := {
  blocklists : list string;
  allowlists : list string;
  regex_blocklist : list string;
  per_client : gmap string PerClientFilter;
  cname_cloaking : bool;
  rebinding : bool;
  cname_chain_limit : option Z;
  sinkhole_v4 : string;
  sinkhole_v6 : string
}.

Record ProxyConfig := {
  proxy_enable : bool;
  proxy_allow : list string;
  proxy_protocol : string
}.

Record ApiConfig := {
  api_listen : string;
  api_tls_cert : option string;
  api_tls_key : option string
}.

Record AuthUser := { user_name : string; password_hash : string }.
Record AuthToken := { token_name : string; token_value : string }.

Record AuthConfig := {
  auth_users : list AuthUser;
  auth_tokens : list AuthToken;
  auth_totp : bool;
  auth_oidc : bool
}.

Record LogConfig := {
  log_level : string;
  query_log : option string;
  log_format : string
}.

Record DhcpRange := {
  range_subnet : string;
  range_start : string;
  range_end : string;
  range_router : string
}.

Record DhcpConfig := { dhcp_enable : bool; dhcp_ranges : list DhcpRange }.

Record ClusterConfig := { cluster_enable : bool; cluster_peers : list string }.

Record MetricsConfig := {
  metrics_enable : bool;
  metrics_endpoint : string;
  metrics_format : string
}.

Record Dns64Config := { prefix : option string; always_synthesize : bool }.

Record NxProofConfig := {
  nx_kind : string;
  nx_algorithm : option string;
  nx_salt : option string;
  nx_iterations : option Z;
  nx_opt_out : option bool
}.

Record ZoneConfig := {
  zone_name : string;
  zone_kind : string;
  zone_file : option string;
  zone_primaries : list string;
  dnssec_signing : bool;
  dnssec_algorithm : string;
  dnssec_key : option string;
  nx_proof : option NxProofConfig
}.

Record DnssecKeyConfig := { keys_dir : string; trust_anchor : option string }.

Record TlsConfig := {
  tls_cert : option string;
  tls_key : option string;
  letsencrypt_dir : string;
  self_signed : bool
}.

Record Config := {
  host : string;
  hostadmin : option string;
  listen : list string;
  listen_tls : list string;
  listen_quic : list string;
  listen_https : list string;
  tls : TlsConfig;
  dnssec_keys : DnssecKeyConfig;
  resolver : ResolverConfig;
  cache : CacheSection;
  dnssec : DnssecConfig;
  filter : FilterConfig;
  proxy : ProxyConfig;
  api : ApiConfig;
  auth : AuthConfig;
  log : LogConfig;
  dhcp : DhcpConfig;
  cluster : ClusterConfig;
  zones : list ZoneConfig;
  zones_dir : string;
  metrics : MetricsConfig;
  dns64 : Dns64Config
}.

(** ** Defaults *)

Definition ResolverQnameMinimization_default : ResolverQnameMinimization :=
  {| qmin_enable := false; qmin_mode := Strict; qmin_max_iterations := 7 |}.

Definition ResolverConfig_default : ResolverConfig :=
  {| forwarders := ["1.1.1.1:53"; "8.8.8.8:53"]%string; forward_protocol := "udp";
     qname_minimization := ResolverQnameMinimization_default; qname_randomization := false;
     ecs := false; concurrency := 2; dns64_prefix := None; timeout_ms := 2000 |}.

Definition CacheSection_default : CacheSection :=
  {| cache_size := 50000; cache_serve_stale := true; cache_prefetch := 2;
     cache_persistent := None; persistent_max_age_days := 7 |}.

Definition DnssecConfig_default : DnssecConfig :=
  {| validation := true; anchors := None; signing := false; provider := "ring" |}.

Definition FilterConfig_default : FilterConfig :=
  {| blocklists := []; allowlists := []; regex_blocklist := []; per_client := ∅;
     cname_cloaking := true; rebinding := true; cname_chain_limit := Some 8;
     sinkhole_v4 := "0.0.0.0"; sinkhole_v6 := "::" |}.

Definition ProxyConfig_default : ProxyConfig :=
  {| proxy_enable := false; proxy_allow := []; proxy_protocol := "v2" |}.

Definition ApiConfig_default : ApiConfig :=
  {| api_listen := "127.0.0.1:5380"; api_tls_cert := None; api_tls_key := None |}.

Definition AuthConfig_default : AuthConfig :=
  {| auth_users := []; auth_tokens := []; auth_totp := false; auth_oidc := false |}.

Definition LogConfig_default : LogConfig :=
  {| log_level := "info"; query_log := None; log_format := "text" |}.

Definition DhcpConfig_default : DhcpConfig := {| dhcp_enable := false; dhcp_ranges := [] |}.

Definition ClusterConfig_default : ClusterConfig :=
  {| cluster_enable := false; cluster_peers := [] |}.

Definition MetricsConfig_default : MetricsConfig :=
  {| metrics_enable := true; metrics_endpoint := "/metrics"; metrics_format := "openmetrics" |}.

Definition Dns64Config_default : Dns64Config := {| prefix := None; always_synthesize := false |}.

Definition DnssecKeyConfig_default : DnssecKeyConfig :=
  {| keys_dir := "/var/lib/heimdallr/keys"; trust_anchor := None |}.

Definition TlsConfig_default : TlsConfig :=
  {| tls_cert := None; tls_key := None; letsencrypt_dir := "/etc/letsencrypt/live";
     self_signed := false |}.

Definition Config_default : Config :=
  {| host := "localhost"; hostadmin := None; listen := ["0.0.0.0:53"; "[::]:53"]%string;
     listen_tls := []; listen_quic := []; listen_https := []; tls := TlsConfig_default;
     dnssec_keys := DnssecKeyConfig_default; resolver := ResolverConfig_default;
     cache := CacheSection_default; dnssec := DnssecConfig_default;
     filter := FilterConfig_default; proxy := ProxyConfig_default; api := ApiConfig_default;
     auth := AuthConfig_default; log := LogConfig_default; dhcp := DhcpConfig_default;
     cluster := ClusterConfig_default; zones := []; zones_dir := "/etc/heimdallr/zones";
     metrics := MetricsConfig_default; dns64 := Dns64Config_default |}.

(** ** Validation *)

(** One constructor per [bail!] or error context of [validate]. *)
Inductive ConfigError :=
  | BadProvider (got : string)
  | BadForwardProtocol (got : string)
  | BadConcurrency
  | BadTimeout
  | BadCacheSize
  | BadListen (addr : string)
  | BadApiListen (addr : string)
  | BadProxyProtocol (got : string)
  | BadLogLevel (got : string)
  | BadLogFormat (got : string)
  | BadZoneKind (zone got : string)
  | PrimaryNeedsFile (zone : string)
  | SecondaryNeedsPrimaries (zone : string)
  | BadZoneAlgorithm (zone got : string)
  | BadZonesDir (got : string)
  | ReadFailed (path : string)
  | TomlError.

Definition one_of (s : string) (l : list string) : bool := bool_decide (s ∈ l).

Definition is_socket_addr (s : string) : bool := bool_decide (is_Some (parse_socket_addr s)).

(** A [for] loop of checks: the first failing item is the error. *)
Fixpoint check_all {A E} (check : A → result E unit) (l : list A) : result E unit :=
  match l with
  | [] => Ok tt
  | x :: l' => check x ;? check_all check l'
  end.

Definition validate_zone (z : ZoneConfig) : result ConfigError unit :=
  ensure (one_of (zone_kind z) ["primary"; "secondary"; "stub"; "conditional"; "forwarder"])
    (BadZoneKind (zone_name z) (zone_kind z)) ;?
  ensure (negb (bool_decide (zone_kind z = "primary"%string) && bool_decide (zone_file z = None)))
    (PrimaryNeedsFile (zone_name z)) ;?
  ensure (negb (bool_decide (zone_kind z = "secondary"%string) && bool_decide (zone_primaries z = [])))
    (SecondaryNeedsPrimaries (zone_name z)) ;?
  ensure (negb (dnssec_signing z) ||
          one_of (dnssec_algorithm z) ["ecdsa-p256"; "ecdsa-p384"; "ed25519"; "rsa-sha256"])
    (BadZoneAlgorithm (zone_name z) (dnssec_algorithm z)).

Definition all_listeners (c : Config) : list string :=
  listen c ++ listen_tls c ++ listen_quic c ++ listen_https c.

Definition validate (c : Config) : result ConfigError unit :=
  ensure (one_of (provider (dnssec c)) ["ring"; "botan"]) (BadProvider (provider (dnssec c))) ;?
  ensure (one_of (forward_protocol (resolver c)) ["udp"; "tcp"; "dot"; "doh"; "doq"])
    (BadForwardProtocol (forward_protocol (resolver c))) ;?
  ensure (negb (concurrency (resolver c) =? 0)) BadConcurrency ;?
  ensure (negb (timeout_ms (resolver c) =? 0)) BadTimeout ;?
  ensure (negb (cache_size (cache c) =? 0)) BadCacheSize ;?
  check_all (λ addr, ensure (is_socket_addr addr) (BadListen addr)) (all_listeners c) ;?
  ensure (is_socket_addr (api_listen (api c))) (BadApiListen (api_listen (api c))) ;?
  ensure (one_of (proxy_protocol (proxy c)) ["v1"; "v2"]) (BadProxyProtocol (proxy_protocol (proxy c))) ;?
  ensure (one_of (log_level (log c)) ["trace"; "debug"; "info"; "warn"; "error"])
    (BadLogLevel (log_level (log c))) ;?
  ensure (one_of (log_format (log c)) ["json"; "text"]) (BadLogFormat (log_format (log c))) ;?
  check_all validate_zone (zones c) ;?
  ensure (Str.starts_with "/" (zones_dir c)) (BadZonesDir (zones_dir c)).

(** ** Derived values *)

Definition soa_rname (c : Config) : string :=
  let email := default "hostadmin"%string (hostadmin c) in
  if Str.contains "@" email then Str.replace "@" "." email
  else email +:+ "." +:+ Str.trim_end_matches "." (host c).

Definition ns_name (zone : string) : string := "ns1." +:+ Str.trim_end_matches "." zone.

(** [NxProofKind] of the server library, with the one hash algorithm it has. *)
Inductive NxProofKind :=
  | Nsec
  | Nsec3 (salt : list Z) (iterations : Z) (opt_out : bool).

Definition nx_proof_kind (hex_decode : string → option (list Z)) (z : ZoneConfig) : option NxProofKind :=
  match nx_proof z with
  | None => Some Nsec
  | Some cfg =>
      if bool_decide (nx_kind cfg = "nsec"%string) then Some Nsec
      else if bool_decide (nx_kind cfg = "nsec3"%string) then
        Some (Nsec3 (default [] (nx_salt cfg ≫= hex_decode)) (default 0 (nx_iterations cfg))
                    (default false (nx_opt_out cfg)))
      else Some Nsec
  end.

(** [PathBuf::join] for a relative second part: a separator unless the first ends in one. *)
Definition path_join (p q : string) : string :=
  if Str.starts_with "/" q then q
  else if bool_decide (p = EmptyString) || Str.ends_with "/" p then p +:+ q else p +:+ "/" +:+ q.

Definition resolve_paths (exists_ : string → bool) (t : TlsConfig) (hostname : string) :
    result string (string * string) :=
  let h := Str.trim_end_matches "." hostname in
  let cert := match tls_cert t with
              | Some c => c
              | None => path_join (path_join (letsencrypt_dir t) h) "fullchain.pem"
              end in
  let key := match tls_key t with
             | Some k => k
             | None => path_join (path_join (letsencrypt_dir t) h) "privkey.pem"
             end in
  if exists_ cert && exists_ key then Ok (cert, key) else Err cert.

Definition self_signed_enabled (t : TlsConfig) : bool := self_signed t.

(** ** Loading *)

Record Args := {
  arg_config : option string;
  arg_check_config : bool;
  arg_listen : option string;
  arg_api_listen : option string;
  arg_log_level : option string
}.

Section Load.
Context (read_to_string : string → option string).
Context (exists_ : string → bool).
Context (toml_from_str : string → option Config).

Definition from_file (path : string) : result ConfigError Config :=
  s ← ok_or (ReadFailed path) (read_to_string path);
  cfg ← ok_or TomlError (toml_from_str s);
  _ ← validate cfg;
  Ok cfg.

Definition default_path : string := "/etc/heimdallr/config.toml".

Definition override_listen (l : option string) (c : Config) : Config :=
  match l with
  | None => c
  | Some l =>
    {| host := host c; hostadmin := hostadmin c; listen := [l];
       listen_tls := listen_tls c; listen_quic := listen_quic c; listen_https := listen_https c;
       tls := tls c; dnssec_keys := dnssec_keys c; resolver := resolver c; cache := cache c;
       dnssec := dnssec c; filter := filter c; proxy := proxy c; api := api c; auth := auth c;
       log := log c; dhcp := dhcp c; cluster := cluster c; zones := zones c;
       zones_dir := zones_dir c; metrics := metrics c; dns64 := dns64 c |}
  end.

Definition override_api (a : option string) (c : Config) : Config :=
  match a with
  | None => c
  | Some a =>
    {| host := host c; hostadmin := hostadmin c; listen := listen c;
       listen_tls := listen_tls c; listen_quic := listen_quic c; listen_https := listen_https c;
       tls := tls c; dnssec_keys := dnssec_keys c; resolver := resolver c; cache := cache c;
       dnssec := dnssec c; filter := filter c; proxy := proxy c;
       api := {| api_listen := a; api_tls_cert := api_tls_cert (api c);
                 api_tls_key := api_tls_key (api c) |};
       auth := auth c; log := log c; dhcp := dhcp c; cluster := cluster c; zones := zones c;
       zones_dir := zones_dir c; metrics := metrics c; dns64 := dns64 c |}
  end.

Definition load_config (args : Args) : result ConfigError Config :=
  cfg ← match arg_config args with
        | Some path => from_file path
        | None => if exists_ default_path then from_file default_path else Ok Config_default
        end;
  let cfg := override_api (arg_api_listen args) (override_listen (arg_listen args) cfg) in
  _ ← validate cfg;
  Ok cfg.

End Load.

End Config.
