(* ===== verification/ConfigProps.v ===== *)
(** * Properties of the configuration

    [validate] accepts exactly the configurations that satisfy the declarative [Valid], blames
    a field that is at fault, and is what every start-up path ends with. *)

From Stdlib Require Import Ascii String ZArith Lia.
From stdpp Require Import base list gmap strings numbers.
From S2P Require Import Prelude RustString RustNum RustNet Cache CacheSpec Config.

Local Open Scope Z_scope.

Module ConfigProps.
Import Config.

(** ** What a valid configuration is *)

Definition zone_kinds : list string := ["primary"; "secondary"; "stub"; "conditional"; "forwarder"].
Definition zone_algorithms : list string := ["ecdsa-p256"; "ecdsa-p384"; "ed25519"; "rsa-sha256"].

Record ZoneValid (z : ZoneConfig) : Prop := {
  zv_kind : zone_kind z ∈ zone_kinds;
  zv_primary : zone_kind z = "primary"%string → is_Some (zone_file z);
  zv_secondary : zone_kind z = "secondary"%string → zone_primaries z ≠ [];
  zv_algorithm : dnssec_signing z = true → dnssec_algorithm z ∈ zone_algorithms
}.

Record Valid (c : Config) : Prop := {
  v_provider : provider (dnssec c) ∈ ["ring"; "botan"]%string;
  v_protocol : forward_protocol (resolver c) ∈ ["udp"; "tcp"; "dot"; "doh"; "doq"]%string;
  v_concurrency : concurrency (resolver c) ≠ 0;
  v_timeout : timeout_ms (resolver c) ≠ 0;
  v_cache : cache_size (cache c) ≠ 0;
  v_listen : Forall (λ a, is_Some (parse_socket_addr a)) (all_listeners c);
  v_api : is_Some (parse_socket_addr (api_listen (api c)));
  v_proxy : proxy_protocol (proxy c) ∈ ["v1"; "v2"]%string;
  v_level : log_level (log c) ∈ ["trace"; "debug"; "info"; "warn"; "error"]%string;
  v_format : log_format (log c) ∈ ["json"; "text"]%string;
  v_zones : Forall ZoneValid (zones c);
  v_dir : ∃ rest, zones_dir c = "/" +:+ rest
}.

(** The field an error points at, and what is wrong with it. *)
Definition blames (e : ConfigError) (c : Config) : Prop :=
  match e with
  | BadProvider got => provider (dnssec c) = got ∧ got ∉ ["ring"; "botan"]%string
  | BadForwardProtocol got =>
      forward_protocol (resolver c) = got ∧ got ∉ ["udp"; "tcp"; "dot"; "doh"; "doq"]%string
  | BadConcurrency => concurrency (resolver c) = 0
  | BadTimeout => timeout_ms (resolver c) = 0
  | BadCacheSize => cache_size (cache c) = 0
  | BadListen a => a ∈ all_listeners c ∧ parse_socket_addr a = None
  | BadApiListen a => api_listen (api c) = a ∧ parse_socket_addr a = None
  | BadProxyProtocol got => proxy_protocol (proxy c) = got ∧ got ∉ ["v1"; "v2"]%string
  | BadLogLevel got => log_level (log c) = got ∧ got ∉ ["trace"; "debug"; "info"; "warn"; "error"]%string
  | BadLogFormat got => log_format (log c) = got ∧ got ∉ ["json"; "text"]%string
  | BadZoneKind n got => ∃ z, z ∈ zones c ∧ zone_name z = n ∧ zone_kind z = got ∧ got ∉ zone_kinds
  | PrimaryNeedsFile n =>
      ∃ z, z ∈ zones c ∧ zone_name z = n ∧ zone_kind z = "primary"%string ∧ zone_file z = None
  | SecondaryNeedsPrimaries n =>
      ∃ z, z ∈ zones c ∧ zone_name z = n ∧ zone_kind z = "secondary"%string ∧ zone_primaries z = []
  | BadZoneAlgorithm n got =>
      ∃ z, z ∈ zones c ∧ zone_name z = n ∧ dnssec_signing z = true ∧ dnssec_algorithm z = got ∧
        got ∉ zone_algorithms
  | BadZonesDir got => zones_dir c = got ∧ Str.starts_with "/" got = false
  | ReadFailed _ | TomlError => False
  end.

(** ** Lemmas *)

Lemma one_of_true s l : one_of s l = true ↔ s ∈ l.
Proof. apply bool_decide_eq_true. Qed.

Lemma one_of_false s l : one_of s l = false ↔ s ∉ l.
Proof. apply bool_decide_eq_false. Qed.

Lemma is_socket_addr_true s : is_socket_addr s = true ↔ is_Some (parse_socket_addr s).
Proof. apply bool_decide_eq_true. Qed.

Lemma is_socket_addr_false s : is_socket_addr s = false ↔ parse_socket_addr s = None.
Proof. unfold is_socket_addr. by rewrite bool_decide_eq_false, eq_None_not_Some. Qed.

Lemma negb_eqb_0 x : negb (x =? 0) = true ↔ x ≠ 0.
Proof. by rewrite negb_true_iff, Z.eqb_neq. Qed.

Lemma check_all_Ok {A E} (check : A → result E unit) l u :
  check_all check l = Ok u ↔ Forall (λ x, check x = Ok tt) l.
Proof.
  destruct u. induction l as [|x l IH]; simpl; [by split; [constructor|]|].
  rewrite bind_Ok, list.Forall_cons. setoid_rewrite IH. split; [intros ([] & ? & ?); done|].
  intros [? ?]. by exists tt.
Qed.

Lemma check_all_Err {A E} (check : A → result E unit) l e :
  check_all check l = Err e → ∃ x, x ∈ l ∧ check x = Err e.
Proof.
  induction l as [|x l IH]; simpl; [done|]. intros [Hx|(? & _ & Hl)]%bind_Err.
  - exists x. set_solver.
  - destruct (IH Hl) as (y & ? & ?). exists y. set_solver.
Qed.

Lemma validate_zone_Ok z u : validate_zone z = Ok u ↔ ZoneValid z.
Proof.
  unfold validate_zone. autorewrite with results.
  rewrite !one_of_true, !negb_true_iff, !andb_false_iff, !bool_decide_eq_false, orb_true_iff,
    negb_true_iff, one_of_true.
  split.
  - intros (H1 & H2 & H3 & H4). split; [done| | |].
    + intros Hk. destruct H2 as [H2|H2]; [done|]. by destruct (zone_file z); [eexists|].
    + intros Hk. by destruct H3.
    + intros Hs. destruct H4 as [H4|H4]; [congruence|done].
  - intros [H1 H2 H3 H4]. split_and!; [done| | |].
    + destruct (decide (zone_kind z = "primary"%string)) as [Hk|]; [right|by left].
      destruct (H2 Hk) as [f ->]. done.
    + destruct (decide (zone_kind z = "secondary"%string)) as [Hk|]; [right; by apply H3|by left].
    + destruct (dnssec_signing z); [right; by apply H4|by left].
Qed.

Lemma validate_zone_Err z e c : z ∈ zones c → validate_zone z = Err e → blames e c.
Proof.
  intros Hz. unfold validate_zone. autorewrite with results.
  rewrite !negb_false_iff, !andb_true_iff, !bool_decide_eq_true, orb_false_iff, negb_false_iff.
  rewrite !one_of_false.
  intros [[H <-]|[_ [[[H1 H2] <-]|[_ [[[H1 H2] <-]|[_ [[H1 H2] <-]]]]]]]; simpl; by exists z.
Qed.

Lemma override_keeps_cache args c :
  cache (override_api (arg_api_listen args) (override_listen (arg_listen args) c)) = cache c.
Proof. by destruct (arg_api_listen args), (arg_listen args). Qed.

Lemma starts_with_app p s : Str.starts_with p s = true ↔ ∃ t, s = p +:+ t.
Proof. apply StrFacts.starts_with_true. Qed.

Lemma validate_Ok c u : validate c = Ok u ↔ Valid c.
Proof.
  unfold validate. autorewrite with results. rewrite !check_all_Ok.
  rewrite !negb_eqb_0, !one_of_true, starts_with_app, is_socket_addr_true.
  rewrite (Forall_iff _ (all_listeners c) (λ a, is_Some (parse_socket_addr a)))
    by (intros a; rewrite ensure_Ok; apply is_socket_addr_true).
  rewrite (Forall_iff (λ z, validate_zone z = Ok tt) (zones c) ZoneValid) by (intros z; apply validate_zone_Ok).
  split.
  - intros (? & ? & ? & ? & ? & ? & ? & ? & ? & ? & ? & ?). by split.
  - intros []. by split_and!.
Qed.

Lemma validate_Err c e : validate c = Err e → blames e c.
Proof.
  unfold validate. autorewrite with results.
  rewrite !one_of_false, !negb_false_iff, !Z.eqb_eq, is_socket_addr_false.
  intros H. repeat (destruct H as [H|[_ H]]);
    try (destruct H as [H <-]; exact (conj eq_refl H) || exact H).
  - apply check_all_Err in H as (a & Ha & [H <-]%ensure_Err). split; [done|].
    by apply is_socket_addr_false.
  - apply check_all_Err in H as (z & Hz & H). by eapply validate_zone_Err.
Qed.

(** ** The theorems *)

(** C15: [validate] accepts exactly the valid configurations; when it refuses one, the error
    names a field of that configuration together with the value that is at fault. *)
Theorem validate_correct c :
  (validate c = Ok tt ↔ Valid c) ∧ (∀ e, validate c = Err e → ¬ Valid c ∧ blames e c).
Proof.
  split; [apply validate_Ok|]. intros e He. split; [|by apply validate_Err].
  intros Hv%(validate_Ok c tt). congruence.
Qed.

(** C16: Whatever file, default file or command-line overrides the configuration came from, a
    configuration that start-up accepts is valid, the overrides won, and with it a cache of
    the configured size can store any response: the eviction loop returns.  With no file and
    no override the built-in defaults are accepted. *)
Theorem load_config_valid read exists_ parse args :
  (∀ c, load_config read exists_ parse args = Ok c →
     Valid c ∧
     (∀ l, arg_listen args = Some l → listen c = [l]) ∧
     (∀ a, arg_api_listen args = Some a → api_listen (api c) = a) ∧
     (0 ≤ cache_size (cache c) → ∀ now k bytes ttl stale pf,
        is_Some (Cache.insert now (Cache.new {| Cache.size_limit := Z.to_nat (cache_size (cache c));
           Cache.serve_stale := stale; Cache.prefetch := pf |}) k bytes ttl))) ∧
  (arg_config args = None → exists_ default_path = false →
   arg_listen args = None → arg_api_listen args = None →
   load_config read exists_ parse args = Ok Config_default).
Proof.
  split.
  - unfold load_config. intros c (c0 & _ & (u & Hv & [= <-])%bind_Ok)%bind_Ok.
    apply validate_Ok in Hv. split_and!; [done| | |].
    + intros l Hl. rewrite Hl. by destruct (arg_api_listen args).
    + intros a Ha. by rewrite Ha.
    + intros Hnn now k bytes ttl stale pf. pose proof (v_cache _ Hv) as Hsz.
      edestruct (CacheSpec.insert_run now) as (c' & -> & _); [apply CacheSpec.wf_new| |by eexists].
      simpl. lia.
  - intros H1 H2 H3 H4. unfold load_config. rewrite H1, H2, H3, H4. vm_compute. reflexivity.
Qed.

Lemma default_config_loads :
  load_config (λ _, None) (λ _, false) (λ _, None)
    {| arg_config := None; arg_check_config := false; arg_listen := Some "127.0.0.1:5353"%string;
       arg_api_listen := None; arg_log_level := None |} =
  Ok (override_listen (Some "127.0.0.1:5353"%string) Config_default).
Proof. vm_compute. reflexivity. Qed.

Lemma load_config_valid_witness :
  Valid (override_listen (Some "127.0.0.1:5353"%string) Config_default).
Proof.
  exact (proj1 (proj1 (load_config_valid (λ _, None) (λ _, false) (λ _, None)
    {| arg_config := None; arg_check_config := false; arg_listen := Some "127.0.0.1:5353"%string;
       arg_api_listen := None; arg_log_level := None |}) _ default_config_loads)).
Defined.

(** The default configuration with other TLS addresses, cache section and zones, for examples. *)
Definition config_with (tls_addrs : list string) (section : CacheSection) (zs : list ZoneConfig) : Config :=
  let c := Config_default in
  {| host := host c; hostadmin := hostadmin c; listen := listen c; listen_tls := tls_addrs;
     listen_quic := listen_quic c; listen_https := listen_https c; tls := tls c;
     dnssec_keys := dnssec_keys c; resolver := resolver c; cache := section; dnssec := dnssec c;
     filter := filter c; proxy := proxy c; api := api c; auth := auth c; log := log c; dhcp := dhcp c;
     cluster := cluster c; zones := zs; zones_dir := zones_dir c; metrics := metrics c; dns64 := dns64 c |}.

End ConfigProps.
