(* ===== verification/Blocklist.v ===== *)
(** * Block and allow lists ([src/core/filter/blocklist.rs])

    The sets of names are [gset string].  The file system and the HTTP client are parameters:
    within one load a source text is asked for at most once ([load_sources_exact]), so a
    function from sources to texts is enough. *)

From Stdlib Require Import Ascii String ZArith Lia.
From stdpp Require Import base list gmap strings numbers sets.
From S2P Require Import Prelude RustString RustNum RustNet.

Module Blocklist.
Import Str.

Definition META_MAX_DEPTH : nat := 4.

Definition dot : ascii := ".".

(** Strips trailing dots and lowers the case. *)
Definition normalize (name : string) : string := to_ascii_lowercase (trim_end_matches dot name).

Definition is_url (s : string) : bool := starts_with "http://" s || starts_with "https://" s.

(** ** The sets *)

Record Blocklist := { entries : gset string }.

Definition new : Blocklist := {| entries := ∅ |}.
Definition len (bl : Blocklist) : nat := size (entries bl).
Definition is_empty (bl : Blocklist) : bool := bool_decide (entries bl = ∅).

Definition insert (bl : Blocklist) (name : string) : Blocklist :=
  let n := normalize name in
  if bool_decide (n = EmptyString) then bl else {| entries := {[n]} ∪ entries bl |}.

(** The loop of [is_blocked]: the name, then what follows each dot. *)
Fixpoint suffix_walk (fuel : nat) (names : gset string) (cur : string) : bool :=
  match fuel with
  | O => false
  | S k =>
      if bool_decide (cur ∈ names) then true
      else match split_once dot cur with
           | Some (_, rest) => suffix_walk k names rest
           | None => false
           end
  end.

(** Each round drops at least one character, so [S (length cur)] rounds are enough. *)
Definition matches (names : gset string) (qname : string) : bool :=
  if bool_decide (names = ∅) then false
  else let normalized := normalize qname in
       suffix_walk (S (String.length normalized)) names normalized.

Definition is_blocked (bl : Blocklist) (qname : string) : bool := matches (entries bl) qname.

Record Allowlist := { allowed : gset string }.

Definition Allowlist_new : Allowlist := {| allowed := ∅ |}.
Definition Allowlist_len (al : Allowlist) : nat := size (allowed al).
Definition Allowlist_is_empty (al : Allowlist) : bool := bool_decide (allowed al = ∅).

Definition is_allowed (al : Allowlist) (qname : string) : bool := matches (allowed al) qname.

Definition blocked (bl : Blocklist) (al : Allowlist) (qname : string) : bool :=
  if is_allowed al qname then false else is_blocked bl qname.

(** ** Parsing *)

Definition is_comment (trimmed : string) : bool :=
  bool_decide (trimmed = EmptyString) || starts_with "#" trimmed.

Definition rejected_name (name : string) : bool :=
  bool_decide (name = EmptyString) || bool_decide (name = "localhost"%string) ||
  bool_decide (name = "localhost.localdomain"%string) || contains "/" name.

Definition parse_hosts_line (line : string) : option string :=
  let trimmed := trim line in
  if is_comment trimmed then None
  else
    match match strip_prefix "||" trimmed with
          | Some s => Some s
          | None => strip_prefix "@@||" trimmed
          end with
    | Some stripped =>
        name ← head (split_whitespace (trim_end_matches "^" stripped));
        if rejected_name name then None else Some (normalize name)
    | None =>
        let parts := split_whitespace trimmed in
        first ← head parts;
        if is_url first then None
        else match parse_ip first with
             | None => None
             | Some _ =>
                 name ← head (tail parts);
                 if rejected_name name then None else Some (normalize name)
             end
    end.

Definition parse_hosts (bl : Blocklist) (text : string) : Blocklist :=
  foldl (λ bl line, match parse_hosts_line line with
                    | Some name => {| entries := {[name]} ∪ entries bl |}
                    | None => bl
                    end) bl (lines text).

(** One line of the meta-list heuristic: counts (sources, hosts). *)
Definition meta_count (acc : nat * nat) (line : string) : nat * nat :=
  let '(sources, hosts) := acc in
  let trimmed := trim line in
  if is_comment trimmed then (sources, hosts)
  else if is_url trimmed || starts_with "/" trimmed then (S sources, hosts)
  else if starts_with "||" trimmed || starts_with "@@||" trimmed ||
          match head (split_whitespace trimmed) with
          | Some t => bool_decide (is_Some (parse_ipv4 t))
          | None => false
          end
       then (sources, S hosts)
       else (sources, hosts).

Definition looks_like_meta_list (text : string) : bool :=
  let '(sources, hosts) := foldl meta_count (0, 0)%nat (lines text) in
  (2 <=? sources)%nat && (hosts <? sources)%nat.

(** ** Loading *)

(** The state a load threads: the list, the visited keys, and the log of the sources whose
    text was asked for (newest first), which the source has no variable for. *)
Record LoadState := {
  ls_list : Blocklist;
  ls_visited : gset string;
  ls_fetched : list string
}.

Definition load_init : LoadState := {| ls_list := new; ls_visited := ∅; ls_fetched := [] |}.

Section Load.
Context {IoError : Type}.
Context (fs_read_to_string fetch_url : string → result IoError string).

Definition fetch_text (src : string) : result IoError string :=
  if is_url src then fetch_url src else fs_read_to_string src.

Definition is_source_line (trimmed : string) : bool := is_url trimmed || starts_with "/" trimmed.

(** [None] when the fuel runs out; [S META_MAX_DEPTH - depth + 1] is enough. *)
Fixpoint load_source (fuel depth : nat) (src : string) (st : LoadState) : option LoadState :=
  match fuel with
  | O => None
  | S k =>
      let key := normalize src in
      if bool_decide (key ∈ ls_visited st) then Some st
      else
        let visited := {[key]} ∪ ls_visited st in
        if (META_MAX_DEPTH <? depth)%nat then
          Some {| ls_list := ls_list st; ls_visited := visited; ls_fetched := ls_fetched st |}
        else
          let fetched := src :: ls_fetched st in
          match fetch_text src with
          | Err _ => Some {| ls_list := ls_list st; ls_visited := visited; ls_fetched := fetched |}
          | Ok text =>
              if looks_like_meta_list text then
                foldl (λ acc line,
                         st ← acc;
                         let trimmed := trim line in
                         if is_source_line trimmed
                         then load_source k (S depth) trimmed st else Some st)
                  (Some {| ls_list := ls_list st; ls_visited := visited; ls_fetched := fetched |})
                  (lines text)
              else Some {| ls_list := parse_hosts (ls_list st) text; ls_visited := visited;
                           ls_fetched := fetched |}
          end
  end.

Definition load_fuel : nat := S (S META_MAX_DEPTH).

(** The loop of both [load_sources] functions. *)
Definition load_all (sources : list string) : option LoadState :=
  foldl (λ acc src, st ← acc; load_source load_fuel 0 src st) (Some load_init) sources.

Definition load_sources (sources : list string) : option Blocklist := ls_list <$> load_all sources.

Definition Allowlist_load_sources (sources : list string) : option Allowlist :=
  st ← load_all sources; Some {| allowed := entries (ls_list st) |}.

End Load.

End Blocklist.
