(* ===== verification/BlocklistProps.v ===== *)
(** * Properties of the block and allow lists *)

From Stdlib Require Import Ascii String ZArith Lia.
From stdpp Require Import base list gmap strings numbers sets.
From S2P Require Import Prelude RustString RustNum RustNet Blocklist.

Module BlocklistProps.
Import Str StrFacts Blocklist.

(** ** Names *)

(** A name covers itself and every name below it. *)
Definition covers (e q : string) : Prop := q = e ∨ ∃ p, q = p +:+ String dot e.

Lemma normalize_idemp n : normalize (normalize n) = normalize n.
Proof.
  unfold normalize. unfold dot. by rewrite trim_dots_lowercase, trim_end_matches_idemp, to_ascii_lowercase_idemp.
Qed.

Lemma normalize_snoc_dot n : normalize (n +:+ ".") = normalize n.
Proof. exact (f_equal to_ascii_lowercase (trim_end_matches_snoc dot n)). Qed.

Lemma normalize_lowercase n : normalize (to_ascii_lowercase n) = normalize n.
Proof. unfold normalize, dot. by rewrite trim_dots_lowercase, to_ascii_lowercase_idemp. Qed.

Lemma normalize_below p q :
  normalize q ≠ EmptyString →
  normalize (p +:+ String dot q) = to_ascii_lowercase p +:+ String dot (normalize q).
Proof.
  intros Hq. unfold normalize in *.
  assert (trim_end_matches dot q ≠ EmptyString) as Ht by (intros E; by rewrite E in Hq).
  assert (trim_end_matches dot (String dot q) = String dot (trim_end_matches dot q)) as Hd.
  { cbn [trim_end_matches]. by destruct (trim_end_matches dot q). }
  rewrite trim_end_matches_prefix; rewrite Hd; [|done]. by rewrite to_ascii_lowercase_app.
Qed.

Lemma covers_below e p q : covers e q → covers e (p +:+ String dot q).
Proof.
  intros [->|[p' ->]]; right; [by exists p|]. exists (p +:+ String dot p').
  by rewrite <- app_assoc.
Qed.

(** ** Matching *)

Lemma suffix_walk_true fuel names cur :
  (String.length cur < fuel)%nat →
  suffix_walk fuel names cur = true ↔ ∃ e, e ∈ names ∧ covers e cur.
Proof.
  revert cur. induction fuel as [|fuel IH]; intros cur Hf; [lia|]. cbn [suffix_walk].
  case_bool_decide as Hin.
  { split; [intros _; exists cur; split; [done|by left]|done]. }
  destruct (split_once dot cur) as [[a rest]|] eqn:E.
  - apply split_once_Some in E as [-> Ha]. rewrite length_app in Hf. simpl in Hf.
    rewrite IH by lia. split.
    + intros (e & He & Hc). exists e. split; [done|by apply covers_below].
    + intros (e & He & [<-|[p Hp]]); [done|]. exists e. split; [done|].
      destruct (first_cut dot a rest p e Ha Hp) as [[_ ->]|[p' ->]]; [by left|].
      right. by exists p'.
  - apply split_once_None in E. split; [done|]. intros (e & He & [->|[p ->]]); [done|].
    rewrite contains_app in E. simpl in E. by rewrite orb_true_r in E.
Qed.

Lemma matches_true names q :
  matches names q = true ↔ ∃ e, e ∈ names ∧ covers e (normalize q).
Proof.
  unfold matches. case_bool_decide as Hn.
  - split; [done|]. intros (e & He & _). set_solver.
  - apply suffix_walk_true. lia.
Qed.

Lemma matches_normalize names q q' :
  normalize q = normalize q' → matches names q = matches names q'.
Proof. intros Hq. apply eq_true_iff_eq. by rewrite !matches_true, Hq. Qed.

Lemma matches_below names p q :
  normalize q ≠ EmptyString → matches names q = true → matches names (p +:+ String dot q) = true.
Proof.
  rewrite !matches_true. intros Hq (e & He & Hc). exists e. split; [done|].
  rewrite normalize_below by done. by apply covers_below.
Qed.

(** ** Parsing *)

(** The names the lists hold: lower case, no trailing dot, no slash. *)
Definition list_name (n : string) : Prop := normalize n = n ∧ contains "/" n = false.

Lemma list_name_normalize n : contains "/" n = false → list_name (normalize n).
Proof.
  intros Hn. split; [apply normalize_idemp|]. unfold normalize.
  rewrite contains_slash_lowercase. by apply contains_trim_end_matches.
Qed.

Lemma parse_hosts_line_name line n : parse_hosts_line line = Some n → list_name n.
Proof.
  assert (∀ name m, (if rejected_name name then None else Some (normalize name)) = Some m →
                    list_name m) as Hacc.
  { intros name m. destruct (rejected_name name) eqn:E; [done|]. intros [= <-].
    apply list_name_normalize. unfold rejected_name in E. by apply orb_false_iff in E as [_ ?]. }
  unfold parse_hosts_line. destruct (is_comment _); [done|]. case_match.
  - intros (name & _ & H1)%bind_Some. by eapply Hacc.
  - intros (first & _ & H1)%bind_Some. destruct (is_url first); [done|].
    destruct (parse_ip first); [|done]. apply bind_Some in H1 as (name & _ & H1). by eapply Hacc.
Qed.

Lemma parse_hosts_entries bl text n :
  n ∈ entries (parse_hosts bl text) ↔
  n ∈ entries bl ∨ ∃ line, line ∈ lines text ∧ parse_hosts_line line = Some n.
Proof.
  unfold parse_hosts. revert bl. induction (lines text) as [|l ls IH]; intros bl; simpl; [set_solver|].
  rewrite IH. destruct (parse_hosts_line l) as [m|] eqn:E; simpl; set_solver.
Qed.

(** ** Loading *)

Section Load.
Context {IoError : Type}.
Context (rd fu : string → result IoError string).

Notation fetch := (fetch_text rd fu).

(** The names a fetched source contributes. *)
Definition contributes (src n : string) : Prop :=
  ∃ text line, fetch src = Ok text ∧ looks_like_meta_list text = false ∧
    line ∈ lines text ∧ parse_hosts_line line = Some n.

Lemma contributes_Ok src text n :
  fetch src = Ok text →
  contributes src n ↔ looks_like_meta_list text = false ∧
    ∃ line, line ∈ lines text ∧ parse_hosts_line line = Some n.
Proof.
  intros Hf. split.
  - intros (text' & line & Ht & Hm & Hl). assert (text' = text) as -> by congruence. split; [done|by exists line].
  - intros (Hm & line & Hl). by exists text, line.
Qed.

Lemma contributes_Err src e n : fetch src = Err e → ¬ contributes src n.
Proof. intros Hf (text & line & Ht & _). congruence. Qed.

Record load_inv (st : LoadState) : Prop := {
  inv_once : NoDup (normalize <$> ls_fetched st);
  inv_visited src : src ∈ ls_fetched st → normalize src ∈ ls_visited st;
  inv_entries n : n ∈ entries (ls_list st) ↔ ∃ src, src ∈ ls_fetched st ∧ contributes src n
}.

Lemma load_inv_init : load_inv load_init.
Proof. split; simpl; [by apply NoDup_nil|set_solver|set_solver]. Qed.

(** Asking for the text of an unvisited source; [bl'] is the list after it was used. *)
Lemma load_inv_fetch st src bl' :
  load_inv st → normalize src ∉ ls_visited st →
  (∀ n, n ∈ entries bl' ↔ n ∈ entries (ls_list st) ∨ contributes src n) →
  load_inv {| ls_list := bl'; ls_visited := {[normalize src]} ∪ ls_visited st;
              ls_fetched := src :: ls_fetched st |}.
Proof.
  intros [Honce Hvis Hent] Hnew Hbl. split; simpl.
  - apply NoDup_cons. split; [|done]. intros (s & Hs & Hin)%list_elem_of_fmap.
    apply Hnew. rewrite Hs. by apply Hvis.
  - intros s [->|Hs]%elem_of_cons; set_solver.
  - intros n. rewrite Hbl, Hent. set_solver.
Qed.

Lemma load_source_inv fuel depth src st :
  (S META_MAX_DEPTH - depth < fuel)%nat → load_inv st →
  ∃ st', load_source rd fu fuel depth src st = Some st' ∧ load_inv st' ∧
    ls_fetched st `suffix_of` ls_fetched st'.
Proof.
  revert depth src st. induction fuel as [|fuel IH]; intros depth src st Hf Hinv; [lia|].
  cbn [load_source]. case_bool_decide as Hv; [by exists st|].
  destruct (Nat.ltb_spec META_MAX_DEPTH depth) as [Hd|Hd].
  { eexists. split_and!; [done| |done]. destruct Hinv as [H1 H2 H3].
    split; simpl; [done| |done]. set_solver. }
  destruct (fetch src) as [text|e] eqn:Hfetch.
  2: { eexists. split_and!; [done| |by apply suffix_cons_r].
       apply load_inv_fetch; [done|done|]. intros n.
       pose proof (contributes_Err src e n Hfetch). tauto. }
  destruct (looks_like_meta_list text) eqn:Hmeta.
  2: { eexists. split_and!; [done| |by apply suffix_cons_r]. apply load_inv_fetch; [done|done|].
       intros n. rewrite parse_hosts_entries, (contributes_Ok src text n Hfetch). tauto. }
  apply (foldl_option_invariant
           (λ st', load_inv st' ∧ ls_fetched st `suffix_of` ls_fetched st')).
  - intros st1 line [Hst1 Hs1] _. destruct (is_source_line _); [|by exists st1].
    destruct (IH (S depth) (trim line) st1) as (st2 & H2 & H3 & H4); [lia|done|].
    exists st2. split_and!; [done|done|by etrans].
  - split; [|by apply suffix_cons_r]. apply load_inv_fetch; [done|done|].
    intros n. rewrite (contributes_Ok src text n Hfetch). rewrite Hmeta. cbn [ls_list]. intuition congruence.
Qed.

Lemma load_all_inv sources :
  ∃ st, load_all rd fu sources = Some st ∧ load_inv st.
Proof.
  apply foldl_option_invariant; [|apply load_inv_init]. intros st src Hst _.
  destruct (load_source_inv load_fuel 0 src st) as (st' & H1 & H2 & _); [unfold load_fuel; lia|done|].
  by exists st'.
Qed.

End Load.

(** ** The theorems *)

(** C24: A name is blocked exactly when it is, after lowering its case and dropping trailing
    dots, an entry of the list or lies below one: some prefix, a dot, then the entry. *)
Theorem is_blocked_iff_suffix bl q :
  is_blocked bl q = true ↔
  ∃ e, e ∈ entries bl ∧ (normalize q = e ∨ ∃ p, normalize q = p +:+ String dot e).
Proof. apply matches_true. Qed.

(** Blocking a name blocks it in any letter case, with or without a trailing dot, and
    blocks every name below it, and nothing but the allow list lifts that. *)
Lemma insert_blocks_subtree bl al n p :
  normalize n ≠ EmptyString →
  let bl' := insert bl n in
  is_blocked bl' n = true ∧ is_blocked bl' (n +:+ ".") = true ∧
  is_blocked bl' (to_ascii_lowercase n) = true ∧ is_blocked bl' (p +:+ String dot n) = true ∧
  (∀ q, is_blocked bl q = true → is_blocked bl' q = true) ∧
  (∀ q, blocked bl' al q = is_blocked bl' q && negb (is_allowed al q)).
Proof.
  intros Hn bl'.
  assert (entries bl' = {[normalize n]} ∪ entries bl) as Hent.
  { unfold bl', insert. by rewrite bool_decide_false. }
  assert (is_blocked bl' n = true) as Hb.
  { apply matches_true. exists (normalize n). split; [set_solver|by left]. }
  split; [done|]. unfold is_blocked in *. split_and!.
  - refine (eq_trans _ Hb). apply matches_normalize, normalize_snoc_dot.
  - refine (eq_trans _ Hb). apply matches_normalize, normalize_lowercase.
  - by apply matches_below.
  - intros q. rewrite !matches_true. intros (e & He & Hc). exists e. set_solver.
  - intros q. unfold blocked, is_blocked. destruct (is_allowed al q); [by rewrite andb_false_r|].
    by rewrite andb_true_r.
Qed.

(** C25: Loading any list of sources returns, however the files and URLs refer to each other:
    no source text is asked for twice, and the entries are exactly the names on the lines of
    the fetched sources that are not meta-lists. *)
Theorem load_sources_exact {IoError} (rd fu : string → result IoError string) sources :
  ∃ st bl, load_all rd fu sources = Some st ∧ load_sources rd fu sources = Some bl ∧
    NoDup (normalize <$> ls_fetched st) ∧
    ∀ n, n ∈ entries bl ↔ ∃ src text line, src ∈ ls_fetched st ∧
      fetch_text rd fu src = Ok text ∧ looks_like_meta_list text = false ∧
      line ∈ lines text ∧ parse_hosts_line line = Some n.
Proof.
  destruct (load_all_inv rd fu sources) as (st & Hrun & [Honce _ Hent]).
  exists st, (ls_list st). unfold load_sources. rewrite Hrun. split_and!; [done|done|done|].
  intros n. rewrite Hent. unfold contributes. naive_solver.
Qed.

(** Every name of a loaded block list is lower case without a trailing dot and without a
    slash, and stays so when names are inserted or hosts texts merged, so lookups compare
    normal forms on both sides. *)
Lemma loaded_names_normal {IoError} (rd fu : string → result IoError string) sources bl :
  load_sources rd fu sources = Some bl →
  set_Forall list_name (entries bl) ∧
  (∀ text, set_Forall list_name (entries (parse_hosts bl text))) ∧
  (∀ n, contains "/" n = false → set_Forall list_name (entries (insert bl n))).
Proof.
  intros Hload. destruct (load_all_inv rd fu sources) as (st & Hrun & [_ _ Hent]).
  unfold load_sources in Hload. rewrite Hrun in Hload. injection Hload as <-.
  assert (set_Forall list_name (entries (ls_list st))) as H1.
  { intros n (src & _ & text & line & _ & _ & _ & Hl)%Hent. by eapply parse_hosts_line_name. }
  split_and!; [done| |].
  - intros text n [Hn|(line & _ & Hl)]%parse_hosts_entries; [by apply H1|].
    by eapply parse_hosts_line_name.
  - intros n Hn m. unfold insert. case_bool_decide; [apply H1|]. simpl.
    intros [->%elem_of_singleton|Hm]%elem_of_union; [by apply list_name_normalize|by apply H1].
Qed.

(** ** Witnesses *)

Definition newline : string := String LF EmptyString.

(** A meta-list that names itself, a hosts file twice and a missing file. *)
Definition sample_read (src : string) : result unit string :=
  if bool_decide (src = "/meta"%string) then
    Ok ("/hosts" +:+ newline +:+ "/meta" +:+ newline +:+ "/HOSTS" +:+ newline +:+ "/missing")
  else if bool_decide (src = "/hosts"%string) then
    Ok ("# list" +:+ newline +:+ "0.0.0.0 Ads.Example.COM." +:+ newline +:+ "||track.er^")
  else Err tt.

Example load_sample :
  elements (default ∅ (entries <$> load_sources sample_read sample_read ["/meta"%string]))
    ≡ₚ ["ads.example.com"; "track.er"]%string.
Proof. vm_compute. solve_Permutation. Qed.

Lemma insert_blocks_subtree_witness :
  is_blocked (insert new "Example.COM.") "ads.Example.COM." = true.
Proof.
  pose proof (insert_blocks_subtree new Allowlist_new "Example.COM." "ads") as H.
  destruct H as (_ & _ & _ & H & _); [vm_compute; discriminate|]. exact H.
Defined.

Lemma loaded_names_normal_witness :
  ∃ bl, load_sources sample_read sample_read ["/meta"%string] = Some bl ∧
    set_Forall list_name (entries bl).
Proof.
  destruct (load_sources sample_read sample_read ["/meta"%string]) as [bl|] eqn:E; [|discriminate E].
  exists bl. split; [reflexivity|].
  exact (proj1 (loaded_names_normal sample_read sample_read ["/meta"%string] bl E)).
Defined.

End BlocklistProps.
