(* ===== verification/Dns.v ===== *)
(** * What the sources use of the hickory libraries

    Names, messages and the upstream resolver are third-party code: they are the interface
    [Hickory], with the documented facts the sources rely on as its laws.  Record types,
    response codes and record data are the variants the sources mention, with one constructor
    for the rest.  [World] is the state that one request shares with the other tasks. *)

From Stdlib Require Import Ascii String ZArith Lia.
From stdpp Require Import base list gmap strings numbers countable.
From S2P Require Import Prelude RustString RustNum RustNet Metrics Cache.

Local Open Scope Z_scope.

Module Dns.
Import Metrics Cache.

Inductive RecordType :=
  | RT_A | RT_AAAA | RT_ANAME | RT_CNAME | RT_SOA | RT_NS | RT_ANY | RT_AXFR
  | RT_MX | RT_TXT | RT_SRV | RT_PTR | RT_TLSA | RT_SSHFP | RT_HTTPS | RT_SVCB | RT_CAA
  | RT_DNSKEY | RT_DS | RT_RRSIG | RT_NSEC | RT_NSEC3 | RT_NSEC3PARAM
  | RT_Other (code : Z).

Inductive ResponseCode :=
  | NoError | FormErr | ServFail | NXDomain | NotImp
  | RC_Other (code : Z).

Inductive OpCode :=
  | Op_Query | Op_Notify | Op_Update
  | Op_Other (code : Z).

#[export] Instance RecordType_eq_dec : EqDecision RecordType.
Proof. solve_decision. Defined.
#[export] Instance ResponseCode_eq_dec : EqDecision ResponseCode.
Proof. solve_decision. Defined.
#[export] Instance OpCode_eq_dec : EqDecision OpCode.
Proof. solve_decision. Defined.

(** The matching type of a TLSA record; usage and selector are kept as their codes. *)
Inductive Matching :=
  | Raw | Sha256 | Sha512
  | Matching_Other (code : Z).

#[export] Instance Matching_eq_dec : EqDecision Matching.
Proof. solve_decision. Defined.

Record TLSA := {
  cert_usage : Z;
  selector : Z;
  matching_type : Matching;
  cert_data : list Z
}.

#[export] Instance TLSA_eq_dec : EqDecision TLSA.
Proof. solve_decision. Defined.

(** Record data over a type of names.  [RD_Other] is any other data together with the type it
    reports, which can be one of the named types: a record without data reports the type it
    was asked for. *)
Inductive RData (N : Type) :=
  | RD_A (a : Ipv4Addr)
  | RD_AAAA (a : Ipv6Addr)
  | RD_CNAME (n : N)
  | RD_ANAME (n : N)
  | RD_NS (n : N)
  | RD_SOA (mname rname : N) (serial refresh retry expire minimum : Z)
  | RD_PTR (n : N)
  | RD_MX (preference : Z) (exchange : N)
  | RD_TXT (txt : list string)
  | RD_SRV (priority weight port : Z) (target : N)
  | RD_TLSA (tlsa : TLSA)
  | RD_Other (t : RecordType) (payload : list Z).
Arguments RD_A {N} a.
Arguments RD_AAAA {N} a.
Arguments RD_CNAME {N} n.
Arguments RD_ANAME {N} n.
Arguments RD_NS {N} n.
Arguments RD_SOA {N} mname rname serial refresh retry expire minimum.
Arguments RD_PTR {N} n.
Arguments RD_MX {N} preference exchange.
Arguments RD_TXT {N} txt.
Arguments RD_SRV {N} priority weight port target.
Arguments RD_TLSA {N} tlsa.
Arguments RD_Other {N} t payload.

Record RecordOf (N : Type) := { rname : N; ttl : Z; data : RData N }.
Arguments rname {N} r.
Arguments ttl {N} r.
Arguments data {N} r.

Definition rdata_type {N} (d : RData N) : RecordType :=
  match d with
  | RD_A _ => RT_A
  | RD_AAAA _ => RT_AAAA
  | RD_CNAME _ => RT_CNAME
  | RD_ANAME _ => RT_ANAME
  | RD_NS _ => RT_NS
  | RD_SOA _ _ _ _ _ _ _ => RT_SOA
  | RD_PTR _ => RT_PTR
  | RD_MX _ _ => RT_MX
  | RD_TXT _ => RT_TXT
  | RD_SRV _ _ _ _ => RT_SRV
  | RD_TLSA _ => RT_TLSA
  | RD_Other t _ => t
  end.

Definition record_type {N} (r : RecordOf N) : RecordType := rdata_type (data r).

Definition is_type {N} (t : RecordType) (r : RecordOf N) : bool := bool_decide (record_type r = t).

(** [Record::from_rdata]. *)
Definition from_rdata {N} (n : N) (t : Z) (d : RData N) : RecordOf N :=
  {| rname := n; ttl := t; data := d |}.

(** The parts of a [Message] the sources set or read. *)
Record MessageOf (N : Type) := {
  msg_id : Z;
  msg_is_response : bool;
  op_code : OpCode;
  response_code : ResponseCode;
  authoritative : bool;
  recursion_desired : bool;
  recursion_available : bool;
  truncation : bool;
  queries : list (N * RecordType);
  answers : list (RecordOf N)
}.
Arguments msg_id {N} m.
Arguments msg_is_response {N} m.
Arguments op_code {N} m.
Arguments response_code {N} m.
Arguments authoritative {N} m.
Arguments recursion_desired {N} m.
Arguments recursion_available {N} m.
Arguments truncation {N} m.
Arguments queries {N} m.
Arguments answers {N} m.

(** ** The interface *)

(** [labels] are the labels of a name from the left, without the root label; [name_eqb] is the
    comparison of names by [==], which ignores the case of letters; [to_lowercase] makes the
    [LowerName] as which the server library reads the name of a request.  [wire r] is [r]
    as it reads back after encoding (its names become fully qualified); [faithful m] says that
    the decoder accepts what the encoder makes of [m]: the message fits in 65535 bytes and no
    OPT, SIG or TSIG record is among the answers. *)
Class Hickory := {
  Name : Type;
  Name_eq_dec :: EqDecision Name;
  NetError : Type;
  net_error_other : string → NetError;
  labels : Name → list string;
  is_fqdn : Name → bool;
  num_labels : Name → Z;
  base_name : Name → Name;
  is_root : Name → bool;
  root : Name;
  set_fqdn : bool → Name → Name;
  to_lowercase : Name → Name;
  from_ascii : string → option Name;
  from_utf8 : string → option Name;
  to_utf8 : Name → string;
  to_string : Name → string;
  name_eqb : Name → Name → bool;
  rtype_code : RecordType → Z;
  message_to_vec : MessageOf Name → option (list Z);
  message_from_vec : list Z → option (MessageOf Name);
  wire : RecordOf Name → RecordOf Name;
  faithful : MessageOf Name → bool;

  labels_bound n : (length (labels n) ≤ 127)%nat;
  num_labels_spec n :
    num_labels n = Z.of_nat (length (labels n)) -
                   (if bool_decide (head (labels n) = Some "*"%string) then 1 else 0);
  labels_base_name n : labels (base_name n) = tail (labels n);
  labels_root : labels root = [];
  is_root_spec n : is_root n = bool_decide (labels n = []) && is_fqdn n;
  is_fqdn_root : is_fqdn root = true;
  labels_set_fqdn b n : labels (set_fqdn b n) = labels n;
  is_fqdn_set_fqdn b n : is_fqdn (set_fqdn b n) = b;
  labels_to_lowercase n : labels (to_lowercase n) = Str.to_ascii_lowercase <$> labels n;
  is_fqdn_to_lowercase n : is_fqdn (to_lowercase n) = is_fqdn n;
  to_utf8_lowercase n : Str.to_ascii_lowercase (to_utf8 (to_lowercase n)) = to_utf8 (to_lowercase n);
  rtype_code_inj t t' : rtype_code t = rtype_code t' → t = t';
  wire_ttl r : ttl (wire r) = ttl r;
  wire_type r : record_type (wire r) = record_type r;
  wire_A r a : data r = RD_A a → data (wire r) = RD_A a;
  wire_AAAA r a : data r = RD_AAAA a → data (wire r) = RD_AAAA a;
  message_roundtrip m b :
    message_to_vec m = Some b → faithful m = true →
    ∃ m', message_from_vec b = Some m' ∧ answers m' = wire <$> answers m ∧
      response_code m' = response_code m ∧ truncation m' = truncation m ∧
      msg_id m' = msg_id m ∧ op_code m' = op_code m ∧
      queries m' = prod_map (set_fqdn true) id <$> queries m
}.

Notation Rec := (RecordOf Name).
Notation Message := (MessageOf Name).

(** ** The world of a request

    [w_calls] lists the upstream queries made so far, newest first.  Each time the code reads
    the clock, waits for the cache lock or draws a message id, [w_ticks] advances. *)

Section World.
Context `{Hickory}.

Record World := {
  w_cache : Cache;
  w_metrics : MetricsRegistry;
  w_calls : list (Name * RecordType);
  w_ticks : nat
}.

(** What surrounds a request: the clock, what the other tasks do to the cache while the
    request waits for the lock, the upstream servers (whose answers may depend on every
    earlier query) and the random message ids. *)
Class Env := {
  clock : nat → Z;
  others : nat → Cache → Cache;
  upstream : list (Name * RecordType) → Name → RecordType → result NetError (list Rec);
  random_id : nat → Z
}.

End World.
Arguments World {_}.
Arguments Env {_}.

(** A computation that reads and changes the world, or does not return. *)
Definition M `{Hickory} (A : Type) : Type := World → option (A * World).

Section Monad.
Context `{Hickory} `{!Env}.

#[export] Instance M_ret : MRet M := λ A a w, Some (a, w).
#[export] Instance M_bind : MBind M := λ A B f m w,
  match m w with Some (a, w') => f a w' | None => None end.

(** A computation given by its effect on the world. *)
Definition act {A} (f : World → option (A * World)) : M A := f.

Definition with_cache (c : Cache) (w : World) : World :=
  {| w_cache := c; w_metrics := w_metrics w; w_calls := w_calls w; w_ticks := w_ticks w |}.
Definition with_metrics (m : MetricsRegistry) (w : World) : World :=
  {| w_cache := w_cache w; w_metrics := m; w_calls := w_calls w; w_ticks := w_ticks w |}.
Definition tick (w : World) : World :=
  {| w_cache := w_cache w; w_metrics := w_metrics w; w_calls := w_calls w; w_ticks := S (w_ticks w) |}.

(** [Instant::now()]. *)
Definition now : M Z := λ w, Some (clock (w_ticks w), tick w).

(** [Message::query()] draws a random id. *)
Definition fresh_id : M Z := λ w, Some (random_id (w_ticks w), tick w).

(** [self.cache.write().await]. *)
Definition lock_cache : M unit := λ w,
  Some (tt, tick (with_cache (others (w_ticks w) (w_cache w)) w)).

(** [MetricsRegistry::increment_global]. *)
Definition increment_global (name : MetricName) (delta : Z) : M unit := λ w,
  Some (tt, with_metrics (increment (w_metrics w) name delta) w).

(** The resolver's [lookup(name, type).await], its answers. *)
Definition resolver_lookup (n : Name) (t : RecordType) : M (result NetError (list Rec)) := λ w,
  Some (upstream (w_calls w) n t,
        {| w_cache := w_cache w; w_metrics := w_metrics w; w_calls := (n, t) :: w_calls w;
           w_ticks := w_ticks w |}).

(** [cache.lookup_with_metrics(&key)] on the locked cache. *)
Definition cache_lookup (key : CacheKey) : M (option (list Z * bool * Z)) :=
  t ← now;
  act (λ w, let '(r, c, m) := lookup_with_metrics t (w_cache w) (w_metrics w) key in
            Some (r, with_metrics m (with_cache c w))).

Definition cache_should_prefetch (key : CacheKey) : M bool :=
  t ← now; act (λ w, Some (should_prefetch t (w_cache w) key, w)).

(** [cache.insert(key, bytes, ttl)] on the locked cache; it may not return. *)
Definition cache_insert (key : CacheKey) (bytes : list Z) (d : Z) : M unit :=
  t ← now;
  act (λ w, match Cache.insert t (w_cache w) key bytes d with
            | Some c => Some (tt, with_cache c w)
            | None => None
            end).

End Monad.

End Dns.
