(* ===== verification/DnsSample.v ===== *)
(** * A concrete instance of the library interface

    Names as label lists, messages coded through the standard encoding of their parts.  It shows
    that the laws of [Dns.Hickory] can hold together, and the witnesses run on it. *)

From Stdlib Require Import Ascii String ZArith Lia.
From stdpp Require Import base list gmap strings numbers countable.
From S2P Require Import Prelude RustString RustNum RustNet Metrics Cache Dns.

Local Open Scope Z_scope.

Module DnsSample.
Import Dns.

Record SName := { s_labels : list string; s_fqdn : bool }.

#[export] Instance SName_eq_dec : EqDecision SName.
Proof. solve_decision. Defined.
#[export] Instance SName_countable : Countable SName.
Proof. refine (inj_countable' (λ n, (s_labels n, s_fqdn n)) (λ '(l, b), Build_SName l b) _). by intros []. Defined.

#[export] Instance RecordType_countable : Countable RecordType.
Proof.
  refine (inj_countable (λ t, match t with
    | RT_A => (0, 0) | RT_AAAA => (1, 0) | RT_ANAME => (2, 0) | RT_CNAME => (3, 0) | RT_SOA => (4, 0)
    | RT_NS => (5, 0) | RT_ANY => (6, 0) | RT_AXFR => (7, 0) | RT_Other c => (8, c)
    | RT_MX => (9, 0) | RT_TXT => (10, 0) | RT_SRV => (11, 0) | RT_PTR => (12, 0) | RT_TLSA => (13, 0)
    | RT_SSHFP => (14, 0) | RT_HTTPS => (15, 0) | RT_SVCB => (16, 0) | RT_CAA => (17, 0)
    | RT_DNSKEY => (18, 0) | RT_DS => (19, 0) | RT_RRSIG => (20, 0) | RT_NSEC => (21, 0)
    | RT_NSEC3 => (22, 0) | RT_NSEC3PARAM => (23, 0) end)
    (λ '(k, c), nth (Z.to_nat k) (Some <$> [RT_A; RT_AAAA; RT_ANAME; RT_CNAME; RT_SOA; RT_NS; RT_ANY;
       RT_AXFR; RT_Other c; RT_MX; RT_TXT; RT_SRV; RT_PTR; RT_TLSA; RT_SSHFP; RT_HTTPS; RT_SVCB; RT_CAA;
       RT_DNSKEY; RT_DS; RT_RRSIG; RT_NSEC; RT_NSEC3; RT_NSEC3PARAM]) None) _).
  by intros [].
Defined.

#[export] Instance ResponseCode_countable : Countable ResponseCode.
Proof.
  refine (inj_countable (λ t, match t with
    | NoError => (0, 0) | FormErr => (1, 0) | ServFail => (2, 0) | NXDomain => (3, 0)
    | NotImp => (4, 0) | RC_Other c => (5, c) end)
    (λ '(k, c), nth (Z.to_nat k) (Some <$> [NoError; FormErr; ServFail; NXDomain; NotImp; RC_Other c]) None) _).
  by intros [].
Defined.

#[export] Instance OpCode_countable : Countable OpCode.
Proof.
  refine (inj_countable (λ t, match t with
    | Op_Query => (0, 0) | Op_Notify => (1, 0) | Op_Update => (2, 0) | Op_Other c => (3, c) end)
    (λ '(k, c), nth (Z.to_nat k) (Some <$> [Op_Query; Op_Notify; Op_Update; Op_Other c]) None) _).
  by intros [].
Defined.

#[export] Instance RData_eq_dec : EqDecision (RData SName).
Proof. solve_decision. Defined.

Definition matching_code (m : Matching) : Z * Z :=
  match m with Raw => (0, 0) | Sha256 => (1, 0) | Sha512 => (2, 0) | Matching_Other c => (3, c) end.

(** Tag, addresses, names, numbers, reported type. *)
Definition rdata_parts (d : RData SName) :
    Z * option IpAddr * list SName * list Z * option RecordType * list string :=
  match d with
  | RD_A a => (0, Some (IpV4 a), [], [], None, [])
  | RD_AAAA a => (1, Some (IpV6 a), [], [], None, [])
  | RD_CNAME n => (2, None, [n], [], None, [])
  | RD_ANAME n => (3, None, [n], [], None, [])
  | RD_NS n => (4, None, [n], [], None, [])
  | RD_SOA m r a b c d e => (5, None, [m; r], [a; b; c; d; e], None, [])
  | RD_Other t p => (6, None, [], p, Some t, [])
  | RD_PTR n => (7, None, [n], [], None, [])
  | RD_MX p n => (8, None, [n], [p], None, [])
  | RD_TXT l => (9, None, [], [], None, l)
  | RD_SRV a b c n => (10, None, [n], [a; b; c], None, [])
  | RD_TLSA (Build_TLSA u s m l) =>
      let '(k, c) := matching_code m in (11, None, [], u :: s :: k :: c :: l, None, [])
  end.

Definition parts_rdata (x : Z * option IpAddr * list SName * list Z * option RecordType * list string) :
    option (RData SName) :=
  match x with
  | (0, Some (IpV4 a), [], [], None, []) => Some (RD_A a)
  | (1, Some (IpV6 a), [], [], None, []) => Some (RD_AAAA a)
  | (2, None, [n], [], None, []) => Some (RD_CNAME n)
  | (3, None, [n], [], None, []) => Some (RD_ANAME n)
  | (4, None, [n], [], None, []) => Some (RD_NS n)
  | (5, None, [m; r], [a; b; c; d; e], None, []) => Some (RD_SOA m r a b c d e)
  | (6, None, [], p, Some t, []) => Some (RD_Other t p)
  | (7, None, [n], [], None, []) => Some (RD_PTR n)
  | (8, None, [n], [p], None, []) => Some (RD_MX p n)
  | (9, None, [], [], None, l) => Some (RD_TXT l)
  | (10, None, [n], [a; b; c], None, []) => Some (RD_SRV a b c n)
  | (11, None, [], u :: s :: k :: c :: l, None, []) =>
      m ← nth (Z.to_nat k) (Some <$> [Raw; Sha256; Sha512; Matching_Other c]) None;
      Some (RD_TLSA (Build_TLSA u s m l))
  | _ => None
  end.

#[export] Instance RData_countable : Countable (RData SName).
Proof. refine (inj_countable rdata_parts parts_rdata _). by intros [| | | | | | | | | |[?? [] ?]|]. Defined.

#[export] Instance Record_eq_dec : EqDecision (RecordOf SName).
Proof. solve_decision. Defined.
#[export] Instance Record_countable : Countable (RecordOf SName).
Proof.
  refine (inj_countable' (λ r, (rname r, ttl r, data r)) (λ '(n, t, d), from_rdata n t d) _).
  by intros [].
Defined.

Lemma length_tail_le {A} (l : list A) : (length (tail l) ≤ length l)%nat.
Proof. destruct l; simpl; lia. Qed.

(** At most 127 labels. *)
Definition s_name_labels (n : SName) : list string := take 127 (s_labels n).

Definition qualify (n : SName) : SName := {| s_labels := s_labels n; s_fqdn := true |}.

Definition qualify_data (d : RData SName) : RData SName :=
  match d with
  | RD_CNAME n => RD_CNAME (qualify n)
  | RD_ANAME n => RD_ANAME (qualify n)
  | RD_NS n => RD_NS (qualify n)
  | RD_PTR n => RD_PTR (qualify n)
  | RD_MX p n => RD_MX p (qualify n)
  | RD_SRV a b c n => RD_SRV a b c (qualify n)
  | RD_SOA m r a b c d e => RD_SOA (qualify m) (qualify r) a b c d e
  | _ => d
  end.

Definition s_wire (r : RecordOf SName) : RecordOf SName :=
  from_rdata (qualify (rname r)) (ttl r) (qualify_data (data r)).

Fixpoint pos_bits (p : positive) : list Z :=
  match p with xH => [] | xO p => 0 :: pos_bits p | xI p => 1 :: pos_bits p end.

Fixpoint bits_pos (l : list Z) : option positive :=
  match l with
  | [] => Some xH
  | b :: l => p ← bits_pos l; if b =? 0 then Some (xO p) else if b =? 1 then Some (xI p) else None
  end.

Lemma bits_pos_bits p : bits_pos (pos_bits p) = Some p.
Proof. induction p as [p IH|p IH|]; simpl; [| |done]; by rewrite IH. Qed.

Definition s_to_vec (m : MessageOf SName) : option (list Z) :=
  Some (pos_bits (encode (response_code m, truncation m, msg_id m, op_code m,
                          prod_map qualify id <$> queries m, s_wire <$> answers m))).

Definition s_from_vec (b : list Z) : option (MessageOf SName) :=
  p ← bits_pos b;
  '(rc, tc, i, op, qs, ans) ← decode (A := ResponseCode * bool * Z * OpCode *
                                list (SName * RecordType) * list (RecordOf SName)) p;
  Some {| msg_id := i; msg_is_response := false; op_code := op; response_code := rc;
          authoritative := false; recursion_desired := false;
     recursion_available := false; truncation := tc; queries := qs; answers := ans |}.

Definition s_from_ascii (s : string) : option SName :=
  Some {| s_labels := base.filter (λ l, l ≠ EmptyString) (Str.split "." s);
          s_fqdn := Str.ends_with "." s |}.

Definition s_to_utf8 (n : SName) : string :=
  foldr (λ l acc, l +:+ "." +:+ acc) EmptyString (s_name_labels n).

Definition s_code (t : RecordType) : Z :=
  match t with
  | RT_A => 1 | RT_NS => 2 | RT_CNAME => 5 | RT_SOA => 6 | RT_AAAA => 28 | RT_AXFR => 252
  | RT_ANY => 255 | RT_ANAME => 65305 | RT_MX => 15 | RT_TXT => 16 | RT_SRV => 33 | RT_PTR => 12
  | RT_TLSA => 52 | RT_SSHFP => 44 | RT_HTTPS => 65 | RT_SVCB => 64 | RT_CAA => 257 | RT_DNSKEY => 48
  | RT_DS => 43 | RT_RRSIG => 46 | RT_NSEC => 47 | RT_NSEC3 => 50 | RT_NSEC3PARAM => 51
  | RT_Other c => if 0 <=? c then 100000 + 2 * c else 100000 - 2 * c - 1
  end.

#[export] Instance sample : Hickory.
Proof.
  refine {|
    Name := SName; NetError := string; net_error_other s := s;
    labels := s_name_labels; is_fqdn := s_fqdn;
    num_labels n := Z.of_nat (length (s_name_labels n)) -
                    (if bool_decide (head (s_name_labels n) = Some "*"%string) then 1 else 0);
    base_name n := {| s_labels := tail (s_name_labels n); s_fqdn := true |};
    is_root n := bool_decide (s_name_labels n = []) && s_fqdn n;
    root := {| s_labels := []; s_fqdn := true |};
    set_fqdn b n := {| s_labels := s_labels n; s_fqdn := b |};
    to_lowercase n := {| s_labels := Str.to_ascii_lowercase <$> s_labels n; s_fqdn := s_fqdn n |};
    from_ascii := s_from_ascii; from_utf8 := s_from_ascii; to_utf8 := s_to_utf8; to_string := s_to_utf8;
    name_eqb n m := bool_decide (Str.to_ascii_lowercase <$> s_labels n = Str.to_ascii_lowercase <$> s_labels m); rtype_code := s_code;
    message_to_vec := s_to_vec; message_from_vec := s_from_vec; wire := s_wire;
    faithful _ := true |}; try done.
  - intros n. unfold s_name_labels. rewrite length_take. lia.
  - intros n. unfold s_name_labels. cbn [s_labels]. apply take_ge.
    etrans; [apply length_tail_le|]. rewrite length_take. lia.
  - intros n. unfold s_name_labels. cbn [s_labels]. by rewrite fmap_take.
  - intros n. unfold s_to_utf8, s_name_labels. cbn [s_labels]. rewrite <- fmap_take.
    induction (take 127 (s_labels n)) as [|l ls IH]; [done|]. cbn [fmap list_fmap foldr] in *.
    rewrite !StrFacts.to_ascii_lowercase_app, IH, StrFacts.to_ascii_lowercase_idemp. done.
  - intros t t'. destruct t, t'; unfold s_code; try done;
      repeat match goal with |- context [0 <=? ?c] => destruct (Z.leb_spec 0 c) end;
      intros ?; try (exfalso; lia); f_equal; lia.
  - by intros [n t []].
  - intros r a Hr. unfold s_wire. cbn [data from_rdata]. by rewrite Hr.
  - intros r a Hr. unfold s_wire. cbn [data from_rdata]. by rewrite Hr.
  - intros m b [= <-] _. unfold s_from_vec. rewrite bits_pos_bits. cbn [mbind option_bind].
    rewrite decode_encode. cbn [mbind option_bind]. by eexists.
Defined.

End DnsSample.
