(* ===== verification/Zone.v ===== *)
(** * Zone files and record editing ([src/core/zone/file.rs], [src/core/zone/record.rs])

    Loading a zone file, replacing the mail box of its SOA record, and the record operations of
    the HTTP interface: list, get, insert and delete, each on a freshly loaded zone that is
    written back as text.  The parser of zone files, the record store and the file system are
    the interface [ZoneLib]. *)

From Stdlib Require Import Ascii String ZArith Lia.
From stdpp Require Import base list gmap strings numbers.
From S2P Require Import Prelude RustString RustNum RustNet Metrics Cache Config Dns.

Local Open Scope Z_scope.

Module Zone.
Import Dns.

Inductive ZoneType := Primary | Secondary.

Inductive ZoneError :=
  | NoFile (zone : string)
  | FileNotFound (path : string)
  | BadOrigin (zone : string)
  | BadZoneFile (path : string)
  | BadRname (rname : string)
  | UnknownRecordType
  | BadRecordName (name : string)
  | BadData (rtype : RecordType)
  | NotSupported (rtype : RecordType)
  | CreateDirFailed (path : string)
  | WriteFailed (path : string).

(** ** The interface of the server library and the file system *)

(** The records of a zone: an ordered map from lower-case names and types to record sets, in the
    order of its keys.  A set is the list of its records without their signatures. *)
Notation ZoneMap L N := (list ((L * RecordType) * list (RecordOf N))).

Definition zone_get {L N} `{EqDecision L} (k : L * RecordType) (z : ZoneMap L N) : option (list (RecordOf N)) :=
  snd <$> head (base.filter (λ p, p.1 = k) z).

Definition zone_remove {L N} `{EqDecision L} (k : L * RecordType) (z : ZoneMap L N) : ZoneMap L N :=
  base.filter (λ p, p.1 ≠ k) z.

(** An alias and a record of another type cannot have one name (NSEC records apart). *)
Definition excludes (t t' : RecordType) : Prop :=
  (t = RT_CNAME ∧ t' ≠ RT_CNAME ∨ t ≠ RT_CNAME ∧ t' = RT_CNAME) ∧
  t ∉ [RT_NSEC; RT_NSEC3] ∧ t' ∉ [RT_NSEC; RT_NSEC3].

(** [upsert_mut] of the record store adds a record to the set of its name and type; it is only
    assumed to leave the other sets alone, to make a new set for a record that is not an alias
    when its name has neither such a set nor an alias, and to refuse a record that the records of
    its name exclude.  The writing operations also tell whether they succeeded. *)
Class ZoneLib `{Hickory} := {
  LowerName : Type;
  LowerName_eq_dec :: EqDecision LowerName;
  lower : Name → LowerName;
  Fs : Type;
  path_exists : Fs → string → bool;
  try_from_config : Fs → Name → ZoneType → string → option Config.NxProofKind →
                    option (ZoneMap LowerName Name);
  upsert_mut : Rec → ZoneMap LowerName Name → ZoneMap LowerName Name;
  create_parent_dir : Fs → string → bool * Fs;
  write_file : Fs → string → string → bool * Fs;
  rdata_try_from_str : RecordType → string → option (RData Name);
  hex_decode : string → option (list Z);
  matching_from : Z → Matching;
  rtype_from : Z → RecordType;
  rtype_to_string : RecordType → string;
  rdata_to_string : RData Name → string;

  upsert_other r z k :
    k ≠ (lower (rname r), record_type r) → zone_get k (upsert_mut r z) = zone_get k z;
  upsert_fresh r z :
    record_type r ≠ RT_CNAME → zone_get (lower (rname r), record_type r) z = None →
    zone_get (lower (rname r), RT_CNAME) z = None →
    zone_get (lower (rname r), record_type r) (upsert_mut r z) = Some [r];
  upsert_excluded r z t :
    excludes (record_type r) t → is_Some (zone_get (lower (rname r), t) z) → upsert_mut r z = z;
  hex_decode_bytes s l : hex_decode s = Some l → Forall is_byte l;
  matching_from_1 : matching_from 1 = Sha256;
  matching_from_2 : matching_from 2 = Sha512
}.

Section Zone.
Context `{ZoneLib}.

#[local] Notation ZoneRecords := (ZoneMap LowerName Name).

(** ** Zone files *)

Definition resolve_zone_path (file_path zones_dir : string) : string :=
  if Str.starts_with "/" file_path then file_path else Config.path_join zones_dir file_path.

(** The first record of the SOA set, if it is one. *)
Definition old_soa (z : ZoneRecords) (origin : Name) : option Rec :=
  set ← zone_get (lower origin, RT_SOA) z;
  r ← head set;
  match data r with RD_SOA _ _ _ _ _ _ _ => Some r | _ => None end.

Definition patch_soa_rname (z : ZoneRecords) (origin : Name) (rname_str : string) :
    result ZoneError ZoneRecords :=
  new_rname ← ok_or (BadRname rname_str) (from_ascii rname_str);
  Ok (match old_soa z origin with
      | Some r =>
          match data r with
          | RD_SOA mname _ serial refresh retry expire minimum =>
              upsert_mut
                (from_rdata origin 86400 (RD_SOA mname new_rname serial refresh retry expire minimum))
                (zone_remove (lower origin, RT_SOA) z)
          | _ => z
          end
      | None => z
      end).

Definition load_zone_file_with_proof (fs : Fs) (file_path zone_name zones_dir : string)
    (zone_type : ZoneType) (soa_rname_override : option string)
    (nx_proof_kind : option Config.NxProofKind) : result ZoneError ZoneRecords :=
  let path := resolve_zone_path file_path zones_dir in
  if negb (path_exists fs path) then Err (FileNotFound path)
  else
    origin ← ok_or (BadOrigin zone_name) (from_ascii zone_name);
    authority ← ok_or (BadZoneFile path) (try_from_config fs origin zone_type path nx_proof_kind);
    match soa_rname_override with
    | Some rname_str => patch_soa_rname authority origin rname_str
    | None => Ok authority
    end.

Definition load_zone_file (fs : Fs) (file_path zone_name zones_dir : string) (zone_type : ZoneType)
    (soa_rname_override : option string) : result ZoneError ZoneRecords :=
  load_zone_file_with_proof fs file_path zone_name zones_dir zone_type soa_rname_override
    (Some Config.Nsec).

(** Data that the library parses; its own type is checked. *)
Definition parse_svcb_rdata (t : RecordType) (s : string) : result ZoneError (RData Name) :=
  ok_or (BadData t) (rdata_try_from_str t s).

Definition expect_other (t : RecordType) (d : RData Name) : result ZoneError (RData Name) :=
  match d with
  | RD_Other t' p => if bool_decide (t' = t) then Ok (RD_Other t p) else Err (BadData t)
  | _ => Err (BadData t)
  end.

Definition parse_svcb_data (s : string) : result ZoneError (RData Name) :=
  parse_svcb_rdata RT_SVCB s ≫= expect_other RT_SVCB.
Definition parse_https_data (s : string) : result ZoneError (RData Name) :=
  parse_svcb_rdata RT_HTTPS s ≫= expect_other RT_HTTPS.
Definition parse_sshfp_data (s : string) : result ZoneError (RData Name) :=
  parse_svcb_rdata RT_SSHFP s ≫= expect_other RT_SSHFP.

Definition parse_aname_data (s : string) : result ZoneError (RData Name) :=
  target ← ok_or (BadData RT_CNAME) (from_ascii (Str.trim s));
  Ok (RD_CNAME target).

Definition parse_dname_data (s : string) : result ZoneError Name :=
  d ← parse_svcb_rdata RT_ANAME s;
  match d with RD_ANAME n => Ok n | _ => Err (BadData RT_ANAME) end.

(** ** Record types and data *)

Definition parse_record_type (s : string) : result ZoneError RecordType :=
  let u := Str.to_uppercase s in
  let named x := bool_decide (u = x) in
  if named "A"%string then Ok RT_A
  else if named "AAAA"%string then Ok RT_AAAA
  else if named "CNAME"%string then Ok RT_CNAME
  else if named "MX"%string then Ok RT_MX
  else if named "NS"%string then Ok RT_NS
  else if named "SOA"%string then Ok RT_SOA
  else if named "TXT"%string then Ok RT_TXT
  else if named "SRV"%string then Ok RT_SRV
  else if named "PTR"%string then Ok RT_PTR
  else if named "TLSA"%string then Ok RT_TLSA
  else if named "SSHFP"%string then Ok RT_SSHFP
  else if named "HTTPS"%string then Ok RT_HTTPS
  else if named "SVCB"%string then Ok RT_SVCB
  else if named "CAA"%string then Ok RT_CAA
  else if named "DNSKEY"%string then Ok RT_DNSKEY
  else if named "DS"%string then Ok RT_DS
  else if named "RRSIG"%string then Ok RT_RRSIG
  else if named "NSEC"%string then Ok RT_NSEC
  else if named "NSEC3"%string then Ok RT_NSEC3
  else if named "NSEC3PARAM"%string then Ok RT_NSEC3PARAM
  else if named "DNAME"%string then Ok RT_ANAME
  else if named "ANAME"%string then Ok RT_CNAME
  else if named "ANY"%string then Ok RT_ANY
  else match parse_u16 u with Some n => Ok (rtype_from n) | None => Err UnknownRecordType end.

Definition parse_tlsa_data (s : string) : result ZoneError TLSA :=
  match Str.split_whitespace s with
  | [p0; p1; p2; p3] =>
      usage ← ok_or (BadData RT_TLSA) (parse_u8 p0);
      sel ← ok_or (BadData RT_TLSA) (parse_u8 p1);
      mat_code ← ok_or (BadData RT_TLSA) (parse_u8 p2);
      bytes ← ok_or (BadData RT_TLSA) (hex_decode (Str.trim p3));
      let mat := matching_from mat_code in
      if match mat with
         | Sha256 => negb (length bytes =? 32)%nat
         | Sha512 => negb (length bytes =? 64)%nat
         | _ => false
         end
      then Err (BadData RT_TLSA)
      else Ok {| cert_usage := usage; selector := sel; matching_type := mat; cert_data := bytes |}
  | _ => Err (BadData RT_TLSA)
  end.

Definition parse_name (t : RecordType) (s : string) : result ZoneError Name :=
  ok_or (BadData t) (from_ascii s).

Definition parse_num (t : RecordType) (read : string → option Z) (s : string) : result ZoneError Z :=
  ok_or (BadData t) (read s).

Definition quote : ascii := ascii_of_nat 34.
Definition apostrophe : ascii := ascii_of_nat 39.

Definition parse_rdata (rtype : RecordType) (s : string) : result ZoneError (RData Name) :=
  match rtype with
  | RT_A => ip ← ok_or (BadData RT_A) (parse_ipv4 s); Ok (RD_A ip)
  | RT_AAAA => ip ← ok_or (BadData RT_AAAA) (parse_ipv6 s); Ok (RD_AAAA ip)
  | RT_CNAME => n ← parse_name RT_CNAME s; Ok (RD_CNAME n)
  | RT_NS => n ← parse_name RT_NS s; Ok (RD_NS n)
  | RT_MX =>
      match Str.split_whitespace s with
      | [p0; p1] =>
          preference ← parse_num RT_MX parse_u16 p0;
          exchange ← parse_name RT_MX p1;
          Ok (RD_MX preference exchange)
      | _ => Err (BadData RT_MX)
      end
  | RT_TXT => Ok (RD_TXT [Str.trim_matches apostrophe (Str.trim_matches quote s)])
  | RT_SRV =>
      match Str.split_whitespace s with
      | [p0; p1; p2; p3] =>
          priority ← parse_num RT_SRV parse_u16 p0;
          weight ← parse_num RT_SRV parse_u16 p1;
          port ← parse_num RT_SRV parse_u16 p2;
          target ← parse_name RT_SRV p3;
          Ok (RD_SRV priority weight port target)
      | _ => Err (BadData RT_SRV)
      end
  | RT_PTR => n ← parse_name RT_PTR s; Ok (RD_PTR n)
  | RT_TLSA => tlsa ← parse_tlsa_data s; Ok (RD_TLSA tlsa)
  | RT_SSHFP => parse_sshfp_data s
  | RT_SVCB => parse_svcb_data s
  | RT_HTTPS => parse_https_data s
  | RT_ANAME => n ← parse_name RT_ANAME s; Ok (RD_ANAME n)
  | RT_CAA => Err (NotSupported RT_CAA)
  | RT_SOA =>
      match Str.split_whitespace s with
      | [p0; p1; p2; p3; p4; p5; p6] =>
          mname ← parse_name RT_SOA p0;
          rname ← parse_name RT_SOA p1;
          serial ← parse_num RT_SOA parse_u32 p2;
          refresh ← parse_num RT_SOA parse_i32 p3;
          retry ← parse_num RT_SOA parse_i32 p4;
          expire ← parse_num RT_SOA parse_i32 p5;
          minimum ← parse_num RT_SOA parse_u32 p6;
          Ok (RD_SOA mname rname serial refresh retry expire minimum)
      | _ => Err (BadData RT_SOA)
      end
  | other => Err (NotSupported other)
  end.

(** ** Writing a zone back *)

(** Types that signing generates; they are not written. *)
Definition is_generated (t : RecordType) : bool :=
  match t with RT_RRSIG | RT_NSEC | RT_NSEC3 | RT_NSEC3PARAM | RT_DNSKEY => true | _ => false end.

Definition short_name (origin : Name) (n : Name) : string :=
  let name := to_utf8 n in
  let base := to_utf8 origin in
  if bool_decide (name = base) then "@"%string
  else match Str.strip_suffix ("." +:+ base) name with Some stripped => stripped | None => name end.

Definition record_line (origin : Name) (r : Rec) : string :=
  short_name origin (rname r) +:+ " " +:+ print_dec (ttl r) +:+ " IN " +:+
  rtype_to_string (record_type r) +:+ " " +:+ rdata_to_string (data r).

Definition zone_lines (origin : Name) (z : ZoneRecords) : list string :=
  z ≫= λ p, p.2 ≫= λ r, if is_generated (record_type r) then [] else [record_line origin r].

Definition zone_text (origin : Name) (z : ZoneRecords) : string :=
  join (String Str.LF EmptyString)
    (["$ORIGIN " +:+ to_utf8 origin; "$TTL 3600"; EmptyString]%string ++ zone_lines origin z ++
     [EmptyString]).

Definition persist_zone (z : ZoneRecords) (zone_path : string) (origin : Name) (fs : Fs) :
    result ZoneError unit * Fs :=
  let '(made, fs1) := create_parent_dir fs zone_path in
  if negb made then (Err (CreateDirFailed zone_path), fs1)
  else
    let '(wrote, fs2) := write_file fs1 zone_path (zone_text origin z) in
    if negb wrote then (Err (WriteFailed zone_path), fs2) else (Ok tt, fs2).

(** ** The operations *)

Record RecordSummary := {
  sum_name : string;
  sum_type : string;
  sum_ttl : Z;
  sum_data : string
}.

Record RecordCreate := {
  create_name : string;
  create_type : string;
  create_ttl : option Z;
  create_data : string
}.

Record RecordDelete := { delete_name : string; delete_type : string }.

(** The mail box is that of the default configuration. *)
Definition load_handler (fs : Fs) (z : Config.ZoneConfig) (zones_dir : string) :
    result ZoneError ZoneRecords :=
  file_path ← ok_or (NoFile (Config.zone_name z)) (Config.zone_file z);
  load_zone_file_with_proof fs file_path (Config.zone_name z) zones_dir Primary
    (Some (Config.soa_rname Config.Config_default)) (Config.nx_proof_kind hex_decode z).

Definition summary (r : Rec) : RecordSummary :=
  {| sum_name := to_utf8 (rname r); sum_type := rtype_to_string (record_type r);
     sum_ttl := ttl r; sum_data := rdata_to_string (data r) |}.

(** The summaries of the sets whose key is selected, in the order of the keys. *)
Definition summaries (sel : LowerName * RecordType → bool) (z : ZoneRecords) : list RecordSummary :=
  z ≫= λ p, if sel p.1 then summary <$> p.2 else [].

Definition list_records (fs : Fs) (z : Config.ZoneConfig) (zones_dir : string) :
    result ZoneError (list RecordSummary) :=
  handler ← load_handler fs z zones_dir;
  Ok (summaries (λ _, true) handler).

Definition get_records (fs : Fs) (z : Config.ZoneConfig) (zones_dir name record_type : string) :
    result ZoneError (list RecordSummary) :=
  handler ← load_handler fs z zones_dir;
  rtype ← parse_record_type record_type;
  n ← ok_or (BadRecordName name) (from_ascii name);
  Ok (summaries (λ k, bool_decide (k = (lower n, rtype))) handler).

Definition insert_record (fs : Fs) (z : Config.ZoneConfig) (zones_dir : string) (create : RecordCreate) :
    result ZoneError unit * Fs :=
  match
    handler ← load_handler fs z zones_dir;
    rtype ← parse_record_type (create_type create);
    origin ← ok_or (BadOrigin (Config.zone_name z)) (from_ascii (Config.zone_name z));
    name ← (if bool_decide (create_name create = "@"%string) ||
               bool_decide (create_name create = Config.zone_name z) ||
               bool_decide (create_name create = EmptyString)
            then Ok origin
            else ok_or (BadRecordName (create_name create)) (from_ascii (create_name create)));
    let ttl := default 3600 (create_ttl create) in
    rdata ← parse_rdata rtype (create_data create);
    Ok (upsert_mut (from_rdata name ttl rdata) handler, origin)
  with
  | Err e => (Err e, fs)
  | Ok (handler, origin) =>
      persist_zone handler
        (resolve_zone_path (default EmptyString (Config.zone_file z)) zones_dir) origin fs
  end.

Definition delete_records (fs : Fs) (z : Config.ZoneConfig) (zones_dir : string) (d : RecordDelete) :
    result ZoneError nat * Fs :=
  match
    handler ← load_handler fs z zones_dir;
    rtype ← parse_record_type (delete_type d);
    origin ← ok_or (BadOrigin (Config.zone_name z)) (from_ascii (Config.zone_name z));
    name ← (if bool_decide (delete_name d = "@"%string) ||
               bool_decide (delete_name d = Config.zone_name z)
            then Ok origin
            else ok_or (BadRecordName (delete_name d)) (from_ascii (delete_name d)));
    Ok (handler, origin, (lower name, rtype))
  with
  | Err e => (Err e, fs)
  | Ok (handler, origin, key) =>
      let removed := length (default [] (zone_get key handler)) in
      if (0 <? removed)%nat then
        match persist_zone (zone_remove key handler)
                (resolve_zone_path (default EmptyString (Config.zone_file z)) zones_dir) origin fs with
        | (Ok _, fs') => (Ok removed, fs')
        | (Err e, fs') => (Err e, fs')
        end
      else (Ok removed, fs)
  end.

End Zone.

End Zone.
