(* ===== verification/Keys.v ===== *)
(** * Signing keys and certificates ([src/core/dnssec/keygen.rs], [src/core/dnssec/mod.rs],
      [src/net/cert.rs])

    Where keys and certificates live, when they are generated, and how they are loaded.  The
    cryptographic libraries, their random numbers and the file system are the class [KeyLib]. *)

From Stdlib Require Import Ascii String ZArith Lia.
From stdpp Require Import base list gmap strings numbers.
From S2P Require Import Prelude RustString RustNum RustNet Metrics Cache Config Dns Zone.

Local Open Scope Z_scope.

Module Keys.
Import Dns Zone.

Inductive Algorithm := ECDSAP256SHA256 | ECDSAP384SHA384 | ED25519 | RSASHA256.

#[export] Instance Algorithm_eq_dec : EqDecision Algorithm.
Proof. solve_decision. Defined.

Inductive KeyError :=
  | UnsupportedAlgorithm (name : string)
  | CreateDirError (path : string)
  | GenerateFailed (alg : Algorithm)
  | NoRsaGeneration
  | WriteKeyFailed (path : string)
  | ReadKeyFailed (path : string)
  | BadKey (path : string)
  | NoPublicKey (path : string)
  | BadKeyZone (zone : string)
  | KeyNotFound (path : string).

Inductive CertError :=
  | NoCertificates (host : string)
  | CertDirError (path : string)
  | CertGenerateFailed
  | CertWriteFailed (path : string)
  | CertUnreadable (path : string)
  | EmptyChain (path : string)
  | CertKeyUnreadable (path : string)
  | CertMismatch.

(** Bytes written to a file are there and read back.  A generated key is readable, and a
    certificate for its own key is accepted. *)
Class KeyLib `{ZoneLib} := {
  create_dir_all : Fs → string → bool * Fs;
  read_bytes : Fs → string → option (list Z);
  write_bytes : Fs → string → list Z → bool * Fs;
  generate_pkcs8 : nat → Algorithm → option (list Z);
  SigningKey : Type;
  from_pkcs8 : Algorithm → list Z → option SigningKey;
  DnsKey : Type;
  public_dnskey : SigningKey → option DnsKey;
  Cert : Type;
  CertKey : Type;
  read_chain : Fs → string → option (list Cert);
  read_private_key : Fs → string → option CertKey;
  certified : list Cert → CertKey → bool;
  self_signed_pem : nat → string → option (list Z * list Z);

  write_read fs p b fs' : write_bytes fs p b = (true, fs') → read_bytes fs' p = Some b;
  write_exists fs p b fs' : write_bytes fs p b = (true, fs') → path_exists fs' p = true;
  write_keeps fs p b ok fs' q : write_bytes fs p b = (ok, fs') → path_exists fs q = true → path_exists fs' q = true;
  generated_readable seed a b :
    generate_pkcs8 seed a = Some b → ∃ k d, from_pkcs8 a b = Some k ∧ public_dnskey k = Some d
}.

(** ** Signing keys *)

Section Keygen.
Context `{KeyLib}.

(** 30 days, in seconds. *)
Definition DEFAULT_SIG_DURATION : Z := 30 * 24 * 3600.

Definition algorithm_from_str (s : string) : result KeyError Algorithm :=
  if bool_decide (s = "ecdsa-p256"%string) then Ok ECDSAP256SHA256
  else if bool_decide (s = "ecdsa-p384"%string) then Ok ECDSAP384SHA384
  else if bool_decide (s = "ed25519"%string) then Ok ED25519
  else if bool_decide (s = "rsa-sha256"%string) then Ok RSASHA256
  else Err (UnsupportedAlgorithm s).

Definition safe_name (zone_name : string) : string :=
  Str.trim_end_matches "_" (Str.replace "." "_" zone_name).

Definition key_path_for_zone (zone_name keys_dir algorithm : string) : string :=
  Config.path_join keys_dir (safe_name zone_name +:+ "." +:+ algorithm +:+ ".key").

(** [seed] stands for the random numbers of this run. *)
Definition generate_and_save_key (seed : nat) (fs : Fs) (zone_name algorithm keys_dir : string) :
    result KeyError string * Fs :=
  match algorithm_from_str algorithm with
  | Err e => (Err e, fs)
  | Ok alg =>
      let key_path := key_path_for_zone zone_name keys_dir algorithm in
      if path_exists fs key_path then (Ok key_path, fs)
      else
        let '(made, fs) := create_dir_all fs keys_dir in
        if negb made then (Err (CreateDirError keys_dir), fs)
        else
          match alg with
          | RSASHA256 => (Err NoRsaGeneration, fs)
          | _ =>
              match generate_pkcs8 seed alg with
              | None => (Err (GenerateFailed alg), fs)
              | Some der =>
                  let '(wrote, fs) := write_bytes fs key_path der in
                  if negb wrote then (Err (WriteKeyFailed key_path), fs) else (Ok key_path, fs)
              end
          end
  end.

Definition resolve_key_path (seed : nat) (fs : Fs) (zone_name : string) (explicit_key : option string)
    (algorithm keys_dir : string) : result KeyError string * Fs :=
  match explicit_key with
  | Some p => if negb (path_exists fs p) then (Err (KeyNotFound p), fs) else (Ok p, fs)
  | None => generate_and_save_key seed fs zone_name algorithm keys_dir
  end.

Record Signer := {
  signer_dnskey : DnsKey;
  signer_key : SigningKey;
  signer_zone : Name;
  signer_duration : Z
}.

Definition load_signer (fs : Fs) (key_path zone_name algorithm : string) : result KeyError Signer :=
  alg ← algorithm_from_str algorithm;
  key_bytes ← ok_or (ReadKeyFailed key_path) (read_bytes fs key_path);
  signing_key ← ok_or (BadKey key_path) (from_pkcs8 alg key_bytes);
  dnskey ← ok_or (NoPublicKey key_path) (public_dnskey signing_key);
  origin ← ok_or (BadKeyZone zone_name) (from_ascii zone_name);
  Ok {| signer_dnskey := dnskey; signer_key := signing_key; signer_zone := origin;
        signer_duration := DEFAULT_SIG_DURATION |}.

End Keygen.

(** The providers of [src/core/dnssec/mod.rs]: anything but botan is ring. *)
Inductive Provider := RingProvider | BotanProvider.

Definition provider_name (p : Provider) : string :=
  match p with RingProvider => "ring" | BotanProvider => "botan" end.

Definition provider_for (name : string) : Provider :=
  if bool_decide (name = "botan"%string) then BotanProvider else RingProvider.

(** ** Certificates *)

Section Certificates.
Context `{KeyLib}.

Definition auto_detect_cert_paths (fs : Fs) (host letsencrypt_dir : string) : option (string * string) :=
  let host := Str.trim_end_matches "." host in
  let le_dir := Config.path_join letsencrypt_dir host in
  let cert := Config.path_join le_dir "fullchain.pem" in
  let key := Config.path_join le_dir "privkey.pem" in
  if path_exists fs cert && path_exists fs key then Some (cert, key) else None.

Definition resolve_cert_paths (fs : Fs) (cert key : option string) (host letsencrypt_dir : string) :
    result CertError (string * string) :=
  match cert, key with
  | Some c, Some k => Ok (c, k)
  | _, _ => ok_or (NoCertificates host) (auto_detect_cert_paths fs host letsencrypt_dir)
  end.

Definition generate_self_signed (seed : nat) (fs : Fs) (host keys_dir : string) :
    result CertError (string * string) * Fs :=
  let host := Str.trim_end_matches "." host in
  let out_dir := Config.path_join (Config.path_join keys_dir "self_signed") host in
  let '(made, fs) := create_dir_all fs out_dir in
  if negb made then (Err (CertDirError out_dir), fs)
  else
    let cert_path := Config.path_join out_dir "cert.pem" in
    let key_path := Config.path_join out_dir "key.pem" in
    if path_exists fs cert_path && path_exists fs key_path then (Ok (cert_path, key_path), fs)
    else
      match self_signed_pem seed host with
      | None => (Err CertGenerateFailed, fs)
      | Some (cert_pem, key_pem) =>
          let '(wrote, fs) := write_bytes fs cert_path cert_pem in
          if negb wrote then (Err (CertWriteFailed cert_path), fs)
          else
            let '(wrote, fs) := write_bytes fs key_path key_pem in
            if negb wrote then (Err (CertWriteFailed key_path), fs)
            else (Ok (cert_path, key_path), fs)
      end.

Definition load_tls_cert (fs : Fs) (cert_path key_path : string) : result CertError (list Cert * CertKey) :=
  cert_chain ← ok_or (CertUnreadable cert_path) (read_chain fs cert_path);
  if bool_decide (length cert_chain = 0%nat) then Err (EmptyChain cert_path)
  else
    key ← ok_or (CertKeyUnreadable key_path) (read_private_key fs key_path);
    if certified cert_chain key then Ok (cert_chain, key) else Err CertMismatch.

End Certificates.

End Keys.
