(* ===== verification/ZoneSample.v ===== *)
(** * A concrete file system, record store and key library

    Files are a map from paths to bytes; zone files are kept apart, already parsed.  It shows that
    the laws of [Zone.ZoneLib] and [Keys.KeyLib] can hold together, and the witnesses run on it. *)

From Stdlib Require Import Ascii String ZArith Lia.
From stdpp Require Import base list gmap strings numbers.
From S2P Require Import Prelude RustString RustNum RustNet Metrics Cache Config Dns DnsSample Zone Keys.

Local Open Scope Z_scope.

Module ZoneSample.
Import Dns DnsSample Zone Keys.

Notation SZone := (ZoneMap SName SName).

Record SFs := { files : gmap string (list Z); zones : gmap string SZone }.

Definition s_exists (fs : SFs) (p : string) : bool :=
  bool_decide (is_Some (files fs !! p) ∨ is_Some (zones fs !! p)).

Definition s_write (fs : SFs) (p : string) (b : list Z) : SFs :=
  {| files := <[p := b]> (files fs); zones := zones fs |}.

Fixpoint text_bytes (s : string) : list Z :=
  match s with EmptyString => [] | String a s => Z.of_nat (nat_of_ascii a) :: text_bytes s end.

Definition s_lower (n : SName) : SName :=
  {| s_labels := Str.to_ascii_lowercase <$> s_labels n; s_fqdn := s_fqdn n |}.

#[export] Instance excludes_dec t t' : Decision (excludes t t').
Proof. unfold excludes. apply _. Defined.

Definition s_excluded (r : RecordOf SName) (z : SZone) : bool :=
  existsb (λ p, bool_decide (p.1.1 = s_lower (rname r) ∧ excludes (record_type r) p.1.2)) z.

Definition s_upsert (r : RecordOf SName) (z : SZone) : SZone :=
  let key := (s_lower (rname r), record_type r) in
  if s_excluded r z then z else
  match zone_get key z with
  | Some _ => (λ p, if decide (p.1 = key) then (p.1, p.2 ++ [r]) else p) <$> z
  | None => z ++ [(key, [r])]
  end.

Lemma s_upsert_other r z k :
  k ≠ (s_lower (rname r), record_type r) → zone_get k (s_upsert r z) = zone_get k z.
Proof.
  intros Hk. unfold s_upsert. destruct (s_excluded r z); [done|]. set (key := (s_lower (rname r), record_type r)) in *.
  destruct (zone_get key z).
  - unfold zone_get. f_equal. induction z as [|p z IH]; [done|]. rewrite fmap_cons, !filter_cons.
    destruct (decide (p.1 = key)) as [Hp|Hp].
    + rewrite !decide_False by (simpl; congruence). done.
    + case_decide; [done|]. done.
  - unfold zone_get. rewrite list.filter_app, filter_cons_False by (simpl; congruence).
    by rewrite filter_nil, app_nil_r.
Qed.

Lemma s_get_elem (z : SZone) k : is_Some (zone_get k z) ↔ ∃ p, p ∈ z ∧ p.1 = k.
Proof.
  unfold zone_get. rewrite fmap_is_Some. split.
  - intros [p Hp]. exists p. apply head_Some_elem_of, list_elem_of_filter in Hp as [??]. done.
  - intros (p & Hin & Hk). destruct (base.filter (λ p, p.1 = k) z) as [|q l] eqn:E; [|by eexists].
    assert (p ∈ base.filter (λ p, p.1 = k) z) as Hp by by apply list_elem_of_filter.
    rewrite E in Hp. by apply elem_of_nil in Hp.
Qed.

Lemma s_excluded_true r z :
  s_excluded r z = true ↔ ∃ t, excludes (record_type r) t ∧ is_Some (zone_get (s_lower (rname r), t) z).
Proof.
  unfold s_excluded. rewrite existsb_exists. setoid_rewrite s_get_elem. setoid_rewrite bool_decide_eq_true. split.
  - intros ([[n t] set] & Hin%list_elem_of_In & [Hn Ht]). exists t. split; [done|]. exists (n, t, set).
    split; [done|]. simpl in *. by subst n.
  - intros (t & Ht & [[n' t'] set] & Hin & [= -> ->]). exists (s_lower (rname r), t, set).
    split; [by apply list_elem_of_In|done].
Qed.

Lemma s_upsert_excluded r z t :
  excludes (record_type r) t → is_Some (zone_get (s_lower (rname r), t) z) → s_upsert r z = z.
Proof. intros Ht Hs. unfold s_upsert. by rewrite (proj2 (s_excluded_true r z)) by by exists t. Qed.

Lemma s_upsert_fresh r z :
  record_type r ≠ RT_CNAME → zone_get (s_lower (rname r), record_type r) z = None →
  zone_get (s_lower (rname r), RT_CNAME) z = None →
  zone_get (s_lower (rname r), record_type r) (s_upsert r z) = Some [r].
Proof.
  intros Ht Hz Ha. unfold s_upsert. destruct (s_excluded r z) eqn:He.
  { apply s_excluded_true in He as (t & [[[? _]|[_ ->]] _] & Hs); [done|]. rewrite Ha in Hs. by destruct Hs. }
  rewrite Hz. unfold zone_get in *. rewrite list.filter_app.
  destruct (base.filter _ z) as [|p l] eqn:E; [|done]. by rewrite filter_cons_True.
Qed.

#[export] Instance sample_zone : @ZoneLib sample.
Proof.
  refine {|
    LowerName := SName; lower := s_lower; Fs := SFs;
    path_exists := s_exists; try_from_config fs _ _ p _ := zones fs !! p;
    upsert_mut := s_upsert; create_parent_dir fs _ := (true, fs);
    write_file fs p t := (true, s_write fs p (text_bytes t));
    rdata_try_from_str t s := Some (RD_Other t []);
    hex_decode s := if decide (s = EmptyString) then Some [] else None;
    matching_from n := if n =? 1 then Sha256 else if n =? 2 then Sha512 else Raw;
    rtype_from n := RT_Other n; rtype_to_string t := print_dec (s_code t);
    rdata_to_string d := match d with RD_A a => show_ipv4 a | _ => "?"%string end |}; try done.
  - apply s_upsert_other.
  - apply s_upsert_fresh.
  - apply s_upsert_excluded.
  - intros s l. case_decide; [intros [= <-]; apply Forall_nil_2|done].
Defined.

(** A key is its algorithm and seed; a certificate matches every key. *)
#[export] Instance sample_keys : @KeyLib sample sample_zone.
Proof.
  refine {|
    create_dir_all fs _ := (true, fs); read_bytes fs p := files fs !! p;
    write_bytes fs p b := (true, s_write fs p b);
    generate_pkcs8 seed _ := Some [Z.of_nat seed];
    SigningKey := list Z; from_pkcs8 _ b := Some b; DnsKey := list Z; public_dnskey k := Some k;
    Cert := list Z; CertKey := list Z;
    read_chain fs p := b ← files fs !! p; Some [b]; read_private_key fs p := files fs !! p;
    certified _ _ := true; self_signed_pem seed _ := Some ([Z.of_nat seed], [Z.of_nat seed]) |}.
  - intros fs p b fs' [= <-]. apply lookup_insert_eq.
  - intros fs p b fs' [= <-]. apply bool_decide_eq_true. left. simpl. rewrite lookup_insert_eq. by eexists.
  - intros fs p b ok fs' q [= _ <-].
    change (s_exists fs q = true → s_exists (s_write fs p b) q = true).
    unfold s_exists. rewrite !bool_decide_eq_true. simpl.
    intros [Hq|Hq]; [left|by right]. destruct (decide (p = q)) as [->|].
    + rewrite lookup_insert_eq. by eexists.
    + by rewrite lookup_insert_ne.
  - intros seed a b [= <-]. by eexists _, _.
Defined.

End ZoneSample.
