(* ===== verification/ZoneProps.v ===== *)
(** * Properties of zone files and record editing *)

From Stdlib Require Import Ascii String ZArith Lia.
From stdpp Require Import base list gmap strings numbers.
From S2P Require Import Prelude RustString RustNum RustNet Metrics Cache Config Dns DnsSample Zone Keys ZoneSample.

Local Open Scope Z_scope.

Module ZoneProps.
Import Dns Zone.

(** ** Record data *)

Definition is_i32 (x : Z) : Prop := -2147483648 ≤ x ≤ 2147483647.

(** Addresses and numbers in range, digests of the length of their hash. *)
Definition rdata_wf {N} (d : RData N) : Prop :=
  match d with
  | RD_A a => v4_wf a
  | RD_AAAA a => v6_wf a
  | RD_MX p _ => is_uint 16 p
  | RD_SRV p w t _ => is_uint 16 p ∧ is_uint 16 w ∧ is_uint 16 t
  | RD_SOA _ _ serial refresh retry expire minimum =>
      is_uint 32 serial ∧ is_i32 refresh ∧ is_i32 retry ∧ is_i32 expire ∧ is_uint 32 minimum
  | RD_TLSA t =>
      is_uint 8 (cert_usage t) ∧ is_uint 8 (selector t) ∧ Forall is_byte (cert_data t) ∧
      (matching_type t = Sha256 → length (cert_data t) = 32%nat) ∧
      (matching_type t = Sha512 → length (cert_data t) = 64%nat)
  | _ => True
  end.

Lemma parse_uint_is_uint w max s n :
  0 ≤ max → max = 2 ^ w - 1 → parse_uint max s = Some n → is_uint w n.
Proof. intros Hm -> Hp. apply parse_uint_range in Hp; [|done]. unfold is_uint. lia. Qed.

Lemma parse_u8_uint s n : parse_u8 s = Some n → is_uint 8 n.
Proof. by apply parse_uint_is_uint. Qed.
Lemma parse_u16_uint s n : parse_u16 s = Some n → is_uint 16 n.
Proof. by apply parse_uint_is_uint. Qed.
Lemma parse_u32_uint s n : parse_u32 s = Some n → is_uint 32 n.
Proof. by apply parse_uint_is_uint. Qed.

Lemma parse_i32_is_i32 s n : parse_i32 s = Some n → is_i32 n.
Proof. apply parse_i32_range. Qed.

Create HintDb zone_data.
#[export] Hint Resolve parse_u8_uint parse_u16_uint parse_u32_uint parse_i32_is_i32 parse_ipv4_wf
  parse_ipv6_wf hex_decode_bytes : zone_data.

(** Case analysis on the fields of a text, then inversion of the run. *)
Ltac fields H :=
  repeat match type of H with context [match ?l with [] => _ | _ :: _ => _ end] =>
    destruct l; try discriminate H
  end.

Section Data.
Context `{ZoneLib}.

Lemma parse_tlsa_wf s t : parse_tlsa_data s = Ok t → rdata_wf (N := Name) (RD_TLSA t).
Proof.
  unfold parse_tlsa_data. intros Ht. fields Ht. run_inv.
  match goal with Hif : (if ?b then _ else _) = _ |- _ => destruct b eqn:Hlen; [done|]; injection Hif as <- end.
  simpl. split_and!; eauto with zone_data.
  - intros Em. rewrite Em in Hlen. by apply negb_false_iff, Nat.eqb_eq in Hlen.
  - intros Em. rewrite Em in Hlen. by apply negb_false_iff, Nat.eqb_eq in Hlen.
Qed.

Lemma expect_other_type t d d' : expect_other t d = Ok d' → rdata_type d' = t ∧ rdata_wf d'.
Proof. unfold expect_other. destruct d; try done. case_bool_decide; [|done]. by intros [= <-]. Qed.

Lemma parse_rdata_run rtype s d : parse_rdata rtype s = Ok d → rdata_type d = rtype ∧ rdata_wf d.
Proof.
  unfold parse_rdata, parse_name, parse_num, parse_sshfp_data, parse_svcb_data, parse_https_data. intros Hd.
  destruct rtype; fields Hd; run_inv; try done; cbn [rdata_type];
    try (eapply expect_other_type; eassumption); (split; [done|]); try (by eapply parse_tlsa_wf);
    cbn [rdata_wf]; repeat match goal with |- _ ∧ _ => split end; eauto with zone_data.
Qed.

Lemma parse_record_type_case s : parse_record_type (Str.to_ascii_lowercase s) = parse_record_type s.
Proof. unfold parse_record_type. by rewrite StrFacts.to_uppercase_lowercase. Qed.

End Data.

(** ** The record map *)

Section Map.
Context {L N : Type} `{EqDecision L}.

Lemma zone_get_remove (k : L * RecordType) (z : ZoneMap L N) : zone_get k (zone_remove k z) = None.
Proof.
  unfold zone_get, zone_remove. rewrite list_filter_none; [done|].
  intros p [Hp _]%list_elem_of_filter Hk. done.
Qed.

Lemma zone_get_remove_ne (k k' : L * RecordType) (z : ZoneMap L N) :
  k' ≠ k → zone_get k' (zone_remove k z) = zone_get k' z.
Proof.
  intros Hk. unfold zone_get, zone_remove. do 2 f_equal.
  induction z as [|p z IH]; [done|]. rewrite !(filter_cons _ p z). case_decide as Hp.
  - by rewrite filter_cons, IH.
  - rewrite IH. rewrite decide_False; [done|]. intros Hp'. congruence.
Qed.

End Map.

(** ** Editing *)

(** The zone file at [path] was replaced by [text]. *)
Definition written `{ZoneLib} (fs : Fs) (path text : string) (fs' : Fs) : Prop :=
  ∃ fs1, create_parent_dir fs path = (true, fs1) ∧ write_file fs1 path text = (true, fs').

(** The name an operation is about: the origin for the given abbreviations of it. *)
Definition owner `{ZoneLib} (text : string) (aliases : list string) (origin name : Name) : Prop :=
  if decide (text ∈ aliases) then name = origin else from_ascii text = Some name.

Section Editing.
Context `{ZoneLib}.

Lemma owner_inv (test : bool) text aliases origin name e :
  (test = true ↔ text ∈ aliases) →
  (if test then Ok origin else ok_or (E := ZoneError) e (from_ascii text)) = Ok name →
  owner text aliases origin name.
Proof.
  unfold owner. intros Ht Hr. case_decide; destruct test; try naive_solver. by apply ok_or_Ok in Hr.
Qed.

Ltac owner_alias := rewrite ?orb_true_iff, !bool_decide_eq_true; set_solver.

Lemma persist_Ok z path origin fs fs' :
  persist_zone z path origin fs = (Ok tt, fs') → written fs path (zone_text origin z) fs'.
Proof.
  unfold persist_zone, written. destruct (create_parent_dir fs path) as [[] fs1]; [|done]. cbn [negb].
  destruct (write_file fs1 path _) as [[] fs2] eqn:Hw; [|done]. intros [= <-]. by exists fs1.
Qed.

Lemma persist_Err z path origin fs fs' e :
  persist_zone z path origin fs = (Err e, fs') → e = CreateDirFailed path ∨ e = WriteFailed path.
Proof.
  unfold persist_zone. destruct (create_parent_dir fs path) as [[] fs1]; cbn [negb]; [|naive_solver].
  destruct (write_file fs1 path _) as [[] fs2]; naive_solver.
Qed.

Lemma insert_record_run fs z dir c fs' :
  insert_record fs z dir c = (Ok tt, fs') →
  ∃ zone origin name t rd, load_handler fs z dir = Ok zone ∧
    from_ascii (Config.zone_name z) = Some origin ∧ parse_record_type (create_type c) = Ok t ∧
    parse_rdata t (create_data c) = Ok rd ∧
    owner (create_name c) ["@"%string; Config.zone_name z; EmptyString] origin name ∧
    written fs (resolve_zone_path (default EmptyString (Config.zone_file z)) dir)
      (zone_text origin (upsert_mut (from_rdata name (default 3600 (create_ttl c)) rd) zone)) fs'.
Proof.
  unfold insert_record. match goal with |- context [match ?run with Ok _ => _ | Err _ => _ end] =>
    destruct run as [[h origin]|e] eqn:Hrun; [|done] end.
  intros Hp%persist_Ok. run_inv.
  eexists _, _, _, _, _. split_and!; [done..| |done].
  eapply owner_inv; [|done]. owner_alias.
Qed.

Lemma insert_failed fs z dir c e fs' :
  insert_record fs z dir c = (Err e, fs') →
  fs' = fs ∨ ∃ path, e = CreateDirFailed path ∨ e = WriteFailed path.
Proof.
  unfold insert_record. match goal with |- context [match ?run with Ok _ => _ | Err _ => _ end] =>
    destruct run as [[h origin]|e'] eqn:Hrun end.
  - intros Hp%persist_Err. right. by eexists.
  - intros [= _ <-]. by left.
Qed.

Lemma delete_records_run fs z dir d n fs' :
  delete_records fs z dir d = (Ok n, fs') →
  ∃ zone origin name t, load_handler fs z dir = Ok zone ∧
    from_ascii (Config.zone_name z) = Some origin ∧ parse_record_type (delete_type d) = Ok t ∧
    owner (delete_name d) ["@"%string; Config.zone_name z] origin name ∧
    let key := (lower name, t) in
    n = length (default [] (zone_get key zone)) ∧
    (if (0 <? n)%nat
     then written fs (resolve_zone_path (default EmptyString (Config.zone_file z)) dir)
            (zone_text origin (zone_remove key zone)) fs'
     else fs' = fs).
Proof.
  unfold delete_records. match goal with |- context [match ?run with Ok _ => _ | Err _ => _ end] =>
    destruct run as [[[h origin] key]|e] eqn:Hrun; [|done] end.
  run_inv.
  intros Hd. eexists _, _, _, _. do 3 (split; [done|]).
  split; [eapply owner_inv; [|done]; owner_alias|]. cbv zeta.
  destruct (0 <? _)%nat eqn:Hn in Hd.
  - destruct (persist_zone _ _ _ _) as [[[]|] fs''] eqn:Hp; [|done]. injection Hd as <- <-.
    apply persist_Ok in Hp. by rewrite Hn.
  - injection Hd as <- <-. by rewrite Hn.
Qed.

(** Replacing the mail box touches no other record set. *)
Lemma patch_soa_other raw origin rn_str zone k :
  patch_soa_rname raw origin rn_str = Ok zone → k ≠ (lower origin, RT_SOA) → zone_get k zone = zone_get k raw.
Proof.
  unfold patch_soa_rname. intros (rn & _ & [= <-])%bind_Ok Hk.
  destruct (old_soa raw origin) as [r|]; [|done]. destruct (data r); try done.
  rewrite upsert_other by done. by apply zone_get_remove_ne.
Qed.

(** The library reads the file of the zone as [raw]. *)
Definition reads_as (fs : Fs) (z : Config.ZoneConfig) (dir : string) (origin : Name) (raw : ZoneMap LowerName Name) : Prop :=
  let path := resolve_zone_path (default EmptyString (Config.zone_file z)) dir in
  path_exists fs path = true ∧
  try_from_config fs origin Primary path (Config.nx_proof_kind hex_decode z) = Some raw.

(** A zone that could be loaded can be loaded again after its file was changed. *)
Lemma load_again fs fs' z dir zone origin raw :
  load_handler fs z dir = Ok zone → from_ascii (Config.zone_name z) = Some origin → reads_as fs' z dir origin raw →
  ∃ zone', load_handler fs' z dir = Ok zone' ∧ ∀ k, k ≠ (lower origin, RT_SOA) → zone_get k zone' = zone_get k raw.
Proof.
  unfold load_handler. intros (file & Hfile%ok_or_Ok & Hl)%bind_Ok Ho [Hex Hraw]. rewrite Hfile in *.
  cbn [default from_option id mbind result_bind ok_or] in *. unfold load_zone_file_with_proof in *.
  rewrite Hex. rewrite Ho in Hl |- *. cbn [negb ok_or mbind result_bind] in *. rewrite Hraw. cbn [ok_or mbind result_bind].
  destruct (negb (path_exists fs _)); [done|].
  apply bind_Ok in Hl as (raw0 & _ & (rn & Hrn & _)%bind_Ok).
  destruct (patch_soa_rname raw origin (Config.soa_rname Config.Config_default)) as [zone'|e] eqn:Hp.
  - exists zone'. split; [done|]. intros k. by apply (patch_soa_other raw origin (Config.soa_rname Config.Config_default)).
  - unfold patch_soa_rname in Hp. by rewrite Hrn in Hp.
Qed.

(** ** Listing *)

Lemma summaries_elem k z set r :
  zone_get k z = Some set → r ∈ set → summary r ∈ summaries (λ k', bool_decide (k' = k)) z.
Proof.
  unfold zone_get, summaries. intros Hz Hr.
  destruct (base.filter (λ p, p.1 = k) z) as [|p l] eqn:Ef; [done|]. injection Hz as <-.
  assert (p ∈ base.filter (λ p, p.1 = k) z) as [Hk Hp]%list_elem_of_filter by (rewrite Ef; by left).
  apply list_elem_of_bind. exists p. split; [|done]. rewrite bool_decide_true by done.
  apply list_elem_of_fmap. by exists r.
Qed.

Lemma summaries_none k z : zone_get k z = None → summaries (λ k', bool_decide (k' = k)) z = [].
Proof.
  unfold zone_get, summaries. intros Hz%fmap_None. induction z as [|p z IH]; [done|].
  rewrite filter_cons in Hz. simpl. case_decide as Hp; [done|]. rewrite bool_decide_false by done. by apply IH.
Qed.

Lemma get_records_run fs z dir zone n t name rt :
  load_handler fs z dir = Ok zone → parse_record_type t = Ok rt → from_ascii n = Some name →
  get_records fs z dir n t = Ok (summaries (λ k, bool_decide (k = (lower name, rt))) zone).
Proof. unfold get_records. intros -> ->. cbn [mbind result_bind]. by intros ->. Qed.

(** The lines of a zone. *)
Lemma zone_lines_elem origin z line :
  line ∈ zone_lines origin z ↔
  ∃ k set r, (k, set) ∈ z ∧ r ∈ set ∧ line = record_line origin r ∧
    record_type r ∉ [RT_RRSIG; RT_DNSKEY; RT_NSEC; RT_NSEC3; RT_NSEC3PARAM].
Proof.
  assert (∀ t, is_generated t = true ↔ t ∈ [RT_RRSIG; RT_DNSKEY; RT_NSEC; RT_NSEC3; RT_NSEC3PARAM]) as Hg.
  { intros t. destruct t; simpl; (split; [try done; intros _; set_solver|]); intros Hin; try done;
      repeat (apply elem_of_cons in Hin as [Hin|Hin]; [done|]); by apply elem_of_nil in Hin. }
  setoid_rewrite <- Hg. unfold zone_lines. rewrite list_elem_of_bind. split.
  - intros ([k set] & (r & Hl & Hr)%list_elem_of_bind & Hz). exists k, set, r. cbn [snd] in Hr.
    destruct (is_generated (record_type r)); [by apply elem_of_nil in Hl|].
    apply list_elem_of_singleton in Hl. by split_and!.
  - intros (k & set & r & Hz & Hr & -> & Hn). exists (k, set). split; [|done]. apply list_elem_of_bind.
    exists r. split; [|done]. destruct (is_generated (record_type r)); [by destruct Hn|]. by apply list_elem_of_singleton.
Qed.

(** The SOA record of a zone after its mail box was replaced. *)
Lemma patch_soa raw origin rn_str rn soa rest m r s f y x n zone :
  from_ascii rn_str = Some rn → zone_get (lower origin, RT_SOA) raw = Some (soa :: rest) →
  data soa = RD_SOA m r s f y x n → zone_get (lower origin, RT_CNAME) raw = None →
  patch_soa_rname raw origin rn_str = Ok zone →
  zone_get (lower origin, RT_SOA) zone = Some [from_rdata origin 86400 (RD_SOA m rn s f y x n)].
Proof.
  intros Hrn Hset Hsoa Hno. unfold patch_soa_rname, old_soa. rewrite Hrn, Hset. cbn.
  rewrite Hsoa, Hsoa. intros [= <-].
  set (new := from_rdata origin 86400 (RD_SOA m rn s f y x n)).
  change (lower origin, RT_SOA) with (lower (rname new), record_type new) at 1.
  apply upsert_fresh; [done|apply zone_get_remove|]. by rewrite zone_get_remove_ne.
Qed.

End Editing.

(** ** The theorems *)

(** C40: Record data accepted from the HTTP interface has the type that was asked for, in any
    letter case of its name, and is well formed: addresses have their octets, preferences,
    priorities, weights and ports fit 16 bits, the numbers of an SOA record 32, and a TLSA digest
    has the length of its hash. *)
Theorem accepted_data_well_formed `{ZoneLib} type_text text t d :
  parse_record_type type_text = Ok t → parse_rdata t text = Ok d →
  rdata_type d = t ∧ rdata_wf d ∧ parse_record_type (Str.to_ascii_lowercase type_text) = Ok t.
Proof.
  intros Ht Hd. destruct (parse_rdata_run t text d Hd). by rewrite parse_record_type_case.
Qed.

(** C19: The effect of the record operations on the zone file.  A refused insertion leaves the file
    system alone, unless writing itself failed.  A successful one rewrites the zone file with the
    text of the zone as the record store left it: with the other record sets as they were, and with
    the new record when it is no alias and its name has neither such a set nor an alias; but a record
    that the records of its name exclude (an alias beside other data, other data beside an alias) is
    dropped by the store, and the insertion succeeds all the same, writing the zone without it.  A
    deletion returns the number of records of the name and type, writes nothing when there is none,
    and otherwise the text of the zone without that set and with the others as they were.  The text
    has a line for every record but those of the types that signing generates (RRSIG, DNSKEY, NSEC,
    NSEC3, NSEC3PARAM), which every edit drops.  Every edit works on a zone whose SOA record was given
    the mail box of the default configuration and a TTL of 86400, whatever the file said. *)
Theorem record_edits `{ZoneLib} fs z dir c d :
  let path := resolve_zone_path (default EmptyString (Config.zone_file z)) dir in
  (∀ e fs', insert_record fs z dir c = (Err e, fs') →
     fs' = fs ∨ ∃ p, e = CreateDirFailed p ∨ e = WriteFailed p) ∧
  (∀ fs', insert_record fs z dir c = (Ok tt, fs') →
     ∃ zone zone' origin name t rd, load_handler fs z dir = Ok zone ∧
       from_ascii (Config.zone_name z) = Some origin ∧ parse_record_type (create_type c) = Ok t ∧
       parse_rdata t (create_data c) = Ok rd ∧
       owner (create_name c) ["@"%string; Config.zone_name z; EmptyString] origin name ∧
       written fs path (zone_text origin zone') fs' ∧
       (∀ k, k ≠ (lower name, t) → zone_get k zone' = zone_get k zone) ∧
       (t ≠ RT_CNAME → zone_get (lower name, t) zone = None → zone_get (lower name, RT_CNAME) zone = None →
        zone_get (lower name, t) zone' = Some [from_rdata name (default 3600 (create_ttl c)) rd]) ∧
       (∀ t', excludes t t' → is_Some (zone_get (lower name, t') zone) → zone' = zone)) ∧
  (∀ n fs', delete_records fs z dir d = (Ok n, fs') →
     ∃ zone zone' origin name t, load_handler fs z dir = Ok zone ∧
       from_ascii (Config.zone_name z) = Some origin ∧ parse_record_type (delete_type d) = Ok t ∧
       owner (delete_name d) ["@"%string; Config.zone_name z] origin name ∧
       n = length (default [] (zone_get (lower name, t) zone)) ∧
       (if (0 <? n)%nat then written fs path (zone_text origin zone') fs' else fs' = fs) ∧
       zone_get (lower name, t) zone' = None ∧
       (∀ k, k ≠ (lower name, t) → zone_get k zone' = zone_get k zone)) ∧
  (∀ origin zone line, line ∈ zone_lines origin zone ↔
     ∃ k set r, (k, set) ∈ zone ∧ r ∈ set ∧ line = record_line origin r ∧
       record_type r ∉ [RT_RRSIG; RT_DNSKEY; RT_NSEC; RT_NSEC3; RT_NSEC3PARAM]) ∧
  (∀ file origin rn raw soa rest m r s f y x n zone,
     Config.zone_file z = Some file → from_ascii (Config.zone_name z) = Some origin →
     from_ascii (Config.soa_rname Config.Config_default) = Some rn →
     try_from_config fs origin Primary path (Config.nx_proof_kind hex_decode z) = Some raw →
     zone_get (lower origin, RT_SOA) raw = Some (soa :: rest) → data soa = RD_SOA m r s f y x n →
     zone_get (lower origin, RT_CNAME) raw = None →
     load_handler fs z dir = Ok zone →
     zone_get (lower origin, RT_SOA) zone = Some [from_rdata origin 86400 (RD_SOA m rn s f y x n)]).
Proof.
  intros path. split_and!.
  - intros e fs'. apply insert_failed.
  - intros fs' (zone & origin & name & t & rd & ? & ? & ? & Hd & ? & ?)%insert_record_run.
    destruct (parse_rdata_run t _ rd Hd) as [<- _].
    exists zone, (upsert_mut (from_rdata name (default 3600 (create_ttl c)) rd) zone), origin, name, (rdata_type rd), rd.
    split_and!; try done.
    + intros k. apply (upsert_other (from_rdata name _ rd)).
    + apply (upsert_fresh (from_rdata name _ rd)).
    + intros t'. apply (upsert_excluded (from_rdata name _ rd)).
  - intros n fs' (zone & origin & name & t & ? & ? & ? & ? & ? & ?)%delete_records_run.
    exists zone, (zone_remove (lower name, t) zone), origin, name, t.
    do 6 (split; [done|]). split; [apply zone_get_remove|intros k; apply zone_get_remove_ne].
  - apply zone_lines_elem.
  - intros file origin rn raw soa rest m r s f y x n zone Hfile Ho Hrn Hraw Hset Hsoa Hno.
    unfold load_handler, load_zone_file_with_proof. unfold path in Hraw. rewrite Hfile in *. simpl in Hraw |- *.
    destruct (negb _); [done|]. rewrite Ho. simpl. rewrite Hraw. simpl.
    by eapply patch_soa.
Qed.

(** ** Witnesses *)

Section Witnesses.
Import DnsSample ZoneSample.

Definition origin : SName := {| s_labels := ["e"]%string; s_fqdn := true |}.
Definition www : SName := {| s_labels := ["www"; "e"]%string; s_fqdn := true |}.
Definition soa_record : RecordOf SName := from_rdata origin 60 (RD_SOA origin www 7 1 2 3 4).
Definition www_record : RecordOf SName := from_rdata www 60 (RD_A (ipv4 192 0 2 1)).

Definition one_zone : SFs :=
  {| files := ∅;
     zones := {["/z/e.zone"%string := [((origin, RT_SOA), [soa_record]); ((www, RT_A), [www_record])]]} |}.

Definition zone_cfg : Config.ZoneConfig :=
  {| Config.zone_name := "e."; Config.zone_kind := "primary"; Config.zone_file := Some "e.zone"%string;
     Config.zone_primaries := []; Config.dnssec_signing := false; Config.dnssec_algorithm := "ed25519";
     Config.dnssec_key := None; Config.nx_proof := None |}.

Definition delete_www : RecordDelete := {| delete_name := "www.e."; delete_type := "a" |}.

Lemma accepted_data_well_formed_witness :
  @parse_rdata sample sample_zone RT_MX "10 mail.e." = Ok (RD_MX 10 {| s_labels := ["mail"; "e"]%string; s_fqdn := true |}) ∧
  is_uint 16 10.
Proof.
  split; [reflexivity|].
  apply (@accepted_data_well_formed sample sample_zone "mx" "10 mail.e." RT_MX
           (RD_MX 10 {| s_labels := ["mail"; "e"]%string; s_fqdn := true |})); reflexivity.
Defined.

(** Deleting the one address record returns 1, and something is written. *)
Lemma record_edits_witness :
  ∃ fs', @delete_records sample sample_zone one_zone zone_cfg "/z" delete_www = (Ok 1%nat, fs') ∧
  ∃ zone zone' origin, @load_handler sample sample_zone one_zone zone_cfg "/z" = Ok zone ∧
    @written sample sample_zone one_zone "/z/e.zone" (@zone_text sample sample_zone origin zone') fs' ∧
    zone_get (www, RT_A) zone' = None.
Proof.
  eexists. split; [vm_compute; reflexivity|].
  destruct (@record_edits sample sample_zone one_zone zone_cfg "/z"
              {| create_name := "@"; create_type := "a"; create_ttl := None; create_data := "" |}
              delete_www) as (_ & _ & Hdel & _).
  edestruct (Hdel 1%nat) as (zone & zone' & origin & name & t & Hl & _ & Ht & Hown & _ & Hw & Hnone & _);
    [vm_compute; reflexivity|].
  exists zone, zone', origin. split; [exact Hl|]. split; [exact Hw|].
  vm_compute in Ht, Hown. injection Ht as <-. injection Hown as <-. exact Hnone.
Defined.

End Witnesses.

End ZoneProps.
