(* ===== verification/KeysProps.v ===== *)
(** * Properties of signing keys and certificates *)

From Stdlib Require Import Ascii String ZArith Lia.
From stdpp Require Import base list gmap strings numbers.
From S2P Require Import Prelude RustString RustNum RustNet Metrics Cache Config ConfigProps Dns DnsSample Zone Keys.
From S2P Require Import ZoneSample.

Local Open Scope Z_scope.

Module KeysProps.
Import Dns Zone Keys.

(** ** Paths *)

Lemma path_join_inj d p q :
  Str.starts_with "/" p = false → Str.starts_with "/" q = false →
  Config.path_join d p = Config.path_join d q → p = q.
Proof.
  unfold Config.path_join. intros -> ->. destruct (_ || _); [apply StrFacts.app_inj_l|].
  intros E%StrFacts.app_inj_l. by apply StrFacts.app_inj_l in E.
Qed.

Lemma file_name_relative s t :
  Str.starts_with "/" s = false → Str.starts_with "/" (s +:+ "." +:+ t) = false.
Proof.
  destruct s as [|a s]; [done|]. unfold Str.starts_with. cbn [Str.strip_prefix String.append].
  by destruct (Ascii.eqb "/" a).
Qed.

Lemma app_inj_r (s t u : string) : s +:+ u = t +:+ u → s = t.
Proof.
  revert t. induction s as [|a s IH]; intros [|b t] E; [done| | |].
  - apply (f_equal String.length) in E. change (String.length u = S (String.length (t +:+ u))) in E.
    rewrite StrFacts.length_app in E. lia.
  - apply (f_equal String.length) in E. change (S (String.length (s +:+ u)) = String.length u) in E.
    rewrite StrFacts.length_app in E. lia.
  - injection E as -> E. f_equal. by apply IH.
Qed.

(** Zone names without underscores have key files of their own. *)
Lemma safe_name_inj z z' :
  Str.contains "_" z = false → Str.contains "_" z' = false → safe_name z = safe_name z' →
  Str.trim_end_matches "." z = Str.trim_end_matches "." z'.
Proof.
  unfold safe_name. intros Hz Hz'. rewrite !StrFacts.trim_end_replace by done.
  apply StrFacts.replace_inj; by apply StrFacts.contains_trim_end_matches.
Qed.

(** A relative name has a relative file. *)
Lemma safe_name_relative z : Str.starts_with "/" z = false → Str.starts_with "/" (safe_name z) = false.
Proof.
  intros Hz. destruct (Str.starts_with "/" (safe_name z)) eqn:E; [|done].
  apply StrFacts.starts_with_true in E as [t Ht]. unfold safe_name in Ht.
  destruct (StrFacts.trim_end_matches_app "_" (Str.replace "." "_" z)) as [n Hn]. rewrite Ht in Hn.
  destruct z as [|c z]; [done|]. cbn [Str.replace String.append] in Hn. injection Hn as Hc _.
  destruct (Ascii.eqb_spec c "."); [done|]. subst c. exfalso. unfold Str.starts_with in Hz. done.
Qed.

Lemma key_path_inj z z' d a :
  Str.contains "_" z = false → Str.contains "_" z' = false →
  Str.starts_with "/" z = false → Str.starts_with "/" z' = false →
  key_path_for_zone z d a = key_path_for_zone z' d a →
  Str.trim_end_matches "." z = Str.trim_end_matches "." z'.
Proof.
  intros Hz Hz' Hs Hs' E. apply safe_name_inj; [done..|].
  apply path_join_inj in E; [|by apply file_name_relative, safe_name_relative..]. by apply app_inj_r in E.
Qed.

(** The names of the algorithms. *)
Definition algorithm_names : list (string * Algorithm) :=
  [("ecdsa-p256"%string, ECDSAP256SHA256); ("ecdsa-p384"%string, ECDSAP384SHA384);
   ("ed25519"%string, ED25519); ("rsa-sha256"%string, RSASHA256)].

Lemma algorithm_from_str_Ok s a : algorithm_from_str s = Ok a ↔ (s, a) ∈ algorithm_names.
Proof.
  unfold algorithm_from_str, algorithm_names. split.
  - intros Ha. repeat (case_bool_decide; [simplify_eq; set_solver|]). done.
  - intros Hin. repeat (apply elem_of_cons in Hin as [[= -> ->]|Hin]; [done|]). by apply elem_of_nil in Hin.
Qed.

Lemma algorithm_accepted s :
  s ∈ ConfigProps.zone_algorithms ↔ ∃ a, algorithm_from_str s = Ok a.
Proof.
  setoid_rewrite algorithm_from_str_Ok. unfold algorithm_names, ConfigProps.zone_algorithms. split.
  - intros Hs. repeat (apply elem_of_cons in Hs as [->|Hs]; [eexists; repeat first [apply list_elem_of_here | apply list_elem_of_further]|]). by apply elem_of_nil in Hs.
  - intros [a Ha]. set_solver.
Qed.

(** A zone with another algorithm. *)
Definition with_algorithm (s : string) (z : Config.ZoneConfig) : Config.ZoneConfig :=
  {| Config.zone_name := Config.zone_name z; Config.zone_kind := Config.zone_kind z;
     Config.zone_file := Config.zone_file z; Config.zone_primaries := Config.zone_primaries z;
     Config.dnssec_signing := Config.dnssec_signing z; Config.dnssec_algorithm := s;
     Config.dnssec_key := Config.dnssec_key z; Config.nx_proof := Config.nx_proof z |}.

Lemma signed_zone_valid z s :
  Config.validate_zone z = Ok tt → Config.dnssec_signing z = true →
  Config.validate_zone (with_algorithm s z) = Ok tt ↔ ∃ a, algorithm_from_str s = Ok a.
Proof.
  rewrite <- algorithm_accepted, !ConfigProps.validate_zone_Ok. intros [] Hs. split.
  - intros Hv. by apply (ConfigProps.zv_algorithm _ Hv).
  - intros Ha. by split.
Qed.

(** ** The life of a key *)

Section Lifecycle.
Context `{KeyLib}.

Lemma generate_existing seed fs zone alg a dir :
  algorithm_from_str alg = Ok a → path_exists fs (key_path_for_zone zone dir alg) = true →
  generate_and_save_key seed fs zone alg dir = (Ok (key_path_for_zone zone dir alg), fs).
Proof. intros Ha He. unfold generate_and_save_key. by rewrite Ha, He. Qed.

(** A successful call found the key or wrote it. *)
Lemma generate_Ok seed fs zone alg dir p fs' :
  generate_and_save_key seed fs zone alg dir = (Ok p, fs') →
  ∃ a, algorithm_from_str alg = Ok a ∧ p = key_path_for_zone zone dir alg ∧
    ((path_exists fs p = true ∧ fs' = fs) ∨
     (path_exists fs p = false ∧ a ≠ RSASHA256 ∧ ∃ der, generate_pkcs8 seed a = Some der ∧
        read_bytes fs' p = Some der ∧ path_exists fs' p = true)).
Proof.
  unfold generate_and_save_key. destruct (algorithm_from_str alg) as [a|e]; [|done]. intros Hg.
  exists a. destruct (path_exists fs _) eqn:He; [injection Hg as <- <-; tauto|].
  destruct (create_dir_all fs dir) as [[] fs1]; [cbn [negb] in Hg|done].
  assert (a ≠ RSASHA256) as Hrsa by (by intros ->).
  destruct (generate_pkcs8 seed a) as [der|] eqn:Hk; [|by destruct a].
  assert ((let '(wrote, fs0) := write_bytes fs1 (key_path_for_zone zone dir alg) der in
     if negb wrote then (Err (WriteKeyFailed (key_path_for_zone zone dir alg)), fs0)
     else (Ok (key_path_for_zone zone dir alg), fs0)) = (Ok p, fs')) as Hw by (by destruct a).
  destruct (write_bytes fs1 _ der) as [[] fs2] eqn:Hwr; [|done]. injection Hw as <- <-.
  split_and!; [done..|]. right. split_and!; [done..|]. exists der.
  split_and!; [done|by eapply write_read|by eapply write_exists].
Qed.

End Lifecycle.

(** ** The theorems *)

(** C23: The signing key of a zone without a configured key.  A key that was generated or found is
    found again by every later call, which writes nothing; a freshly generated one loads as a
    signer for the zone, valid for 30 days.  Zones have key files of their own as long as their
    names have no underscore (otherwise two zones can share one, since dots become underscores) and do
    not begin with a slash.  The algorithms have one name each, and these are exactly the names with
    which a signed zone is valid; but for RSA no key can be generated: a zone that asks for it fails
    until a key file is put in place. *)
Theorem signing_key_lifecycle `{KeyLib} seed seed' fs zone alg dir :
  (∀ p fs', generate_and_save_key seed fs zone alg dir = (Ok p, fs') →
     generate_and_save_key seed' fs' zone alg dir = (Ok p, fs') ∧
     (path_exists fs p = false → is_Some (from_ascii zone) →
        ∃ s, load_signer fs' p zone alg = Ok s ∧ signer_duration s = 2592000)) ∧
  (∀ zone', Str.contains "_" zone = false → Str.contains "_" zone' = false →
     Str.starts_with "/" zone = false → Str.starts_with "/" zone' = false →
     key_path_for_zone zone dir alg = key_path_for_zone zone' dir alg →
     Str.trim_end_matches "." zone = Str.trim_end_matches "." zone') ∧
  (∀ s a, algorithm_from_str s = Ok a ↔ (s, a) ∈ algorithm_names) ∧
  (∀ s s' a, algorithm_from_str s = Ok a → algorithm_from_str s' = Ok a → s = s') ∧
  (∀ z s, Config.validate_zone z = Ok tt → Config.dnssec_signing z = true →
     Config.validate_zone (with_algorithm s z) = Ok tt ↔ ∃ a, algorithm_from_str s = Ok a) ∧
  (path_exists fs (key_path_for_zone zone dir "rsa-sha256") = false →
     ∃ e, (resolve_key_path seed fs zone None "rsa-sha256" dir).1 = Err e).
Proof.
  split_and!.
  - intros p fs' (a & Ha & -> & Hcase)%generate_Ok. split.
    + eapply generate_existing; [done|]. destruct Hcase as [[? ->]|(_ & _ & ? & _ & _ & ?)]; done.
    + intros Hno [origin Ho]. destruct Hcase as [[? _]|(_ & _ & der & Hg & Hr & _)]; [congruence|].
      destruct (generated_readable _ _ _ Hg) as (k & d & Hk & Hd).
      unfold load_signer. rewrite Ha. cbn. rewrite Hr. cbn. rewrite Hk. cbn. rewrite Hd. cbn.
      rewrite Ho. cbn. by eexists.
  - intros zone' ????. by apply key_path_inj.
  - apply algorithm_from_str_Ok.
  - intros s s' a Hs%algorithm_from_str_Ok Hs'%algorithm_from_str_Ok.
    unfold algorithm_names in *. set_solver.
  - apply signed_zone_valid.
  - intros He. unfold resolve_key_path, generate_and_save_key. cbn [algorithm_from_str].
    simpl. rewrite He. destruct (create_dir_all fs dir) as [[] fs1]; by eexists.
Qed.

(** ** Witnesses *)

Section Witnesses.
Import DnsSample ZoneSample.

Definition empty_fs : SFs := {| files := ∅; zones := ∅ |}.

(** A generated key is found again and loads; two zone names that share a key file. *)
Lemma signing_key_lifecycle_witness :
  (∃ p fs', @generate_and_save_key sample sample_zone sample_keys 1 empty_fs "e.org." "ed25519" "/k" = (Ok p, fs') ∧
     @generate_and_save_key sample sample_zone sample_keys 2 fs' "e.org." "ed25519" "/k" = (Ok p, fs') ∧
     ∃ s, @load_signer sample sample_zone sample_keys fs' p "e.org." "ed25519" = Ok s) ∧
  key_path_for_zone "a.b." "/k" "ed25519" = key_path_for_zone "a_b." "/k" "ed25519".
Proof.
  split; [|reflexivity].
  destruct (@signing_key_lifecycle sample sample_zone sample_keys 1 2 empty_fs "e.org." "ed25519" "/k")
    as (Hgen & _).
  eexists _, _. split; [vm_compute; reflexivity|].
  destruct (Hgen _ _ eq_refl) as (Hagain & Hload). split; [exact Hagain|].
  destruct Hload as (s & Hs & _); [reflexivity|by eexists|]. by exists s.
Defined.

End Witnesses.

End KeysProps.
