(* ===== verification/Filter.v ===== *)
(** * Filtering ([src/core/filter/mod.rs])

    The compiled filter of a configuration, the per-client rules, and the checks on answer
    records.  The regular expression engine, the file system and the HTTP client are
    parameters; the order in which the map of per-client rules is iterated is an argument. *)

From Stdlib Require Import Ascii String ZArith Lia.
From stdpp Require Import base list gmap strings numbers.
From S2P Require Import Prelude RustString RustNum RustNet Metrics Config Blocklist Dns.

Local Open Scope Z_scope.

(** ** IPv4 networks *)

Module Cidr.
Import Str.

Record Ipv4Cidr := { addr : Ipv4Addr; plen : Z }.

Definition contains (c : Ipv4Cidr) (ip : Ipv4Addr) : bool :=
  if plen c =? 0 then true
  else if 32 <=? plen c then bool_decide (addr c = ip)
  else let mask := high_mask 32 (32 - plen c) in
       let addr_bits := Z.land (v4_to_u32 (addr c)) mask in
       let ip_bits := Z.land (v4_to_u32 ip) mask in
       addr_bits =? ip_bits.

Inductive CidrError :=
  | MissingSlash (s : string)
  | BadAddress (s : string)
  | BadPrefix (s : string)
  | PrefixOutOfRange (n : Z).

Definition from_str (s : string) : result CidrError Ipv4Cidr :=
  '(addr_str, prefix_str) ← ok_or (MissingSlash s) (split_once "/" s);
  a ← ok_or (BadAddress addr_str) (parse_ipv4 addr_str);
  n ← ok_or (BadPrefix prefix_str) (parse_u8 prefix_str);
  if 32 <? n then Err (PrefixOutOfRange n) else Ok {| addr := a; plen := n |}.

End Cidr.

(** ** The filter *)

Module Filter.
Import Metrics Cidr Dns.

Section Filter.
Context {Regex : Type}.

Record Filter := {
  cname_chain_limit : Z;
  cname_cloaking : bool;
  rebinding : bool;
  blocklist : Blocklist.Blocklist;
  allowlist : Blocklist.Allowlist;
  per_client : list (Ipv4Cidr * bool);
  sinkhole_v4 : Ipv4Addr;
  sinkhole_v6 : Ipv6Addr;
  regex_blocklist : list Regex
}.

Section New.
Context {IoError : Type}.
Context (fs_read_to_string fetch_url : string → result IoError string).
Context (regex_new : string → option Regex).

(** [iter] is the order in which the map of per-client rules yields its items.  [None] would
    mean that loading the lists does not return. *)
Definition new (cfg : Config.FilterConfig) (iter : list (string * Config.PerClientFilter)) :
    option Filter :=
  bl ← Blocklist.load_sources fs_read_to_string fetch_url (Config.blocklists cfg);
  al ← Blocklist.Allowlist_load_sources fs_read_to_string fetch_url (Config.allowlists cfg);
  Some {|
    cname_chain_limit := default 8 (Config.cname_chain_limit cfg);
    cname_cloaking := Config.cname_cloaking cfg;
    rebinding := Config.rebinding cfg;
    blocklist := bl;
    allowlist := al;
    per_client := omap (λ p, match from_str p.1 with
                             | Ok net => Some (net, Config.block p.2)
                             | Err _ => None
                             end) iter;
    sinkhole_v4 := default v4_unspecified (parse_ipv4 (Config.sinkhole_v4 cfg));
    sinkhole_v6 := default v6_unspecified (parse_ipv6 (Config.sinkhole_v6 cfg));
    regex_blocklist := omap regex_new (Config.regex_blocklist cfg)
  |}.

End New.

Context (is_match : Regex → string → bool).

(** The first network that contains the client decides. *)
Fixpoint client_rule (rules : list (Ipv4Cidr * bool)) (client : Ipv4Addr) : option bool :=
  match rules with
  | [] => None
  | (net, blk) :: rest => if contains net client then Some blk else client_rule rest client
  end.

(** Returns the verdict and the global registry.  A regular expression match counts on a
    registry of its own that is dropped at once. *)
Definition is_blocked (f : Filter) (m : MetricsRegistry) (qname : string) (client : IpAddr) :
    bool * MetricsRegistry :=
  let rule := match client with IpV4 v4 => client_rule (per_client f) v4 | IpV6 _ => None end in
  match rule with
  | Some blk => (blk, m)
  | None =>
      if existsb (λ re, is_match re qname) (regex_blocklist f) then
        let _ := increment Metrics.new BlockedTotal 1 in (true, m)
      else
        let blk := Blocklist.blocked (blocklist f) (allowlist f) qname in
        (blk, if blk then increment m BlockedTotal 1 else m)
  end.

(** ** Checks on answers *)

Definition is_private_or_loopback (a : Ipv4Addr) : bool :=
  v4_is_loopback a || v4_is_private a || v4_is_link_local a.

Definition is_private_or_loopback_aaaa (a : Ipv6Addr) : bool :=
  v6_is_loopback a || v6_is_unique_local a || v6_is_unspecified a.

Section Records.
Context {N : Type}.

Definition dname_cname_coexistence_violation (records : list (RecordOf N)) : bool :=
  existsb (is_type RT_ANAME) records && existsb (is_type RT_CNAME) records.

Definition cname_chain_count (records : list (RecordOf N)) : nat :=
  length (filter (λ r, is_type RT_CNAME r = true) records).

Definition cname_chain_truncated (f : Filter) (m : MetricsRegistry) (records : list (RecordOf N)) :
    bool * MetricsRegistry :=
  let truncated := cname_cloaking f && (cname_chain_limit f <? Z.of_nat (cname_chain_count records)) in
  (truncated, if truncated then increment m CnameChainTruncatedTotal 1 else m).

Definition internal_address (r : RecordOf N) : bool :=
  match data r with
  | RD_A a => is_private_or_loopback a
  | RD_AAAA a => is_private_or_loopback_aaaa a
  | _ => false
  end.

Definition rebinding_detected (f : Filter) (m : MetricsRegistry) (records : list (RecordOf N)) :
    bool * MetricsRegistry :=
  let detected := if negb (rebinding f) then false else existsb internal_address records in
  (detected, if detected then increment m RebindingDetectedTotal 1 else m).

End Records.
End Filter.
Arguments Filter : clear implicits.

End Filter.
