(* ===== verification/FilterProps.v ===== *)
(** * Properties of the filter *)

From Stdlib Require Import Ascii String ZArith Lia.
From stdpp Require Import base list gmap strings numbers.
From S2P Require Import Prelude RustString RustNum RustNet Metrics Config Blocklist Dns Filter.

Local Open Scope Z_scope.

Module FilterProps.
Import Metrics Cidr Dns Filter.

(** ** Networks *)

(** The two addresses agree on their first [n] bits. *)
Definition same_prefix (n : Z) (a b : Ipv4Addr) : Prop :=
  v4_to_u32 a / 2 ^ (32 - n) = v4_to_u32 b / 2 ^ (32 - n).

Lemma contains_true c ip :
  v4_wf (addr c) → v4_wf ip → 0 ≤ plen c ≤ 32 →
  contains c ip = true ↔ same_prefix (plen c) (addr c) ip.
Proof.
  intros Ha Hip Hn. unfold contains, same_prefix.
  pose proof (v4_to_u32_range _ Ha) as Hra. pose proof (v4_to_u32_range _ Hip) as Hri.
  destruct (Z.eqb_spec (plen c) 0) as [->|Hnz].
  { rewrite !Z.div_small by (change (32 - 0) with 32; lia). done. }
  destruct (Z.leb_spec 32 (plen c)).
  - replace (plen c) with 32 by lia. change (2 ^ (32 - 32)) with 1. rewrite !Z.div_1_r.
    rewrite bool_decide_eq_true. split; [by intros <-|by apply v4_to_u32_inj].
  - rewrite !land_high_mask by lia. rewrite Z.eqb_eq.
    assert (0 < 2 ^ (32 - plen c)) by (apply Z.pow_pos_nonneg; lia). nia.
Qed.

(** An accepted text is an address and a length that fits, around the first slash. *)
Lemma from_str_Ok s c :
  from_str s = Ok c ↔
  ∃ a n, s = a +:+ "/" +:+ n ∧ Str.contains "/" a = false ∧
    parse_ipv4 a = Some (addr c) ∧ parse_u8 n = Some (plen c) ∧ plen c ≤ 32.
Proof.
  unfold from_str. split.
  - intros H. run_inv. destruct x as [x y]. run_inv.
    match goal with H : (if ?b then _ else _) = _ |- _ => destruct b eqn:Hb; [discriminate H|]; injection H as <- end.
    breflect. match goal with H : Str.split_once _ _ = Some _ |- _ => apply StrFacts.split_once_Some in H as [-> ?] end.
    by exists x, y.
  - intros (a & n & -> & Ha & Hp & Hn & Hle).
    rewrite (proj2 (StrFacts.split_once_Some "/" (a +:+ "/" +:+ n) a n)) by done. cbn [ok_or mbind result_bind].
    rewrite Hp. cbn [ok_or mbind result_bind]. rewrite Hn. cbn [ok_or mbind result_bind].
    rewrite (proj2 (Z.ltb_ge _ _)) by lia. by destruct c.
Qed.

Lemma from_str_wf s c : from_str s = Ok c → 0 ≤ plen c ≤ 32 ∧ v4_wf (addr c).
Proof.
  intros (a & n & _ & _ & Ha & Hn & Hle)%from_str_Ok. split; [|by eapply parse_ipv4_wf].
  apply (parse_uint_range u8_max) in Hn; [lia|done].
Qed.

(** A length that is too long is refused. *)
Lemma from_str_too_long a n c :
  Str.contains "/" a = false → 32 < n → n < 10 ^ 128 → from_str (a +:+ "/" +:+ print_dec n) ≠ Ok c.
Proof.
  intros Ha Hn Hb (a' & t & Heq & Ha' & _ & Ht & Hle)%from_str_Ok.
  assert (Str.split_once "/" (a +:+ "/" +:+ print_dec n) = Some (a, print_dec n)) as H1
    by by apply StrFacts.split_once_Some.
  assert (Str.split_once "/" (a +:+ "/" +:+ print_dec n) = Some (a', t)) as H2
    by by apply StrFacts.split_once_Some.
  rewrite H1 in H2. injection H2 as _ <-. assert (parse_uint (Z.max n u8_max) (print_dec n) = Some n) as Hn'.
  { apply parse_print_dec; lia. }
  pose proof (parse_uint_widen u8_max (Z.max n u8_max) _ _ ltac:(lia) Ht) as Hw.
  rewrite Hn' in Hw. injection Hw as ->. lia.
Qed.

(** ** Client rules *)

Lemma client_rule_Some rules client blk :
  client_rule rules client = Some blk →
  ∃ net, (net, blk) ∈ rules ∧ contains net client = true.
Proof.
  induction rules as [|[net b] rules IH]; simpl; [done|].
  destruct (contains net client) eqn:E.
  - intros [= ->]. exists net. set_solver.
  - intros (net' & Hin & Hc)%IH. exists net'. set_solver.
Qed.

Lemma client_rule_None rules client :
  client_rule rules client = None ↔ ∀ net b, (net, b) ∈ rules → contains net client = false.
Proof.
  induction rules as [|[net b] rules IH]; simpl; [set_solver|].
  destruct (contains net client) eqn:E.
  - split; [done|]. intros Hall. rewrite (Hall net b) in E by set_solver. done.
  - rewrite IH. setoid_rewrite elem_of_cons. naive_solver.
Qed.

(** When the rules that contain the client agree, their order does not matter. *)
Lemma client_rule_perm rules rules' client :
  rules ≡ₚ rules' →
  (∀ n b n' b', (n, b) ∈ rules → (n', b') ∈ rules →
     contains n client = true → contains n' client = true → b = b') →
  client_rule rules client = client_rule rules' client.
Proof.
  intros Hp Hagree. destruct (client_rule rules client) as [b|] eqn:E.
  - apply client_rule_Some in E as (n & Hin & Hc).
    destruct (client_rule rules' client) as [b'|] eqn:E'.
    + apply client_rule_Some in E' as (n' & Hin' & Hc'). rewrite <- Hp in Hin'. f_equal.
      by eapply Hagree.
    + rewrite client_rule_None in E'. rewrite (E' n b) in Hc; [done|]. by rewrite <- Hp.
  - symmetry. rewrite client_rule_None in E |- *. intros n b Hin. rewrite <- Hp in Hin. by eapply E.
Qed.

(** ** Addresses *)

(** The IPv4 ranges the rebinding check watches, as intervals of 32-bit integers:
    127/8, 10/8, 172.16/12, 192.168/16, 169.254/16. *)
Definition internal_v4 (x : Z) : Prop :=
  0x7f000000 ≤ x ≤ 0x7fffffff ∨ 0x0a000000 ≤ x ≤ 0x0affffff ∨ 0xac100000 ≤ x ≤ 0xac1fffff ∨
  0xc0a80000 ≤ x ≤ 0xc0a8ffff ∨ 0xa9fe0000 ≤ x ≤ 0xa9feffff.

(** The IPv6 ones: the loopback address, the unspecified address, fc00::/7. *)
Definition internal_v6 (x : Z) : Prop :=
  x = 1 ∨ x = 0 ∨ 0xfc00 * 2 ^ 112 ≤ x < 0xfe00 * 2 ^ 112.

Lemma is_private_or_loopback_true a :
  v4_wf a → is_private_or_loopback a = true ↔ internal_v4 (v4_to_u32 a).
Proof.
  intros (w & x & y & z & Ho & Hw & Hx & Hy & Hz & ->)%v4_wf_octets.
  unfold is_private_or_loopback, v4_is_loopback, v4_is_private, v4_is_link_local, octet.
  rewrite Ho. cbn [nth]. unfold is_byte in *. unfold internal_v4.
  rewrite !orb_true_iff, !andb_true_iff, !Z.eqb_eq, !Z.leb_le. lia.
Qed.

Lemma unique_local_byte h l :
  is_byte h → is_byte l → Z.land (be_combine [h; l]) 0xfe00 = 0xfc00 ↔ 0xfc ≤ h < 0xfe.
Proof.
  intros Hh Hl. unfold be_combine. cbn [be_combine_from]. unfold is_byte in *.
  change 0xfe00 with (high_mask 16 9). rewrite land_high_mask by lia. change (2 ^ 9) with 512.
  pose proof (Z.div_mod ((0 * 256 + h) * 256 + l) 512 ltac:(lia)).
  pose proof (Z.mod_pos_bound ((0 * 256 + h) * 256 + l) 512 ltac:(lia)). lia.
Qed.

Lemma is_private_or_loopback_aaaa_true a :
  v6_wf a → is_private_or_loopback_aaaa a = true ↔ internal_v6 (v6_to_u128 a).
Proof.
  intros [Hl Hb]. unfold is_private_or_loopback_aaaa, v6_is_loopback, v6_is_unique_local,
    v6_is_unspecified, internal_v6, v6_to_u128.
  rewrite !orb_true_iff, !Z.eqb_eq.
  destruct (v6_octets a) as [|h [|l rest]]; [done|done|].
  apply Forall_cons_1 in Hb as [Hh Hb]. apply Forall_cons_1 in Hb as [Hll Hb].
  cbn [take]. change (take 0 rest) with (@nil Z). rewrite unique_local_byte by done.
  rewrite !be_combine_cons. pose proof (be_combine_range _ Hb) as Hr.
  injection Hl as Hl. cbn [length]. rewrite Hl in Hr |- *. unfold is_byte in *.
  change (256 ^ Z.of_nat 15) with (256 * 2 ^ 112). change (256 ^ Z.of_nat 14) with (2 ^ 112) in *.
  assert (0 < 2 ^ 112) by lia. nia.
Qed.

Definition record_wf {N} (r : RecordOf N) : Prop :=
  match data r with RD_A a => v4_wf a | RD_AAAA a => v6_wf a | _ => True end.

(** ** The theorems *)

(** C26: A network is read from a text [a/n] as it is written: [n] is at most 32 and the network has the
    address [a] and the length [n]; every address and every length from 0 to 32, as they are displayed,
    are accepted, and a longer length is refused.  The network contains exactly the addresses that
    agree with its own on the first [n] bits. *)
Theorem cidr_contains_iff a n :
  v4_wf a → 0 ≤ n < 2 ^ 64 →
  (∀ s c, from_str s = Ok c ↔
     ∃ at_text n_text, s = at_text +:+ "/" +:+ n_text ∧ Str.contains "/" at_text = false ∧
       parse_ipv4 at_text = Some (addr c) ∧ parse_u8 n_text = Some (plen c) ∧ plen c ≤ 32) ∧
  (n ≤ 32 → from_str (show_ipv4 a +:+ "/" +:+ print_dec n) = Ok {| addr := a; plen := n |}) ∧
  (32 < n → ∃ e, from_str (show_ipv4 a +:+ "/" +:+ print_dec n) = Err e) ∧
  (∀ s c ip, from_str s = Ok c → v4_wf ip →
     contains c ip = true ↔ v4_to_u32 (addr c) / 2 ^ (32 - plen c) = v4_to_u32 ip / 2 ^ (32 - plen c)).
Proof.
  intros Ha Hn. split_and!.
  - apply from_str_Ok.
  - intros Hle. apply from_str_Ok. exists (show_ipv4 a), (print_dec n).
    split_and!; [done|by apply show_ipv4_no_slash|by apply parse_show_ipv4| |done].
    apply parse_print_dec; unfold u8_max; simpl; lia.
  - intros Hlt. destruct (from_str _) as [c|e] eqn:E; [|by exists e]. exfalso.
    eapply from_str_too_long; [by apply show_ipv4_no_slash|exact Hlt|lia|exact E].
  - intros s c ip [Hr Hw]%from_str_wf Hip. by apply contains_true.
Qed.

(** The verdict on a name for a client.  The first rule with a prefix of the client's IPv4 address
    decides alone.  Without such a rule a name is blocked exactly when a pattern matches it, or it
    is on the block list and not on the allow list; only the latter is counted. *)
Definition rule_for {Regex} (f : Filter Regex) (client : IpAddr) : option bool :=
  match client with IpV4 v4 => client_rule (per_client f) v4 | IpV6 _ => None end.

Definition listed {Regex} (f : Filter Regex) (q : string) : bool :=
  Blocklist.is_blocked (blocklist f) q && negb (Blocklist.is_allowed (allowlist f) q).

Definition verdict {Regex} (is_match : Regex → string → bool) (f : Filter Regex) (q : string) (client : IpAddr) : bool :=
  match rule_for f client with
  | Some b => b
  | None => existsb (λ re, is_match re q) (regex_blocklist f) || listed f q
  end.

Definition counted {Regex} (is_match : Regex → string → bool) (f : Filter Regex) (q : string) (client : IpAddr) : bool :=
  match rule_for f client with
  | Some _ => false
  | None => negb (existsb (λ re, is_match re q) (regex_blocklist f)) && listed f q
  end.

Lemma is_blocked_verdict {Regex} (is_match : Regex → string → bool) (f : Filter Regex) m q client :
  is_blocked is_match f m q client =
    (verdict is_match f q client, if counted is_match f q client then increment m BlockedTotal 1 else m).
Proof.
  assert (Blocklist.blocked (blocklist f) (allowlist f) q = listed f q) as Hl.
  { unfold Blocklist.blocked, listed.
    destruct (Blocklist.is_allowed (allowlist f) q); [by rewrite andb_false_r|by rewrite andb_true_r]. }
  unfold is_blocked, verdict, counted, rule_for. rewrite Hl. destruct client as [v4|v6].
  all: repeat case_match; try done; congruence || by destruct (existsb _ _), (listed f q).
Qed.

(** The order in which the hash map of per-client rules is iterated is invisible for a
    client on whose rules the configuration agrees: filters built from two iteration orders
    give the same verdict. *)
Lemma per_client_order_irrelevant {Regex IoError} rd fu rx (is_match : Regex → string → bool)
    cfg iter iter' (f f' : Filter Regex) m q client :
  iter ≡ₚ iter' →
  new (IoError := IoError) rd fu rx cfg iter = Some f → new rd fu rx cfg iter' = Some f' →
  (∀ n b n' b', (n, b) ∈ per_client f → (n', b') ∈ per_client f →
     contains n client = true → contains n' client = true → b = b') →
  is_blocked is_match f m q (IpV4 client) = is_blocked is_match f' m q (IpV4 client).
Proof.
  intros Hp Hf Hf' Hagree. unfold new in *.
  destruct (Blocklist.load_sources _ _ _) as [bl|]; [|done].
  destruct (Blocklist.Allowlist_load_sources _ _ _) as [al|]; [|done].
  simpl in Hf, Hf'. injection Hf as <-. injection Hf' as <-.
  unfold is_blocked. cbn [per_client regex_blocklist blocklist allowlist] in *.
  erewrite client_rule_perm; [reflexivity| |exact Hagree]. by rewrite Hp.
Qed.

(** C39: The rebinding check fires, and counts, exactly when it is on and some A record carries an
    address of 127/8, 10/8, 172.16/12, 192.168/16 or 169.254/16, or some AAAA record the loopback
    address, the unspecified address or one of fc00::/7 (not for 0.0.0.0, nor for the link-local
    addresses of fe80::/10), given as intervals of the numeric address; the CNAME check fires exactly when it is on and the
    answer has more CNAME records than the limit. *)
Theorem answer_checks_exact {Regex N} (f : Filter Regex) m (records : list (RecordOf N)) :
  Forall record_wf records →
  ((rebinding_detected f m records).1 = true ↔
     rebinding f = true ∧ ∃ r, r ∈ records ∧
       ((∃ a, data r = RD_A a ∧ internal_v4 (v4_to_u32 a)) ∨
        (∃ a, data r = RD_AAAA a ∧ internal_v6 (v6_to_u128 a)))) ∧
  (rebinding_detected f m records).2 =
    (if (rebinding_detected f m records).1 then increment m RebindingDetectedTotal 1 else m) ∧
  ((cname_chain_truncated f m records).1 = true ↔
     cname_cloaking f = true ∧
     cname_chain_limit f < Z.of_nat (length (filter (λ r, record_type r = RT_CNAME) records))) ∧
  (cname_chain_truncated f m records).2 =
    (if (cname_chain_truncated f m records).1 then increment m CnameChainTruncatedTotal 1 else m).
Proof.
  intros Hwf. split_and!; [|done| |done].
  - unfold rebinding_detected. cbn [fst]. destruct (rebinding f); cbn [negb]; [|naive_solver].
    rewrite existsb_exists. split.
    + intros (r & Hin & Hr). split; [done|]. apply list_elem_of_In in Hin. exists r. split; [done|].
      pose proof (proj1 (list.Forall_forall _ _) Hwf r Hin) as Hr'. unfold record_wf, internal_address in *.
      destruct (data r); try done; [left|right]; eexists; (split; [done|]).
      * by apply is_private_or_loopback_true.
      * by apply is_private_or_loopback_aaaa_true.
    + intros (_ & r & Hin & Hr). exists r. split; [by apply list_elem_of_In|].
      pose proof (proj1 (list.Forall_forall _ _) Hwf r Hin) as Hr'. unfold record_wf, internal_address in *.
      destruct Hr as [(a & Hd & Ha)|(a & Hd & Ha)]; rewrite Hd in *.
      * by apply is_private_or_loopback_true.
      * by apply is_private_or_loopback_aaaa_true.
  - unfold cname_chain_truncated, cname_chain_count. cbn [fst].
    rewrite andb_true_iff, Z.ltb_lt.
    rewrite (list_filter_iff _ (λ r : RecordOf N, record_type r = RT_CNAME)); [done|].
    intros r. unfold is_type. by rewrite bool_decide_eq_true.
Qed.

(** ** Witnesses *)

Lemma cidr_contains_iff_witness :
  from_str "10.1.0.0/16" = Ok {| addr := ipv4 10 1 0 0; plen := 16 |} ∧
  contains {| addr := ipv4 10 1 0 0; plen := 16 |} (ipv4 10 1 255 7) = true.
Proof.
  assert (∀ w x y z, is_byte w → is_byte x → is_byte y → is_byte z → v4_wf (ipv4 w x y z)) as Hwf.
  { intros. split; [reflexivity|]. each_element done. }
  destruct (cidr_contains_iff (ipv4 10 1 0 0) 16) as (_ & Hok & _ & Hin);
    [apply Hwf; unfold is_byte; lia|lia|].
  assert (from_str "10.1.0.0/16" = Ok {| addr := ipv4 10 1 0 0; plen := 16 |}) as Hs by (apply Hok; lia).
  split; [exact Hs|]. apply (Hin _ _ _ Hs); [apply Hwf; unfold is_byte; lia|vm_compute; reflexivity].
Defined.

Definition no_lists : string → result unit string := λ _, Err tt.
Definition no_regex : string → option unit := λ _, None.

(** Two rules with different verdicts, one network inside the other. *)
Definition rule_lan : string * Config.PerClientFilter := ("10.0.0.0/8"%string, Config.Build_PerClientFilter true).
Definition rule_host : string * Config.PerClientFilter := ("10.0.0.5/32"%string, Config.Build_PerClientFilter false).

Definition filter_of (iter : list (string * Config.PerClientFilter)) : option (Filter unit) :=
  new no_lists no_lists no_regex Config.FilterConfig_default iter.

(** For overlapping networks the verdict does depend on the iteration order of the map. *)
Lemma per_client_order_matters :
  ∃ f f', filter_of [rule_lan; rule_host] = Some f ∧ filter_of [rule_host; rule_lan] = Some f' ∧
    (is_blocked (λ _ _, false) f Metrics.new "a.example" (IpV4 (ipv4 10 0 0 5))).1 = true ∧
    (is_blocked (λ _ _, false) f' Metrics.new "a.example" (IpV4 (ipv4 10 0 0 5))).1 = false.
Proof.
  destruct (filter_of [rule_lan; rule_host]) as [f|] eqn:E; [|discriminate E].
  destruct (filter_of [rule_host; rule_lan]) as [f'|] eqn:E'; [|discriminate E'].
  exists f, f'. split; [done|]. split; [done|].
  vm_compute in E, E'. injection E as <-. injection E' as <-. split; vm_compute; reflexivity.
Qed.

Lemma per_client_order_irrelevant_witness :
  ∃ f f', filter_of [rule_lan; rule_host] = Some f ∧ filter_of [rule_host; rule_lan] = Some f' ∧
    is_blocked (λ _ _, false) f Metrics.new "a.example" (IpV4 (ipv4 10 9 9 9)) =
    is_blocked (λ _ _, false) f' Metrics.new "a.example" (IpV4 (ipv4 10 9 9 9)).
Proof.
  destruct (filter_of [rule_lan; rule_host]) as [f|] eqn:E; [|discriminate E].
  destruct (filter_of [rule_host; rule_lan]) as [f'|] eqn:E'; [|discriminate E'].
  exists f, f'. split; [reflexivity|]. split; [reflexivity|].
  refine (per_client_order_irrelevant no_lists no_lists no_regex _ Config.FilterConfig_default
            [rule_lan; rule_host] [rule_host; rule_lan] f f' _ _ _ _ E E' _).
  - apply Permutation_swap.
  - vm_compute in E. injection E as <-. cbn [per_client]. intros n b n' b' H1 H2 C1 C2.
    apply elem_of_cons in H1 as [H1|H1%list_elem_of_singleton]; injection H1 as -> ->;
      apply elem_of_cons in H2 as [H2|H2%list_elem_of_singleton]; injection H2 as -> ->;
      try reflexivity; vm_compute in C1, C2; discriminate.
Defined.

Lemma answer_checks_exact_witness :
  ∃ f, filter_of [] = Some f ∧
    (rebinding_detected f Metrics.new [from_rdata tt 60 (RD_A (ipv4 192 168 1 1))]).1 = true.
Proof.
  destruct (filter_of []) as [f|] eqn:E; [|discriminate E]. exists f. split; [reflexivity|].
  apply (answer_checks_exact f Metrics.new [from_rdata tt 60 (RD_A (ipv4 192 168 1 1))]).
  - apply Forall_cons_2; [|apply Forall_nil_2]. split; [reflexivity|]. unfold is_byte.
    each_element lia.
  - vm_compute in E. injection E as <-. split; [reflexivity|].
    exists (from_rdata tt 60 (RD_A (ipv4 192 168 1 1))). split; [by apply list_elem_of_singleton|].
    left. exists (ipv4 192 168 1 1). split; [reflexivity|]. vm_compute.
    right. right. right. left. split; discriminate.
Defined.

End FilterProps.
