(* ===== verification/Dns64.v ===== *)
(** * DNS64 synthesis ([src/core/resolver/dns64.rs])

    Parsing of the prefix and the embedding of IPv4 addresses into it, with its arithmetic
    meaning on 128-bit integers. *)

From Stdlib Require Import Ascii String ZArith Lia.
From stdpp Require Import base list gmap strings numbers.
From S2P Require Import Prelude RustString RustNum RustNet Metrics.

Local Open Scope Z_scope.

Module Dns64.
Import Metrics.

Record Dns64Prefix := { addr : Ipv6Addr; len : Z }.

Definition parse (s : string) : option Dns64Prefix :=
  '(addr_str, len_str) ← Str.split_once "/" s;
  a ← parse_ipv6 addr_str;
  n ← parse_u8 len_str;
  if 128 <? n then None else Some {| addr := a; len := n |}.

(** [v6_bytes[i] = x]: the index is in range for the 16 octets of an address. *)
Definition set_octet (i : nat) (x : Z) (l : list Z) : list Z := <[i := x]> l.

Definition synthesize_one (v4 : Ipv4Addr) (prefix : Dns64Prefix) : option Ipv6Addr :=
  let v4_bytes := v4_octets v4 in
  let v6_bytes := v6_octets (addr prefix) in
  if len prefix =? 96 then
    if negb (bool_decide (take 12 v6_bytes = take 12 (v6_octets (addr prefix)))) then None
    else
      let v6_bytes := set_octet 12 (octet 0 v4_bytes) v6_bytes in
      let v6_bytes := set_octet 13 (octet 1 v4_bytes) v6_bytes in
      let v6_bytes := set_octet 14 (octet 2 v4_bytes) v6_bytes in
      let v6_bytes := set_octet 15 (octet 3 v4_bytes) v6_bytes in
      Some (V6Octets v6_bytes)
  else if len prefix =? 64 then
    if negb (bool_decide (take 8 v6_bytes = take 8 (v6_octets (addr prefix)))) then None
    else
      let v6_bytes := set_octet 8 (octet 0 v4_bytes) v6_bytes in
      let v6_bytes := set_octet 9 (octet 1 v4_bytes) v6_bytes in
      let v6_bytes := set_octet 10 (octet 2 v4_bytes) v6_bytes in
      let v6_bytes := set_octet 11 (octet 3 v4_bytes) v6_bytes in
      let v6_bytes := set_octet 12 0 v6_bytes in
      let v6_bytes := set_octet 13 0 v6_bytes in
      let v6_bytes := set_octet 14 0 v6_bytes in
      let v6_bytes := set_octet 15 0 v6_bytes in
      Some (V6Octets v6_bytes)
  else None.

(** The records and the global registry, which counts them when there are any. *)
Definition synthesize_aaaa (m : MetricsRegistry) (a_records : list Ipv4Addr) (prefix : Dns64Prefix) :
    list Ipv6Addr * MetricsRegistry :=
  let out := omap (λ a, synthesize_one a prefix) a_records in
  (out, if bool_decide (out = []) then m
        else increment m Dns64SynthesizedTotal (Z.of_nat (length out))).

(** ** Lemmas *)

Lemma be_combine_app l l' :
  be_combine (l ++ l') = be_combine l * 256 ^ Z.of_nat (length l') + be_combine l'.
Proof.
  induction l as [|b l IH]; simpl app; [rewrite Z.mul_0_l; lia|].
  rewrite !be_combine_cons, IH, length_app, Nat2Z.inj_add, Z.pow_add_r by lia. ring.
Qed.

(** A 128-bit number split after its first [128 - 8k] bits. *)
Lemma be_combine_high l l' :
  Forall is_byte l' → be_combine (l ++ l') / 256 ^ Z.of_nat (length l') = be_combine l.
Proof.
  intros Hb. pose proof (be_combine_range l' Hb) as Hr. rewrite be_combine_app.
  rewrite Z.div_add_l by lia. rewrite Z.div_small by lia. lia.
Qed.

Lemma split_octets a k :
  v6_wf a → (k ≤ 16)%nat →
  be_combine (take k (v6_octets a)) = v6_to_u128 a / 256 ^ Z.of_nat (16 - k).
Proof.
  intros [Hl Hb] Hk. unfold v6_to_u128. rewrite <- (take_drop k (v6_octets a)) at 2.
  assert (length (drop k (v6_octets a)) = (16 - k)%nat) as <- by (rewrite length_drop, Hl; lia).
  symmetry. apply be_combine_high. by apply Forall_drop.
Qed.

Lemma overwrite_tail_96 (l : list Z) w x y z :
  length l = 16%nat →
  set_octet 15 z (set_octet 14 y (set_octet 13 x (set_octet 12 w l))) = take 12 l ++ [w; x; y; z].
Proof.
  intros Hl. unfold set_octet. do 16 (destruct l as [|? l]; [discriminate Hl|]).
  by destruct l.
Qed.

Lemma overwrite_tail_64 (l : list Z) w x y z :
  length l = 16%nat →
  set_octet 15 0 (set_octet 14 0 (set_octet 13 0 (set_octet 12 0
    (set_octet 11 z (set_octet 10 y (set_octet 9 x (set_octet 8 w l)))))))
  = take 8 l ++ [w; x; y; z] ++ [0; 0; 0; 0].
Proof.
  intros Hl. unfold set_octet. do 16 (destruct l as [|? l]; [discriminate Hl|]).
  by destruct l.
Qed.

Lemma synthesize_one_octets v4 p :
  v4_wf v4 → v6_wf (addr p) →
  synthesize_one v4 p =
    if len p =? 96 then Some (V6Octets (take 12 (v6_octets (addr p)) ++ v4_octets v4))
    else if len p =? 64 then Some (V6Octets (take 8 (v6_octets (addr p)) ++ v4_octets v4 ++ [0; 0; 0; 0]))
    else None.
Proof.
  intros [Hl4 _] [Hl6 _]. unfold synthesize_one. rewrite !bool_decide_true by done. cbn [negb].
  destruct (v4_octets v4) as [|w [|x [|y [|z [|]]]]]; try done. unfold octet. cbn [nth].
  by rewrite overwrite_tail_96, overwrite_tail_64.
Qed.

Lemma zeros_wf : Forall is_byte [0; 0; 0; 0].
Proof. unfold is_byte. each_element lia. Qed.

Lemma synthesize_one_value v4 p a :
  v4_wf v4 → v6_wf (addr p) → synthesize_one v4 p = Some a →
  v6_wf a ∧
  (len p = 96 ∧ v6_to_u128 a = v6_to_u128 (addr p) / 2 ^ 32 * 2 ^ 32 + v4_to_u32 v4 ∨
   len p = 64 ∧ v6_to_u128 a = v6_to_u128 (addr p) / 2 ^ 64 * 2 ^ 64 + v4_to_u32 v4 * 2 ^ 32).
Proof.
  intros H4 H6. rewrite synthesize_one_octets by done. pose proof H4 as [Hl4 Hb4].
  pose proof H6 as [Hl6 Hb6].
  destruct (Z.eqb_spec (len p) 96) as [Hlen|]; [|destruct (Z.eqb_spec (len p) 64) as [Hlen|]; [|done]];
    intros [= <-]; (split; [split; cbn [v6_octets]|]).
  - rewrite length_app, length_take, Hl4, Hl6. done.
  - apply Forall_app. split; [by apply Forall_take|done].
  - left. split; [done|]. unfold v6_to_u128 at 1. cbn [v6_octets].
    rewrite be_combine_app, (split_octets (addr p) 12), Hl4 by (done || lia). done.
  - rewrite !length_app, length_take, Hl4, Hl6. done.
  - apply Forall_app. split; [by apply Forall_take|]. apply Forall_app. split; [done|apply zeros_wf].
  - right. split; [done|]. unfold v6_to_u128 at 1. cbn [v6_octets].
    rewrite !be_combine_app, (split_octets (addr p) 8), length_app, Hl4 by (done || lia).
    unfold v4_to_u32. change (be_combine [0; 0; 0; 0]) with 0. cbn [length].
    change (256 ^ Z.of_nat (16 - 8)) with (2 ^ 64). change (256 ^ Z.of_nat (4 + 4)) with (2 ^ 64).
    change (256 ^ Z.of_nat 4) with (2 ^ 32). lia.
Qed.

(** ** The theorem *)

(** C27: For an IPv4 address and a /96 prefix the synthesised address is the top 96 bits of the
    prefix followed by the 32 bits of the address; for a /64 prefix the top 64 bits, the
    address, 32 zero bits; every other length gives nothing.  So distinct IPv4 addresses give
    distinct IPv6 addresses.  The list version embeds each address in order and adds the
    number of synthesised records to the global counter. *)
Theorem synthesis_embeds m l p :
  Forall v4_wf l → v6_wf (addr p) → filled m →
  let '(out, m') := synthesize_aaaa m l p in
  let value a := if len p =? 96 then v6_to_u128 (addr p) / 2 ^ 32 * 2 ^ 32 + v4_to_u32 a
                 else v6_to_u128 (addr p) / 2 ^ 64 * 2 ^ 64 + v4_to_u32 a * 2 ^ 32 in
  v6_to_u128 <$> out = (if (len p =? 96) || (len p =? 64) then value <$> l else []) ∧
  Forall v6_wf out ∧
  (∀ a b, v4_wf a → v4_wf b → value a = value b → a = b) ∧
  read m' Dns64SynthesizedTotal = wrap 64 (read m Dns64SynthesizedTotal + Z.of_nat (length out)).
Proof.
  intros Hl Hp Hm. unfold synthesize_aaaa.
  set (out := omap _ l). split_and!.
  - subst out. induction Hl as [|a l Ha Hl IH]; [by destruct (_ || _)|]. rewrite list_omap_cons.
    pose proof (synthesize_one_value a p) as Hv. revert Hv.
    rewrite synthesize_one_octets by done. intros Hv.
    destruct (len p =? 96) eqn:E96; [|destruct (len p =? 64) eqn:E64; [|exact IH]];
      cbn [orb] in *; rewrite !fmap_cons, IH; f_equal.
    + destruct (Hv _ Ha Hp eq_refl) as (_ & [[_ ->]|[Hc _]]); [done|breflect; lia].
    + destruct (Hv _ Ha Hp eq_refl) as (_ & [[Hc _]|[_ ->]]); [breflect; lia|done].
  - subst out. induction Hl as [|a l Ha Hl IH]; [constructor|]. rewrite list_omap_cons.
    destruct (synthesize_one a p) eqn:E; [|done]. constructor; [|done].
    by destruct (synthesize_one_value a p _ Ha Hp E).
  - intros a b Ha Hb. destruct (len p =? 96); intros Heq; apply v4_to_u32_inj; try done; lia.
  - case_bool_decide as Ho; [rewrite Ho; cbn [length]|].
    + rewrite Z.add_0_r. destruct (Hm Dns64SynthesizedTotal) as (v & Hv & Hr).
      unfold read. rewrite Hv. symmetry. by apply wrap_small.
    + by rewrite read_increment, decide_True.
Qed.

Definition well_known : Dns64Prefix := {| addr := v6_of_segments [0x64; 0xff9b; 0; 0; 0; 0; 0; 0]; len := 96 |}.

Example parse_well_known : parse "64:ff9b::/96" = Some well_known.
Proof. vm_compute. reflexivity. Qed.

Lemma synthesis_embeds_witness :
  (synthesize_aaaa Metrics.new [ipv4 192 0 2 1] well_known).1
    = [v6_of_segments [0x64; 0xff9b; 0; 0; 0; 0; 0xc000; 0x201]] ∧
  v6_to_u128 <$> (synthesize_aaaa Metrics.new [ipv4 192 0 2 1] well_known).1
    = [0x64ff9b * 2 ^ 96 + 0xc0000201].
Proof.
  split; [vm_compute; reflexivity|].
  pose proof (synthesis_embeds Metrics.new [ipv4 192 0 2 1] well_known) as H.
  destruct (synthesize_aaaa Metrics.new [ipv4 192 0 2 1] well_known) as [out m'] eqn:E.
  destruct H as (H & _).
  - apply Forall_cons_2; [|apply Forall_nil_2]. split; [reflexivity|]. unfold is_byte.
    each_element lia.
  - split; [reflexivity|]. unfold is_byte. vm_compute v6_octets.
    each_element lia.
  - apply new_filled.
  - cbn [fst]. rewrite H. vm_compute. reflexivity.
Defined.

End Dns64.
