(* ===== verification/Resolver.v ===== *)
(** * Resolver configuration ([src/core/resolver/mod.rs])

    From the configured forwarders to the list of name servers and options handed to the resolver
    library.  The file system is a parameter; building the resolver itself is library code. *)

From Stdlib Require Import Ascii String ZArith Lia.
From stdpp Require Import base list gmap strings numbers.
From S2P Require Import Prelude RustString RustNum RustNet Config.

Local Open Scope Z_scope.

Module Resolver.
Import Str.

Definition SYSTEMD_RESOLVED_STUB : string := "127.0.0.53:53".

(** The constructors of the library's [NameServerConfig] the source calls: none takes a port. *)
Inductive NsProtocol :=
  | Udp
  | Tcp
  | Tls (server_name : string)
  | Https (server_name : string)
  | Quic (server_name : string).

Record NameServer := {
  ns_ip : IpAddr;
  ns_protocol : NsProtocol;
  trust_negative_responses : option bool
}.

Record ResolverOpts := {
  opt_timeout_ms : Z;
  opt_attempts : Z;
  opt_recursion_desired : bool;
  opt_validate : bool
}.

Record ResolverWrap := {
  servers : list NameServer;
  opts : ResolverOpts;
  trust_anchors : bool;
  dnssec_enabled : bool
}.

Inductive ResolverError := BadForwarder (f : string) | BuildFailed.

Definition extract_tls_host (cfg : Config.ResolverConfig) : string :=
  match Config.forwarders cfg with
  | f :: _ => default "1.1.1.1"%string (head (split ":" f))
  | [] => "1.1.1.1"
  end.

Definition protocol_of (name tls_host : string) : NsProtocol :=
  if bool_decide (name = "udp"%string) then Udp
  else if bool_decide (name = "tcp"%string) then Tcp
  else if bool_decide (name = "dot"%string) then Tls tls_host
  else if bool_decide (name = "doh"%string) then Https tls_host
  else if bool_decide (name = "doq"%string) then Quic tls_host
  else Udp.

(** The loop over the forwarders. *)
Fixpoint name_servers (proto : NsProtocol) (fs : list string) : result ResolverError (list NameServer) :=
  match fs with
  | [] => Ok []
  | f :: rest =>
      addr ← ok_or (BadForwarder f) (parse_socket_addr f);
      more ← name_servers proto rest;
      Ok ({| ns_ip := sock_ip addr; ns_protocol := proto; trust_negative_responses := None |} :: more)
  end.

Section System.
Context (exists_ : string → bool) (read_to_string : string → option string).
Context (build : list NameServer → ResolverOpts → bool → bool).

Definition points_to_stub (line : string) : bool :=
  match strip_prefix "nameserver" (trim line) with
  | Some ns => bool_decide (trim ns = "127.0.0.53"%string)
  | None => false
  end.

Definition detect_system_resolver : option string :=
  if exists_ "/run/systemd/resolve/stub-resolv.conf" then Some SYSTEMD_RESOLVED_STUB
  else match read_to_string "/etc/resolv.conf" with
       | Some content => if existsb points_to_stub (lines content) then Some SYSTEMD_RESOLVED_STUB else None
       | None => None
       end.

(** [expect]: the detected address is a constant that parses ([stub_parses]). *)
Definition system_server (sys_addr : string) : list NameServer :=
  match parse_socket_addr sys_addr with
  | Some addr => [{| ns_ip := sock_ip addr; ns_protocol := Udp; trust_negative_responses := Some true |}]
  | None => []
  end.

Definition from_config (cfg : Config.ResolverConfig) (dnssec : bool) : result ResolverError ResolverWrap :=
  let tls_host := extract_tls_host cfg in
  ns ← name_servers (protocol_of (Config.forward_protocol cfg) tls_host) (Config.forwarders cfg);
  let rc := ns ++ match detect_system_resolver with Some a => system_server a | None => [] end in
  let o := {| opt_timeout_ms := Config.timeout_ms cfg; opt_attempts := Config.concurrency cfg;
              opt_recursion_desired := true; opt_validate := dnssec |} in
  if build rc o dnssec
  then Ok {| servers := rc; opts := o; trust_anchors := dnssec; dnssec_enabled := dnssec |}
  else Err BuildFailed.

Definition is_dnssec_enabled (r : ResolverWrap) : bool := dnssec_enabled r.

(** ** Lemmas *)

Lemma stub_parses : parse_socket_addr SYSTEMD_RESOLVED_STUB = Some (SockV4 (ipv4 127 0 0 53) 53).
Proof. vm_compute. reflexivity. Qed.

Lemma name_servers_Ok proto fs l :
  name_servers proto fs = Ok l →
  Forall2 (λ f s, ∃ addr, parse_socket_addr f = Some addr ∧ ns_ip s = sock_ip addr ∧
                          ns_protocol s = proto) fs l.
Proof.
  revert l. induction fs as [|f fs IH]; intros l; cbn [name_servers]; [intros [= <-]; constructor|].
  intros (addr & Ha%ok_or_Ok & (more & Hm & [= <-])%bind_Ok)%bind_Ok.
  constructor; [by exists addr|by apply IH].
Qed.

Lemma name_servers_Err proto fs e :
  name_servers proto fs = Err e →
  ∃ pre f post, fs = pre ++ f :: post ∧ e = BadForwarder f ∧ parse_socket_addr f = None ∧
    Forall (λ g, is_Some (parse_socket_addr g)) pre.
Proof.
  induction fs as [|f fs IH]; cbn [name_servers]; [done|].
  intros [[Hf He]%ok_or_Err|(addr & Ha%ok_or_Ok & [H|(more & _ & H)]%bind_Err)]%bind_Err; [| |done].
  - exists [], f, fs. split_and!; try done.
  - destruct (IH H) as (pre & g & post & -> & -> & Hg & Hpre). exists (f :: pre), g, post.
    split_and!; try done. constructor; [by eexists|done].
Qed.

(** Only the addresses of the forwarders matter, not their ports. *)
Lemma name_servers_ports proto fs fs' :
  Forall2 (λ f f', ∃ a a', parse_socket_addr f = Some a ∧ parse_socket_addr f' = Some a' ∧
                           sock_ip a = sock_ip a') fs fs' →
  name_servers proto fs = name_servers proto fs'.
Proof.
  induction 1 as [|f f' fs fs' (a & a' & Ha & Ha' & Hip) _ IH]; [done|]. cbn [name_servers].
  rewrite Ha, Ha', IH. cbn. by rewrite Hip.
Qed.

(** ** The theorem *)

(** Configuring the resolver succeeds exactly with one name server per forwarder, in order and
    with the configured protocol, followed by the local stub when one is detected; it fails on
    the first forwarder that is not a socket address.  The port of a forwarder is dropped: two
    configurations that differ in the ports alone (and name the same TLS host) give the same
    resolver. *)
Lemma from_config_servers cfg cfg' dnssec :
  (∀ r, from_config cfg dnssec = Ok r →
     ∃ main, servers r = main ++ match detect_system_resolver with
                                 | Some _ => [{| ns_ip := IpV4 (ipv4 127 0 0 53); ns_protocol := Udp;
                                                 trust_negative_responses := Some true |}]
                                 | None => []
                                 end ∧
       Forall2 (λ f s, ∃ addr, parse_socket_addr f = Some addr ∧ ns_ip s = sock_ip addr ∧
                  ns_protocol s = protocol_of (Config.forward_protocol cfg) (extract_tls_host cfg))
         (Config.forwarders cfg) main) ∧
  (∀ f, from_config cfg dnssec = Err (BadForwarder f) →
     f ∈ Config.forwarders cfg ∧ parse_socket_addr f = None) ∧
  (Forall2 (λ f f', ∃ a a', parse_socket_addr f = Some a ∧ parse_socket_addr f' = Some a' ∧
                            sock_ip a = sock_ip a') (Config.forwarders cfg) (Config.forwarders cfg') →
   extract_tls_host cfg = extract_tls_host cfg' →
   Config.forward_protocol cfg = Config.forward_protocol cfg' →
   Config.timeout_ms cfg = Config.timeout_ms cfg' → Config.concurrency cfg = Config.concurrency cfg' →
   from_config cfg dnssec = from_config cfg' dnssec).
Proof.
  split_and!.
  - intros r (main & Hm & H)%bind_Ok. exists main. split; [|by apply name_servers_Ok].
    cbv zeta in H. destruct (build _ _ _); [|done]. injection H as <-. cbn [servers]. f_equal.
    unfold detect_system_resolver, system_server.
    destruct (exists_ _); [by rewrite stub_parses|]. destruct (read_to_string _); [|done].
    destruct (existsb _ _); [by rewrite stub_parses|done].
  - intros f [H|(main & _ & H)]%bind_Err.
    + destruct (name_servers_Err _ _ _ H) as (pre & g & post & -> & [= ->] & Hg & _). set_solver.
    + cbv zeta in H. by destruct (build _ _ _).
  - intros Hfs Htls Hp Ht Hc. unfold from_config. rewrite Htls, Hp, Ht, Hc.
    by rewrite (name_servers_ports _ _ _ Hfs).
Qed.

End System.

(** A forwarder on another port is the same name server. *)
Example port_is_dropped :
  name_servers Udp ["9.9.9.9:5353"%string] = name_servers Udp ["9.9.9.9:53"%string].
Proof. vm_compute. reflexivity. Qed.

End Resolver.
