(* ===== verification/QnameMin.v ===== *)
(** * QNAME minimization ([src/core/resolver/qname_min.rs])

    The label-peeling loop over an abstract resolver (the trait [QnameMinResolver]). *)

From Stdlib Require Import Ascii String ZArith Lia.
From stdpp Require Import base list gmap strings numbers.
From S2P Require Import Prelude RustString RustNum RustNet Metrics Cache Config Dns.

Local Open Scope Z_scope.

Module QnameMin.
Import Metrics Dns.

(** The trait: one upstream lookup. *)
Class QnameMinResolver `{Hickory} := {
  min_lookup : Name → RecordType → M (result NetError (list Rec))
}.

(** The adapter that wraps the resolver library. *)
#[export] Instance HickoryMinResolver `{Hickory} `{!Env} : QnameMinResolver :=
  {| min_lookup := resolver_lookup |}.

Record QnameMinResult `{Hickory} := {
  records : list Rec;
  final_qname : Name;
  steps : Z;
  fell_back : bool
}.

Section Peel.
Context `{Hickory}.

(** The [while] loop: the names it pushes and the last [current]; each round drops a label. *)
Fixpoint peel_while (fuel : nat) (current : Name) : option (list Name * Name) :=
  if 1 <? num_labels current then
    match fuel with
    | O => None
    | S k =>
        let current := base_name current in
        '(pushed, final) ← peel_while k current;
        Some (current :: pushed, final)
    end
  else Some ([], current).

Definition peel_labels (original : Name) : option (list Name) :=
  '(pushed, current) ← peel_while (length (labels original)) original;
  Some (original :: pushed ++ (if is_root current then [] else [root])).

End Peel.

Section Minimize.
Context `{Hickory} `{!QnameMinResolver}.

(** The mutable variables of the loop. *)
Record MinState := {
  last_records : list Rec;
  last_qname : Name;
  last_error : option NetError;
  steps_taken : Z
}.

(** The body of the loop for the label of index [i]. *)
Definition min_step (qtype : RecordType) (i : nat) (label : Name) (st : MinState) : M MinState :=
  let step := wrap 8 (Z.of_nat i + 1) in
  r ← min_lookup label qtype;
  mret (match r with
        | Ok rs =>
            match rs with
            | [] => {| last_records := last_records st; last_qname := last_qname st;
                       last_error := None; steps_taken := step |}
            | _ => {| last_records := rs; last_qname := label; last_error := None;
                      steps_taken := step |}
            end
        | Err e => {| last_records := last_records st; last_qname := last_qname st;
                      last_error := Some e; steps_taken := step |}
        end).

Fixpoint min_loop (qtype : RecordType) (i : nat) (ls : list Name) (st : MinState) : M MinState :=
  match ls with
  | [] => mret st
  | label :: rest => st' ← min_step qtype i label st; min_loop qtype (S i) rest st'
  end.

(** Lifts a loop that does not return. *)
Definition or_diverge {A} (o : option A) : M A := act (λ w, a ← o; Some (a, w)).

Definition resolve_with_minimization (original : Name) (qtype : RecordType)
    (config : Config.ResolverQnameMinimization) : M (result NetError QnameMinResult) :=
  if num_labels original =? 0 then
    mret (Err (net_error_other "qname-min: cannot minimize root name"))
  else
    ls ← or_diverge (peel_labels original);
    let max := Nat.min (Nat.max (Z.to_nat (Config.qmin_max_iterations config)) 1) (length ls) in
    st ← min_loop qtype 0 (take max ls)
           {| last_records := []; last_qname := original; last_error := None; steps_taken := 0 |};
    _ ← act (λ w, Some (tt, with_metrics (increment (w_metrics w) QminStepsTotal (steps_taken st)) w));
    match last_records st with
    | [] =>
        r ← min_lookup original qtype;
        match r with
        | Err e => mret (Err (default e (last_error st)))
        | Ok rs =>
            _ ← act (λ w, Some (tt, with_metrics (increment (w_metrics w) QminStepsTotal 1) w));
            mret (Ok {| records := rs; final_qname := original; steps := steps_taken st;
                        fell_back := true |})
        end
    | _ => mret (Ok {| records := last_records st; final_qname := last_qname st;
                       steps := steps_taken st; fell_back := false |})
    end.

End Minimize.

End QnameMin.
