(* ===== verification/QnameMinProps.v ===== *)
(** * Properties of QNAME minimization

    The loop is compared with a reference: the upstream answers to the peeled names in order
    ([ask]), of which the last non-empty one is the result. *)

From Stdlib Require Import Ascii String ZArith Lia.
From stdpp Require Import base list gmap strings numbers.
From S2P Require Import Prelude RustString RustNum RustNet Metrics Cache Config Dns DnsSample QnameMin.

Local Open Scope Z_scope.

Module QnameMinProps.
Import Metrics Dns DnsSample QnameMin.

(** ** Peeling *)

Section Peel.
Context `{Hickory}.

Definition no_wildcard (n : Name) : Prop := Forall (λ l, l ≠ "*"%string) (labels n).

Lemma num_labels_le n : num_labels n ≤ Z.of_nat (length (labels n)).
Proof. rewrite num_labels_spec. case_match; lia. Qed.

Lemma num_labels_no_wildcard n : no_wildcard n → num_labels n = Z.of_nat (length (labels n)).
Proof.
  unfold no_wildcard. rewrite num_labels_spec. case_bool_decide as Hh; [|lia].
  intros Hw. destruct (labels n) as [|l ls]; [done|]. injection Hh as ->.
  by apply Forall_cons_1 in Hw as [? _].
Qed.

Lemma no_wildcard_base n : no_wildcard n → no_wildcard (base_name n).
Proof.
  unfold no_wildcard. rewrite labels_base_name. destruct (labels n); [done|].
  by intros [_ ?]%Forall_cons_1.
Qed.

(** The loop stops; what it pushed and where it stopped. *)
Lemma peel_while_run fuel current :
  (length (labels current) ≤ fuel)%nat →
  ∃ pushed final, peel_while fuel current = Some (pushed, final) ∧
    labels <$> (current :: pushed) =
      (λ i, drop i (labels current)) <$> seq 0 (S (length pushed)) ∧
    labels final = drop (length pushed) (labels current) ∧
    num_labels final ≤ 1 ∧ (length pushed ≤ length (labels current))%nat ∧
    (no_wildcard current → labels current ≠ [] → length pushed = pred (length (labels current))).
Proof.
  revert current. induction fuel as [|fuel IH]; intros current Hf; cbn [peel_while];
    destruct (Z.ltb_spec 1 (num_labels current)) as [Hlt|Hle].
  - pose proof (num_labels_le current). lia.
  - exists [], current. split_and!; try done; [simpl; lia|].
    intros Hw Hne. rewrite (num_labels_no_wildcard current Hw) in Hle.
    destruct (labels current) as [|? [|]]; simpl in *; [done|done|lia].
  - pose proof (num_labels_le current) as Hn.
    destruct (IH (base_name current)) as (pushed & final & Hrun & Hl & Hfin & Hnum & Hlen & Hw).
    { rewrite labels_base_name. destruct (labels current); simpl in *; lia. }
    rewrite labels_base_name in *. destruct (labels current) as [|l ls] eqn:El; simpl in Hn; [lia|].
    exists (base_name current :: pushed), final. rewrite Hrun. cbn [mbind option_bind tail] in *.
    split_and!; [done| |done|done|simpl; lia|].
    + rewrite fmap_cons, El, Hl. cbn [length]. change (seq 0 (S (S (length pushed))))
        with (0%nat :: seq 1 (S (length pushed))).
      rewrite fmap_cons, <- fmap_S_seq, <- list_fmap_compose. done.
    + intros Hw' _. pose proof (no_wildcard_base current Hw') as Hb.
      pose proof (num_labels_no_wildcard current Hw') as Hnl. rewrite El in Hnl.
      destruct ls as [|l' ls']; simpl in *; [lia|]. rewrite Hw by done. done.
  - exists [], current. split_and!; try done; [simpl; lia|].
    intros Hw Hne. rewrite (num_labels_no_wildcard current Hw) in Hle.
    destruct (labels current) as [|? [|]]; simpl in *; [done|done|lia].
Qed.

Lemma peel_labels_run n :
  ∃ ls, peel_labels n = Some ls ∧ head ls = Some n ∧
    Forall (λ m, labels m `suffix_of` labels n) ls ∧
    (length ls ≤ S (S (length (labels n))))%nat ∧
    (no_wildcard n → labels n ≠ [] →
       labels <$> ls = (λ i, drop i (labels n)) <$> seq 0 (S (length (labels n)))).
Proof.
  destruct (peel_while_run (length (labels n)) n)
    as (pushed & final & Hrun & Hl & Hfin & Hnum & Hlen & Hw); [done|].
  unfold peel_labels. rewrite Hrun. cbn [mbind option_bind]. eexists. split_and!; [done|done| | |].
  - assert (Forall (λ m, labels m `suffix_of` labels n) (n :: pushed)) as Hs.
    { apply Forall_fmap with (f := labels) (P := λ l, l `suffix_of` labels n).
      rewrite Hl. apply Forall_fmap, Forall_forall. intros i _. simpl.
      exists (take i (labels n)). by rewrite take_drop. }
    change (n :: pushed ++ ?t) with ((n :: pushed) ++ t). apply Forall_app. split; [done|].
    destruct (is_root final); constructor; [|done]. rewrite labels_root. apply suffix_nil.
  - simpl. rewrite length_app. destruct (is_root final); simpl; lia.
  - intros Hnw Hne. specialize (Hw Hnw Hne).
    assert (is_root final = false) as ->.
    { rewrite is_root_spec, bool_decide_false; [done|]. rewrite Hfin. intros Hd%drop_nil_inv.
      destruct (labels n); simpl in *; [done|lia]. }
    rewrite app_comm_cons, fmap_app, Hl, Hw. cbn [fmap list_fmap]. rewrite labels_root.
    destruct (labels n) as [|l ls] eqn:El; [done|]. simpl pred. simpl length.
    rewrite (seq_S (S (length ls))), fmap_app. cbn [fmap list_fmap]. f_equal. f_equal.
    symmetry. apply drop_ge. simpl. lia.
Qed.

End Peel.

(** ** The loop against the reference *)

Section Reference.
Context `{Hickory} `{!Env}.

(** The answers to a sequence of upstream queries, each seeing the earlier ones. *)
Fixpoint ask (t : RecordType) (calls : list (Name * RecordType)) (names : list Name) :
    list (result NetError (list Rec)) :=
  match names with
  | [] => []
  | n :: rest => upstream calls n t :: ask t ((n, t) :: calls) rest
  end.

Definition calls_after (t : RecordType) (calls : list (Name * RecordType)) (names : list Name) :
    list (Name * RecordType) := foldl (λ cs n, (n, t) :: cs) calls names.

(** A positive answer: at least one record. *)
Definition positive (p : Name * result NetError (list Rec)) : option (Name * list Rec) :=
  match p.2 with Ok (r :: rs) => Some (p.1, r :: rs) | _ => None end.

Definition last_positive (names : list Name) (rs : list (result NetError (list Rec))) :
    option (Name * list Rec) := list.last (omap positive (zip names rs)).

(** The error of the last query, if that one failed. *)
Definition final_error (rs : list (result NetError (list Rec))) : option NetError :=
  match list.last rs with Some (Err e) => Some e | _ => None end.

Definition with_calls (cs : list (Name * RecordType)) (w : World) : World :=
  {| w_cache := w_cache w; w_metrics := w_metrics w; w_calls := cs; w_ticks := w_ticks w |}.

(** The loop variables after a positive, empty or failed answer. *)
Definition after_answer (i : nat) (n : Name) (r : result NetError (list Rec)) (st : MinState) : MinState :=
  match r with
  | Ok (x :: rs) => {| last_records := x :: rs; last_qname := n; last_error := None;
                       steps_taken := wrap 8 (Z.of_nat i + 1) |}
  | Ok [] => {| last_records := last_records st; last_qname := last_qname st; last_error := None;
                steps_taken := wrap 8 (Z.of_nat i + 1) |}
  | Err e => {| last_records := last_records st; last_qname := last_qname st;
                last_error := Some e; steps_taken := wrap 8 (Z.of_nat i + 1) |}
  end.

Lemma min_step_run t i n st w :
  min_step t i n st w =
    Some (after_answer i n (upstream (w_calls w) n t) st, with_calls ((n, t) :: w_calls w) w).
Proof.
  unfold min_step, mbind, M_bind, min_lookup, HickoryMinResolver, resolver_lookup, mret, M_ret.
  by destruct (upstream (w_calls w) n t) as [[|]|].
Qed.

Lemma min_loop_run t i names st w :
  ∃ st', min_loop t i names st w = Some (st', with_calls (calls_after t (w_calls w) names) w) ∧
    let rs := ask t (w_calls w) names in
    (names = [] → st' = st) ∧
    last_records st' = from_option snd (last_records st) (last_positive names rs) ∧
    last_qname st' = from_option fst (last_qname st) (last_positive names rs) ∧
    (names ≠ [] → last_error st' = final_error rs ∧
                  steps_taken st' = wrap 8 (Z.of_nat (i + length names))).
Proof.
  revert i st w. induction names as [|n names IH]; intros i st w.
  { exists st. cbn. by destruct w. }
  cbn [min_loop]. unfold mbind, M_bind. rewrite min_step_run.
  set (r := upstream (w_calls w) n t).
  destruct (IH (S i) (after_answer i n r st) (with_calls ((n, t) :: w_calls w) w))
    as (st' & -> & Hnil & Hrec & Hq & Hrest).
  exists st'. cbn [with_calls w_calls w_cache w_metrics w_ticks] in *. split; [done|].
  cbn [ask zip zip_with]. fold r. unfold last_positive in *. cbn [zip zip_with].
  rewrite list_omap_cons. set (tailp := omap positive (zip names _)) in *.
  assert (∀ {B} (f : Name * list Rec → B) (d : B),
    from_option f (from_option f d (positive (n, r))) (list.last tailp) =
    from_option f d (list.last (match positive (n, r) with Some y => y :: tailp | None => tailp end))) as Hlast.
  { intros B f d. destruct (positive (n, r)) as [y|]; [|done].
    rewrite last_cons. by destruct (list.last tailp). }
  split_and!; [done| | |].
  - rewrite Hrec, <- Hlast. f_equal. unfold positive, after_answer. simpl. by destruct r as [[|]|].
  - rewrite Hq, <- Hlast. f_equal. unfold positive, after_answer. simpl. by destruct r as [[|]|].
  - intros _. destruct names as [|n' names'].
    + rewrite (Hnil eq_refl). cbn [length]. replace (i + 1)%nat with (S i) by lia.
      rewrite Nat2Z.inj_succ. by destruct r as [[|]|].
    + destruct Hrest as [-> ->]; [done|]. split; [done|]. f_equal. cbn [length]. lia.
Qed.

(** The names a run asks for. *)
Definition planned (config : Config.ResolverQnameMinimization) (ls : list Name) : list Name :=
  take (Nat.min (Nat.max (Z.to_nat (Config.qmin_max_iterations config)) 1) (length ls)) ls.

(** What a run returns and leaves behind, from the answers to the planned names. *)
Definition reference (original : Name) (t : RecordType) (names : list Name) (w : World) :
    result NetError QnameMinResult * World :=
  let rs := ask t (w_calls w) names in
  let calls := calls_after t (w_calls w) names in
  let n := Z.of_nat (length names) in
  let counted := with_metrics (increment (w_metrics w) QminStepsTotal n) (with_calls calls w) in
  match last_positive names rs with
  | Some (q, recs) =>
      (Ok {| records := recs; final_qname := q; steps := n; fell_back := false |}, counted)
  | None =>
      let asked := with_calls ((original, t) :: calls) counted in
      match upstream calls original t with
      | Err e => (Err (default e (final_error rs)), asked)
      | Ok recs =>
          (Ok {| records := recs; final_qname := original; steps := n; fell_back := true |},
           with_metrics (increment (w_metrics asked) QminStepsTotal 1) asked)
      end
  end.

Lemma last_positive_nonempty names rs q recs :
  last_positive names rs = Some (q, recs) → recs ≠ [].
Proof.
  unfold last_positive. intros Hl%last_Some_elem_of.
  apply list_elem_of_omap in Hl as ([n r] & _ & Hp). unfold positive in Hp. simpl in Hp.
  destruct r as [[|]|]; naive_solver.
Qed.

Lemma minimization_run original t config w ls :
  num_labels original ≠ 0 → peel_labels original = Some ls → head ls = Some original →
  (length ls ≤ 129)%nat →
  resolve_with_minimization original t config w = Some (reference original t (planned config ls) w).
Proof.
  intros Hnz Hpeel Hhead Hlen. unfold resolve_with_minimization.
  rewrite (proj2 (Z.eqb_neq _ _) Hnz).
  unfold mbind, M_bind, or_diverge, act. rewrite Hpeel. cbn [mbind option_bind].
  fold (planned config ls). set (names := planned config ls).
  assert (names ≠ []) as Hne.
  { unfold names, planned. destruct ls as [|x ls]; [done|]. simpl length.
    destruct (Nat.min _ _) eqn:E; [lia|done]. }
  assert (length names < 256)%nat as Hnl.
  { unfold names, planned. rewrite length_take. lia. }
  edestruct (min_loop_run t 0 names) as (st & -> & _ & Hrec & Hq & Hrest).
  destruct (Hrest Hne) as [Herr Hsteps]. clear Hrest. cbn [last_records last_qname] in Hrec, Hq.
  rewrite Nat.add_0_l, wrap_small in Hsteps by lia.
  unfold reference. fold names. cbv zeta.
  destruct (last_positive names _) as [[q recs]|] eqn:Hlp; cbn [from_option snd fst] in Hrec, Hq.
  - rewrite Hrec, Hq, Hsteps. apply last_positive_nonempty in Hlp. destruct recs; [done|].
    unfold mret, M_ret. done.
  - rewrite Hrec, Hsteps, Herr.
    unfold min_lookup, HickoryMinResolver, resolver_lookup, mret, M_ret.
    cbn [with_calls with_metrics w_calls w_cache w_metrics w_ticks].
    by destruct (upstream _ original t) as [recs|e].
Qed.

(** The run for a name that has labels. *)
Lemma minimization_run_some original t config w :
  num_labels original ≠ 0 →
  ∃ ls, peel_labels original = Some ls ∧
    resolve_with_minimization original t config w = Some (reference original t (planned config ls) w).
Proof.
  intros Hnz. destruct (peel_labels_run original) as (ls & Hpeel & Hhead & _ & Hlen & _).
  exists ls. split; [done|]. apply minimization_run; try done.
  pose proof (labels_bound original). lia.
Qed.

End Reference.
(** ** The theorems *)

(** Peeling a name always ends.  It starts with the name itself, every further name is an
    ancestor of it, and for a name without wildcard labels the list is the name, each of its
    ancestors from the longest to the shortest, and the root, each once. *)
Lemma peel_labels_complete `{Hickory} n :
  ∃ ls, peel_labels n = Some ls ∧ head ls = Some n ∧
    Forall (λ m, labels m `suffix_of` labels n) ls ∧
    (no_wildcard n → labels n ≠ [] →
       labels <$> ls = (λ i, drop i (labels n)) <$> seq 0 (S (length (labels n)))).
Proof. destruct (peel_labels_run n) as (ls & ? & ? & ? & _ & ?). by exists ls. Qed.

(** C10: Minimization always returns, whatever the upstream servers answer and however their
    answers change.  It asks for the first [max_iterations] (at least one) peeled names in
    order, returns the last non-empty answer with the name it belongs to, and only when there
    is none asks once more for the original name; if that fails too the error of the last
    peeled query, when that one failed, is preferred to the newer error.  The global counter
    grows by the number of queries (a failing fallback is not counted). *)
Theorem minimization_matches_reference `{Hickory} `{!Env} original t config w :
  num_labels original ≠ 0 →
  ∃ ls, peel_labels original = Some ls ∧
    resolve_with_minimization original t config w = Some (reference original t (planned config ls) w).
Proof. apply minimization_run_some. Qed.

(** The full name is sent upstream first, and an answer for the parent name replaces the
    answer for the name that was asked: with two iterations, whenever the parent has records of
    the type, the records returned for a name of two or more labels are the parent's. *)
Lemma parent_answer_replaces_answer `{Hickory} `{!Env} original t config w r rs :
  1 < num_labels original → Config.qmin_max_iterations config = 2 →
  upstream ((original, t) :: w_calls w) (base_name original) t = Ok (r :: rs) →
  ∃ w', resolve_with_minimization original t config w =
          Some (Ok {| records := r :: rs; final_qname := base_name original; steps := 2;
                      fell_back := false |}, w') ∧
    w_calls w' = [(base_name original, t); (original, t)] ++ w_calls w.
Proof.
  intros Hnum Hmax Hparent.
  destruct (peel_labels_run original) as (ls & Hpeel & Hhead & _ & Hlen & _).
  assert (∃ rest, ls = original :: base_name original :: rest) as [rest ->].
  { unfold peel_labels in Hpeel. pose proof (num_labels_le original) as Hle.
    destruct (length (labels original)) as [|k]; [lia|]. cbn [peel_while] in Hpeel.
    rewrite (proj2 (Z.ltb_lt _ _) Hnum) in Hpeel.
    destruct (peel_while k (base_name original)) as [[pushed final]|]; [|done].
    cbn [mbind option_bind] in Hpeel. injection Hpeel as <-. by eexists. }
  rewrite (minimization_run original t config w _) by
    (done || lia || (pose proof (labels_bound original); lia)).
  assert (planned config (original :: base_name original :: rest) = [original; base_name original]) as ->.
  { unfold planned. rewrite Hmax. by destruct (length rest). }
  unfold reference, last_positive. cbn [ask zip zip_with]. rewrite Hparent, !list_omap_cons.
  assert (positive (base_name original, Ok (r :: rs)) = Some (base_name original, r :: rs)) as -> by done.
  assert (∀ o : option (Name * list Rec), list.last (match o with
    | Some y => y :: (base_name original, r :: rs) :: omap positive []
    | None => (base_name original, r :: rs) :: omap positive [] end)
    = Some (base_name original, r :: rs)) as -> by by intros [].
  eexists. split; [done|]. done.
Qed.

(** ** Witnesses *)

(** An upstream that knows an address for a name and another one for its parent. *)
Definition www : @Name sample := ({| DnsSample.s_labels := ["www"; "example"; "org"]%string; DnsSample.s_fqdn := true |} : SName).

Definition sample_upstream (n : DnsSample.SName) : result string (list (RecordOf DnsSample.SName)) :=
  if bool_decide (DnsSample.s_labels n = ["www"; "example"; "org"]%string) then
    Ok [from_rdata n 60 (RD_A (ipv4 192 0 2 1))]
  else if bool_decide (DnsSample.s_labels n = ["example"; "org"]%string) then
    Ok [from_rdata n 60 (RD_A (ipv4 192 0 2 2))]
  else Err "no such name"%string.

Definition sample_env : @Env DnsSample.sample :=
  {| clock := Z.of_nat; others := λ _ c, c; upstream := λ _ n _, sample_upstream n;
     random_id := Z.of_nat |}.

Definition sample_world : @World DnsSample.sample :=
  {| w_cache := Cache.new Cache.CacheConfig_default; w_metrics := Metrics.new; w_calls := [];
     w_ticks := 0 |}.

Definition two_steps : Config.ResolverQnameMinimization :=
  {| Config.qmin_enable := true; Config.qmin_mode := Config.Strict; Config.qmin_max_iterations := 2 |}.

Lemma peel_labels_complete_witness :
  ∃ ls, peel_labels www = Some ls ∧ head ls = Some www ∧
    labels <$> ls = [["www"; "example"; "org"]; ["example"; "org"]; ["org"]; []]%string.
Proof.
  destruct (@peel_labels_complete sample www) as (ls & Hls & Hh & _ & Hall).
  exists ls. split_and!; [exact Hls|exact Hh|]. rewrite Hall; [reflexivity|..].
  - unfold no_wildcard. change (labels www) with ["www"; "example"; "org"]%string.
    each_element ltac:(discriminate).
  - discriminate.
Defined.

Lemma minimization_matches_reference_witness :
  ∃ ls, peel_labels www = Some ls ∧
    @resolve_with_minimization _ (@HickoryMinResolver _ sample_env) www RT_A
      Config.ResolverQnameMinimization_default sample_world
    = Some (@reference _ sample_env www RT_A
              (planned Config.ResolverQnameMinimization_default ls) sample_world).
Proof.
  apply (@minimization_matches_reference _ sample_env www RT_A
           Config.ResolverQnameMinimization_default sample_world).
  vm_compute. discriminate.
Defined.

Lemma parent_answer_replaces_answer_witness :
  ∃ w', @resolve_with_minimization _ (@HickoryMinResolver _ sample_env) www RT_A two_steps sample_world =
    Some (Ok {| records := [from_rdata (base_name www) 60 (RD_A (ipv4 192 0 2 2))];
                final_qname := base_name www; steps := 2; fell_back := false |}, w') ∧
    w_calls w' = [(base_name www, RT_A); (www, RT_A)].
Proof.
  apply (@parent_answer_replaces_answer _ sample_env www RT_A two_steps sample_world
           (from_rdata (base_name www) 60 (RD_A (ipv4 192 0 2 2))) []);
    [vm_compute; reflexivity|reflexivity|vm_compute; reflexivity].
Defined.

End QnameMinProps.
