(* ===== verification/Forward.v ===== *)
(** * The caching forwarder ([src/core/resolver/forward.rs])

    The lookup path of a recursive query: cache check with prefetch, upstream query (minimized or
    not), DNS64, DNAME and CNAME handling, cache store, flattening.  The cache is shared: every
    wait for its lock lets the other tasks change it ([Dns.lock_cache]). *)

From Stdlib Require Import Ascii String ZArith Lia.
From stdpp Require Import base list gmap strings numbers.
From S2P Require Import Prelude RustString RustNum RustNet Metrics Cache Config Blocklist Dns Filter Dns64 QnameMin.

Local Open Scope Z_scope.

Module Forward.
Import Metrics Cache Dns.

(** ** Extended DNS errors *)

Definition STALE_ANSWER : Z := 3.
Definition CACHED_ERROR : Z := 13.

Definition string_bytes (s : string) : list Z := (λ a, Z.of_nat (nat_of_ascii a)) <$> list_ascii_of_string s.

Definition encode_info (code : Z) (extra : string) : list Z := be_split 2 code ++ string_bytes extra.

(** ** Client subnets *)

(** The IPv4 address is masked on 32 bits, the IPv6 address on 128. *)
Definition scope_zero_subnet (a : IpAddr) (source_prefix : Z) : IpAddr * Z :=
  match a with
  | IpV4 v4 =>
      let mask := if source_prefix =? 0 then 0
                  else if 32 <=? source_prefix then 0xFFFFFFFF
                  else high_mask 32 (32 - source_prefix) in
      let ip := Z.land (be_combine (v4_octets v4)) mask in
      (IpV4 (v4_of_u32 ip), source_prefix)
  | IpV6 v6 =>
      let mask := if source_prefix =? 0 then 0
                  else if 128 <=? source_prefix then u128_max
                  else high_mask 128 (128 - source_prefix) in
      let ip := Z.land (v6_to_u128 v6) mask in
      (IpV6 (v6_of_u128 ip), source_prefix)
  end.

(** The request information carries no EDNS options: there is never a scope. *)
Definition extract_ecs_scope {RequestInfo : Type} (request_info : option RequestInfo) :
    option (IpAddr * Z) := None.

Section Forward.
Context `{Hickory} `{!Env} {Regex RequestInfo : Type}.

(** ** DNAME substitution *)

Definition synthesize_dname_cnames (records : list Rec) (original : Name) : list Rec :=
  omap (λ r, if is_type RT_ANAME r then
               match data r with
               | RD_ANAME target =>
                   if name_eqb target original then None
                   else Some (from_rdata original (ttl r) (RD_CNAME target))
               | _ => None
               end
             else None) records.

(** ** The authority *)

(** The resolver and the cache are the environment and the world. *)
Record CacheForwardAuthority := {
  origin : Name;
  dnssec_enabled : bool;
  qname_minimization : Config.ResolverQnameMinimization;
  filter : Filter.Filter Regex;
  dns64_prefix : option Dns64.Dns64Prefix;
  dns64_always_synthesize : bool;
  ecs : bool
}.

Definition with_dns64_always_synthesize (o : Name) (dnssec : bool)
    (qmin : Config.ResolverQnameMinimization) (f : Filter.Filter Regex)
    (prefix : option Dns64.Dns64Prefix) (always use_ecs : bool) : CacheForwardAuthority :=
  {| origin := o; dnssec_enabled := dnssec; qname_minimization := qmin; filter := f;
     dns64_prefix := prefix; dns64_always_synthesize := always; ecs := use_ecs |}.

Definition new (o : Name) (dnssec : bool) (qmin : Config.ResolverQnameMinimization)
    (f : Filter.Filter Regex) (prefix : option Dns64.Dns64Prefix) : CacheForwardAuthority :=
  with_dns64_always_synthesize o dnssec qmin f prefix false false.

Inductive LookupError :=
  | NetFailure (e : NetError)
  | IoFailure (msg : string).

(** ** Storing an answer *)

(** The smallest TTL of the records in nanoseconds, 300 seconds without records. *)
Definition min_ttl (records : list Rec) : Z :=
  match records with
  | [] => from_secs 300
  | r :: rest => foldl (λ acc r, Z.min acc (from_secs (ttl r))) (from_secs (ttl r)) rest
  end.

Definition answer_message (id : Z) (records : list Rec) : Message :=
  {| msg_id := id; msg_is_response := false; op_code := Op_Query; response_code := NoError;
     authoritative := false; recursion_desired := false;
     recursion_available := false; truncation := false; queries := []; answers := records |}.

(** Encodes the records and inserts them; an encoding failure is ignored. *)
Definition store_answer (key : CacheKey) (records : list Rec) : M unit :=
  id ← fresh_id;
  match message_to_vec (answer_message id records) with
  | Some bytes => _ ← lock_cache; cache_insert key bytes (min_ttl records)
  | None => mret tt
  end.

Definition cache_key (qname : string) (rtype : RecordType) (subnet : option (IpAddr * Z)) : CacheKey :=
  {| key_qname := qname; key_qtype := rtype_code rtype; key_client_subnet := subnet |}.

(** ** ANY queries *)

(** One round of the loop of [lookup_any]: an answer, or nothing to go on with. *)
Definition any_round (name : Name) (rtype : RecordType) : M (option (list Rec)) :=
  let key := cache_key (to_utf8 name) rtype None in
  _ ← lock_cache;
  hit ← cache_lookup key;
  match match hit with
        | Some (bytes, _, _) => match message_from_vec bytes with Some msg => answers msg | None => [] end
        | None => []
        end with
  | (_ :: _) as records => mret (Some records)
  | [] =>
      r ← resolver_lookup (set_fqdn false name) rtype;
      match r with
      | Ok ((_ :: _) as records) =>
          _ ← store_answer (cache_key (to_utf8 name) rtype None) records;
          mret (Some records)
      | _ => mret None
      end
  end.

Definition lookup_any (name : Name) : M (result LookupError (list Rec)) :=
  a ← any_round name RT_A;
  match a with
  | Some records => mret (Ok records)
  | None =>
      b ← any_round name RT_AAAA;
      match b with
      | Some records => mret (Ok records)
      | None => mret (Err (IoFailure "RFC 8482: no address records for ANY query"))
      end
  end.

(** ** The lookup path *)

(** The background task a cache hit may spawn. *)
Definition prefetch_task (name : Name) (rtype : RecordType) : M unit :=
  r ← resolver_lookup (set_fqdn false name) rtype;
  match r with
  | Ok records => store_answer (cache_key (to_utf8 name) rtype None) records
  | Err _ => mret tt
  end.

(** Step 1, the cache check under the lock: the cached answer if it decodes, and whether a
    prefetch task is spawned. *)
Definition check_cache (key : CacheKey) : M (option (list Rec) * bool) :=
  _ ← lock_cache;
  hit ← cache_lookup key;
  match hit with
  | None => mret (None, false)
  | Some (bytes, _, _) =>
      do_prefetch ← cache_should_prefetch key;
      mret (answers <$> message_from_vec bytes, do_prefetch)
  end.

(** Step 2, the upstream query. *)
Definition forward_query (a : CacheForwardAuthority) (fwd_name : Name) (rtype : RecordType) :
    M (result NetError (list Rec)) :=
  if Config.qmin_enable (qname_minimization a) then
    let min_resolver := QnameMin.HickoryMinResolver in
    r ← QnameMin.resolve_with_minimization (H0 := min_resolver)
          fwd_name rtype (qname_minimization a);
    mret (QnameMin.records <$> r)
  else resolver_lookup fwd_name rtype.

Definition a_addresses (records : list Rec) : list Ipv4Addr :=
  omap (λ r, match data r with RD_A x => Some x | _ => None end) records.

Definition min_a_ttl (records : list Rec) : Z :=
  match ttl <$> base.filter (λ r, is_type RT_A r = true) records with
  | [] => 300
  | t :: rest => foldl Z.min t rest
  end.

(** DNS64: the chained A query and the synthesised AAAA records. *)
Definition dns64_records (a : CacheForwardAuthority) (fwd_name : Name) (rtype : RecordType)
    (upstream_answers : list Rec) : M (list Rec) :=
  match dns64_prefix a with
  | Some prefix =>
      if bool_decide (rtype = RT_AAAA) then
        let upstream_aaaa := existsb (is_type RT_AAAA) upstream_answers in
        if negb upstream_aaaa || dns64_always_synthesize a then
          r ← resolver_lookup (set_fqdn false fwd_name) RT_A;
          match r with
          | Err _ => mret []
          | Ok a_answers =>
              match a_addresses a_answers with
              | [] => mret []
              | addrs =>
                  act (λ w, let '(list6, m) := Dns64.synthesize_aaaa (w_metrics w) addrs prefix in
                            Some ((λ x, from_rdata fwd_name (min_a_ttl a_answers) (RD_AAAA x)) <$> list6,
                                  with_metrics m w))
              end
          end
        else mret []
      else mret []
  | None => mret []
  end.

(** The answer section with synthesised AAAA records and DNAME substitutions. *)
Definition extend_dname (records : list Rec) (fwd_name : Name) : list Rec :=
  if existsb (is_type RT_ANAME) records
  then records ++ synthesize_dname_cnames records fwd_name else records.

(** The CNAME limit: [true] when the answer is refused. *)
Definition check_cname (a : CacheForwardAuthority) (records : list Rec) : M bool :=
  if Filter.cname_cloaking (filter a) then
    act (λ w, let '(b, m) := Filter.cname_chain_truncated (filter a) (w_metrics w) records in
              Some (b, with_metrics m w))
  else mret false.

(** The rebinding check: its verdict is only logged. *)
Definition check_rebinding (a : CacheForwardAuthority) (records : list Rec) : M unit :=
  if Filter.rebinding (filter a) then
    act (λ w, let '(_, m) := Filter.rebinding_detected (filter a) (w_metrics w) records in
              Some (tt, with_metrics m w))
  else mret tt.

(** The target of the first CNAME record that carries one. *)
Definition synthetic_target (records : list Rec) : option Name :=
  head (omap (λ r, if is_type RT_CNAME r then
                     match data r with RD_CNAME n => Some n | _ => None end
                   else None) records).

Definition ok_answers (r : result NetError (list Rec)) : list Rec :=
  match r with Ok l => l | Err _ => [] end.

(** Flattening: the address records of the CNAME target, appended to the records. *)
Definition flatten (records : list Rec) : M (list Rec) :=
  match synthetic_target records with
  | None => mret records
  | Some target =>
      let n := default root (from_ascii (to_utf8 target)) in
      r4 ← resolver_lookup n RT_A;
      r6 ← resolver_lookup n RT_AAAA;
      mret (records ++ ok_answers r4 ++ ok_answers r6)
  end.

(** Steps 2 and 3: from the upstream query to the response. *)
Definition resolve_miss (a : CacheForwardAuthority) (key : CacheKey) (name : Name) (rtype : RecordType) :
    M (result LookupError (list Rec)) :=
  let fwd_name := set_fqdn false name in
  r ← forward_query a fwd_name rtype;
  match r with
  | Err e => mret (Err (NetFailure e))
  | Ok upstream_answers =>
      dns64_synthesized ← dns64_records a fwd_name rtype upstream_answers;
      let records := extend_dname (upstream_answers ++ dns64_synthesized) fwd_name in
      refused ← check_cname a records;
      if (refused : bool) then mret (Err (IoFailure "CNAME chain truncated (limit exceeded)"))
      else
        _ ← check_rebinding a records;
        _ ← store_answer key records;
        extended ← flatten records;
        match dns64_synthesized with
        | [] => mret (Ok upstream_answers)
        | _ => mret (Ok extended)
        end
  end.

(** The whole lookup: the answer section of the response, and whether a prefetch of the same
    question was spawned. *)
Definition lookup (a : CacheForwardAuthority) (name : Name) (rtype : RecordType)
    (request_info : option RequestInfo) : M (result LookupError (list Rec) * bool) :=
  if bool_decide (rtype = RT_ANY) then
    r ← lookup_any name; mret (r, false)
  else
    let client_subnet := if ecs a then extract_ecs_scope request_info else None in
    let key := cache_key (to_utf8 name) rtype client_subnet in
    '(cached, spawned) ← check_cache key;
    match cached with
    | Some records => mret (Ok records, spawned)
    | None => r ← resolve_miss a key name rtype; mret (r, spawned)
    end.

(** A request whose information cannot be read is an error. *)
Definition search (a : CacheForwardAuthority) (request : option (Name * RecordType * RequestInfo)) :
    M (result LookupError (list Rec) * bool) :=
  match request with
  | Some (n, t, info) => lookup a n t (Some info)
  | None => mret (Err (IoFailure "invalid request"), false)
  end.

Definition can_validate_dnssec (a : CacheForwardAuthority) : bool := dnssec_enabled a.
Definition nsec_records : result LookupError (list Rec) :=
  Err (IoFailure "NSEC records not supported for forwarding authority").
Definition nsec3_records : result LookupError (list Rec) :=
  Err (IoFailure "NSEC3 records not supported for forwarding authority").

(** What the authority tells the server about itself: an external zone, no transfers, no updates. *)
Inductive ZoneKind := External.
Inductive AxfrPolicy := Deny.
Definition zone_type (a : CacheForwardAuthority) : ZoneKind := External.
Definition axfr_policy (a : CacheForwardAuthority) : AxfrPolicy := Deny.
Definition update (a : CacheForwardAuthority) : result ResponseCode bool := Err NotImp.
Definition nx_proof_kind (a : CacheForwardAuthority) : option Config.NxProofKind := None.

End Forward.
Arguments CacheForwardAuthority {_} Regex.

End Forward.
