(* ===== verification/ForwardSafe.v ===== *)
(** * The forwarder is total and safe

    A small logic for computations on the world: [wp m Q w] says that [m] returns from [w] in a
    state satisfying [Q]; [safe S K m] says that [m] always returns, keeps the cache and the
    counters consistent, and sends upstream only queries that satisfy [S].  Safety composes
    along [mbind], so each phase of the forwarder is checked once. *)

From Stdlib Require Import Ascii String ZArith Lia.
From stdpp Require Import base list gmap strings numbers.
From S2P Require Import Prelude RustString RustNum RustNet Metrics Cache CacheSpec Config Blocklist Dns Filter Dns64.
From S2P Require Import QnameMin QnameMinProps Forward.

Local Open Scope Z_scope.

Module ForwardSafe.
Import Metrics Cache CacheSpec Dns Forward.

Create HintDb safety.

Section Logic.
Context `{Hickory} `{!Env}.

Definition wp {A} (m : M A) (Q : A → World → Prop) (w : World) : Prop :=
  ∃ a w', m w = Some (a, w') ∧ Q a w'.

Lemma wp_ret {A} (a : A) (Q : A → World → Prop) w : Q a w → wp (mret a) Q w.
Proof. intros HQ. by exists a, w. Qed.

Lemma wp_bind {A B} (m : M A) (f : A → M B) (Q : B → World → Prop) w :
  wp m (λ a w', wp (f a) Q w') w → wp (m ≫= f) Q w.
Proof.
  intros (a & w' & Hm & b & w'' & Hf & HQ). exists b, w''. split; [|done].
  unfold mbind, M_bind. by rewrite Hm.
Qed.

Lemma wp_mono {A} (m : M A) (Q Q' : A → World → Prop) w :
  wp m Q w → (∀ a w', Q a w' → Q' a w') → wp m Q' w.
Proof. intros (a & w' & Hm & HQ) Himp. exists a, w'. auto. Qed.

(** What the other tasks promise: they keep a consistent cache with room consistent, and its
    configuration. *)
Definition rely : Prop :=
  ∀ n c, wf c → (0 < size_limit (config c))%nat → wf (others n c) ∧ config (others n c) = config c.

(** What happens to the shared state while a request runs: a lookup, an insertion under one of the
    keys [K], a change of a counter, or whatever the other tasks do while the request waits for the
    lock. *)
Inductive activity (K : CacheKey → Prop) : Cache * MetricsRegistry → Cache * MetricsRegistry → Prop :=
  | activity_lookup now key c m r c' m' :
      lookup_with_metrics now c m key = (r, c', m') → activity K (c, m) (c', m')
  | activity_insert now key bytes ttl c m c' :
      K key → insert now c key bytes ttl = Some c' → activity K (c, m) (c', m)
  | activity_count c m name k : activity K (c, m) (c, increment m name k)
  | activity_others n c m : activity K (c, m) (others n c, m).

Definition shared (w : World) : Cache * MetricsRegistry := (w_cache w, w_metrics w).

(** A consistent world: the cache invariant, a positive size, counters in range. *)
Record ok (w : World) : Prop := {
  ok_wf : wf (w_cache w);
  ok_pos : (0 < size_limit (config (w_cache w)))%nat;
  ok_filled : filled (w_metrics w)
}.

(** [w'] is a consistent later state, reached by lookups, insertions under keys of [K], counts
    and interference only; the queries made in between satisfy [S]. *)
Record ext (S : Name * RecordType → Prop) (K : CacheKey → Prop) (w w' : World) : Prop := {
  ext_ok : ok w';
  ext_config : config (w_cache w') = config (w_cache w);
  ext_calls : ∃ new, w_calls w' = new ++ w_calls w ∧ Forall S new;
  ext_activity : rtc (activity K) (shared w) (shared w')
}.

Lemma no_calls (S : Name * RecordType → Prop) (cs cs' : list (Name * RecordType)) :
  cs' = cs → ∃ new, cs' = new ++ cs ∧ Forall S new.
Proof. intros ->. exists []. split; [done|constructor]. Qed.

Lemma ext_refl S K w : ok w → ext S K w w.
Proof. intros Hw. split; [done|done|by apply no_calls|done]. Qed.

Lemma ext_trans S K w w' w'' : ext S K w w' → ext S K w' w'' → ext S K w w''.
Proof.
  intros [_ Hc1 (n1 & Hn1 & Hs1) H1] [Hok Hc2 (n2 & Hn2 & Hs2) H2]. split; [done|congruence| |by etrans].
  exists (n2 ++ n1). rewrite Hn2, Hn1, (assoc_L (++)). split; [done|]. apply Forall_app. done.
Qed.

Lemma ext_weaken (S S' : Name * RecordType → Prop) K w w' : ext S K w w' → (∀ q, S q → S' q) → ext S' K w w'.
Proof.
  intros [Hok Hc (new & Hn & HS) Ha] Himp. split; [done|done| |done]. exists new. split; [done|].
  eapply list.Forall_impl; [exact HS|done].
Qed.

(** At most one counter changed. *)
Definition counted (m m' : MetricsRegistry) : Prop := m' = m ∨ ∃ name k, m' = increment m name k.

Lemma counted_if (b : bool) m name k : counted m (if b then increment m name k else m).
Proof. destruct b; [right; by eexists _, _|by left]. Qed.

(** A step that leaves the cache and the calls. *)
Lemma ext_metrics S K w m : ok w → counted (w_metrics w) m → ext S K w (with_metrics m w).
Proof.
  intros [Hwf Hpos Hf] Hm. split; [split; [done|done|]|done|by apply no_calls|];
    (destruct Hm as [->|(name & k & ->)]; [done|]).
  - by apply increment_filled.
  - apply rtc_once, activity_count.
Qed.

(** A step of the cache and the counters that leaves the calls. *)
Lemma ext_shared S K w c m :
  ok w → wf c → config c = config (w_cache w) → filled m → activity K (shared w) (c, m) →
  ext S K w (with_metrics m (with_cache c w)).
Proof.
  intros [_ Hpos _] Hwf Hcfg Hm Ha.
  split; [split; simpl; [done|by rewrite Hcfg|done]|done|by apply no_calls|by apply rtc_once].
Qed.

Lemma activity_count_twice K c m name k name' k' :
  rtc (activity K) (c, m) (c, increment (increment m name k) name' k').
Proof.
  apply (rtc_l _ _ (c, increment m name k)); [apply activity_count|]. apply rtc_once, activity_count.
Qed.

Lemma ext_tick S K w : ok w → ext S K w (tick w).
Proof. intros [???]. split; [by split|done|by apply no_calls|done]. Qed.

(** Returns always, keeps the world consistent, asks only what [S] allows and stores only where
    [K] does. *)
Definition safe {A} (S : Name * RecordType → Prop) (K : CacheKey → Prop) (m : M A) : Prop :=
  ∀ w, ok w → wp m (λ _ w', ext S K w w') w.

Lemma safe_ret {A} S K (a : A) : safe S K (mret a).
Proof. intros w Hw. apply wp_ret. by apply ext_refl. Qed.

Lemma safe_bind {A B} S K (m : M A) (f : A → M B) :
  safe S K m → (∀ a, safe S K (f a)) → safe S K (m ≫= f).
Proof.
  intros Hm Hf w Hw. apply wp_bind. eapply wp_mono; [by apply Hm|].
  intros a w' Hext. eapply wp_mono; [apply Hf, Hext|]. intros b w'' Hext'. exact (ext_trans _ _ _ _ _ Hext Hext').
Qed.

(** ** The primitives *)

Lemma safe_now S K : safe S K now.
Proof. intros w Hw. eexists _, _. split; [done|]. by apply ext_tick. Qed.

Lemma safe_fresh_id S K : safe S K fresh_id.
Proof. intros w Hw. eexists _, _. split; [done|]. by apply ext_tick. Qed.

Lemma safe_lock S K : rely → safe S K lock_cache.
Proof.
  intros Hrely w Hw. eexists _, _. split; [done|].
  destruct (Hrely (w_ticks w) (w_cache w) (ok_wf w Hw) (ok_pos w Hw)) as [Hwf Hcfg].
  assert (ext S K w (with_cache (others (w_ticks w) (w_cache w)) w)) as Hext.
  { apply (ext_shared S K w _ (w_metrics w)); [done|done|done|apply Hw|apply activity_others]. }
  eapply ext_trans; [exact Hext|]. apply ext_tick, Hext.
Qed.

Lemma safe_resolver_lookup (S : Name * RecordType → Prop) K n t : S (n, t) → safe S K (resolver_lookup n t).
Proof.
  intros HS w [Hwf Hpos Hm]. eexists _, _. split; [done|]. split; [by split|done| |done].
  exists [(n, t)]. split; [done|]. by apply Forall_singleton.
Qed.

Lemma safe_cache_lookup S K key : safe S K (cache_lookup key).
Proof.
  apply safe_bind; [apply safe_now|]. intros t w Hw. unfold act.
  destruct (lookup_with_metrics t (w_cache w) (w_metrics w) key) as [[r c] m] eqn:E.
  eexists _, _. rewrite E. split; [done|].
  assert (step (shared w) (c, m)) as Hs by by eapply step_lookup_with_metrics.
  destruct (step_keeps _ _ _ _ Hs) as (Hwf & Hcfg & Hm); [apply Hw..|].
  apply ext_shared; [done|done|done|done|]. by eapply activity_lookup.
Qed.

Lemma safe_should_prefetch S K key : safe S K (cache_should_prefetch key).
Proof.
  apply safe_bind; [apply safe_now|]. intros t w Hw. eexists _, _. split; [done|]. by apply ext_refl.
Qed.

(** A cache of positive size takes any entry. *)
Lemma safe_cache_insert S (K : CacheKey → Prop) key bytes d : K key → safe S K (cache_insert key bytes d).
Proof.
  intros HK.
  apply safe_bind; [apply safe_now|]. intros t w Hw. unfold wp, act.
  destruct (insert_run t (w_cache w) key bytes d (ok_wf w Hw) (ok_pos w Hw))
    as (c & Hi & Hwf & Hcfg & _).
  eexists _, _. rewrite Hi. split; [done|].
  apply (ext_shared S K w c (w_metrics w)); [done|done|done|apply Hw|].
  by eapply activity_insert.
Qed.

End Logic.

#[export] Hint Resolve safe_ret safe_bind safe_now safe_fresh_id safe_lock safe_resolver_lookup
  safe_cache_lookup safe_should_prefetch safe_cache_insert : safety.

(** ** The phases *)

Section Phases.
Context `{Hickory} `{!Env} {Regex RequestInfo : Type}.
Context (S : Name * RecordType → Prop) (K : CacheKey → Prop) (Hrely : rely).

Lemma safe_store_answer key records : K key → safe S K (store_answer key records).
Proof.
  intros HK.
  unfold store_answer. apply safe_bind; [auto with safety|]. intros id.
  destruct (message_to_vec _); auto with safety.
Qed.

Lemma safe_check_cache key : safe S K (check_cache key).
Proof.
  unfold check_cache. apply safe_bind; [auto with safety|]. intros _.
  apply safe_bind; [auto with safety|]. intros [[[bytes st] h]|]; auto with safety.
Qed.

Lemma safe_any_round name t :
  S (set_fqdn false name, t) → K (cache_key (to_utf8 name) t None) → safe S K (any_round name t).
Proof.
  intros HS HK. unfold any_round. apply safe_bind; [auto with safety|]. intros _.
  apply safe_bind; [auto with safety|]. intros hit. case_match; [|auto with safety].
  apply safe_bind; [auto with safety|]. intros [[|]|]; auto with safety.
  apply safe_bind; [by apply safe_store_answer|auto with safety].
Qed.

Lemma calls_after_app t calls names :
  QnameMinProps.calls_after t calls names = ((λ n, (n, t)) <$> reverse names) ++ calls.
Proof.
  unfold QnameMinProps.calls_after. revert calls. induction names as [|n names IH]; intros calls; [done|].
  cbn [foldl]. rewrite IH, reverse_cons, fmap_app, <- (assoc_L (++)). done.
Qed.

Lemma planned_first n config ls :
  QnameMin.peel_labels n = Some ls → n ∈ QnameMinProps.planned config ls.
Proof.
  intros Hpeel. destruct (QnameMinProps.peel_labels_run n) as (ls' & Hpeel' & Hhead & _).
  rewrite Hpeel in Hpeel'. injection Hpeel' as <-. unfold QnameMinProps.planned.
  destruct ls as [|x ls]; [done|]. injection Hhead as ->. cbn [length].
  destruct (Nat.min _ _) as [|k] eqn:E; [lia|]. by left.
Qed.

Lemma safe_minimization n t config :
  (∀ ls m, QnameMin.peel_labels n = Some ls → m ∈ QnameMinProps.planned config ls → S (m, t)) →
  safe S K (QnameMin.resolve_with_minimization (H0 := QnameMin.HickoryMinResolver) n t config).
Proof.
  intros HS w Hw. destruct (decide (num_labels n = 0)) as [Hz|Hnz].
  { unfold QnameMin.resolve_with_minimization. rewrite Hz. by apply safe_ret. }
  destruct (QnameMinProps.peel_labels_run n) as (ls & Hpeel & Hhead & _ & Hlen & _).
  pose proof (labels_bound n) as Hb.
  unfold wp. rewrite (QnameMinProps.minimization_run n t config w ls Hnz Hpeel Hhead) by lia.
  destruct (QnameMinProps.reference n t _ w) as [r w'] eqn:E. eexists _, _. split; [done|].
  assert (Forall S ((λ m, (m, t)) <$> reverse (QnameMinProps.planned config ls))) as Hall.
  { apply Forall_fmap, list.Forall_forall. intros m Hm. rewrite elem_of_reverse in Hm. by apply (HS ls). }
  assert (S (n, t)) as Hn by (apply (HS ls); [done|by apply planned_first]).
  destruct Hw as [Hwf Hpos Hm].
  unfold QnameMinProps.reference in E. cbv zeta in E. rewrite !calls_after_app in E.
  destruct (QnameMinProps.last_positive _ _) as [[q recs]|]; [|destruct (upstream _ n t)];
    injection E as _ <-;
    (split; [split; cbn; [done|done|]; repeat apply increment_filled; done|done| |]);
    cbn [w_calls with_metrics QnameMinProps.with_calls].
  - by eexists.
  - apply rtc_once, activity_count.
  - eexists ((n, t) :: _). split; [done|]. by constructor.
  - apply activity_count_twice.
  - eexists ((n, t) :: _). split; [done|]. by constructor.
  - apply rtc_once, activity_count.
Qed.

Variable a : CacheForwardAuthority Regex.

(** The names under which a question goes upstream: the name itself, or with minimization the peeled
    names up to the configured number. *)
Definition forwarded_as (n m : Name) : Prop :=
  if Config.qmin_enable (qname_minimization a) then
    ∃ ls, QnameMin.peel_labels n = Some ls ∧ m ∈ QnameMinProps.planned (qname_minimization a) ls
  else m = n.

Lemma safe_forward_query n t : (∀ m, forwarded_as n m → S (m, t)) → safe S K (forward_query a n t).
Proof.
  unfold forward_query, forwarded_as. destruct (Config.qmin_enable _); intros HS; [|auto with safety].
  apply safe_bind; [apply safe_minimization; eauto|auto with safety].
Qed.

Lemma synthesize_counted m l p : counted m (Dns64.synthesize_aaaa m l p).2.
Proof. unfold Dns64.synthesize_aaaa. simpl. case_bool_decide; [by left|right; by eexists _, _]. Qed.

Lemma safe_dns64_records n t recs :
  (t = RT_AAAA → is_Some (dns64_prefix a) → S (set_fqdn false n, RT_A)) → safe S K (dns64_records a n t recs).
Proof.
  intros HS. unfold dns64_records. destruct (dns64_prefix a) as [p|]; [|auto with safety].
  case_bool_decide; [|auto with safety]. destruct (_ || _); [|auto with safety].
  assert (S (set_fqdn false n, RT_A)) by (apply HS; eauto).
  apply safe_bind; [auto with safety|]. intros [ans|e]; [|auto with safety].
  destruct (a_addresses ans) as [|x l] eqn:E; [auto with safety|].
  intros w Hw. unfold wp, act.
  pose proof (synthesize_counted (w_metrics w) (x :: l) p) as Hc.
  destruct (Dns64.synthesize_aaaa (w_metrics w) (x :: l) p) as [l6 m6].
  eexists _, _. split; [done|]. by apply ext_metrics.
Qed.

Lemma safe_check_cname recs : safe S K (check_cname a recs).
Proof.
  unfold check_cname. destruct (Filter.cname_cloaking _); [|auto with safety].
  intros w Hw. unfold wp, act. destruct (Filter.cname_chain_truncated _ _ _) as [b m] eqn:E.
  eexists _, _. split; [done|]. apply ext_metrics; [done|].
  unfold Filter.cname_chain_truncated in E. injection E as _ <-. apply counted_if.
Qed.

Lemma safe_check_rebinding recs : safe S K (check_rebinding a recs).
Proof.
  unfold check_rebinding. destruct (Filter.rebinding _); [|auto with safety].
  intros w Hw. unfold wp, act. destruct (Filter.rebinding_detected _ _ _) as [b m] eqn:E.
  eexists _, _. split; [done|]. apply ext_metrics; [done|].
  unfold Filter.rebinding_detected in E. injection E as _ <-. apply counted_if.
Qed.

Lemma safe_flatten recs :
  (∀ target t, synthetic_target recs = Some target → t ∈ [RT_A; RT_AAAA] →
     S (default root (from_ascii (to_utf8 target)), t)) → safe S K (flatten recs).
Proof.
  intros HS. unfold flatten. destruct (synthetic_target recs) as [target|]; [|auto with safety].
  assert (S (default root (from_ascii (to_utf8 target)), RT_A)) by (apply HS; set_solver).
  assert (S (default root (from_ascii (to_utf8 target)), RT_AAAA)) by (apply HS; set_solver).
  apply safe_bind; [auto with safety|]. intros r4. apply safe_bind; auto with safety.
Qed.

(** The keys under which a question is stored. *)
Definition question_key (n : Name) (t : RecordType) (key : CacheKey) : Prop :=
  if bool_decide (t = RT_ANY) then key = cache_key (to_utf8 n) RT_A None ∨ key = cache_key (to_utf8 n) RT_AAAA None
  else key = cache_key (to_utf8 n) t None.

Lemma safe_lookup_any n :
  S (set_fqdn false n, RT_A) → S (set_fqdn false n, RT_AAAA) →
  K (cache_key (to_utf8 n) RT_A None) → K (cache_key (to_utf8 n) RT_AAAA None) → safe S K (lookup_any n).
Proof.
  intros H4 H6 K4 K6. unfold lookup_any. apply safe_bind; [by apply safe_any_round|].
  intros [r|]; [auto with safety|]. apply safe_bind; [by apply safe_any_round|].
  intros [r|]; auto with safety.
Qed.

Lemma safe_prefetch_task n t :
  S (set_fqdn false n, t) → K (cache_key (to_utf8 n) t None) → safe S K (prefetch_task n t).
Proof.
  intros HS HK. unfold prefetch_task. apply safe_bind; [auto with safety|].
  intros [r|e]; [by apply safe_store_answer|auto with safety].
Qed.

End Phases.

(** ** Which questions go upstream *)

Section Wanted.
Context `{Hickory} `{!Env} {Regex RequestInfo : Type} (a : CacheForwardAuthority Regex).

(** Upstream was asked this question, and answered it with these records. *)
Definition answered_in (log : list (Name * RecordType)) (m : Name) (t : RecordType) (ans : list Rec) : Prop :=
  ∃ later earlier, log = later ++ (m, t) :: earlier ∧ upstream earlier m t = Ok ans.

(** The target of an alias among the records: of a CNAME, or of a DNAME substitution. *)
Definition points_to (ans : list Rec) (target : Name) : Prop :=
  ∃ r, r ∈ ans ∧ (data r = RD_CNAME target ∨ data r = RD_ANAME target).

(** The upstream queries that a question asks for, given all those made so far: for ANY the address
    questions of the name; otherwise the question itself, as it is forwarded; with DNS64 the A question
    of the name; and the address questions of the target of an alias that upstream answered with. *)
Inductive wanted (n : Name) (t : RecordType) (log : list (Name * RecordType)) : Name * RecordType → Prop :=
  | wanted_any t' : t = RT_ANY → t' ∈ [RT_A; RT_AAAA] → wanted n t log (set_fqdn false n, t')
  | wanted_question m : t ≠ RT_ANY → forwarded_as a (set_fqdn false n) m → wanted n t log (m, t)
  | wanted_addresses :
      t = RT_AAAA → is_Some (dns64_prefix a) → wanted n t log (set_fqdn false (set_fqdn false n), RT_A)
  | wanted_target m ans target t' :
      t ≠ RT_ANY → forwarded_as a (set_fqdn false n) m → answered_in log m t ans → points_to ans target →
      t' ∈ [RT_A; RT_AAAA] → wanted n t log (default root (from_ascii (to_utf8 target)), t').

Lemma answered_in_later log more m t ans : answered_in log m t ans → answered_in (more ++ log) m t ans.
Proof. intros (later & earlier & -> & Hup). exists (more ++ later), earlier. by rewrite (assoc_L (++)). Qed.

Lemma wanted_later n t log more q : wanted n t log q → wanted n t (more ++ log) q.
Proof.
  destruct 1 as [t' Ht Hin|m Ht Hm|Ht Hp|m ans target t' Ht Hm Ha Hp Hin].
  - by apply wanted_any.
  - by apply wanted_question.
  - by apply wanted_addresses.
  - eapply wanted_target; [done..| |done|done]. by apply answered_in_later.
Qed.

Lemma last_positive_asked t calls names q recs :
  QnameMinProps.last_positive names (QnameMinProps.ask t calls names) = Some (q, recs) →
  q ∈ names ∧ answered_in (QnameMinProps.calls_after t calls names) q t recs.
Proof.
  intros Hl%last_Some_elem_of%list_elem_of_omap. destruct Hl as ([m r] & Hin & Hp).
  unfold QnameMinProps.positive in Hp. cbn [fst snd] in Hp.
  assert (r = Ok recs ∧ m = q) as [-> ->] by (destruct r as [[|]|]; naive_solver). clear Hp.
  revert calls Hin. induction names as [|n names IH]; intros calls Hin; [by apply elem_of_nil in Hin|].
  cbn [QnameMinProps.ask zip zip_with] in Hin. apply elem_of_cons in Hin as [Heq|Hin].
  - injection Heq as -> Hup. split; [by left|]. unfold QnameMinProps.calls_after. cbn [foldl].
    fold (QnameMinProps.calls_after t ((n, t) :: calls) names). rewrite calls_after_app.
    eexists _, calls. split; [reflexivity|done].
  - destruct (IH _ Hin) as [? ?]. split; [by right|done].
Qed.

(** A positive answer was given to the question as it was forwarded. *)
Lemma forward_query_answered n t w ans w' :
  forward_query a n t w = Some (Ok ans, w') →
  ∃ m, forwarded_as a n m ∧ answered_in (w_calls w') m t ans.
Proof.
  unfold forward_query, forwarded_as. destruct (Config.qmin_enable _).
  2: { intros [= Hup <-]. exists n. split; [done|]. by exists [], (w_calls w). }
  unfold mbind at 1, M_bind. destruct (QnameMin.resolve_with_minimization n t _ w) as [[r w1]|] eqn:E; [|done].
  destruct r as [res|e]; [|done]. intros [= <- <-].
  destruct (decide (num_labels n = 0)) as [Hz|Hnz].
  { unfold QnameMin.resolve_with_minimization in E. by rewrite Hz in E. }
  destruct (QnameMinProps.minimization_run_some n t (qname_minimization a) w Hnz) as (ls & Hpeel & Hrun).
  rewrite Hrun in E. injection E as E. unfold QnameMinProps.reference in E. cbv zeta in E.
  destruct (QnameMinProps.last_positive _ _) as [[q recs]|] eqn:El.
  - injection E as <- <-. apply last_positive_asked in El as [Hq Ha]. exists q. split; [eauto|done].
  - destruct (upstream _ n t) as [recs|] eqn:Hup; [|done]. injection E as <- <-. exists n.
    split; [exists ls; split; [done|by apply planned_first]|]. by eexists [], _.
Qed.

Lemma dns64_records_aaaa n t recs w syn w' :
  dns64_records a n t recs w = Some (syn, w') → Forall (λ r, ∃ v6, data r = RD_AAAA v6) syn.
Proof.
  unfold dns64_records. destruct (dns64_prefix a); [|intros [= <- _]; constructor].
  case_bool_decide; [|intros [= <- _]; constructor]. destruct (_ || _); [|intros [= <- _]; constructor].
  unfold mbind, M_bind, resolver_lookup. destruct (upstream _ _ _) as [ans|]; [|intros [= <- _]; constructor].
  destruct (a_addresses ans); [intros [= <- _]; constructor|]. unfold act.
  destruct (Dns64.synthesize_aaaa _ _ _) as [l6 m]. intros [= <- _].
  apply Forall_fmap, Forall_true. intros x. by exists x.
Qed.

Lemma synthetic_target_points_to ans syn n target :
  Forall (λ r, ∃ v6, data r = RD_AAAA v6) syn →
  synthetic_target (extend_dname (ans ++ syn) n) = Some target → points_to ans target.
Proof.
  intros Hsyn Ht. assert (∀ r d, r ∈ ans ++ syn → data r = d → (∀ v6, d ≠ RD_AAAA v6) → r ∈ ans) as Hin.
  { intros r d [Hr|Hr]%elem_of_app Hd Hne; [done|]. rewrite list.Forall_forall in Hsyn.
    destruct (Hsyn r Hr) as [v6 Hv]. destruct (Hne v6). congruence. }
  assert (∃ r, r ∈ extend_dname (ans ++ syn) n ∧ data r = RD_CNAME target) as (r & Hr & Hd).
  { unfold synthetic_target in Ht. apply head_Some_elem_of in Ht. apply list_elem_of_omap in Ht as (r & Hr & Hd).
    exists r. split; [done|]. destruct (is_type RT_CNAME r); [|done]. destruct (data r); naive_solver. }
  unfold extend_dname in Hr. destruct (existsb _ _); [apply elem_of_app in Hr as [Hr|Hr]|].
  - exists r. split; [by eapply Hin|by left].
  - apply list_elem_of_omap in Hr as (r0 & Hr0 & Hs). destruct (is_type RT_ANAME r0); [|done].
    destruct (data r0) eqn:E0; try done. destruct (name_eqb _ _); [done|]. injection Hs as <-.
    cbn in Hd. injection Hd as ->. exists r0. split; [by eapply Hin|by right].
  - exists r. split; [by eapply Hin|by left].
Qed.

Context (Hrely : rely).

(** Everything after the upstream query asks for what its answer points to. *)
Lemma miss_tail_safe (K : CacheKey → Prop) key n t m ans log :
  K key → t ≠ RT_ANY → forwarded_as a (set_fqdn false n) m → answered_in log m t ans →
  safe (wanted n t log) K
    (syn ← dns64_records a (set_fqdn false n) t ans;
     let records := extend_dname (ans ++ syn) (set_fqdn false n) in
     refused ← check_cname a records;
     if (refused : bool) then mret (Err (IoFailure "CNAME chain truncated (limit exceeded)"))
     else
       _ ← check_rebinding a records;
       _ ← store_answer key records;
       extended ← flatten records;
       match syn with [] => mret (Ok ans) | _ => mret (Ok extended) end).
Proof.
  intros HK Ht Hm Hans w Hw. apply wp_bind.
  destruct (safe_dns64_records (wanted n t log) K a (set_fqdn false n) t ans) with w
    as (syn & w1 & Hrun & Hext); [by apply wanted_addresses|done|].
  exists syn, w1. split; [done|]. apply dns64_records_aaaa in Hrun as Hsyn.
  eapply wp_mono; [|intros x w2 Hext2; exact (ext_trans _ _ _ _ _ Hext Hext2)]. revert w1 Hrun Hext.
  cut (safe (wanted n t log) K (let records := extend_dname (ans ++ syn) (set_fqdn false n) in
     refused ← check_cname a records;
     if (refused : bool) then mret (Err (IoFailure "CNAME chain truncated (limit exceeded)"))
     else
       _ ← check_rebinding a records;
       _ ← store_answer key records;
       extended ← flatten records;
       match syn with [] => mret (Ok ans) | _ => mret (Ok extended) end)).
  { intros Hs w1 _ Hext. apply Hs, Hext. }
  cbv zeta.
  apply safe_bind; [apply safe_check_cname|]. intros []; [auto with safety|].
  apply safe_bind; [apply safe_check_rebinding|]. intros _.
  apply safe_bind; [by apply safe_store_answer|]. intros _.
  apply safe_bind; [|intros x; case_match; auto with safety].
  apply safe_flatten; [exact Hrely|]. intros target t' Htarget Hin. eapply wanted_target; [done..| |done].
  by eapply synthetic_target_points_to.
Qed.

Lemma resolve_miss_safe (K : CacheKey → Prop) key n t w :
  K key → t ≠ RT_ANY → ok w →
  wp (resolve_miss a key n t) (λ _ w', ext (wanted n t (w_calls w')) K w w') w.
Proof.
  intros HK Ht Hw. apply wp_bind.
  destruct (safe_forward_query (wanted n t []) K a (set_fqdn false n) t) with w as (r & w1 & Hrun & Hext);
    [intros m; by apply wanted_question|done|].
  assert (∀ log q, wanted n t [] q → wanted n t log q) as Hmore.
  { intros log q Hq. rewrite <- (app_nil_r log). by apply wanted_later. }
  exists r, w1. split; [done|]. destruct r as [ans|e].
  2: { apply wp_ret. eapply ext_weaken; [exact Hext|apply Hmore]. }
  apply forward_query_answered in Hrun as (m & Hm & Hans).
  eapply wp_mono; [apply (miss_tail_safe K key n t m ans (w_calls w1) HK Ht Hm Hans), Hext|].
  intros x w2 Hext2. pose proof (ext_calls _ _ _ _ Hext2) as (new & Hnew & _). rewrite Hnew.
  eapply ext_trans; eapply ext_weaken; [exact Hext|apply Hmore|exact Hext2|]. intros q. apply wanted_later.
Qed.

(** A lookup returns, keeps the world consistent and asks upstream only what its question wants. *)
Lemma lookup_safe n t (info : option RequestInfo) w :
  ok w → wp (lookup a n t info) (λ _ w', ext (wanted n t (w_calls w')) (question_key n t) w w') w.
Proof.
  intros Hw. unfold lookup, question_key. case_bool_decide as Hany.
  - destruct (safe_lookup_any (wanted n t []) (λ key, key = cache_key (to_utf8 n) RT_A None ∨
                key = cache_key (to_utf8 n) RT_AAAA None) Hrely n) with w as (r & w1 & Hrun & Hext);
      [apply wanted_any; set_solver..|by left|by right|done|].
    apply wp_bind. exists r, w1. split; [done|]. apply wp_ret. eapply ext_weaken; [exact Hext|].
    intros q Hq. rewrite <- (app_nil_r (w_calls w1)). by apply wanted_later.
  - replace (if ecs a then extract_ecs_scope info else None) with (@None (IpAddr * Z)) by by destruct (ecs a).
    apply wp_bind. set (K := λ key, key = cache_key (to_utf8 n) t None).
    destruct (safe_check_cache (wanted n t []) K Hrely (cache_key (to_utf8 n) t None) w Hw)
      as ([cached sp] & w1 & Hrun & Hext). exists (cached, sp), w1. split; [done|].
    assert (∀ log q, wanted n t [] q → wanted n t log q) as Hmore.
    { intros log q Hq. rewrite <- (app_nil_r log). by apply wanted_later. }
    destruct cached as [records|].
    + apply wp_ret. eapply ext_weaken; [exact Hext|apply Hmore].
    + apply wp_bind. eapply wp_mono; [apply (resolve_miss_safe K); [done|done|apply Hext]|].
      intros r w2 Hext2. apply wp_ret. eapply ext_trans; [eapply ext_weaken; [exact Hext|apply Hmore]|exact Hext2].
Qed.

End Wanted.

End ForwardSafe.
