(* ===== verification/ForwardProps.v ===== *)
(** * Properties of the forwarder *)

From Stdlib Require Import Ascii String ZArith Lia.
From stdpp Require Import base list gmap strings numbers.
From S2P Require Import Prelude RustString RustNum RustNet Metrics Cache CacheSpec Config Blocklist Dns DnsSample.
From S2P Require Import Filter Dns64 QnameMin QnameMinProps Forward ForwardSafe.

Local Open Scope Z_scope.

Module ForwardProps.
Import Metrics Cache CacheSpec Dns Forward ForwardSafe.

(** ** Computations that leave the cache alone *)

Section Frame.
Context `{Hickory} `{!Env}.

Definition keeps_cache {A} (m : M A) : Prop :=
  ∀ w a w', m w = Some (a, w') → w_cache w' = w_cache w.

Lemma keeps_ret {A} (a : A) : keeps_cache (mret a).
Proof. intros w a' w' [= _ <-]. done. Qed.

Lemma bind_run {A B} (m : M A) (f : A → M B) w b w' :
  (m ≫= f) w = Some (b, w') ↔ ∃ a w1, m w = Some (a, w1) ∧ f a w1 = Some (b, w').
Proof.
  unfold mbind, M_bind. destruct (m w) as [[a w1]|]; [|naive_solver].
  split; [by intros Hf; exists a, w1|]. by intros (? & ? & [= -> ->] & Hf).
Qed.

Lemma keeps_bind {A B} (m : M A) (f : A → M B) :
  keeps_cache m → (∀ a, keeps_cache (f a)) → keeps_cache (m ≫= f).
Proof.
  intros Hm Hf w b w' (a & w1 & H1 & H2)%bind_run. rewrite <- (Hm _ _ _ H1). by eapply Hf.
Qed.

Lemma keeps_resolver_lookup n t : keeps_cache (resolver_lookup n t).
Proof. intros w a w' [= _ <-]. done. Qed.

Lemma keeps_minimization n t config :
  keeps_cache (QnameMin.resolve_with_minimization (H0 := QnameMin.HickoryMinResolver) n t config).
Proof.
  intros w r w' Hrun. destruct (decide (num_labels n = 0)) as [Hz|Hnz].
  { unfold QnameMin.resolve_with_minimization in Hrun. rewrite Hz in Hrun. by injection Hrun as _ <-. }
  destruct (QnameMinProps.peel_labels_run n) as (ls & Hpeel & Hhead & _ & Hlen & _).
  pose proof (labels_bound n) as Hb.
  rewrite (QnameMinProps.minimization_run n t config w ls Hnz Hpeel Hhead) in Hrun by lia.
  injection Hrun as Hrun. unfold QnameMinProps.reference in Hrun. cbv zeta in Hrun.
  destruct (QnameMinProps.last_positive _ _) as [[q recs]|]; [|destruct (upstream _ n t)];
    by injection Hrun as _ <-.
Qed.

Context {Regex : Type} (a : CacheForwardAuthority Regex).

Lemma keeps_forward_query n t : keeps_cache (forward_query a n t).
Proof.
  unfold forward_query. destruct (Config.qmin_enable _); [|apply keeps_resolver_lookup].
  apply keeps_bind; [apply keeps_minimization|]. intros r. apply keeps_ret.
Qed.

Lemma keeps_dns64 n t recs : keeps_cache (dns64_records a n t recs).
Proof.
  unfold dns64_records. destruct (dns64_prefix a) as [p|]; [|apply keeps_ret].
  case_bool_decide; [|apply keeps_ret]. destruct (_ || _); [|apply keeps_ret].
  apply keeps_bind; [apply keeps_resolver_lookup|]. intros [ans|e]; [|apply keeps_ret].
  destruct (a_addresses ans); [apply keeps_ret|]. intros w x w' Hrun. unfold act in Hrun.
  destruct (Dns64.synthesize_aaaa _ _ _). by injection Hrun as _ <-.
Qed.

Lemma keeps_check_cname recs : keeps_cache (check_cname a recs).
Proof.
  unfold check_cname. destruct (Filter.cname_cloaking _); [|apply keeps_ret].
  intros w x w' Hrun. unfold act in Hrun.
  destruct (Filter.cname_chain_truncated _ _ _). by injection Hrun as _ <-.
Qed.

Lemma keeps_check_rebinding recs : keeps_cache (check_rebinding a recs).
Proof.
  unfold check_rebinding. destruct (Filter.rebinding _); [|apply keeps_ret].
  intros w x w' Hrun. unfold act in Hrun.
  destruct (Filter.rebinding_detected _ _ _). by injection Hrun as _ <-.
Qed.

Lemma keeps_flatten recs : keeps_cache (flatten recs).
Proof.
  unfold flatten. destruct (synthetic_target recs); [|apply keeps_ret].
  do 2 (apply keeps_bind; [apply keeps_resolver_lookup|intros ?]). apply keeps_ret.
Qed.

(** ** Storing and the cache check *)

(** The entry a stored answer becomes, under any message id and at any instant. *)
Definition holds_answer (c : Cache) (key : CacheKey) (records : list Rec) : Prop :=
  ∃ t id bytes, message_to_vec (answer_message id records) = Some bytes ∧
    entries c !! key = Some (fresh_entry t bytes (min_ttl records)).

Definition encodable (records : list Rec) : Prop :=
  ∀ id, is_Some (message_to_vec (answer_message id records)) ∧
        faithful (answer_message id records) = true.

Lemma insert_lookup now c key bytes d c' :
  insert now c key bytes d = Some c' → entries c' !! key = Some (fresh_entry now bytes d).
Proof.
  unfold insert. intros (c1 & _ & [= <-])%bind_Some. cbn [store entries]. apply lookup_insert_eq.
Qed.

Lemma store_answer_run key records w u w' :
  encodable records → store_answer key records w = Some (u, w') → holds_answer (w_cache w') key records.
Proof.
  intros Henc (id & w1 & _ & H1)%bind_run. destruct (Henc id) as [[bytes Hb] _].
  rewrite Hb in H1. apply bind_run in H1 as (? & w2 & _ & H1).
  apply bind_run in H1 as (t & w3 & _ & H1). unfold act in H1.
  destruct (insert t (w_cache w3) key bytes (min_ttl records)) as [c|] eqn:Hi; [|done].
  injection H1 as _ <-. exists t, id, bytes. split; [done|]. by eapply insert_lookup.
Qed.

(** What the cache check returns, by the entry found once the lock is held. *)
Lemma check_cache_run key w :
  let c := others (w_ticks w) (w_cache w) in
  ∃ sp w', check_cache key w = Some ((match entries c !! key with
                                      | Some e => answers <$> message_from_vec (response_bytes e)
                                      | None => None
                                      end, sp), w') ∧
    w_calls w' = w_calls w ∧ (entries c !! key = None → sp = false) ∧
    (prefetch (config c) = 0 → sp = false).
Proof.
  intros c. unfold check_cache, cache_lookup, cache_should_prefetch, now, lock_cache, act.
  unfold mbind, M_bind, mret, M_ret. cbn [w_cache w_metrics w_calls w_ticks tick with_cache].
  fold c. unfold lookup_with_metrics, Cache.lookup.
  destruct (entries c !! key) as [e|] eqn:He; cbn; eexists _, _; (split; [done|split_and!]); try done.
  intros Hp. unfold should_prefetch. cbn [Cache.config]. by rewrite Hp.
Qed.

Lemma holds_answer_hit c key records :
  encodable records → holds_answer c key records →
  ∃ e, entries c !! key = Some e ∧
    answers <$> message_from_vec (response_bytes e) = Some (wire <$> records).
Proof.
  intros Henc (t & id & bytes & Hb & He). exists (fresh_entry t bytes (min_ttl records)).
  split; [done|]. cbn [response_bytes fresh_entry]. destruct (Henc id) as [_ Hf].
  destruct (message_roundtrip _ _ Hb Hf) as (m' & -> & Ha & _). cbn. by rewrite Ha.
Qed.

End Frame.

(** ** The miss path *)

Section Miss.
Context `{Hickory} `{!Env} {Regex RequestInfo : Type} (a : CacheForwardAuthority Regex).

(** A successful miss, phase by phase. *)
Lemma resolve_miss_Ok key n t w r w' :
  resolve_miss a key n t w = Some (Ok r, w') →
  ∃ ans syn w1 w2 w3 w4 w5 ext,
    forward_query a (set_fqdn false n) t w = Some (Ok ans, w1) ∧
    dns64_records a (set_fqdn false n) t ans w1 = Some (syn, w2) ∧
    let records := extend_dname (ans ++ syn) (set_fqdn false n) in
    check_cname a records w2 = Some (false, w3) ∧
    store_answer key records w4 = Some (tt, w5) ∧
    flatten records w5 = Some (ext, w') ∧
    r = (match syn with [] => ans | _ => ext end).
Proof.
  unfold resolve_miss. intros (q & w1 & Hq & H1)%bind_run. destruct q as [ans|e]; [|done].
  apply bind_run in H1 as (syn & w2 & Hsyn & H1).
  apply bind_run in H1 as (refused & w3 & Hc & H1). destruct refused; [done|].
  apply bind_run in H1 as (u & w4 & _ & H1). apply bind_run in H1 as ([] & w5 & Hs & H1).
  apply bind_run in H1 as (ext & w6 & Hf & H1).
  exists ans, syn, w1, w2, w3, w4, w5, ext. split_and!; try done; destruct syn; by injection H1 as <- <-.
Qed.

Lemma flatten_prefix records w ext w' :
  flatten records w = Some (ext, w') → records `prefix_of` ext.
Proof.
  unfold flatten. destruct (synthetic_target records).
  - intros (r4 & w1 & _ & H1)%bind_run. apply bind_run in H1 as (r6 & w2 & _ & H1).
    injection H1 as <- _. by eexists.
  - by intros [= <- _].
Qed.

Lemma extend_dname_prefix records n : records `prefix_of` extend_dname records n.
Proof. unfold extend_dname. destruct (existsb _ _); [by eexists|done]. Qed.

Lemma miss_stores key n t w r w' :
  resolve_miss a key n t w = Some (Ok r, w') →
  ∃ ans syn w1 w2,
    forward_query a (set_fqdn false n) t w = Some (Ok ans, w1) ∧
    dns64_records a (set_fqdn false n) t ans w1 = Some (syn, w2) ∧
    (syn = [] → r = ans) ∧ (syn ≠ [] → (ans ++ syn) `prefix_of` r) ∧
    let records := extend_dname (ans ++ syn) (set_fqdn false n) in
    (encodable records → holds_answer (w_cache w') key records).
Proof.
  intros Hrun. destruct (resolve_miss_Ok _ _ _ _ _ _ Hrun)
    as (ans & syn & w1 & w2 & w3 & w4 & w5 & ext & Hq & Hsyn & _ & Hs & Hf & ->).
  exists ans, syn, w1, w2. split_and!; [done|done|by intros ->| |].
  - intros Hne. destruct syn as [|x syn]; [done|]. etrans; [apply extend_dname_prefix|].
    by eapply flatten_prefix.
  - intros records Henc. rewrite (keeps_flatten _ _ _ _ Hf). by eapply store_answer_run.
Qed.

(** A failing miss: which of the two errors, and that the cache was left alone. *)
Lemma resolve_miss_Err key n t w e w' :
  resolve_miss a key n t w = Some (Err e, w') →
  w_cache w' = w_cache w ∧
  ((∃ ne, e = NetFailure ne ∧ forward_query a (set_fqdn false n) t w = Some (Err ne, w')) ∨
   (∃ msg ans syn w1 w2, e = IoFailure msg ∧
      forward_query a (set_fqdn false n) t w = Some (Ok ans, w1) ∧
      dns64_records a (set_fqdn false n) t ans w1 = Some (syn, w2) ∧
      check_cname a (extend_dname (ans ++ syn) (set_fqdn false n)) w2 = Some (true, w'))).
Proof.
  unfold resolve_miss. intros (q & w1 & Hq & H1)%bind_run.
  pose proof (keeps_forward_query a _ _ _ _ _ Hq) as K1.
  destruct q as [ans|ne].
  - apply bind_run in H1 as (syn & w2 & Hsyn & H1). pose proof (keeps_dns64 a _ _ _ _ _ _ Hsyn) as K2.
    apply bind_run in H1 as (refused & w3 & Hc & H1). pose proof (keeps_check_cname a _ _ _ _ Hc) as K3.
    destruct refused.
    + injection H1 as <- <-. split; [congruence|]. right. by eexists _, ans, syn, w1, w2.
    + apply bind_run in H1 as (? & w4 & _ & H1). apply bind_run in H1 as (? & w5 & _ & H1).
      apply bind_run in H1 as (ext & w6 & _ & H1). by destruct syn.
  - injection H1 as <- <-. split; [done|]. left. by exists ne.
Qed.

Lemma lookup_run n t (info : option RequestInfo) w :
  t ≠ RT_ANY →
  let key := cache_key (to_utf8 n) t None in
  ∃ cached sp w1, check_cache key w = Some ((cached, sp), w1) ∧
    lookup a n t info w =
      match cached with
      | Some records => Some ((Ok records, sp), w1)
      | None => match resolve_miss a key n t w1 with
                | Some (r, w2) => Some ((r, sp), w2)
                | None => None
                end
      end.
Proof.
  intros Hany key. destruct (check_cache_run key w) as (sp & w1 & Hc & _).
  eexists _, sp, w1. split; [exact Hc|]. unfold lookup. rewrite bool_decide_false by done.
  replace (if ecs a then extract_ecs_scope info else None) with (@None (IpAddr * Z)) by by destruct (ecs a).
  unfold mbind at 1, M_bind at 1. fold key. rewrite Hc.
  by destruct (match entries _ !! key with Some _ => _ | None => _ end).
Qed.

End Miss.

(** ** DNS64 answers *)

Section Synthesis.
Context `{Hickory} `{!Env} {Regex : Type} (a : CacheForwardAuthority Regex).

Lemma foldl_min_le l x : foldl Z.min x l ≤ x ∧ ∀ y, y ∈ l → foldl Z.min x l ≤ y.
Proof.
  revert x. induction l as [|z l IH]; intros x; simpl; [split; [lia|set_solver]|].
  destruct (IH (Z.min x z)) as [H1 H2]. split; [lia|].
  intros y [->|Hy]%elem_of_cons; [lia|by apply H2].
Qed.

Lemma foldl_min_elem l x : foldl Z.min x l ∈ x :: l.
Proof.
  revert x. induction l as [|z l IH]; intros x; simpl; [set_solver|]. specialize (IH (Z.min x z)).
  destruct (Z.min_spec x z) as [[_ Hm]|[_ Hm]]; rewrite Hm in *; set_solver.
Qed.

Lemma min_a_ttl_le records r : r ∈ records → record_type r = RT_A → min_a_ttl records ≤ ttl r.
Proof.
  intros Hin Ht. unfold min_a_ttl.
  assert (ttl r ∈ ttl <$> base.filter (λ r, is_type RT_A r = true) records) as Hm.
  { apply list_elem_of_fmap. exists r. split; [done|]. apply list_elem_of_filter.
    split; [by apply bool_decide_eq_true|done]. }
  destruct (ttl <$> _) as [|x l]; [set_solver|].
  destruct (foldl_min_le l x) as [H1 H2]. apply elem_of_cons in Hm as [->|Hm]; [done|by apply H2].
Qed.

(** The least TTL is that of one of the A records. *)
Lemma min_a_ttl_is records :
  a_addresses records ≠ [] → ∃ r, r ∈ records ∧ record_type r = RT_A ∧ min_a_ttl records = ttl r.
Proof.
  intros Hne. assert (min_a_ttl records ∈ ttl <$> base.filter (λ r, is_type RT_A r = true) records) as Hin.
  { unfold min_a_ttl. destruct (ttl <$> _) as [|x l] eqn:E; [|by apply foldl_min_elem]. exfalso. apply Hne.
    apply fmap_nil_inv in E. unfold a_addresses. clear Hne. induction records as [|r l IH]; [done|].
    rewrite filter_cons in E. case_decide as Hr; [done|]. rewrite list_omap_cons, IH by done.
    unfold is_type, record_type in Hr. rewrite bool_decide_eq_true in Hr. by destruct (data r). }
  apply list_elem_of_fmap in Hin as (r & Hm & [Ht Hr]%list_elem_of_filter). exists r.
  split_and!; [done|by apply bool_decide_eq_true in Ht|done].
Qed.

(** Each address gives one record. *)
Lemma synthesized_each prefix (n : Name) (t : Z) l m :
  Dns64.len prefix = 96 → v6_wf (Dns64.addr prefix) → Forall v4_wf l →
  Forall2 (λ v4 rec, ∃ v6, rec = from_rdata n t (RD_AAAA v6) ∧
             v6_to_u128 v6 = v6_to_u128 (Dns64.addr prefix) / 2 ^ 32 * 2 ^ 32 + v4_to_u32 v4)
    l ((λ x, from_rdata n t (RD_AAAA x)) <$> (Dns64.synthesize_aaaa m l prefix).1).
Proof.
  intros Hlen Hp. unfold Dns64.synthesize_aaaa. cbn [fst]. induction 1 as [|v4 l Hv4 _ IH]; [constructor|].
  rewrite list_omap_cons. destruct (Dns64.synthesize_one v4 prefix) as [v6|] eqn:Hone.
  - constructor; [|exact IH]. exists v6. split; [done|].
    destruct (Dns64.synthesize_one_value v4 prefix v6 Hv4 Hp Hone) as (_ & [[_ Hval]|[Hc _]]); [done|lia].
  - rewrite Dns64.synthesize_one_octets, Hlen in Hone by done. done.
Qed.

(** Without an alias nothing is appended. *)
Lemma no_alias_plain records n w ext w' :
  (∀ target, ¬ points_to records target) → flatten (extend_dname records n) w = Some (ext, w') → ext = records.
Proof.
  intros Hno. assert (extend_dname records n = records) as ->.
  { unfold extend_dname. destruct (existsb _ _); [|done].
    destruct (synthesize_dname_cnames records n) as [|x l] eqn:E; [by rewrite app_nil_r|].
    assert (x ∈ synthesize_dname_cnames records n) as (r & Hr & Hd)%list_elem_of_omap by (rewrite E; by left).
    destruct (is_type RT_ANAME r); [|done]. destruct (data r) as [| | |target| | | | | | | |] eqn:Er; try done.
    destruct (Hno target). exists r. by auto. }
  unfold flatten, synthetic_target. destruct (omap _ records) as [|target l] eqn:E; [by intros [= <- _]|].
  assert (target ∈ target :: l) as Hin by by left. rewrite <- E in Hin.
  apply list_elem_of_omap in Hin as (r & Hr & Hd). destruct (is_type RT_CNAME r); [|done].
  destruct (data r) as [| |target'| | | | | | | | |] eqn:Er; try done. injection Hd as ->.
  destruct (Hno target). exists r. by auto.
Qed.

(** The synthesised records, when the conditions for synthesis hold. *)
Lemma dns64_records_run prefix n ans a_answers w :
  dns64_prefix a = Some prefix → existsb (is_type RT_AAAA) ans = false →
  upstream (w_calls w) (set_fqdn false n) RT_A = Ok a_answers → a_addresses a_answers ≠ [] →
  ∃ w', dns64_records a n RT_AAAA ans w =
    Some ((λ x, from_rdata n (min_a_ttl a_answers) (RD_AAAA x)) <$>
            (Dns64.synthesize_aaaa (w_metrics w) (a_addresses a_answers) prefix).1, w').
Proof.
  intros Hp Hno Hup Hne. unfold dns64_records. rewrite Hp, bool_decide_true, Hno by done. cbn [negb orb].
  unfold mbind, M_bind, resolver_lookup. rewrite Hup. destruct (a_addresses a_answers) as [|x l]; [done|].
  unfold act. cbn [w_metrics]. destruct (Dns64.synthesize_aaaa _ _ _). by eexists.
Qed.

End Synthesis.

(** ** Masks of client subnets *)

Lemma v6_to_u128_inj x y : v6_wf x → v6_wf y → v6_to_u128 x = v6_to_u128 y → x = y.
Proof.
  destruct x as [l], y as [l']. intros [Hl Hb] [Hl' Hb'] Heq. simpl in *. f_equal.
  apply be_combine_inj; [done|done|congruence|done].
Qed.

(** Masking keeps the high bits, for every prefix length including the extremes. *)
Lemma mask_value w p x :
  0 < w → 0 ≤ p → 0 ≤ x < 2 ^ w →
  Z.land x (if p =? 0 then 0 else if w <=? p then 2 ^ w - 1 else high_mask w (w - p)) =
    x / 2 ^ (w - Z.min p w) * 2 ^ (w - Z.min p w).
Proof.
  intros Hw Hp Hx. destruct (Z.eqb_spec p 0) as [->|]; [|destruct (Z.leb_spec w p)].
  - rewrite Z.land_0_r, Z.min_l, Z.sub_0_r, Z.div_small by lia. done.
  - rewrite Z.min_r, Z.sub_diag, Z.div_1_r, Z.mul_1_r by lia.
    replace (2 ^ w - 1) with (Z.ones w) by (rewrite Z.ones_equiv; lia).
    rewrite Z.land_ones, Z.mod_small by lia. done.
  - rewrite land_high_mask by lia. by rewrite Z.min_l by lia.
Qed.

Lemma high_part_range k w x : 0 ≤ k ≤ w → 0 ≤ x < 2 ^ w → 0 ≤ x / 2 ^ k * 2 ^ k < 2 ^ w.
Proof.
  intros Hk Hx. assert (0 < 2 ^ k) by (apply Z.pow_pos_nonneg; lia).
  pose proof (Z.mul_div_le x (2 ^ k)). pose proof (Z.div_pos x (2 ^ k)). nia.
Qed.

Lemma scope_zero_v4 p x y :
  0 ≤ p → v4_wf x → v4_wf y →
  let k := 32 - Z.min p 32 in
  (scope_zero_subnet (IpV4 x) p = scope_zero_subnet (IpV4 y) p ↔
     v4_to_u32 x / 2 ^ k = v4_to_u32 y / 2 ^ k) ∧
  scope_zero_subnet (scope_zero_subnet (IpV4 x) p).1 p = scope_zero_subnet (IpV4 x) p.
Proof.
  intros Hp Hx Hy k. pose proof (v4_to_u32_range x Hx) as Rx. pose proof (v4_to_u32_range y Hy) as Ry.
  assert (∀ z, v4_wf z → scope_zero_subnet (IpV4 z) p = (IpV4 (v4_of_u32 (v4_to_u32 z / 2 ^ k * 2 ^ k)), p)) as Hz.
  { intros z Hz. unfold scope_zero_subnet. do 3 f_equal.
    change 0xFFFFFFFF with (2 ^ 32 - 1). apply mask_value; [lia|done|by apply v4_to_u32_range]. }
  assert (0 < 2 ^ k) as Hk by (apply Z.pow_pos_nonneg; lia).
  assert (0 ≤ k ≤ 32) as Hkr by lia. split.
  - rewrite !Hz by done. split; [|by intros ->].
    intros Heq. assert (v4_of_u32 (v4_to_u32 x / 2 ^ k * 2 ^ k) = v4_of_u32 (v4_to_u32 y / 2 ^ k * 2 ^ k))
      as Heq' by congruence.
    apply (f_equal v4_to_u32) in Heq'. rewrite !v4_to_of_u32 in Heq' by by apply high_part_range. nia.
  - rewrite Hz by done. cbn [fst]. rewrite Hz by apply v4_of_u32_wf. do 3 f_equal.
    rewrite v4_to_of_u32 by by apply high_part_range. by rewrite Z.div_mul by lia.
Qed.

Lemma scope_zero_v6 p x y :
  0 ≤ p → v6_wf x → v6_wf y →
  let k := 128 - Z.min p 128 in
  (scope_zero_subnet (IpV6 x) p = scope_zero_subnet (IpV6 y) p ↔
     v6_to_u128 x / 2 ^ k = v6_to_u128 y / 2 ^ k) ∧
  scope_zero_subnet (scope_zero_subnet (IpV6 x) p).1 p = scope_zero_subnet (IpV6 x) p.
Proof.
  intros Hp Hx Hy k. pose proof (v6_to_u128_range x Hx) as Rx. pose proof (v6_to_u128_range y Hy) as Ry.
  assert (∀ z, v6_wf z → scope_zero_subnet (IpV6 z) p = (IpV6 (v6_of_u128 (v6_to_u128 z / 2 ^ k * 2 ^ k)), p)) as Hz.
  { intros z Hz. unfold scope_zero_subnet. do 3 f_equal.
    unfold u128_max. apply mask_value; [lia|done|by apply v6_to_u128_range]. }
  assert (0 < 2 ^ k) as Hk by (apply Z.pow_pos_nonneg; lia).
  assert (0 ≤ k ≤ 128) as Hkr by lia. split.
  - rewrite !Hz by done. split; [|by intros ->].
    intros Heq. assert (v6_of_u128 (v6_to_u128 x / 2 ^ k * 2 ^ k) = v6_of_u128 (v6_to_u128 y / 2 ^ k * 2 ^ k))
      as Heq' by congruence.
    apply (f_equal v6_to_u128) in Heq'. rewrite !v6_to_of_u128 in Heq' by by apply high_part_range. nia.
  - rewrite Hz by done. cbn [fst]. rewrite Hz by apply v6_of_u128_wf. do 3 f_equal.
    rewrite v6_to_of_u128 by by apply high_part_range. by rewrite Z.div_mul by lia.
Qed.

(** ** The theorems *)

Lemma lookup_ext `{Hickory} `{!Env} {Regex RequestInfo}
    (a : CacheForwardAuthority Regex) n t (info : option RequestInfo) w :
  rely → ok w →
  ∃ r sp w', lookup a n t info w = Some ((r, sp), w') ∧
    ext (wanted a n t (w_calls w')) (question_key n t) w w'.
Proof.
  intros Hrely Hok. destruct (lookup_safe a Hrely n t info w Hok) as ([r sp] & w' & Hrun & Hext). by exists r, sp, w'.
Qed.

Lemma prefetch_ext `{Hickory} `{!Env} n t w :
  rely → ok w →
  ∃ w', prefetch_task n t w = Some (tt, w') ∧
    ext (λ q, q = (set_fqdn false n, t)) (λ key, key = cache_key (to_utf8 n) t None) w w'.
Proof.
  intros Hrely Hok.
  destruct (safe_prefetch_task (λ q, q = (set_fqdn false n, t)) (λ key, key = cache_key (to_utf8 n) t None)
              Hrely n t) with w as ([] & w' & Hrun & Hext); [done|done|done|]. by exists w'.
Qed.

(** C6: Whatever the upstream servers answer, whenever the other tasks keep the cache
    consistent, every lookup and every prefetch task returns, leaves the cache consistent with
    its configuration and the counters in range, and asks upstream only what the question is about: the
    name with its type (with minimization, as many of its peeled names as are configured), with DNS64
    its A question, and the A and AAAA questions of the target of an alias in an answer that upstream
    gave; for ANY, the A and AAAA questions of the name; for a prefetch, the question.  What it does to the shared state is
    a sequence of cache lookups, of insertions under the keys of the question, of counts, and of what
    the other tasks do meanwhile. *)
Theorem lookup_total_and_safe `{Hickory} `{!Env} {Regex RequestInfo}
    (a : CacheForwardAuthority Regex) n t (info : option RequestInfo) w :
  rely → ok w →
  (∃ r sp w', lookup a n t info w = Some ((r, sp), w') ∧
     ext (wanted a n t (w_calls w')) (question_key n t) w w') ∧
  (∃ w', prefetch_task n t w = Some (tt, w') ∧
     ext (λ q, q = (set_fqdn false n, t)) (λ key, key = cache_key (to_utf8 n) t None) w w').
Proof. intros Hrely Hok. split; [by apply lookup_ext|by apply prefetch_ext]. Qed.

(** An ANY question is never forwarded as such: at most the A and then the AAAA question
    for the same name go upstream, and a positive response carries at least one record. *)
Lemma any_is_mitigated `{Hickory} `{!Env} {Regex RequestInfo}
    (a : CacheForwardAuthority Regex) n (info : option RequestInfo) w :
  rely → ok w →
  ∃ r w', lookup a n RT_ANY info w = Some ((r, false), w') ∧ ok w' ∧
    (∃ new, w_calls w' = new ++ w_calls w ∧
       Forall (λ q, q = (set_fqdn false n, RT_A) ∨ q = (set_fqdn false n, RT_AAAA)) new) ∧
    (∀ records, r = Ok records → records ≠ []).
Proof.
  intros Hrely Hok.
  destruct (safe_lookup_any (λ q, q = (set_fqdn false n, RT_A) ∨ q = (set_fqdn false n, RT_AAAA))
              (λ _, True) Hrely n) with w as (r & w' & Hrun & [Hok' _ Hcalls _]); [by left|by right|done|done|done|].
  exists r, w'. split.
  { unfold lookup. rewrite bool_decide_true by done. unfold mbind, M_bind. by rewrite Hrun. }
  split_and!; [done|done|]. intros records ->.
  assert (∀ t w1 rs w2, any_round n t w1 = Some (Some rs, w2) → rs ≠ []) as Hround.
  { intros t w1 rs w2 (? & w3 & _ & H1)%bind_run. apply bind_run in H1 as (hit & w4 & _ & H1).
    case_match; [|by injection H1 as <- _].
    apply bind_run in H1 as (up & w5 & _ & H1). destruct up as [[|y l]|]; [done| |done].
    apply bind_run in H1 as (? & w6 & _ & H1). by injection H1 as <- _. }
  unfold lookup_any in Hrun. apply bind_run in Hrun as (r4 & w1 & H4 & Hrun).
  destruct r4 as [rs|]; [injection Hrun as -> _; by eapply Hround|].
  apply bind_run in Hrun as (r6 & w2 & H6 & Hrun).
  destruct r6 as [rs|]; [injection Hrun as -> _; by eapply Hround|done].
Qed.

(** When the cache holds a decodable entry for the question once the lock is taken, the
    response is that entry's answers, whatever its age, and nothing is asked upstream. *)
Lemma cache_hit_answers `{Hickory} `{!Env} {Regex RequestInfo}
    (a : CacheForwardAuthority Regex) n t (info : option RequestInfo) w e msg :
  t ≠ RT_ANY →
  entries (others (w_ticks w) (w_cache w)) !! cache_key (to_utf8 n) t None = Some e →
  message_from_vec (response_bytes e) = Some msg →
  ∃ sp w', lookup a n t info w = Some ((Ok (answers msg), sp), w') ∧ w_calls w' = w_calls w.
Proof.
  intros Hany He Hmsg. destruct (check_cache_run (cache_key (to_utf8 n) t None) w) as (sp & w' & Hc & Hcalls & _).
  destruct (lookup_run a n t info w Hany) as (cached & sp' & w1 & Hc' & Hl).
  rewrite Hc in Hc'. rewrite He, Hmsg in Hc'. injection Hc' as <- <- <-. exists sp, w'. by rewrite Hl.
Qed.

(** C11: A successful miss answers with what upstream returned (followed by the synthesised
    AAAA records when DNS64 adds some, and then by the rest of the extended records) and stores the
    records, with the DNAME substitutions appended, under the question.  If they can be encoded, and
    the same question is asked again before another task touches the entry, it is answered with the
    stored records as they read back, without any upstream query: unless DNS64 added records, the
    substitutions are in the second answer and not in the first. *)
Theorem miss_then_hit `{Hickory} `{!Env} {Regex RequestInfo}
    (a : CacheForwardAuthority Regex) n t (info : option RequestInfo) w w1 r :
  t ≠ RT_ANY →
  let key := cache_key (to_utf8 n) t None in
  resolve_miss a key n t w = Some (Ok r, w1) →
  ∃ ans syn wa wb, let records := extend_dname (ans ++ syn) (set_fqdn false n) in
    forward_query a (set_fqdn false n) t w = Some (Ok ans, wa) ∧
    dns64_records a (set_fqdn false n) t ans wa = Some (syn, wb) ∧
    (syn = [] → r = ans) ∧ (syn ≠ [] → (ans ++ syn) `prefix_of` r) ∧
    (encodable records →
     others (w_ticks w1) (w_cache w1) = w_cache w1 →
     ∃ sp w2, lookup a n t info w1 = Some ((Ok (wire <$> records), sp), w2) ∧ w_calls w2 = w_calls w1).
Proof.
  intros Hany key Hrun.
  destruct (miss_stores a _ _ _ _ _ _ Hrun) as (ans & syn & wa & wb & Hq & Hs & H1 & H2 & Hst).
  exists ans, syn, wa, wb. split_and!; [done|done|done|done|]. intros Henc Hquiet.
  destruct (holds_answer_hit _ _ _ Henc (Hst Henc)) as (e & He & Hd).
  destruct (check_cache_run key w1) as (sp & w2 & Hc & Hcalls & _).
  destruct (lookup_run a n t info w1 Hany) as (cached & sp' & w2' & Hc' & Hl).
  fold key in Hc'. rewrite Hc in Hc'. rewrite Hquiet, He, Hd in Hc'. injection Hc' as <- <- <-.
  exists sp, w2. by rewrite Hl.
Qed.

(** C38: A failed lookup is not cached: the request leaves the cache as it was after the cache
    check.  The error is the upstream error, or the refusal of a CNAME chain, and the latter
    happens only when the check is on and the chain is longer than the limit. *)
Theorem errors_are_not_cached `{Hickory} `{!Env} {Regex}
    (a : CacheForwardAuthority Regex) key n t w e w' :
  resolve_miss a key n t w = Some (Err e, w') →
  w_cache w' = w_cache w ∧
  ((∃ ne, e = NetFailure ne ∧ forward_query a (set_fqdn false n) t w = Some (Err ne, w')) ∨
   (∃ msg ans syn wa wb, e = IoFailure msg ∧
      forward_query a (set_fqdn false n) t w = Some (Ok ans, wa) ∧
      dns64_records a (set_fqdn false n) t ans wa = Some (syn, wb) ∧
      Filter.cname_cloaking (filter a) = true ∧
      Filter.cname_chain_limit (filter a) <
        Z.of_nat (Filter.cname_chain_count (extend_dname (ans ++ syn) (set_fqdn false n))))).
Proof.
  intros Hrun. apply resolve_miss_Err in Hrun as [Hc [Hnet|Hio]]; (split; [done|]); [by left|right].
  destruct Hio as (msg & ans & syn & w1 & w2 & -> & Hq & Hs & Hck).
  exists msg, ans, syn, w1, w2. do 3 (split; [done|]).
  unfold check_cname in Hck. destruct (Filter.cname_cloaking (filter a)) eqn:Hcl; [|done].
  split; [done|]. unfold act, Filter.cname_chain_truncated in Hck. rewrite Hcl in Hck.
  injection Hck as Hck _. simpl in Hck. by breflect.
Qed.

(** C37: With a /96 prefix, an AAAA question for which upstream has no AAAA record but the name
    has A records is answered with the upstream answers, followed by exactly one AAAA record per A
    address in their order: the prefix followed by the IPv4 address, named like the question, with the
    least TTL of the A records.  Nothing follows unless there is an alias among the upstream answers. *)
Theorem dns64_answers `{Hickory} `{!Env} {Regex}
    (a : CacheForwardAuthority Regex) prefix key n w w1 ans a_answers r w' :
  dns64_prefix a = Some prefix → Dns64.len prefix = 96 → v6_wf (Dns64.addr prefix) →
  forward_query a (set_fqdn false n) RT_AAAA w = Some (Ok ans, w1) →
  existsb (is_type RT_AAAA) ans = false →
  upstream (w_calls w1) (set_fqdn false (set_fqdn false n)) RT_A = Ok a_answers →
  a_addresses a_answers ≠ [] → Forall v4_wf (a_addresses a_answers) →
  resolve_miss a key n RT_AAAA w = Some (Ok r, w') →
  ∃ synthesised rest ttl, r = ans ++ synthesised ++ rest ∧
    Forall2 (λ v4 rec, ∃ v6, rec = from_rdata (set_fqdn false n) ttl (RD_AAAA v6) ∧
               v6_to_u128 v6 = v6_to_u128 (Dns64.addr prefix) / 2 ^ 32 * 2 ^ 32 + v4_to_u32 v4)
      (a_addresses a_answers) synthesised ∧
    (∃ ra, ra ∈ a_answers ∧ record_type ra = RT_A ∧ ttl = Dns.ttl ra) ∧
    (∀ ra, ra ∈ a_answers → record_type ra = RT_A → ttl ≤ Dns.ttl ra) ∧
    ((∀ target, ¬ points_to ans target) → rest = []).
Proof.
  intros Hp Hlen Hpw Hq Hno Hup Hne Hwf Hrun.
  destruct (dns64_records_run a prefix (set_fqdn false n) ans a_answers w1 Hp Hno Hup Hne) as (w2 & Hsyn).
  destruct (resolve_miss_Ok a _ _ _ _ _ _ Hrun) as (ans' & syn & w1' & w2' & w3 & w4 & w5 & ext & Hq' & Hsyn' & _ & _ & Hf & Hr).
  rewrite Hq in Hq'. injection Hq' as <- <-. rewrite Hsyn in Hsyn'.
  apply (inj Some), (f_equal fst) in Hsyn' as Hs. cbn [fst] in Hs.
  pose proof (synthesized_each prefix (set_fqdn false n) (min_a_ttl a_answers) _ (w_metrics w1) Hlen Hpw Hwf) as Heach.
  rewrite Hs in Heach. assert (r = ext) as ->.
  { destruct syn; [|done]. apply Forall2_length in Heach. by destruct (a_addresses a_answers). }
  destruct (flatten_prefix _ _ _ _ Hf) as [rest2 Hext].
  destruct (extend_dname_prefix (ans ++ syn) (set_fqdn false n)) as [rest1 Hd]. rewrite Hd in Hext.
  exists syn, (rest1 ++ rest2), (min_a_ttl a_answers). rewrite Hext, <- !(assoc_L (++)). split_and!; [done|done| | |].
  - by apply min_a_ttl_is.
  - intros ra. apply min_a_ttl_le.
  - intros Halias. apply no_alias_plain in Hf as Hplain.
    + rewrite Hext, <- !(assoc_L (++)) in Hplain. rewrite (assoc_L (++)) in Hplain.
      rewrite <- (app_nil_r (ans ++ syn)) in Hplain at 2. by apply app_inv_head in Hplain.
    + intros target (x & Hx & Hdx). apply elem_of_app in Hx as [Hx|Hx]; [by apply (Halias target); exists x|].
      rewrite <- Hs in Hx. apply list_elem_of_fmap in Hx as (v6 & -> & _). by destruct Hdx.
Qed.

(** Zeroing the bits beyond the source prefix keeps exactly the first bits of the address
    (all of them beyond the width of the family, none for 0), so two addresses fall in the same
    cache partition exactly when they agree on the prefix, and zeroing twice changes nothing. *)
Lemma scope_zero_partition p :
  0 ≤ p →
  (∀ x y, v4_wf x → v4_wf y → let k := 32 - Z.min p 32 in
     (scope_zero_subnet (IpV4 x) p = scope_zero_subnet (IpV4 y) p ↔
        v4_to_u32 x / 2 ^ k = v4_to_u32 y / 2 ^ k) ∧
     scope_zero_subnet (scope_zero_subnet (IpV4 x) p).1 p = scope_zero_subnet (IpV4 x) p) ∧
  (∀ x y, v6_wf x → v6_wf y → let k := 128 - Z.min p 128 in
     (scope_zero_subnet (IpV6 x) p = scope_zero_subnet (IpV6 y) p ↔
        v6_to_u128 x / 2 ^ k = v6_to_u128 y / 2 ^ k) ∧
     scope_zero_subnet (scope_zero_subnet (IpV6 x) p).1 p = scope_zero_subnet (IpV6 x) p).
Proof. intros Hp. split; intros x y; [by apply scope_zero_v4|by apply scope_zero_v6]. Qed.

(** ** Witnesses *)

Section Witnesses.
Import DnsSample.

Definition host_name : @Name sample := ({| s_labels := ["www"; "example"; "org"]%string; s_fqdn := true |} : SName).
Definition other_name : @Name sample := ({| s_labels := ["nowhere"]%string; s_fqdn := true |} : SName).

(** One IPv4 address, no IPv6 address, for one name. *)
Definition v4_only (n : SName) (t : RecordType) : result string (list (RecordOf SName)) :=
  if bool_decide (s_labels n = ["www"; "example"; "org"]%string) then
    if bool_decide (t = RT_A) then Ok [from_rdata n 60 (RD_A (ipv4 192 0 2 1))] else Ok []
  else Err "no such name"%string.

Definition quiet_env : @Env sample :=
  {| clock := Z.of_nat; others := λ _ c, c; upstream := λ _ n t, v4_only n t; random_id := Z.of_nat |}.

Definition plain_filter : Filter.Filter unit :=
  {| Filter.cname_chain_limit := 8; Filter.cname_cloaking := true; Filter.rebinding := true;
     Filter.blocklist := Blocklist.new; Filter.allowlist := Blocklist.Allowlist_new;
     Filter.per_client := []; Filter.sinkhole_v4 := v4_unspecified;
     Filter.sinkhole_v6 := v6_unspecified; Filter.regex_blocklist := [] |}.

Definition authority : @CacheForwardAuthority sample unit :=
  Forward.new (root : @Name sample) true Config.ResolverQnameMinimization_default plain_filter
    (Some Dns64.well_known).

Definition small : CacheConfig := {| size_limit := 2; serve_stale := from_secs 30; prefetch := 2 |}.
Definition start : @World sample :=
  {| w_cache := Cache.new small; w_metrics := Metrics.new; w_calls := []; w_ticks := 0 |}.

Lemma quiet_rely : @rely sample quiet_env.
Proof. intros k c Hc. done. Qed.

Lemma start_ok : @ok sample start.
Proof. split; [apply wf_new|simpl; lia|apply new_filled]. Qed.

Lemma lookup_total_and_safe_witness :
  ∃ w', @prefetch_task sample quiet_env host_name RT_A start = Some (tt, w') ∧ @ok sample w'.
Proof.
  destruct (@lookup_total_and_safe sample quiet_env unit unit authority host_name RT_A None start
    quiet_rely start_ok) as [_ (w' & Hrun & Hext)].
  exists w'. split; [exact Hrun|exact (ext_ok _ _ _ _ Hext)].
Defined.

Lemma any_is_mitigated_witness :
  ∃ r w', @lookup sample quiet_env unit unit authority host_name RT_ANY None start = Some ((r, false), w') ∧
    @ok sample w'.
Proof.
  destruct (@any_is_mitigated sample quiet_env unit unit authority host_name None start quiet_rely start_ok)
    as (r & w' & Hrun & Hok & _).
  exists r, w'. split; [exact Hrun|exact Hok].
Defined.

Definition stored_message : @MessageOf SName :=
  {| msg_id := 0; msg_is_response := false; op_code := Op_Query; response_code := NoError;
     authoritative := false; recursion_desired := false;
     recursion_available := false; truncation := false; queries := [];
     answers := [from_rdata host_name 60 (RD_A (ipv4 192 0 2 9))] |}.

Definition stored_bytes : list Z := default [] (s_to_vec stored_message).

(** An entry that expired long before the clock reads. *)
Definition stale_world : @World sample :=
  {| w_cache := store (-1000000000000) (Cache.new small)
                  (@cache_key sample (@to_utf8 sample host_name) RT_A None) stored_bytes (from_secs 1);
     w_metrics := Metrics.new; w_calls := []; w_ticks := 0 |}.

Lemma cache_hit_answers_witness :
  ∃ sp w', @lookup sample quiet_env unit unit authority host_name RT_A None stale_world =
    Some ((Ok [from_rdata host_name 60 (RD_A (ipv4 192 0 2 9))], sp), w') ∧ w_calls w' = [].
Proof.
  apply (@cache_hit_answers sample quiet_env unit unit authority host_name RT_A None stale_world
           (fresh_entry (-1000000000000) stored_bytes (from_secs 1)) stored_message).
  - discriminate.
  - vm_compute. reflexivity.
  - vm_compute. reflexivity.
Defined.

Lemma miss_then_hit_witness :
  ∃ w1 sp w2,
    @resolve_miss sample quiet_env unit authority (@cache_key sample (@to_utf8 sample host_name) RT_A None)
      host_name RT_A start = Some (Ok [from_rdata (@set_fqdn sample false host_name) 60 (RD_A (ipv4 192 0 2 1))], w1) ∧
    @lookup sample quiet_env unit unit authority host_name RT_A None w1 =
      Some ((Ok [from_rdata host_name 60 (RD_A (ipv4 192 0 2 1))], sp), w2).
Proof.
  destruct (@resolve_miss sample quiet_env unit authority
    (@cache_key sample (@to_utf8 sample host_name) RT_A None) host_name RT_A start)
    as [[[r|e] w1]|] eqn:E; [|discriminate E|discriminate E].
  destruct (@miss_then_hit sample quiet_env unit unit authority host_name RT_A None start w1 r)
    as (ans & syn & wa & wb & Hq & Hs & Hr & _ & Hhit); [discriminate|exact E|].
  assert (Some (@nil (RecordOf SName), wa) = Some (syn, wb)) as Hs' by exact Hs.
  injection Hs' as <- _.
  assert (Some (Ok (E := string) [from_rdata (@set_fqdn sample false host_name) 60 (RD_A (ipv4 192 0 2 1))],
           {| w_cache := w_cache start; w_metrics := w_metrics start;
              w_calls := [(@set_fqdn sample false host_name, RT_A)]; w_ticks := 0 |}) = Some (Ok ans, wa))
    as Hq' by exact Hq.
  injection Hq' as <- _.
  rewrite (Hr eq_refl). destruct Hhit as (sp & w2 & Hl & _).
  - intros id. split; [by eexists|reflexivity].
  - reflexivity.
  - exists w1, sp, w2. split; [reflexivity|]. exact Hl.
Defined.

Lemma errors_are_not_cached_witness :
  ∃ w', @resolve_miss sample quiet_env unit authority (@cache_key sample (@to_utf8 sample other_name) RT_A None)
          other_name RT_A start = Some (Err (NetFailure (H := sample) "no such name"%string), w') ∧
    w_cache w' = w_cache start.
Proof.
  eexists. split; [reflexivity|].
  eapply (@errors_are_not_cached sample quiet_env unit authority
    (@cache_key sample (@to_utf8 sample other_name) RT_A None) other_name RT_A start). reflexivity.
Defined.

Lemma dns64_answers_witness :
  ∃ r w1, @resolve_miss sample quiet_env unit authority
    (@cache_key sample (@to_utf8 sample host_name) RT_AAAA None) host_name RT_AAAA start = Some (Ok r, w1) ∧
  ∃ rec v6, r = [rec] ∧ @data SName rec = RD_AAAA v6 ∧ v6_to_u128 v6 = 0x64ff9b * 2 ^ 96 + 0xc0000201.
Proof.
  destruct (@resolve_miss sample quiet_env unit authority
    (@cache_key sample (@to_utf8 sample host_name) RT_AAAA None) host_name RT_AAAA start)
    as [[[r|e] w1]|] eqn:E; [|discriminate E|discriminate E].
  exists r, w1. split; [reflexivity|].
  edestruct (@dns64_answers sample quiet_env unit authority Dns64.well_known
    (@cache_key sample (@to_utf8 sample host_name) RT_AAAA None) host_name start)
    as (syn & rest & t & Hr & Hall & _ & _ & Hrest).
  - reflexivity.
  - reflexivity.
  - split; [reflexivity|]. vm_compute v6_octets. unfold is_byte. each_element lia.
  - reflexivity.
  - reflexivity.
  - reflexivity.
  - discriminate.
  - apply Forall_cons_2; [|apply Forall_nil_2]. split; [reflexivity|]. unfold is_byte.
    each_element lia.
  - exact E.
  - assert (rest = []) as -> by (apply Hrest; intros target (x & Hx%elem_of_nil & _); exact Hx).
    vm_compute a_addresses in Hall. apply Forall2_cons_inv_l in Hall as (rec & syn' & (v6 & -> & Hv) & Hnil & ->).
    apply Forall2_nil_inv_l in Hnil as ->. subst r. eexists _, v6. split; [reflexivity|]. split; [reflexivity|].
    rewrite Hv. vm_compute. reflexivity.
Defined.

Lemma scope_zero_partition_witness :
  scope_zero_subnet (IpV4 (ipv4 192 0 2 123)) 24 = scope_zero_subnet (IpV4 (ipv4 192 0 2 7)) 24.
Proof.
  destruct (proj1 (scope_zero_partition 24 ltac:(lia)) (ipv4 192 0 2 123) (ipv4 192 0 2 7)) as [H _].
  - split; [reflexivity|]. unfold is_byte. each_element lia.
  - split; [reflexivity|]. unfold is_byte. each_element lia.
  - apply H. reflexivity.
Defined.

End Witnesses.

End ForwardProps.
