(* ===== verification/Proxy.v ===== *)
(** * PROXY protocol headers ([src/net/proxy.rs])

    Bytes are integers.  Indexing and slicing outside a buffer is the error [Panic], so that the
    absence of panics is a theorem and not a modelling choice. *)

From Stdlib Require Import Ascii String ZArith Lia.
From stdpp Require Import base list gmap strings numbers.
From S2P Require Import Prelude RustString RustNum RustNet.

Local Open Scope Z_scope.

Module Proxy.

Inductive ProxyVersion := V1 | V2.
Inductive ProxyCommand := CmdProxy | CmdLocal.

Record ProxyInfo := {
  version : ProxyVersion;
  command : ProxyCommand;
  source : SocketAddr
}.

Inductive ProxyError :=
  | Panic
  | MissingCrlf
  | NotUtf8
  | V1TooShort
  | V1Fields (got : nat)
  | BadSourceIp
  | BadSourcePort
  | V1Protocol (got : string)
  | V2TooShort
  | V2Version (got : Z)
  | V2Command (got : Z)
  | V2AddressShort
  | V2AddrLen (got : nat)
  | V2Family (got : Z).

Definition V1_PREFIX : list Z := [80; 82; 79; 88; 89; 32].
Definition V2_SIGNATURE : list Z := [13; 10; 13; 10; 0; 13; 10; 81; 85; 73; 84; 10].

(** [slice::starts_with]. *)
Definition bytes_start_with (p buf : list Z) : bool := bool_decide (take (length p) buf = p).

(** [buf[i]] and [&buf[i..j]]. *)
Definition index (buf : list Z) (i : nat) : result ProxyError Z := ok_or Panic (buf !! i).
Definition slice (buf : list Z) (i j : nat) : result ProxyError (list Z) :=
  if (i <=? j)%nat && (j <=? length buf)%nat then Ok (take (j - i) (drop i buf)) else Err Panic.

(** [buf.windows(2).position(|w| w == CRLF)]. *)
Fixpoint crlf_position (buf : list Z) : option nat :=
  match buf with
  | [] => None
  | a :: rest =>
      match rest with
      | [] => None
      | b :: _ => if (a =? 13) && (b =? 10) then Some 0%nat else S <$> crlf_position rest
      end
  end.

(** [std::str::from_utf8]: the well-formed sequences of RFC 3629. *)
Definition is_cont (b : Z) : bool := (128 <=? b) && (b <=? 191).

Fixpoint utf8_valid (fuel : nat) (buf : list Z) : bool :=
  match fuel with
  | O => false
  | S k =>
      match buf with
      | [] => true
      | a :: r =>
          if a <? 128 then utf8_valid k r
          else if a <? 194 then false
          else if a <? 224 then
            match r with b :: r => is_cont b && utf8_valid k r | _ => false end
          else if a <? 240 then
            match r with
            | b :: c :: r =>
                is_cont b && is_cont c && (if a =? 224 then 160 <=? b else true) &&
                (if a =? 237 then b <=? 159 else true) && utf8_valid k r
            | _ => false
            end
          else if a <? 245 then
            match r with
            | b :: c :: d :: r =>
                is_cont b && is_cont c && is_cont d && (if a =? 240 then 144 <=? b else true) &&
                (if a =? 244 then b <=? 143 else true) && utf8_valid k r
            | _ => false
            end
          else false
      end
  end.

Definition bytes_string (buf : list Z) : string :=
  string_of_list_ascii ((λ b, ascii_of_nat (Z.to_nat b)) <$> buf).

Definition from_utf8 (buf : list Z) : option string :=
  if utf8_valid (S (length buf)) buf then Some (bytes_string buf) else None.

(** [parts[i]]. *)
Definition part (parts : list string) (i : nat) : result ProxyError string := ok_or Panic (parts !! i).

Definition parse_v1 (buf : list Z) : result ProxyError (option ProxyInfo) :=
  crlf_pos ← ok_or MissingCrlf (crlf_position buf);
  head_bytes ← slice buf 0 crlf_pos;
  header ← ok_or NotUtf8 (from_utf8 head_bytes);
  let parts := Str.split " " header in
  if (length parts <? 2)%nat then Err V1TooShort
  else
    let proto := default "UNKNOWN"%string (parts !! 1%nat) in
    if bool_decide (proto = "UNKNOWN"%string) then Ok None
    else if bool_decide (proto = "TCP4"%string) then
      if (length parts <? 5)%nat then Err (V1Fields (length parts))
      else
        p2 ← part parts 2;
        src_ip ← ok_or BadSourceIp (parse_ipv4 p2);
        p4 ← part parts 4;
        src_port ← ok_or BadSourcePort (parse_u16 p4);
        Ok (Some {| version := V1; command := CmdProxy; source := SockV4 src_ip src_port |})
    else if bool_decide (proto = "TCP6"%string) then
      if (length parts <? 5)%nat then Err (V1Fields (length parts))
      else
        p2 ← part parts 2;
        src_ip ← ok_or BadSourceIp (parse_ipv6 p2);
        p4 ← part parts 4;
        src_port ← ok_or BadSourcePort (parse_u16 p4);
        Ok (Some {| version := V1; command := CmdProxy; source := SockV6 src_ip src_port 0 |})
    else Err (V1Protocol proto).

(** The octets [addr_data[i]], ..., [addr_data[i + n - 1]]. *)
Fixpoint octets_at (n i : nat) (buf : list Z) : result ProxyError (list Z) :=
  match n with
  | O => Ok []
  | S k => b ← index buf i; bs ← octets_at k (S i) buf; Ok (b :: bs)
  end.

Definition parse_v2 (buf : list Z) : result ProxyError (option ProxyInfo) :=
  if (length buf <? 16)%nat then Err V2TooShort
  else
    ver_cmd ← index buf 12;
    let ver := Z.land (Z.shiftr ver_cmd 4) 0x0F in
    let cmd := Z.land ver_cmd 0x0F in
    if negb (ver =? 2) then Err (V2Version ver)
    else
      proxy_cmd ← (if cmd =? 0 then Ok CmdProxy
                   else if cmd =? 1 then Ok CmdLocal
                   else Err (V2Command cmd));
      family ← index buf 13;
      len_bytes ← octets_at 2 14 buf;
      let addr_len := Z.to_nat (be_combine len_bytes) in
      if (length buf <? 16 + addr_len)%nat then Err V2AddressShort
      else
        addr_data ← slice buf 16 (16 + addr_len);
        if family =? 0x10 then
          if (addr_len <? 12)%nat then Err (V2AddrLen addr_len)
          else
            ip ← octets_at 4 0 addr_data;
            port ← octets_at 2 8 addr_data;
            Ok (Some {| version := V2; command := proxy_cmd;
                        source := SockV4 (V4Octets ip) (be_combine port) |})
        else if family =? 0x20 then
          if (addr_len <? 36)%nat then Err (V2AddrLen addr_len)
          else
            ip ← octets_at 16 0 addr_data;
            port ← octets_at 2 32 addr_data;
            Ok (Some {| version := V2; command := proxy_cmd;
                        source := SockV6 (V6Octets ip) (be_combine port) 0 |})
        else if family =? 0x00 then
          Ok (Some {| version := V2; command := proxy_cmd; source := SockV4 v4_unspecified 0 |})
        else if (family =? 0x30) || (family =? 0x31) then Ok None
        else Err (V2Family family).

Definition parse_proxy_header (buf : list Z) : result ProxyError (option ProxyInfo) :=
  if bytes_start_with V2_SIGNATURE buf then parse_v2 buf
  else if bytes_start_with V1_PREFIX buf then parse_v1 buf
  else Ok None.

(** ** Lemmas *)

Lemma index_Ok buf i b : index buf i = Ok b ↔ buf !! i = Some b.
Proof. apply ok_or_Ok. Qed.

Lemma octets_at_run n i buf :
  (i + n ≤ length buf)%nat → octets_at n i buf = Ok (take n (drop i buf)).
Proof.
  revert i. induction n as [|n IH]; intros i Hlen; cbn [octets_at]; [by rewrite take_0|].
  destruct (lookup_lt_is_Some_2 buf i) as [b Hb]; [lia|].
  unfold index. rewrite Hb. cbn [ok_or mbind result_bind]. rewrite IH by lia. cbn.
  by rewrite (drop_S buf b i Hb).
Qed.

Lemma slice_run buf i j :
  (i ≤ j)%nat → (j ≤ length buf)%nat → slice buf i j = Ok (take (j - i) (drop i buf)).
Proof.
  intros Hij Hj. unfold slice.
  by rewrite (proj2 (Nat.leb_le _ _) Hij), (proj2 (Nat.leb_le _ _) Hj).
Qed.

Lemma crlf_position_bound buf p : crlf_position buf = Some p → (p + 2 ≤ length buf)%nat.
Proof.
  revert p. induction buf as [|a buf IH]; intros p; [done|]. cbn [crlf_position].
  destruct buf as [|b rest]; [done|]. destruct (_ && _).
  - intros [= <-]. simpl. lia.
  - intros (q & Hq & ->)%fmap_Some. apply IH in Hq. simpl in *. lia.
Qed.

End Proxy.
