(* ===== verification/ProxyProps.v ===== *)
(** * Properties of the PROXY header parser *)

From Stdlib Require Import Ascii String ZArith Lia.
From stdpp Require Import base list gmap strings numbers.
From S2P Require Import Prelude RustString RustNum RustNet Proxy.

Local Open Scope Z_scope.

Module ProxyProps.
Import Proxy.

(** ** No panic *)

Definition no_panic {A} (r : result ProxyError A) : Prop := r ≠ Err Panic.

Lemma no_panic_bind {A B} (m : result ProxyError A) (f : A → result ProxyError B) :
  no_panic m → (∀ a, m = Ok a → no_panic (f a)) → no_panic (m ≫= f).
Proof. intros Hm Hf. unfold no_panic in *. destruct m as [a|e]; simpl; [by apply Hf|congruence]. Qed.

Lemma no_panic_ok_or {A} e (o : option A) : e ≠ Panic → no_panic (ok_or e o).
Proof. intros He. destruct o; unfold no_panic; simpl; congruence. Qed.

Lemma no_panic_index buf i : (i < length buf)%nat → no_panic (index buf i).
Proof. intros [b Hb]%lookup_lt_is_Some_2. unfold index. by rewrite Hb. Qed.

Lemma no_panic_part parts i : (i < length parts)%nat → no_panic (part parts i).
Proof. intros [b Hb]%lookup_lt_is_Some_2. unfold part. by rewrite Hb. Qed.

Lemma parse_v1_no_panic buf : no_panic (parse_v1 buf).
Proof.
  unfold parse_v1. apply no_panic_bind; [by apply no_panic_ok_or|].
  intros p Hp%ok_or_Ok. apply crlf_position_bound in Hp. rewrite slice_run by lia.
  cbn [mbind result_bind]. apply no_panic_bind; [by apply no_panic_ok_or|]. intros header _.
  destruct (_ <? 2)%nat; [done|]. case_bool_decide; [done|].
  do 2 (case_bool_decide; [destruct (Nat.ltb_spec (length (Str.split " " header)) 5) as [|Hl]; [done|];
    apply no_panic_bind; [apply no_panic_part; lia|]; intros p2 _;
    apply no_panic_bind; [by apply no_panic_ok_or|]; intros ip _;
    apply no_panic_bind; [apply no_panic_part; lia|]; intros p4 _;
    apply no_panic_bind; [by apply no_panic_ok_or|done] |]).
  done.
Qed.

(** The fields of a version 2 header after its length checks. *)
Definition v2_body (proxy_cmd : ProxyCommand) (family : Z) (addr_data : list Z) :
    result ProxyError (option ProxyInfo) :=
  let n := length addr_data in
  if family =? 0x10 then
    if (n <? 12)%nat then Err (V2AddrLen n)
    else Ok (Some {| version := V2; command := proxy_cmd;
                     source := SockV4 (V4Octets (take 4 addr_data)) (be_combine (take 2 (drop 8 addr_data))) |})
  else if family =? 0x20 then
    if (n <? 36)%nat then Err (V2AddrLen n)
    else Ok (Some {| version := V2; command := proxy_cmd;
                     source := SockV6 (V6Octets (take 16 addr_data)) (be_combine (take 2 (drop 32 addr_data))) 0 |})
  else if family =? 0x00 then
    Ok (Some {| version := V2; command := proxy_cmd; source := SockV4 v4_unspecified 0 |})
  else if (family =? 0x30) || (family =? 0x31) then Ok None
  else Err (V2Family family).

Definition v2_command (cmd : Z) : result ProxyError ProxyCommand :=
  if cmd =? 0 then Ok CmdProxy else if cmd =? 1 then Ok CmdLocal else Err (V2Command cmd).

(** [parse_v2] on a buffer with a complete fixed part, field by field. *)
Lemma parse_v2_fields pre vc fam hi lo rest :
  length pre = 12%nat → is_byte hi → is_byte lo →
  let addr_len := Z.to_nat (hi * 256 + lo) in
  parse_v2 (pre ++ vc :: fam :: hi :: lo :: rest) =
    if negb (Z.land (Z.shiftr vc 4) 0x0F =? 2) then Err (V2Version (Z.land (Z.shiftr vc 4) 0x0F))
    else c ← v2_command (Z.land vc 0x0F);
         if (length rest <? addr_len)%nat then Err V2AddressShort
         else v2_body c fam (take addr_len rest).
Proof.
  intros Hpre Hhi Hlo addr_len. unfold is_byte in *.
  assert (length (pre ++ vc :: fam :: hi :: lo :: rest) = 16 + length rest)%nat as Hl.
  { rewrite length_app, Hpre. simpl. lia. }
  unfold parse_v2. rewrite Hl. replace (16 + length rest <? 16)%nat with false by (symmetry; apply Nat.ltb_ge; lia).
  assert (∀ i x, (vc :: fam :: hi :: lo :: rest) !! i = Some x →
            index (pre ++ vc :: fam :: hi :: lo :: rest) (12 + i) = Ok x) as Hidx.
  { intros i x Hx. apply index_Ok. rewrite lookup_app_r by lia. rewrite Hpre.
    by replace (12 + i - 12)%nat with i by lia. }
  rewrite (Hidx 0%nat vc eq_refl : index _ 12 = _). cbn [mbind result_bind].
  destruct (negb _); [done|]. unfold v2_command.
  destruct (if Z.land vc 15 =? 0 then _ else _) as [c|e]; [|done]. cbn [mbind result_bind].
  rewrite (Hidx 1%nat fam eq_refl : index _ 13 = _). cbn [mbind result_bind].
  assert (octets_at 2 14 (pre ++ vc :: fam :: hi :: lo :: rest) = Ok [hi; lo]) as ->.
  { rewrite octets_at_run by lia. rewrite drop_app_ge by lia. by rewrite Hpre. }
  cbn [mbind result_bind].
  replace (be_combine [hi; lo]) with (hi * 256 + lo) by (unfold be_combine; cbn [be_combine_from]; lia).
  fold addr_len. destruct (Nat.ltb_spec (length rest) addr_len) as [Hs|Hs].
  { by replace (16 + length rest <? 16 + addr_len)%nat with true by (symmetry; apply Nat.ltb_lt; lia). }
  replace (16 + length rest <? 16 + addr_len)%nat with false by (symmetry; apply Nat.ltb_ge; lia).
  rewrite slice_run by (rewrite ?Hl; lia).
  replace (16 + addr_len - 16)%nat with addr_len by lia.
  assert (drop 16 (pre ++ vc :: fam :: hi :: lo :: rest) = rest) as ->.
  { rewrite drop_app_ge by lia. by rewrite Hpre. }
  cbn [mbind result_bind]. unfold v2_body. rewrite length_take_le by lia.
  assert (length (take addr_len rest) = addr_len) as Ht by (rewrite length_take_le; lia).
  destruct (fam =? 0x10); [|destruct (fam =? 0x20); [|done]].
  - destruct (Nat.ltb_spec addr_len 12); [done|]. by rewrite !octets_at_run by (rewrite Ht; lia).
  - destruct (Nat.ltb_spec addr_len 36); [done|]. by rewrite !octets_at_run by (rewrite Ht; lia).
Qed.

(** A buffer of 16 bytes or more, cut at the fixed fields. *)
Lemma cut_16 (buf : list Z) :
  (16 ≤ length buf)%nat →
  ∃ vc fam hi lo, buf = take 12 buf ++ vc :: fam :: hi :: lo :: drop 16 buf.
Proof.
  intros Hl.
  destruct (lookup_lt_is_Some_2 buf 12) as [vc H12]; [lia|].
  destruct (lookup_lt_is_Some_2 buf 13) as [fam H13]; [lia|].
  destruct (lookup_lt_is_Some_2 buf 14) as [hi H14]; [lia|].
  destruct (lookup_lt_is_Some_2 buf 15) as [lo H15]; [lia|].
  exists vc, fam, hi, lo. rewrite <- (drop_S _ _ _ H15), <- (drop_S _ _ _ H14), <- (drop_S _ _ _ H13),
    <- (drop_S _ _ _ H12). by rewrite take_drop.
Qed.

Lemma v2_body_no_panic c fam ad : no_panic (v2_body c fam ad).
Proof. unfold v2_body. by repeat case_match. Qed.

Lemma parse_v2_no_panic buf : Forall is_byte buf → no_panic (parse_v2 buf).
Proof.
  intros Hb. destruct (decide (16 ≤ length buf)%nat) as [Hl|Hl].
  2: { unfold parse_v2. by rewrite (proj2 (Nat.ltb_lt (length buf) 16)) by lia. }
  destruct (cut_16 buf Hl) as (vc & fam & hi & lo & Hbuf). rewrite Hbuf in Hb |- *.
  apply Forall_app in Hb as [_ Hb].
  do 4 (let H := fresh "Hbyte" in apply Forall_cons_1 in Hb as [H Hb]).
  assert (length (take 12 buf) = 12%nat) as Hpre by (rewrite length_take_le; lia).
  rewrite parse_v2_fields by done.
  destruct (negb _); [done|]. unfold v2_command.
  repeat (destruct (_ =? _); [cbn [mbind result_bind];
    destruct (_ <? _)%nat; [done|apply v2_body_no_panic]|]). done.
Qed.

(** ** Encoding *)

(** A version 2 header in the layout the parser reads, followed by other data. *)
Definition encode_v2 (cmd : ProxyCommand) (family : Z) (addr rest : list Z) : list Z :=
  V2_SIGNATURE ++ (0x20 + match cmd with CmdProxy => 0 | CmdLocal => 1 end) :: family ::
  be_split 2 (Z.of_nat (length addr)) ++ addr ++ rest.

Lemma be_split_2 x : 0 ≤ x < 65536 → ∃ hi lo, be_split 2 x = [hi; lo] ∧ is_byte hi ∧ is_byte lo ∧ hi * 256 + lo = x.
Proof.
  intros Hx. pose proof (be_split_bytes 2 x) as Hb. pose proof (be_combine_split 2 x) as Hc.
  cbn [be_split] in *. eexists _, _. split; [done|].
  apply Forall_cons_1 in Hb as [H1 Hb]. apply Forall_cons_1 in Hb as [H2 _]. split_and!; [done|done|].
  rewrite (Z.mod_small x) in Hc by (change (256 ^ Z.of_nat 2) with 65536; lia).
  rewrite <- Hc at 3. unfold be_combine. cbn [be_combine_from]. lia.
Qed.

Lemma parse_encode_v2 cmd family addr rest :
  Z.of_nat (length addr) < 65536 →
  parse_proxy_header (encode_v2 cmd family addr rest) = v2_body cmd family addr.
Proof.
  intros Hl. destruct (be_split_2 (Z.of_nat (length addr))) as (hi & lo & Hs & Hhi & Hlo & Hv); [lia|].
  unfold parse_proxy_header, encode_v2. rewrite Hs. cbn [app].
  assert (∀ l, bytes_start_with V2_SIGNATURE (V2_SIGNATURE ++ l) = true) as ->.
  { intros l. apply bool_decide_eq_true. by rewrite take_app_length. }
  rewrite parse_v2_fields, Hv, Nat2Z.id by done.
  rewrite length_app. replace (length addr + length rest <? length addr)%nat with false
    by (symmetry; apply Nat.ltb_ge; lia).
  rewrite take_app_length. by destruct cmd.
Qed.

(** ** The theorems *)

(** C29: On any bytes whatsoever the PROXY header parser returns a header, nothing or an error:
    it never reads outside the buffer. *)
Theorem proxy_parser_never_panics buf :
  Forall is_byte buf → parse_proxy_header buf ≠ Err Panic.
Proof.
  intros Hb. unfold parse_proxy_header.
  destruct (bytes_start_with V2_SIGNATURE buf); [by apply parse_v2_no_panic|].
  destruct (bytes_start_with V1_PREFIX buf); [apply parse_v1_no_panic|done].
Qed.

(** C28: A version 2 header with command nibble 0 or 1 and family byte 0x10 or 0x20 reads back
    as the source address and port that were written, whatever destination, extra address
    bytes and data follow it. *)
Theorem proxy_v2_roundtrip cmd src4 dst4 src6 dst6 sport dport extra rest :
  v4_wf src4 → v4_wf dst4 → v6_wf src6 → v6_wf dst6 → is_uint 16 sport → is_uint 16 dport →
  Z.of_nat (length extra) < 65500 →
  parse_proxy_header (encode_v2 cmd 0x10
    (v4_octets src4 ++ v4_octets dst4 ++ be_split 2 sport ++ be_split 2 dport ++ extra) rest)
  = Ok (Some {| version := V2; command := cmd; source := SockV4 src4 sport |}) ∧
  parse_proxy_header (encode_v2 cmd 0x20
    (v6_octets src6 ++ v6_octets dst6 ++ be_split 2 sport ++ be_split 2 dport ++ extra) rest)
  = Ok (Some {| version := V2; command := cmd; source := SockV6 src6 sport 0 |}).
Proof.
  intros [Ls4 _] [Ld4 _] [Ls6 _] [Ld6 _] Hsp Hdp Hx.
  assert (be_combine (be_split 2 sport) = sport) as Hport.
  { rewrite be_combine_split. apply Z.mod_small. done. }
  assert (∀ (s d : list Z), take 2 (drop (length s + length d) (s ++ d ++ be_split 2 sport ++ be_split 2 dport ++ extra))
            = be_split 2 sport) as Hcut.
  { intros s d. rewrite (assoc_L (++)), drop_app_length' by (by rewrite length_app).
    rewrite take_app_length'; [done|]. symmetry. apply length_be_split. }
  split; rewrite parse_encode_v2 by (rewrite !length_app, !length_be_split; lia); unfold v2_body.
  - cbn [Z.eqb Pos.eqb]. rewrite (proj2 (Nat.ltb_ge _ 12)) by (rewrite !length_app, !length_be_split; lia).
    specialize (Hcut (v4_octets src4) (v4_octets dst4)). rewrite Ls4, Ld4 in Hcut.
    rewrite take_app_length' by done. change 8%nat with (4 + 4)%nat. rewrite Hcut, Hport. by destruct src4.
  - cbn [Z.eqb Pos.eqb]. rewrite (proj2 (Nat.ltb_ge _ 36)) by (rewrite !length_app, !length_be_split; lia).
    specialize (Hcut (v6_octets src6) (v6_octets dst6)). rewrite Ls6, Ld6 in Hcut.
    rewrite take_app_length' by done. change 32%nat with (16 + 16)%nat. rewrite Hcut, Hport. by destruct src6.
Qed.

(** ** Witnesses *)

Definition http_like : list Z := [71; 69; 84; 32; 47].

Lemma proxy_parser_never_panics_witness : parse_proxy_header http_like ≠ Err Panic.
Proof.
  apply (proxy_parser_never_panics http_like). unfold is_byte.
  each_element lia.
Defined.

Lemma proxy_v2_roundtrip_witness :
  parse_proxy_header (encode_v2 CmdProxy 0x10
    (v4_octets (ipv4 192 0 2 1) ++ v4_octets (ipv4 10 0 0 1) ++ be_split 2 4242 ++ be_split 2 53 ++ []) [0; 1])
  = Ok (Some {| version := V2; command := CmdProxy; source := SockV4 (ipv4 192 0 2 1) 4242 |}).
Proof.
  apply (proxy_v2_roundtrip CmdProxy (ipv4 192 0 2 1) (ipv4 10 0 0 1) v6_unspecified v6_unspecified
           4242 53 [] [0; 1]);
    try (split; [reflexivity|]; vm_compute v4_octets; vm_compute v6_octets; unfold is_byte;
         each_element lia).
  - split; vm_compute; congruence.
  - split; vm_compute; congruence.
  - vm_compute. reflexivity.
Defined.

End ProxyProps.
