(* ===== verification/Tcp.v ===== *)
(** * The TCP listener ([src/net/tcp.rs])

    One connection: a stream of bytes, the PROXY header peeked at its start, and the
    length-prefixed message loop.  The connection is live: the stream is what has arrived, followed by
    the end, by silence or by nothing so far, and a connection that has not ended waits.  The number of
    bytes a peek returns, the answers of the request handler and how much of them the client takes
    are parameters. *)

From Stdlib Require Import Ascii String ZArith Lia.
From stdpp Require Import base list gmap strings numbers.
From S2P Require Import Prelude RustString RustNum RustNet Proxy.

Local Open Scope Z_scope.

Module Tcp.
Import Proxy.

Definition MAX_DNS_MESSAGE : Z := 65535.
Definition PEEK_SIZE : nat := 16.

Inductive TcpError :=
  | IoFailed
  | PeekFailed
  | NotAllowed (source : SocketAddr)
  | BadHeader (e : ProxyError).

(** What follows the bytes that have arrived: the end (the peer has closed, or reading fails), silence
    (no further byte comes while the program waits for it), or nothing so far. *)
Inductive StreamEnd := Closed | Silent | Open.

(** What a task has come to: its result, or that it waits for the peer. *)
Inductive Progress {A : Type} := Done (a : A) | Waits.
#[global] Arguments Progress : clear implicits.

(** [read_exact]: the next [n] bytes and the rest of the stream.  It has no time limit. *)
Definition read_exact (n : nat) (stream : list Z) (ending : StreamEnd) : Progress (result TcpError (list Z * list Z)) :=
  if (length stream <? n)%nat then
    match ending with Closed => Done (Err IoFailed) | Silent | Open => Waits end
  else Done (Ok (take n stream, drop n stream)).

(** With the limit of ten seconds silence is an error. *)
Definition read_exact_timeout (n : nat) (stream : list Z) (ending : StreamEnd) :
    Progress (result TcpError (list Z * list Z)) :=
  match ending, read_exact n stream ending with
  | Silent, Waits => Done (Err IoFailed)
  | _, r => r
  end.

(** The length of the header to discard, from the peeked bytes. *)
Definition header_len (v : ProxyVersion) (peeked : list Z) : nat :=
  match v with
  | V1 => match crlf_position peeked with Some p => (p + 2)%nat | None => 0%nat end
  | V2 => if (16 <=? length peeked)%nat
          then (16 + Z.to_nat (be_combine (take 2 (drop 14 peeked))))%nat else 0%nat
  end.

(** A peek waits, without a time limit, until a byte arrives or the peer closes. *)
Definition peek_waits (stream : list Z) (ending : StreamEnd) : bool :=
  match stream, ending with [], (Silent | Open) => true | _, _ => false end.

(** [peek] is the number of bytes the peek into the buffer of [PEEK_SIZE] bytes returned, [None]
    when it failed.  Returns the client address and the stream after the header. *)
Definition resolve_src_addr (peek : option nat) (stream : list Z) (ending : StreamEnd) (peer : SocketAddr)
    (proxy_enabled : bool) (proxy_allow : list string) : Progress (result TcpError (SocketAddr * list Z)) :=
  if negb proxy_enabled then Done (Ok (peer, stream))
  else
    match peek with
    | None => Done (Err PeekFailed)
    | Some n =>
        if peek_waits stream ending then Waits
        else
          let peeked := take (n `min` PEEK_SIZE)%nat stream in
          if (length peeked <? 6)%nat then Done (Ok (peer, stream))
          else
            match parse_proxy_header peeked with
            | Ok (Some info) =>
                if negb (bool_decide (proxy_allow = [])) &&
                   negb (bool_decide (show_ip (sock_ip (source info)) ∈ proxy_allow))
                then Done (Err (NotAllowed (source info)))
                else
                  let hl := header_len (version info) peeked in
                  if (0 <? hl)%nat then
                    match read_exact hl stream ending with
                    | Done (Ok (_, rest)) => Done (Ok (source info, rest))
                    | Done (Err e) => Done (Err e)
                    | Waits => Waits
                    end
                  else Done (Ok (source info, stream))
            | Ok None => Done (Ok (peer, stream))
            | Err e => Done (Err (BadHeader e))
            end
    end.

Section Connection.

(** The answers to the [i]-th message: [None] when it does not parse as a request. *)
Context (handler : nat → list Z → SocketAddr → option (list (list Z))).

(** What becomes of the answers to the [i]-th message: the client takes them all, a write fails after
    some bytes, or the client stops reading after some bytes. *)
Inductive Writing := AllWritten | WriteFails (taken : nat) | WriteBlocks (taken : nat).
Context (writing : nat → Writing).

(** The length is cast to 16 bits. *)
Definition frame (data : list Z) : list Z := be_split 2 (wrap 16 (Z.of_nat (length data))) ++ data.

(** What is written back for a message, and whether the task is stuck in writing it; a message that
    does not parse is dropped, and so is the rest of the answers when a write fails. *)
Definition handle_dns_query (i : nat) (msg : list Z) (src : SocketAddr) : list Z * bool :=
  match handler i msg src with
  | None => ([], false)
  | Some responses =>
      let data := responses ≫= frame in
      match writing i with
      | AllWritten => (data, false)
      | WriteFails taken => (take taken data, false)
      | WriteBlocks taken => (take taken data, (taken <? length data)%nat)
      end
  end.

(** The loop of [handle_connection]: the bytes written back, and whether it has ended; [None] when
    the fuel runs out. *)
Fixpoint serve (fuel i : nat) (src : SocketAddr) (stream : list Z) (ending : StreamEnd) :
    option (list Z * Progress unit) :=
  match fuel with
  | O => None
  | S k =>
      match read_exact_timeout 2 stream ending with
      | Waits => Some ([], Waits)
      | Done (Err _) => Some ([], Done tt)
      | Done (Ok (len_bytes, stream)) =>
          let msg_len := be_combine len_bytes in
          if (msg_len =? 0) || (MAX_DNS_MESSAGE <? msg_len) then Some ([], Done tt)
          else
            match read_exact_timeout (Z.to_nat msg_len) stream ending with
            | Waits => Some ([], Waits)
            | Done (Err _) => Some ([], Done tt)
            | Done (Ok (msg, stream)) =>
                let '(out, stuck) := handle_dns_query i msg src in
                if stuck then Some (out, Waits)
                else
                  '(more, p) ← serve k (S i) src stream ending;
                  Some (out ++ more, p)
            end
      end
  end.

(** Each round takes at least two bytes off the stream. *)
Definition handle_connection (peek : option nat) (stream : list Z) (ending : StreamEnd) (peer : SocketAddr)
    (proxy_enabled : bool) (proxy_allow : list string) : option (list Z * Progress (result TcpError unit)) :=
  match resolve_src_addr peek stream ending peer proxy_enabled proxy_allow with
  | Waits => Some ([], Waits)
  | Done (Err e) => Some ([], Done (Err e))
  | Done (Ok (src, stream)) =>
      '(out, p) ← serve (S (length stream)) 0 src stream ending;
      Some (out, match p with Done _ => Done (Ok tt) | Waits => Waits end)
  end.

End Connection.

(** A connection: its peer, the bytes that have arrived and what follows them, what the peek returned
    and how its answers are taken. *)
Record Connection := {
  conn_peer : SocketAddr;
  conn_stream : list Z;
  conn_end : StreamEnd;
  conn_peek : option nat;
  conn_writing : nat → Writing
}.

(** The accept loop: a failed accept is logged, and every connection gets a task of its own, with its
    own requests; what the tasks have come to, in the order in which they were accepted. *)
Definition run_tcp_listener {E} (handler : nat → nat → list Z → SocketAddr → option (list (list Z)))
    (accepted : list (result E Connection)) (proxy_enabled : bool) (proxy_allow : list string) :
    list (option (list Z * Progress (result TcpError unit))) :=
  omap (λ '(i, r), match r with
                   | Ok c => Some (handle_connection (handler i) (conn_writing c) (conn_peek c) (conn_stream c)
                                     (conn_end c) (conn_peer c) proxy_enabled proxy_allow)
                   | Err _ => None
                   end) (imap pair accepted).

End Tcp.
