(* ===== verification/TcpProps.v ===== *)
(** * Properties of the TCP listener *)

From Stdlib Require Import Ascii String ZArith Lia.
From stdpp Require Import base list gmap strings numbers.
From S2P Require Import Prelude RustString RustNum RustNet Proxy ProxyProps Tcp.

Local Open Scope Z_scope.

Module TcpProps.
Import Proxy ProxyProps Tcp.

(** ** The peek window *)

Lemma length_bytes_string buf : String.length (bytes_string buf) = length buf.
Proof. induction buf as [|b buf IH]; [done|]. exact (f_equal S IH). Qed.

(** The total length of the fields of a split line. *)
Definition fields_length (l : list string) : nat := foldr (λ x n, String.length x + n)%nat 0%nat l.

Lemma length_join_fields c l :
  l ≠ [] → String.length (StrFacts.join_fields c l) = (fields_length l + pred (length l))%nat.
Proof.
  induction l as [|x l IH]; [done|]. intros _. destruct l as [|y l].
  - simpl. lia.
  - rewrite StrFacts.join_fields_cons, StrFacts.length_app by done.
    change (String.length (String c ?t)) with (S (String.length t)). rewrite IH by done.
    cbn [fields_length foldr length pred]. unfold fields_length. lia.
Qed.

(** Four fields or more in eight bytes, the first of four bytes: not both of the second and the
    fourth can be something. *)
Lemma no_room r f1 f2 f3 f4 more :
  Str.split " " r = f1 :: f2 :: f3 :: f4 :: more → String.length f1 = 4%nat →
  (String.length r ≤ 8)%nat → f4 ≠ EmptyString → f2 = EmptyString.
Proof.
  intros Hs H1 Hr H4. pose proof (StrFacts.split_join " " r) as Hj. rewrite Hs in Hj.
  apply (f_equal String.length) in Hj. rewrite length_join_fields in Hj by done. simpl in Hj.
  destruct f4; [done|]. destruct f2; [done|]. simpl in Hj. lia.
Qed.

(** The header of a version 1 buffer, its first field cut off. *)
Lemma v1_header tl p :
  crlf_position (V1_PREFIX ++ tl) = Some p →
  ∃ q, p = (6 + q)%nat ∧ crlf_position tl = Some q ∧
    ∀ head, from_utf8 (take p (V1_PREFIX ++ tl)) = Some head →
      ∃ r, head = "PROXY " +:+ r ∧ String.length r = q ∧
           Str.split " " head = "PROXY"%string :: Str.split " " r.
Proof.
  unfold V1_PREFIX. cbn [app crlf_position]. destruct tl as [|b tl]; [done|].
  cbn [Z.eqb Pos.eqb andb]. intros Hp.
  destruct (crlf_position (b :: tl)) as [q|] eqn:Hq; [|done]. injection Hp as <-.
  exists q. split_and!; [done|done|]. intros head Hh. unfold from_utf8 in Hh.
  destruct (utf8_valid _ _); [|done]. injection Hh as <-.
  exists (bytes_string (take q (b :: tl))). split_and!; [done| |done].
  rewrite length_bytes_string. apply crlf_position_bound in Hq. rewrite length_take_le; [done|lia].
Qed.

(** In 16 bytes there is no room for an address and a port after the protocol. *)
Lemma short_v1_no_address buf info :
  (length buf ≤ 16)%nat → bytes_start_with V1_PREFIX buf = true →
  parse_v1 buf = Ok (Some info) → False.
Proof.
  intros Hl Hpre. apply bool_decide_eq_true_1 in Hpre.
  assert (buf = V1_PREFIX ++ drop 6 buf) as Hbuf by (by rewrite <- Hpre at 1; rewrite take_drop).
  set (tl := drop 6 buf) in *. clearbody tl. subst buf. clear Hpre.
  unfold parse_v1. intros (p & Hp%ok_or_Ok & H1)%bind_Ok.
  pose proof (crlf_position_bound _ _ Hp) as Hb. rewrite slice_run in H1 by lia.
  rewrite drop_0, Nat.sub_0_r in H1. cbn [mbind result_bind] in H1.
  apply bind_Ok in H1 as (header & Hh%ok_or_Ok & H1).
  destruct (v1_header tl p Hp) as (q & -> & Hq & Hr). destruct (Hr header Hh) as (r & -> & Hlen & Hsplit).
  rewrite Hsplit in H1. assert (String.length r ≤ 8)%nat as Hr8 by lia. clear Hr Hh Hsplit Hp Hq.
  destruct (Str.split " " r) as [|f1 ps] eqn:Hps; [done|]. cbn [length] in H1.
  change (("PROXY"%string :: f1 :: ps) !! 1%nat) with (Some f1) in H1. cbn [from_option] in H1. unfold id in H1.
  destruct (S (S (length ps)) <? 2)%nat; [done|]. case_bool_decide as Hu; [done|].
  assert (∀ {A} (parse : string → option A) (mk : A → Z → SocketAddr),
    parse EmptyString = None → String.length f1 = 4%nat →
    (if (S (S (length ps)) <? 5)%nat then Err (V1Fields (S (S (length ps))))
     else p2 ← part ("PROXY"%string :: f1 :: ps) 2; ip ← ok_or BadSourceIp (parse p2);
          p4 ← part ("PROXY"%string :: f1 :: ps) 4; port ← ok_or BadSourcePort (parse_u16 p4);
          Ok (Some {| version := V1; command := CmdProxy; source := mk ip port |})) = Ok (Some info) →
    False) as Hcase.
  { intros A parse mk Hnone H4 H. destruct (S (S (length ps)) <? 5)%nat eqn:E; [done|]. breflect.
    destruct ps as [|f2 [|f3 [|f4 more]]]; simpl in E; try lia.
    apply bind_Ok in H as (p2 & [= <-]%ok_or_Ok & H). apply bind_Ok in H as (ip & Hip%ok_or_Ok & H).
    apply bind_Ok in H as (p4 & [= <-]%ok_or_Ok & H). apply bind_Ok in H as (port & Hport%ok_or_Ok & _).
    rewrite (no_room r f1 f2 f3 f4 more Hps H4 Hr8) in Hip; [congruence|].
    intros ->. discriminate Hport. }
  case_bool_decide as Ht4.
  { apply (Hcase _ parse_ipv4 SockV4); [done|by rewrite Ht4|done]. }
  case_bool_decide as Ht6; [|done].
  apply (Hcase _ parse_ipv6 (λ ip port, SockV6 ip port 0)); [done|by rewrite Ht6|done].
Qed.

(** A version 2 header of exactly 16 bytes carries no address. *)
Lemma short_v2_no_address buf info :
  Forall is_byte buf → (length buf ≤ 16)%nat → parse_v2 buf = Ok (Some info) →
  source info = SockV4 v4_unspecified 0.
Proof.
  intros Hb Hl H. destruct (decide (length buf < 16)%nat) as [Hs|Hs].
  { unfold parse_v2 in H. by rewrite (proj2 (Nat.ltb_lt _ _) Hs) in H. }
  destruct (cut_16 buf) as (vc & fam & hi & lo & Hbuf); [lia|].
  assert (length (take 12 buf) = 12%nat) as Hpre by (rewrite length_take_le; lia).
  assert (drop 16 buf = []) as Hd by (apply drop_ge; lia).
  rewrite Hbuf in Hb, H. apply Forall_app in Hb as [_ Hb].
  do 4 (let H := fresh "Hbyte" in apply Forall_cons_1 in Hb as [H Hb]).
  rewrite parse_v2_fields in H by done. destruct (negb _); [done|].
  apply bind_Ok in H as (c & _ & H). rewrite Hd in H. cbn [length] in H.
  destruct (Nat.ltb_spec 0 (Z.to_nat (hi * 256 + lo))); [done|].
  replace (Z.to_nat (hi * 256 + lo)) with 0%nat in H by lia. unfold v2_body in H. cbn in H.
  repeat (destruct (_ =? _) in H; [try done|]); [by injection H as <-|].
  by destruct (_ || _) in H.
Qed.

Lemma peeked_source buf info :
  Forall is_byte buf → (length buf ≤ 16)%nat → parse_proxy_header buf = Ok (Some info) →
  source info = SockV4 v4_unspecified 0.
Proof.
  intros Hb Hl H. unfold parse_proxy_header in H.
  destruct (bytes_start_with V2_SIGNATURE buf); [by apply (short_v2_no_address buf)|].
  destruct (bytes_start_with V1_PREFIX buf) eqn:Hp; [|done].
  destruct (short_v1_no_address buf info Hl Hp H).
Qed.

(** What a version 1 header gives is marked as version 1. *)
Lemma v1_version buf info : parse_v1 buf = Ok (Some info) → version info = V1.
Proof.
  unfold parse_v1. intros (p & _ & H)%bind_Ok. apply bind_Ok in H as (hb & _ & H). apply bind_Ok in H as (hd & _ & H).
  destruct (_ <? 2)%nat; [done|]. case_bool_decide; [done|].
  repeat (case_bool_decide; [destruct (_ <? 5)%nat; [done|];
    do 4 (apply bind_Ok in H as (? & _ & H)); by injection H as <-|]). done.
Qed.

(** A header the parser accepts lies within the peeked bytes, so discarding it never waits. *)
Lemma header_peeked buf info :
  Forall is_byte buf → parse_proxy_header buf = Ok (Some info) → (header_len (version info) buf ≤ length buf)%nat.
Proof.
  intros Hb H. unfold parse_proxy_header in H. unfold header_len.
  assert (∀ b, match crlf_position b with Some p => (p + 2)%nat | None => 0%nat end ≤ length b)%nat as Hv1.
  { intros b. destruct (crlf_position b) as [p|] eqn:E; [by apply crlf_position_bound|lia]. }
  destruct (bytes_start_with V2_SIGNATURE buf); [|destruct (version info) eqn:Ev; [apply Hv1|]].
  - destruct (version info); [apply Hv1|]. destruct (Nat.leb_spec 16 (length buf)) as [Hl|]; [|lia].
    destruct (cut_16 buf Hl) as (vc & fam & hi & lo & Hbuf).
    assert (length (take 12 buf) = 12%nat) as Hpre by (rewrite length_take_le; lia).
    assert (take 2 (drop 14 buf) = [hi; lo]) as ->.
    { rewrite Hbuf, drop_app_ge by lia. by rewrite Hpre. }
    assert (length buf = 16 + length (drop 16 buf))%nat as Hlen by (rewrite length_drop; lia).
    rewrite Hbuf in Hb, H. apply Forall_app in Hb as [_ Hb].
    do 4 (let H := fresh "Hbyte" in apply Forall_cons_1 in Hb as [H Hb]).
    rewrite parse_v2_fields in H by done. destruct (negb _); [done|]. apply bind_Ok in H as (c & _ & H).
    replace (be_combine [hi; lo]) with (hi * 256 + lo) by (unfold be_combine; cbn [be_combine_from]; lia).
    destruct (Nat.ltb_spec (length (drop 16 buf)) (Z.to_nat (hi * 256 + lo))); [done|lia].
  - destruct (bytes_start_with V1_PREFIX buf) eqn:E; [|done]. pose proof (v1_version buf info H). congruence.
Qed.

(** A stream without either signature is not taken for one with a header. *)
Definition no_header (stream : list Z) : Prop :=
  bytes_start_with V2_SIGNATURE stream = false ∧ bytes_start_with V1_PREFIX stream = false.

Lemma peeked_signature p n stream :
  bytes_start_with p stream = false → bytes_start_with p (take n stream) = false.
Proof.
  unfold bytes_start_with. rewrite !bool_decide_eq_false. intros Hp E. apply Hp.
  rewrite take_take in E. assert (length p ≤ n)%nat as Hle.
  { apply (f_equal length) in E. rewrite length_take in E. lia. }
  by rewrite Nat.min_l in E.
Qed.

Lemma resolve_plain peek stream ending peer enabled allow :
  enabled = false ∨ (peek_waits stream ending = false ∧ is_Some peek ∧ no_header stream) →
  resolve_src_addr peek stream ending peer enabled allow = Done (Ok (peer, stream)).
Proof.
  unfold resolve_src_addr. intros [->|(Hw & [n ->] & H2 & H1)]; [done|]. destruct enabled; [|done]. cbn [negb].
  rewrite Hw. destruct (_ <? 6)%nat; [done|]. unfold parse_proxy_header.
  by rewrite !peeked_signature.
Qed.

(** Only the peek at a connection from which nothing has come waits. *)
Lemma resolve_waits peek stream ending peer enabled allow :
  Forall is_byte stream → resolve_src_addr peek stream ending peer enabled allow = Waits →
  enabled = true ∧ stream = [] ∧ ending ≠ Closed.
Proof.
  intros Hb. unfold resolve_src_addr. destruct enabled; [|done]. cbn [negb]. destruct peek as [n|]; [|done].
  destruct (peek_waits stream ending) eqn:Hw; [intros _; destruct stream, ending; done|]. cbv zeta.
  destruct (_ <? 6)%nat; [done|]. destruct (parse_proxy_header _) as [[info|]|e] eqn:Hp; [|done..].
  destruct (_ && _); [done|]. destruct (0 <? _)%nat; [|done].
  apply header_peeked in Hp; [|by apply Forall_take]. rewrite length_take in Hp.
  unfold read_exact. rewrite (proj2 (Nat.ltb_ge _ _)) by lia. done.
Qed.

(** What has been found out is not changed by what arrives later, if the peek saw no more than what had
    arrived. *)
Lemma resolve_later peek stream more ending peer enabled allow r :
  (∀ n, peek = Some n → (n ≤ length stream)%nat) →
  resolve_src_addr peek stream Open peer enabled allow = Done r →
  resolve_src_addr peek (stream ++ more) ending peer enabled allow =
    Done (match r with Ok (src, rest) => Ok (src, rest ++ more) | Err e => Err e end).
Proof.
  intros Hn. unfold resolve_src_addr. destruct enabled; cbn [negb]; [|by intros [= <-]].
  destruct peek as [n|]; [|by intros [= <-]]. specialize (Hn n eq_refl).
  destruct stream as [|b stream]; [done|]. cbn [peek_waits app]. cbv zeta.
  change (b :: stream ++ more) with ((b :: stream) ++ more). rewrite take_app_le by lia.
  set (s := b :: stream) in *. set (peeked := take (n `min` PEEK_SIZE) s).
  destruct (_ <? 6)%nat; [by intros [= <-]|].
  destruct (parse_proxy_header peeked) as [[info|]|e]; [|by intros [= <-]..].
  destruct (_ && _); [by intros [= <-]|]. set (hl := header_len (version info) peeked).
  destruct (0 <? hl)%nat; [|by intros [= <-]]. unfold read_exact. rewrite length_app.
  destruct (Nat.ltb_spec (length s) hl) as [|Hl]; [done|]. intros [= <-].
  rewrite (proj2 (Nat.ltb_ge (length s + length more) hl)), drop_app_le by lia. done.
Qed.

(** A version 2 header without an address, whatever its command. *)
Definition empty_header (command : Z) : list Z := V2_SIGNATURE ++ [0x20 + command; 0; 0; 0].

Lemma resolve_empty_header command n stream ending peer allow :
  command ∈ [0; 1] → (16 ≤ n)%nat →
  resolve_src_addr (Some n) (empty_header command ++ stream) ending peer true allow =
  Done (if decide (allow = [] ∨ "0.0.0.0"%string ∈ allow) then Ok (SockV4 v4_unspecified 0, stream)
        else Err (NotAllowed (SockV4 v4_unspecified 0))).
Proof.
  intros Hc Hn. unfold resolve_src_addr. cbn [negb].
  assert (length (empty_header command) = 16%nat) as Hl by done.
  assert (take (n `min` PEEK_SIZE) (empty_header command ++ stream) = empty_header command) as ->.
  { unfold PEEK_SIZE. by rewrite Nat.min_r, take_app_length' by lia. }
  assert (∃ c, parse_proxy_header (empty_header command) =
    Ok (Some {| version := V2; command := c; source := SockV4 v4_unspecified 0 |})) as [c ->].
  { repeat (apply elem_of_cons in Hc as [->|Hc]; [eexists; vm_compute; reflexivity|]). by apply elem_of_nil in Hc. }
  change (peek_waits (empty_header command ++ stream) ending) with false. cbv iota zeta. rewrite Hl.
  cbn [Nat.ltb Nat.leb version source].
  change (show_ip (sock_ip (SockV4 v4_unspecified 0))) with "0.0.0.0"%string.
  change (header_len V2 (empty_header command)) with 16%nat. cbn [Nat.ltb Nat.leb].
  unfold read_exact. rewrite length_app, Hl, (proj2 (Nat.ltb_ge _ _)) by lia. rewrite drop_app_length' by done.
  case_decide as Ha.
  - destruct Ha as [->|Ha]; [done|]. by rewrite (bool_decide_true _ Ha), andb_false_r.
  - apply Decidable.not_or in Ha as [Hne Hnin]. by rewrite !bool_decide_false.
Qed.

(** ** The message loop *)

Lemma read_exact_Ok n stream ending a b :
  read_exact_timeout n stream ending = Done (Ok (a, b)) → stream = a ++ b ∧ length a = n.
Proof.
  unfold read_exact_timeout, read_exact. destruct (Nat.ltb_spec (length stream) n); [by destruct ending|].
  intros H1. assert ((take n stream, drop n stream) = (a, b)) as [= <- <-] by (destruct ending; by simplify_eq).
  rewrite take_drop. split; [done|]. by apply length_take_le.
Qed.

Lemma read_exact_enough n stream more ending :
  (n ≤ length stream)%nat → read_exact_timeout n (stream ++ more) ending = Done (Ok (take n stream, drop n stream ++ more)).
Proof.
  intros Hn. unfold read_exact_timeout, read_exact. rewrite length_app, (proj2 (Nat.ltb_ge _ _)) by lia.
  rewrite take_app_le, drop_app_le by lia. by destruct ending.
Qed.

Lemma read_exact_app a b ending : read_exact_timeout (length a) (a ++ b) ending = Done (Ok (a, b)).
Proof. rewrite read_exact_enough by lia. by rewrite take_ge, drop_ge. Qed.

(** Too few bytes: the task waits on an open connection, and otherwise reading fails. *)
Lemma read_exact_short n stream ending :
  (length stream < n)%nat →
  read_exact_timeout n stream ending = match ending with Open => Waits | _ => Done (Err IoFailed) end.
Proof.
  intros Hn. unfold read_exact_timeout, read_exact. rewrite (proj2 (Nat.ltb_lt _ _) Hn). by destruct ending.
Qed.

Lemma read_exact_waits n stream ending : read_exact_timeout n stream ending = Waits → ending = Open.
Proof. unfold read_exact_timeout, read_exact. destruct (_ <? _)%nat; by destruct ending. Qed.

Section Loop.
Context (handler : nat → list Z → SocketAddr → option (list (list Z))) (writing : nat → Writing).

#[local] Notation serve := (serve handler writing).

(** The loop has an outcome for every stream: it waits only on an open connection or for a client that
    does not take its answers. *)
Lemma serve_total fuel i src stream ending :
  (length stream < fuel)%nat →
  ∃ out p, serve fuel i src stream ending = Some (out, p) ∧
    (p = Waits → ending = Open ∨ ∃ j k, writing j = WriteBlocks k).
Proof.
  revert i stream. induction fuel as [|fuel IH]; intros i stream Hf; [lia|]. cbn [Tcp.serve].
  destruct (read_exact_timeout 2 stream ending) as [[[lb s1]|e]|] eqn:E1.
  2: { by eexists _, _. }
  2: { eexists _, _. split; [done|]. intros _. left. by eapply read_exact_waits. }
  destruct (_ || _); [by eexists _, _|].
  destruct (read_exact_timeout _ s1 ending) as [[[msg s2]|e]|] eqn:E2.
  2: { by eexists _, _. }
  2: { eexists _, _. split; [done|]. intros _. left. by eapply read_exact_waits. }
  apply read_exact_Ok in E1 as [-> L1]. apply read_exact_Ok in E2 as [-> _]. rewrite !length_app in Hf.
  destruct (handle_dns_query handler writing i msg src) as [o stuck] eqn:Eh. destruct stuck.
  - eexists _, _. split; [done|]. intros _. right. unfold handle_dns_query in Eh.
    destruct (handler i msg src); [|done]. destruct (writing i) as [| |k] eqn:Ew; [done..|]. by exists i, k.
  - destruct (IH (S i) s2) as (out & p & -> & Hp); [lia|]. by eexists _, _.
Qed.

(** What has been written stays written, and a loop that has ended is not changed by what arrives later. *)
Lemma serve_later fuel fuel' i src stream more ending out p out' p' :
  (fuel ≤ fuel')%nat → serve fuel i src stream Open = Some (out, p) →
  serve fuel' i src (stream ++ more) ending = Some (out', p') →
  out `prefix_of` out' ∧ (p = Done tt → p' = Done tt ∧ out' = out).
Proof.
  revert fuel' i stream out p out' p'. induction fuel as [|fuel IH]; intros fuel' i stream out p out' p' Hf; [done|].
  destruct fuel' as [|fuel']; [lia|]. cbn [Tcp.serve].
  destruct (decide (length stream < 2)%nat) as [Hl|Hl].
  { rewrite (read_exact_short 2 stream Open Hl). intros [= <- <-] _. split; [apply prefix_nil|done]. }
  rewrite read_exact_enough by lia. rewrite <- (app_nil_r stream) at 1. rewrite read_exact_enough, app_nil_r by lia.
  destruct (_ || _); [intros [= <- <-] [= <- <-]; done|].
  set (n := Z.to_nat (be_combine (take 2 stream))). set (s1 := drop 2 stream).
  destruct (decide (length s1 < n)%nat) as [Hn|Hn].
  { rewrite (read_exact_short n s1 Open Hn). intros [= <- <-] _. split; [apply prefix_nil|done]. }
  rewrite read_exact_enough by lia. rewrite <- (app_nil_r s1) at 1. rewrite read_exact_enough, app_nil_r by lia.
  destruct (handle_dns_query handler writing i (take n s1) src) as [o stuck].
  destruct stuck; [intros [= <- <-] [= <- <-]; done|].
  destruct (serve fuel (S i) src (drop n s1) Open) as [[o1 p1]|] eqn:E1; [|done].
  destruct (serve fuel' (S i) src (drop n s1 ++ more) ending) as [[o2 p2]|] eqn:E2; [|done].
  intros [= <- <-] [= <- <-]. destruct (IH fuel' (S i) _ _ _ _ _ ltac:(lia) E1 E2) as [Hpre Hend].
  split; [by apply prefix_app|]. intros Hp. by destruct (Hend Hp) as [-> ->].
Qed.

Definition message_wf (m : list Z) : Prop := 0 < Z.of_nat (length m) ≤ 65535.

(** One round on a whole message. *)
Lemma serve_message k i src m rest ending :
  message_wf m →
  serve (S k) i src (frame m ++ rest) ending =
  let '(out, stuck) := handle_dns_query handler writing i m src in
  if stuck then Some (out, Waits) else '(more, p) ← serve k (S i) src rest ending; Some (out ++ more, p).
Proof.
  unfold message_wf. intros Hm. cbn [Tcp.serve]. unfold frame. rewrite wrap_small by lia. rewrite <- (assoc_L (++)).
  pose proof (read_exact_app (be_split 2 (Z.of_nat (length m))) (m ++ rest) ending) as H2.
  rewrite length_be_split in H2. rewrite H2. cbv iota zeta beta.
  rewrite be_combine_split, Z.mod_small by (change (256 ^ Z.of_nat 2) with 65536; lia).
  rewrite (proj2 (Z.eqb_neq _ _)) by lia. unfold MAX_DNS_MESSAGE.
  rewrite (proj2 (Z.ltb_ge _ _)) by lia. cbn [orb]. by rewrite Nat2Z.id, read_exact_app.
Qed.

(** The answers to a sequence of messages, in order. *)
Definition answers_to (ms : list (list Z)) (src : SocketAddr) : list Z :=
  imap (λ k m, match handler k m src with None => [] | Some responses => responses ≫= frame end) ms ≫= id.

Lemma serve_frames_from ms i src tail ending :
  (∀ j, writing j = AllWritten) → Forall message_wf ms → (length tail < 2)%nat →
  ∀ fuel, (length ms < fuel)%nat →
  serve fuel i src ((ms ≫= frame) ++ tail) ending =
    Some (imap (λ k m, match handler (i + k) m src with None => [] | Some responses => responses ≫= frame end) ms ≫= id,
          match ending with Open => Waits | _ => Done tt end).
Proof.
  intros Hw Hms Ht. revert i. induction Hms as [|m ms Hm Hms IH]; intros i fuel Hf;
    (destruct fuel as [|fuel]; [simpl in Hf; lia|]).
  - cbn [Tcp.serve mbind list_bind app]. rewrite read_exact_short by done. by destruct ending.
  - change ((m :: ms) ≫= frame) with (frame m ++ (ms ≫= frame)). rewrite <- (assoc_L (++)).
    rewrite serve_message by done.
    assert (handle_dns_query handler writing i m src =
      (match handler i m src with None => [] | Some responses => responses ≫= frame end, false)) as ->.
    { unfold handle_dns_query. rewrite Hw. by destruct (handler i m src). }
    rewrite IH by (simpl in Hf; lia). cbn [mbind option_bind]. f_equal.
    rewrite imap_cons, Nat.add_0_r. cbn [mbind list_bind]. unfold id at 1. f_equal. f_equal.
    f_equal. apply imap_ext. intros k x _. simpl. by rewrite Nat.add_succ_r.
Qed.

Lemma length_frames (ms : list (list Z)) : (length ms ≤ length (ms ≫= frame))%nat.
Proof.
  induction ms as [|m ms IH]; [done|]. change ((m :: ms) ≫= frame) with (frame m ++ (ms ≫= frame)).
  rewrite length_app. unfold frame at 1. rewrite length_app, length_be_split. simpl. lia.
Qed.

Lemma serve_frames ms src tail ending :
  (∀ j, writing j = AllWritten) → Forall message_wf ms → (length tail < 2)%nat →
  serve (S (length ((ms ≫= frame) ++ tail))) 0 src ((ms ≫= frame) ++ tail) ending =
    Some (answers_to ms src, match ending with Open => Waits | _ => Done tt end).
Proof.
  intros Hw Hms Ht. rewrite (serve_frames_from ms 0 src tail ending Hw Hms Ht); [done|].
  rewrite length_app. pose proof (length_frames ms). lia.
Qed.

End Loop.

(** ** Whole connections *)

(** A header is only refused when one of the signatures was peeked. *)
Lemma header_error_long buf e : parse_proxy_header buf = Err e → (length buf <? 6)%nat = false.
Proof.
  assert (∀ p, bytes_start_with p buf = true → (length p ≤ length buf)%nat) as Hl.
  { intros p Hp%bool_decide_eq_true_1. rewrite <- Hp at 1. rewrite length_take. lia. }
  intros He. apply Nat.ltb_ge. unfold parse_proxy_header in He.
  destruct (bytes_start_with V2_SIGNATURE buf) eqn:E2; [apply Hl in E2; cbn in E2; lia|].
  destruct (bytes_start_with V1_PREFIX buf) eqn:E1; [by apply Hl in E1|done].
Qed.

(** [PROXY UNKNOWN] and the end of the line. *)
Definition unknown_header : list Z := V1_PREFIX ++ [85; 78; 75; 78; 79; 87; 78; 13; 10].

Lemma unknown_is_none k rest : (15 ≤ k)%nat → parse_proxy_header (take (k `min` 16) (unknown_header ++ rest)) = Ok None.
Proof.
  intros Hk. rewrite take_app, take_ge by (change (length unknown_header) with 15%nat; lia).
  destruct (take (k `min` 16 - length unknown_header) rest) as [|b [|c l]] eqn:E; [vm_compute; reflexivity|reflexivity|].
  apply (f_equal length) in E. rewrite length_take in E. cbn [length] in E. change (length unknown_header) with 15%nat in E. lia.
Qed.

Lemma unknown_header_served handler writing n rest ending peer allow :
  (15 ≤ n)%nat → ending ≠ Open → Z.of_nat (length rest) < 20549 →
  handle_connection handler writing (Some n) (unknown_header ++ rest) ending peer true allow = Some ([], Done (Ok tt)).
Proof.
  intros Hn Ho Hr. unfold handle_connection.
  assert (resolve_src_addr (Some n) (unknown_header ++ rest) ending peer true allow = Done (Ok (peer, unknown_header ++ rest))) as ->.
  { unfold resolve_src_addr. cbn [negb peek_waits unknown_header V1_PREFIX app]. cbv zeta. unfold PEEK_SIZE.
    pose proof (unknown_is_none n rest Hn) as Hu. cbn [unknown_header V1_PREFIX app] in Hu. rewrite Hu. by destruct (_ <? 6)%nat. }
  cbn [serve].
  rewrite read_exact_enough by (change (length unknown_header) with 15%nat; lia).
  change (take 2 unknown_header) with [80; 82]. cbv zeta. change (be_combine [80; 82]) with 20562. cbn [Z.eqb orb].
  change (MAX_DNS_MESSAGE <? 20562) with false. cbv iota.
  rewrite read_exact_short; [by destruct ending|].
  match goal with |- (?n < _)%nat => change n with (13 + length rest)%nat end. lia.
Qed.

(** What a connection has written stays written, and one that has ended has ended. *)
Lemma connection_later handler writing peek peer enabled allow stream more ending out p out' p' :
  (∀ n, peek = Some n → (n ≤ length stream)%nat) →
  handle_connection handler writing peek stream Open peer enabled allow = Some (out, p) →
  handle_connection handler writing peek (stream ++ more) ending peer enabled allow = Some (out', p') →
  out `prefix_of` out' ∧ ∀ r, p = Done r → p' = Done r ∧ out' = out.
Proof.
  intros Hn. unfold handle_connection.
  destruct (resolve_src_addr peek stream Open peer enabled allow) as [r|] eqn:Er.
  2: { intros [= <- <-] _. split; [apply prefix_nil|done]. }
  rewrite (resolve_later _ _ more ending _ _ _ _ Hn Er). destruct r as [[src rest]|e].
  2: { intros [= <- <-] [= <- <-]. done. }
  destruct (serve _ _ _ _ _ rest Open) as [[o1 p1]|] eqn:E1; [|done].
  destruct (serve _ _ _ _ _ (rest ++ more) ending) as [[o2 p2]|] eqn:E2; [|done].
  intros [= <- <-] [= <- <-].
  destruct (serve_later handler writing (S (length rest)) (S (length (rest ++ more))) 0 src rest more ending o1 p1 o2 p2)
    as [Hpre Hend]; [rewrite length_app; lia|done..|].
  split; [done|]. intros r Hr. destruct p1 as [[]|]; [|done]. by destruct (Hend eq_refl) as [-> ->].
Qed.

(** ** The theorems *)

(** C30: With the PROXY protocol on, no client address is ever taken from a PROXY header: the
    peeked window of 16 bytes has no room for one.  A connection is attributed to its peer or
    to 0.0.0.0:0, and to the peer alone when an allow list without 0.0.0.0 is set. *)
Theorem proxied_address_never_used peek stream ending peer enabled allow src rest :
  Forall is_byte stream →
  resolve_src_addr peek stream ending peer enabled allow = Done (Ok (src, rest)) →
  (src = peer ∨ src = SockV4 v4_unspecified 0) ∧
  (allow ≠ [] → "0.0.0.0"%string ∉ allow → src = peer).
Proof.
  intros Hb. unfold resolve_src_addr. destruct enabled; cbn [negb]; [|intros [= <- _]; tauto].
  destruct peek as [n|]; [|done]. destruct (peek_waits _ _); [done|]. cbv zeta.
  destruct (_ <? 6)%nat; [intros [= <- _]; tauto|].
  destruct (parse_proxy_header (take _ stream)) as [[info|]|e] eqn:Hp; [|intros [= <- _]; tauto|done].
  assert (source info = SockV4 v4_unspecified 0) as Hsrc.
  { eapply peeked_source; [by apply Forall_take| |exact Hp].
    rewrite length_take. unfold PEEK_SIZE. lia. }
  rewrite Hsrc. change (show_ip (sock_ip (SockV4 v4_unspecified 0))) with "0.0.0.0"%string.
  destruct (_ && _) eqn:Hallow; [done|]. intros H.
  assert (src = SockV4 v4_unspecified 0) as ->.
  { destruct (_ <? _)%nat in H; [destruct (read_exact _ _ _) as [[[]|]|]; [by injection H as <- _|done..]|by injection H as <- _]. }
  split; [by right|]. intros Hne Hnin. apply andb_false_iff in Hallow as [Ha|Ha]; breflect; done.
Qed.

(** C14: What becomes of a connection, with the PROXY protocol (as the server starts the listener) or
    without.  On a stream of length-prefixed messages (each of 1 to 65535 bytes, what follows too short
    for another length) that begins with no PROXY signature, the messages are handled in order, each
    exactly once and unaltered, as from the peer, and the answers are written back in that order, each
    with its length before it, as long as the client takes them.  A version 2 header without an address
    is taken off the stream, and the messages after it are handled in the same way as from 0.0.0.0:0,
    unless an allow list leaves that out: then, and after a header that cannot be parsed, nothing is
    written and the connection ends in an error.  "PROXY UNKNOWN" is read as no header and is not taken
    off: it is the start of a message of 20562 bytes, so nothing is answered to a client that sends less.
    What has been written stays written, and a connection that has ended is not changed by anything that
    arrives later.  A connection ends when the client closes or stays silent for ten seconds within the
    messages, but a client that sends nothing at all is waited for without limit when the protocol is on,
    and so is one that does not take its answers. *)
Theorem connection_serves_in_order handler writing peek peer enabled allow :
  let serving := λ stream ending, handle_connection handler writing peek stream ending peer enabled allow in
  let unspecified := SockV4 v4_unspecified 0 in
  (∀ ms tail ending, Forall message_wf ms → (length tail < 2)%nat → (∀ i, writing i = AllWritten) →
     let messages := (ms ≫= frame) ++ tail in
     let finish := match ending with Open => Waits | _ => Done (Ok tt) end in
     (enabled = false ∨ (peek_waits messages ending = false ∧ is_Some peek ∧ no_header messages) →
      serving messages ending = Some (answers_to handler ms peer, finish)) ∧
     (∀ command n, enabled = true → command ∈ [0; 1] → peek = Some n → (16 ≤ n)%nat →
      serving (empty_header command ++ messages) ending =
        Some (if decide (allow = [] ∨ "0.0.0.0"%string ∈ allow) then (answers_to handler ms unspecified, finish)
              else ([], Done (Err (NotAllowed unspecified)))))) ∧
  (∀ stream ending n e, enabled = true → peek = Some n → stream ≠ [] →
     parse_proxy_header (take (n `min` 16) stream) = Err e →
     serving stream ending = Some ([], Done (Err (BadHeader e)))) ∧
  (∀ rest ending n, enabled = true → peek = Some n → (15 ≤ n)%nat → ending ≠ Open → Z.of_nat (length rest) < 20549 →
     serving (unknown_header ++ rest) ending = Some ([], Done (Ok tt))) ∧
  (∀ m rest ending responses taken, message_wf m → handler 0%nat m peer = Some responses →
     writing 0%nat = WriteBlocks taken → (taken < length (responses ≫= frame))%nat →
     enabled = false ∨ (is_Some peek ∧ no_header (frame m ++ rest)) →
     serving (frame m ++ rest) ending = Some (take taken (responses ≫= frame), Waits)) ∧
  (∀ stream more ending out p out' p', (∀ n, peek = Some n → (n ≤ length stream)%nat) →
     serving stream Open = Some (out, p) → serving (stream ++ more) ending = Some (out', p') →
     out `prefix_of` out' ∧ ∀ r, p = Done r → p' = Done r ∧ out' = out) ∧
  (∀ stream ending, Forall is_byte stream → ∃ out p, serving stream ending = Some (out, p) ∧
     (p = Waits → ending = Open ∨ (enabled = true ∧ stream = [] ∧ ending = Silent) ∨ ∃ i k, writing i = WriteBlocks k)) ∧
  (enabled = true → is_Some peek → serving [] Silent = Some ([], Waits)).
Proof.
  intros serving unspecified. split_and!.
  - intros ms tail ending Hms Ht Hw messages finish. unfold serving, handle_connection. split.
    + intros Hp. rewrite resolve_plain by done. unfold messages, finish. rewrite serve_frames by done. by destruct ending.
    + intros command n -> Hc -> Hn. rewrite resolve_empty_header by done. case_decide; [|done].
      unfold messages, finish. rewrite serve_frames by done. by destruct ending.
  - intros stream ending n e -> -> Hne He. unfold serving, handle_connection, resolve_src_addr. cbn [negb].
    destruct stream as [|b stream]; [done|]. cbn [peek_waits]. cbv zeta. unfold PEEK_SIZE.
    rewrite He. by rewrite (header_error_long _ _ He).
  - intros rest ending n -> -> Hn Ho Hr. by apply unknown_header_served.
  - intros m rest ending responses taken Hm Hh Hw Ht Hp. unfold serving, handle_connection.
    rewrite resolve_plain by (destruct Hp as [|[]]; [by left|by right]).
    rewrite serve_message by done. unfold handle_dns_query. by rewrite Hh, Hw, (proj2 (Nat.ltb_lt _ _) Ht).
  - intros stream more ending out p out' p'. apply connection_later.
  - intros stream ending Hb. unfold serving, handle_connection.
    destruct (resolve_src_addr _ _ _ _ _ _) as [[[src rest]|e]|] eqn:Er; [|by eexists _, _|].
    + destruct (serve_total handler writing (S (length rest)) 0 src rest ending) as (out & p & -> & Hp); [lia|].
      eexists _, _. split; [done|]. destruct p; [done|]. intros _. destruct (Hp eq_refl); [by left|by right; right].
    + apply resolve_waits in Er as (-> & -> & He); [|done]. eexists _, _. split; [done|]. intros _.
      destruct ending; [done|right; left|left]; done.
  - intros -> [n ->]. done.
Qed.

(** ** Witnesses *)

Definition peer_addr : SocketAddr := SockV4 (ipv4 198 51 100 7) 40000.

(** A version 2 header without address, 16 bytes long. *)
Definition unspec_header : list Z := [13; 10; 13; 10; 0; 13; 10; 81; 85; 73; 84; 10; 0x20; 0; 0; 0].

Lemma proxied_address_never_used_witness :
  resolve_src_addr (Some 16%nat) unspec_header Open peer_addr true [] = Done (Ok (SockV4 v4_unspecified 0, [])) ∧
  (SockV4 v4_unspecified 0 = peer_addr ∨ SockV4 v4_unspecified 0 = SockV4 v4_unspecified 0).
Proof.
  split; [vm_compute; reflexivity|].
  apply (proxied_address_never_used (Some 16%nat) unspec_header Open peer_addr true [] (SockV4 v4_unspecified 0) []).
  - unfold unspec_header, is_byte. each_element lia.
  - vm_compute. reflexivity.
Defined.

(** Two messages and a cut length with the protocol on, from a silent and from an open connection; a
    header before them; and a later stream. *)
Lemma connection_serves_in_order_witness :
  let echo := λ _ m _, Some [m] in
  let all := λ _, AllWritten in
  let messages := ([[7; 8]; [9]] ≫= frame) ++ [0] in
  handle_connection echo all (Some 8%nat) messages Silent peer_addr true [] = Some ([0; 2; 7; 8; 0; 1; 9], Done (Ok tt)) ∧
  handle_connection echo all (Some 8%nat) messages Open peer_addr true [] = Some ([0; 2; 7; 8; 0; 1; 9], Waits) ∧
  handle_connection echo all (Some 16%nat) (empty_header 1 ++ messages) Silent peer_addr true ["0.0.0.0"%string] =
    Some ([0; 2; 7; 8; 0; 1; 9], Done (Ok tt)) ∧
  [0; 2; 7; 8; 0; 1; 9] `prefix_of` [0; 2; 7; 8; 0; 1; 9; 0; 1; 5].
Proof.
  cbn zeta.
  destruct (connection_serves_in_order (λ _ m _, Some [m]) (λ _, AllWritten) (Some 8%nat) peer_addr true [])
    as (Hserve & _ & _ & _ & Hlater & _).
  destruct (connection_serves_in_order (λ _ m _, Some [m]) (λ _, AllWritten) (Some 16%nat) peer_addr true ["0.0.0.0"%string])
    as (Hheader & _).
  assert (Forall message_wf [[7; 8]; [9]]) as Hms by (unfold message_wf; each_element ltac:(simpl; lia)).
  split_and!.
  - apply (Hserve [[7; 8]; [9]] [0] Silent Hms); [simpl; lia|done|]. right. by split_and!; [|eexists|].
  - apply (Hserve [[7; 8]; [9]] [0] Open Hms); [simpl; lia|done|]. right. by split_and!; [|eexists|].
  - destruct (Hheader [[7; 8]; [9]] [0] Silent Hms) as [_ Hh]; [simpl; lia|done|].
    rewrite (Hh 1 16%nat); [|done|set_solver|done|lia]. by rewrite decide_True by (right; set_solver).
  - destruct (Hlater (([[7; 8]; [9]] ≫= frame) ++ [0]) [1; 5] Closed [0; 2; 7; 8; 0; 1; 9] Waits [0; 2; 7; 8; 0; 1; 9; 0; 1; 5]
      (Done (Ok tt))) as [Hpre _]; [intros n [= <-]; vm_compute; lia|vm_compute; reflexivity..|exact Hpre].
Defined.

End TcpProps.
