(* ===== verification/QueryLog.v ===== *)
(** * The query log writer ([src/core/log/query_log.rs])

    A bounded channel in front of a task that collects events and flushes them in batches to the
    database.  The task is a loop around a selection between the next event and a timer; one
    iteration is [round], and a run is a sequence of actions of the senders and rounds of the task,
    in any interleaving.  Whether the database can be reached for a batch is a parameter. *)

From Stdlib Require Import Ascii String ZArith Lia.
From stdpp Require Import base list strings numbers.
From S2P Require Import Prelude RustString RustNum.

Local Open Scope Z_scope.

Module QueryLog.

Record QueryEvent := {
  ts : Z;
  ev_qname : string;
  ev_qtype : Z;
  ev_client : string;
  ev_rcode : Z;
  ev_answers : Z;
  latency_ms : Z;
  from_cache : bool;
  ev_blocked : bool
}.

Record QueryLogConfig := {
  postgres_url : option string;
  table : string;
  buffer_size : nat;
  flush_interval_ms : Z
}.

Definition default_url : string := "postgresql://postgres@localhost:5432/dnsquerylogs".

(** Capacity of the channel. *)
Definition channel_capacity : nat := Z.to_nat 1024.

(** ** Rows *)

(** [x as i32], [x as i16]: the low bits, read with a sign. *)
Definition as_signed (w x : Z) : Z :=
  let y := wrap w x in if y <? 2 ^ (w - 1) then y else y - 2 ^ w.

(** The parameters bound to the insertion of an event. *)
Record Row := {
  row_qname : string;
  row_qtype : Z;
  row_client : string;
  row_rcode : Z;
  row_answers : Z;
  row_latency : Z;
  row_from_cache : bool;
  row_blocked : bool
}.

Definition row (e : QueryEvent) : Row :=
  {| row_qname := Str.trim_end_matches "." (ev_qname e); row_qtype := as_signed 32 (ev_qtype e);
     row_client := ev_client e; row_rcode := as_signed 16 (ev_rcode e);
     row_answers := as_signed 32 (ev_answers e); row_latency := as_signed 32 (latency_ms e);
     row_from_cache := from_cache e; row_blocked := ev_blocked e |}.

Definition insert_sql (tbl : string) : string :=
  "INSERT INTO " +:+ tbl +:+ " (timestamp, qname, qtype, client_ip, rcode, answers, latency_ms, " +:+
  "from_cache, blocked) VALUES (NOW(), $1, $2, $3::inet, $4, $5, $6, $7, $8)".

(** The statements that a batch sends when the connection is made; their errors are ignored. *)
Definition flush (connects : bool) (tbl : string) (events : list QueryEvent) : list (string * Row) :=
  match events with
  | [] => []
  | _ => if connects then (λ e, (insert_sql tbl, row e)) <$> events else []
  end.

(** ** The writer *)

(** [channel] is what was sent and not yet received, [senders] whether a sender is left.  [sent],
    [batches] and [statements] record what happened: the events the channel accepted, the batches
    flushed, the statements sent to the database. *)
Record Writer := {
  cfg : QueryLogConfig;
  channel : list QueryEvent;
  senders : bool;
  buffer : list QueryEvent;
  running : bool;
  sent : list QueryEvent;
  batches : list (list QueryEvent);
  statements : list (string * Row)
}.

Definition spawn (c : QueryLogConfig) : Writer :=
  {| cfg := c; channel := []; senders := true; buffer := []; running := true; sent := [];
     batches := []; statements := [] |}.

(** The connection is made to the configured database, or the default one. *)
Definition writer_url (c : QueryLogConfig) : string := default default_url (postgres_url c).

(** [try_send]: refused when the channel is full or its receiver is gone. *)
Definition log (w : Writer) (e : QueryEvent) : Writer :=
  if running w && (length (channel w) <? channel_capacity)%nat then
    {| cfg := cfg w; channel := channel w ++ [e]; senders := senders w; buffer := buffer w;
       running := running w; sent := sent w ++ [e]; batches := batches w; statements := statements w |}
  else w.

(** The last sender goes away. *)
Definition drop_senders (w : Writer) : Writer :=
  {| cfg := cfg w; channel := channel w; senders := false; buffer := buffer w; running := running w;
     sent := sent w; batches := batches w; statements := statements w |}.

(** ** The selection *)

Inductive Polled (A : Type) := Pending | Ready (a : A).
Arguments Pending {A}.
Arguments Ready {A} a.

(** [rx.recv()]: the oldest event, nothing more to come, or not yet. *)
Definition recv (w : Writer) : Polled (option QueryEvent) :=
  match channel w with
  | e :: _ => Ready (Some e)
  | [] => if senders w then Pending else Ready None
  end.

Inductive Branch :=
  | RecvBranch (e : QueryEvent)
  | TickBranch
  | ElseBranch
  | Waiting.

(** A branch whose pattern does not match is disabled; [else] is taken when every branch is
    disabled.  [recv_first] is the order in which the branches are polled. *)
Definition select (recv_first : bool) (r : Polled (option QueryEvent)) (tick : Polled unit) : Branch :=
  let try_recv otherwise := match r with Ready (Some e) => RecvBranch e | _ => otherwise end in
  let try_tick otherwise := match tick with Ready _ => TickBranch | Pending => otherwise end in
  let recv_disabled := match r with Ready None => true | _ => false end in
  let tick_disabled := false in
  let last := if recv_disabled && tick_disabled then ElseBranch else Waiting in
  if recv_first then try_recv (try_tick last) else try_tick (try_recv last).

Section Run.
(** Whether the connection for the [i]-th batch is made. *)
Context (connects : nat → bool).

Definition flush_buffer (w : Writer) (events : list QueryEvent) : Writer :=
  {| cfg := cfg w; channel := channel w; senders := senders w; buffer := []; running := running w;
     sent := sent w; batches := batches w ++ [events];
     statements := statements w ++ flush (connects (length (batches w))) (table (cfg w)) events |}.

Definition set_buffer (w : Writer) (chan buf : list QueryEvent) : Writer :=
  {| cfg := cfg w; channel := chan; senders := senders w; buffer := buf; running := running w;
     sent := sent w; batches := batches w; statements := statements w |}.

Definition on_event (w : Writer) (e : QueryEvent) : Writer :=
  let w := set_buffer w (tail (channel w)) (buffer w ++ [e]) in
  if (buffer_size (cfg w) <=? length (buffer w))%nat then flush_buffer w (buffer w) else w.

Definition on_tick (w : Writer) : Writer :=
  match buffer w with [] => w | _ => flush_buffer w (buffer w) end.

(** The loop is left: what remains is flushed and the task ends. *)
Definition on_else (w : Writer) : Writer :=
  let w := on_tick w in
  {| cfg := cfg w; channel := channel w; senders := senders w; buffer := buffer w; running := false;
     sent := sent w; batches := batches w; statements := statements w |}.

(** The task panics: its buffer and the receiver of the channel with what is queued are gone. *)
Definition on_panic (w : Writer) : Writer :=
  {| cfg := cfg w; channel := []; senders := senders w; buffer := []; running := false;
     sent := sent w; batches := batches w; statements := statements w |}.

(** One iteration of the loop of the task.  Before the first one the task makes its timer, which
    panics for an interval of 0. *)
Definition round (recv_first tick_ready : bool) (w : Writer) : Writer :=
  if running w then
    if flush_interval_ms (cfg w) =? 0 then on_panic w
    else match select recv_first (recv w) (if tick_ready then Ready tt else Pending) with
    | RecvBranch e => on_event w e
    | TickBranch => on_tick w
    | ElseBranch => on_else w
    | Waiting => w
    end
  else w.

(** What can happen next, and the states that can be reached. *)
Inductive Action :=
  | Log (e : QueryEvent)
  | DropSenders
  | Round (recv_first tick_ready : bool).

Definition act (w : Writer) (a : Action) : Writer :=
  match a with
  | Log e => if senders w then log w e else w
  | DropSenders => drop_senders w
  | Round recv_first tick_ready => round recv_first tick_ready w
  end.

Definition run (w : Writer) (l : list Action) : Writer := foldl act w l.

(** The state before action [n] of an endless schedule. *)
Fixpoint at_time (w : Writer) (schedule : nat → Action) (n : nat) : Writer :=
  match n with
  | O => w
  | S k => act (at_time w schedule k) (schedule k)
  end.

End Run.

End QueryLog.
