(* ===== verification/QueryLogProps.v ===== *)
(** * Properties of the query log writer *)

From Stdlib Require Import Ascii String ZArith Lia.
From stdpp Require Import base list strings numbers.
From S2P Require Import Prelude RustString RustNum QueryLog.

Module QueryLogProps.
Import QueryLog.

Section Writer.
Context (connects : nat → bool).

(** ** The invariant *)

(** What was accepted is, in order, what was flushed, what is buffered and what is queued. *)
Record writer_inv (c : QueryLogConfig) (w : Writer) : Prop := {
  wi_interval : flush_interval_ms c ≠ 0%Z;
  wi_cfg : cfg w = c;
  wi_order : concat (batches w) ++ buffer w ++ channel w = sent w;
  wi_channel : length (channel w) ≤ channel_capacity;
  wi_buffer : length (buffer w) < Nat.max 1 (buffer_size c);
  wi_batches : Forall (λ b, 0 < length b ≤ Nat.max 1 (buffer_size c)) (batches w);
  wi_running : running w = true;
  wi_statements : statements w =
    concat (imap (λ i b, flush (connects i) (table c) b) (batches w))
}.

Lemma spawn_inv c : flush_interval_ms c ≠ 0%Z → writer_inv c (spawn c).
Proof. intros Hi. split; simpl; try done; try lia. Qed.

Lemma flush_buffer_inv c w b ch :
  writer_inv c w → buffer w ++ channel w = b ++ ch → length ch ≤ channel_capacity →
  0 < length b ≤ Nat.max 1 (buffer_size c) →
  writer_inv c (flush_buffer connects (set_buffer w ch b) b).
Proof.
  intros [Hi Hc Ho Hch Hbuf Hb Hr Hs] Heq Hcap Hlen. split; simpl; try done.
  - rewrite concat_app. cbn [concat]. rewrite app_nil_r, <- (assoc_L (++)), <- Heq. exact Ho.
  - lia.
  - apply Forall_app. split; [done|]. by apply Forall_cons_2; [|apply Forall_nil_2].
  - rewrite imap_app, concat_app, <- Hs. cbn [imap concat]. by rewrite app_nil_r, Hc, Nat.add_0_r.
Qed.

Lemma on_event_inv c w e rest :
  writer_inv c w → channel w = e :: rest → writer_inv c (on_event connects w e).
Proof.
  intros Hw Hch. pose proof Hw as [Hi Hc Ho Hcap Hbuf Hb Hr Hs]. unfold on_event. rewrite Hch. cbn [tail].
  rewrite Hch in Hcap. simpl in Hcap.
  destruct (Nat.leb_spec (buffer_size (cfg (set_buffer w rest (buffer w ++ [e]))))
              (length (buffer (set_buffer w rest (buffer w ++ [e]))))) as [Hle|Hlt].
  - apply (flush_buffer_inv c w (buffer w ++ [e]) rest Hw); [|lia|].
    + by rewrite Hch, <- (assoc_L (++)).
    + rewrite length_app. simpl. lia.
  - simpl in Hlt. rewrite length_app, Hc in Hlt. split; simpl; try done; try lia.
    + by rewrite <- Ho, Hch, <- (assoc_L (++)).
    + rewrite length_app. simpl in *. lia.
Qed.

Lemma on_tick_inv c w : writer_inv c w → writer_inv c (on_tick connects w).
Proof.
  intros Hw. unfold on_tick. destruct (buffer w) as [|e b] eqn:Hb; [done|].
  pose proof Hw as [_ _ _ Hcap Hbuf _ _ _].
  assert (flush_buffer connects w (e :: b) =
          flush_buffer connects (set_buffer w (channel w) (e :: b)) (e :: b)) as -> by done.
  apply flush_buffer_inv; [done|by rewrite Hb|done|]. rewrite Hb in Hbuf. simpl in *. lia.
Qed.

(** The timer is never disabled, so the loop is never left. *)
Lemma select_not_else order r t : select order r t ≠ ElseBranch.
Proof. destruct order, r as [|[|]], t; done. Qed.

Lemma select_recv order w t e :
  select order (recv w) t = RecvBranch e → ∃ rest, channel w = e :: rest.
Proof.
  unfold recv. destruct (channel w) as [|e' rest]; [by destruct (senders w), order, t|].
  destruct order, t; intros [= <-]; by eexists.
Qed.

(** A round of a writer with a timer. *)
Lemma round_run c w order tick :
  writer_inv c w →
  round connects order tick w =
  match select order (recv w) (if tick then Ready tt else Pending) with
  | RecvBranch e => on_event connects w e
  | TickBranch => on_tick connects w
  | ElseBranch => on_else connects w
  | Waiting => w
  end.
Proof.
  intros Hw. unfold round. rewrite (wi_running _ _ Hw), (wi_cfg _ _ Hw).
  by rewrite (proj2 (Z.eqb_neq _ _) (wi_interval _ _ Hw)).
Qed.

Lemma round_inv c w order tick : writer_inv c w → writer_inv c (round connects order tick w).
Proof.
  intros Hw. rewrite (round_run c w order tick Hw).
  destruct (select _ _ _) as [e| | |] eqn:Hs; [|by apply on_tick_inv| |done].
  - apply select_recv in Hs as [rest Hch]. by eapply on_event_inv.
  - by apply select_not_else in Hs.
Qed.

Lemma log_inv c w e : writer_inv c w → writer_inv c (log w e).
Proof.
  intros Hw. pose proof Hw as [Hi Hc Ho Hcap Hbuf Hb Hr Hs]. unfold log. rewrite Hr. cbn [andb].
  destruct (Nat.ltb_spec (length (channel w)) channel_capacity); [|done].
  split; simpl; try done.
  - by rewrite <- Ho, !(assoc_L (++)).
  - rewrite length_app. simpl. lia.
Qed.

Lemma act_inv c w a : writer_inv c w → writer_inv c (act connects w a).
Proof.
  intros Hw. destruct a as [e| |order tick]; simpl.
  - destruct (senders w); [by apply log_inv|done].
  - by destruct Hw.
  - by apply round_inv.
Qed.

Lemma run_keeps c l : flush_interval_ms c ≠ 0%Z → writer_inv c (run connects (spawn c) l).
Proof. intros Hi. apply (foldl_invariant (writer_inv c)); [intros w a; apply act_inv|by apply spawn_inv]. Qed.

(** Without a timer nothing is ever flushed, and the first round is the end of the task. *)
Definition timerless (c : QueryLogConfig) (w : Writer) : Prop :=
  cfg w = c ∧ batches w = [] ∧ statements w = [].

Lemma act_timerless c w a : flush_interval_ms c = 0%Z → timerless c w → timerless c (act connects w a).
Proof.
  intros Hi (Hc & Hb & Hs). destruct a as [e| |order tick]; simpl; [| done|].
  - destruct (senders w); [|done]. unfold log. by destruct (_ && _).
  - unfold round. rewrite Hc, Hi. by destruct (running w).
Qed.

Lemma act_stopped w a : running w = false → running (act connects w a) = false.
Proof.
  intros Hr. destruct a as [e| |order tick]; simpl; [|done|].
  - destruct (senders w); [|done]. unfold log. by rewrite Hr.
  - unfold round. by rewrite Hr.
Qed.

Lemma run_timerless c l :
  flush_interval_ms c = 0%Z →
  timerless c (run connects (spawn c) l) ∧
  (∀ order tick, Round order tick ∈ l → running (run connects (spawn c) l) = false).
Proof.
  intros Hi. induction l as [|a l IH] using rev_ind; [split; [done|intros ?? Hin; by apply elem_of_nil in Hin]|].
  unfold run in *. rewrite foldl_app. cbn [foldl]. destruct IH as [Ht Hr]. split; [by apply act_timerless|].
  intros order tick [Hin|Hin%list_elem_of_singleton]%elem_of_app; [by eapply act_stopped, Hr|].
  subst a. destruct Ht as (Hc & _). simpl. unfold round.
  destruct (running _) eqn:E; [|done]. by rewrite Hc, Hi.
Qed.

(** ** Progress *)

(** The number of accepted events that left the channel. *)
Definition moved (w : Writer) : nat := length (concat (batches w)) + length (buffer w).
Definition flushed (w : Writer) : nat := length (concat (batches w)).

Lemma moved_channel c w : writer_inv c w → length (sent w) = moved w + length (channel w).
Proof. intros Hw. rewrite <- (wi_order _ _ Hw). unfold moved. rewrite !length_app. lia. Qed.

Lemma moved_set_buffer w ch b :
  moved (flush_buffer connects (set_buffer w ch b) b) = moved (set_buffer w ch b) ∧
  flushed (flush_buffer connects (set_buffer w ch b) b) = moved (set_buffer w ch b).
Proof. unfold moved, flushed. simpl. rewrite concat_app, length_app. simpl. rewrite app_nil_r. lia. Qed.

(** Every action keeps what was accepted, moved and flushed. *)
Record extends (w w' : Writer) : Prop := {
  ex_sent : sent w `prefix_of` sent w';
  ex_moved : moved w ≤ moved w';
  ex_flushed : flushed w ≤ flushed w'
}.

#[export] Instance extends_preorder : PreOrder extends.
Proof.
  split; [intros w; by split|]. intros w1 w2 w3 [???] [???]. split; [by etrans|lia|lia].
Qed.

Lemma on_event_moved w e :
  extends w (on_event connects w e) ∧ moved (on_event connects w e) = S (moved w).
Proof.
  unfold on_event. destruct (_ <=? _).
  - destruct (moved_set_buffer w (tail (channel w)) (buffer w ++ [e])) as [Hm Hf].
    assert (moved (set_buffer w (tail (channel w)) (buffer w ++ [e])) = S (moved w)) as E.
    { unfold moved. simpl. rewrite length_app. simpl. lia. }
    cbn [buffer set_buffer]. split; [split; [done|lia|]|lia]. rewrite Hf, E. unfold flushed, moved. lia.
  - assert (moved (set_buffer w (tail (channel w)) (buffer w ++ [e])) = S (moved w)) as E.
    { unfold moved. simpl. rewrite length_app. simpl. lia. }
    split; [split; [done|lia|done]|done].
Qed.

Lemma on_tick_moved w : extends w (on_tick connects w) ∧ flushed (on_tick connects w) = moved w.
Proof.
  unfold on_tick. destruct (buffer w) as [|e b] eqn:Hb.
  - split; [done|]. unfold moved. rewrite Hb. simpl. unfold flushed. lia.
  - destruct (moved_set_buffer w (channel w) (e :: b)) as [Hm Hf].
    assert (moved (set_buffer w (channel w) (e :: b)) = moved w) as E by (unfold moved; by rewrite Hb).
    assert (flush_buffer connects w (e :: b) =
            flush_buffer connects (set_buffer w (channel w) (e :: b)) (e :: b)) as -> by done.
    split; [split; [done|lia|]|lia]. rewrite Hf, E. unfold flushed, moved. lia.
Qed.

Lemma act_extends c w a : writer_inv c w → extends w (act connects w a).
Proof.
  intros Hw. destruct a as [e| |order tick]; simpl; [| by destruct w|].
  - destruct (senders w); [|done]. unfold log. destruct (_ && _); [|done].
    split; [by apply prefix_app_r|done|done].
  - rewrite (round_run c w order tick Hw).
    destruct (select _ _ _) eqn:Hs; [apply on_event_moved|apply on_tick_moved| |done].
    by apply select_not_else in Hs.
Qed.

Section Schedule.
Context (c : QueryLogConfig) (Hinterval : flush_interval_ms c ≠ 0%Z) (schedule : nat → Action).

Notation state := (at_time connects (spawn c) schedule).

Lemma at_time_inv n : writer_inv c (state n).
Proof. induction n as [|n IH]; simpl; [by apply spawn_inv|by apply act_inv]. Qed.

Lemma at_time_extends n m : n ≤ m → extends (state n) (state m).
Proof.
  induction 1 as [|m _ IH]; [done|]. etrans; [exact IH|]. simpl. eapply act_extends, at_time_inv.
Qed.

(** Both branches of the selection are polled first again and again, the second with the timer
    ready. *)
Definition fair : Prop :=
  (∀ n, ∃ m tick, n ≤ m ∧ schedule m = Round true tick) ∧
  (∀ n, ∃ m, n ≤ m ∧ schedule m = Round false true).

(** A round that polls the channel first takes an event off it when there is one. *)
Lemma recv_round_moves m tick :
  schedule m = Round true tick → moved (state m) < length (sent (state m)) →
  moved (state m) < moved (state (S m)).
Proof.
  intros Hr Hlt. rewrite (moved_channel c) in Hlt by apply at_time_inv. simpl. rewrite Hr. simpl.
  rewrite (round_run c _ true tick (at_time_inv m)). unfold recv.
  destruct (channel (state m)) as [|e rest]; simpl in *; [lia|].
  destruct (on_event_moved (state m) e) as [_ ->]. lia.
Qed.

Lemma eventually_moved i n :
  fair → i < length (sent (state n)) → ∃ m, n ≤ m ∧ i < moved (state m).
Proof.
  intros [Hf _]. remember (S i - moved (state n)) as d eqn:Hd. revert n Hd.
  induction d as [d IH] using lt_wf_ind. intros n Hd Hi.
  destruct (decide (i < moved (state n))) as [Hm|Hm]; [by exists n|].
  destruct (Hf n) as (m & tick & Hnm & Hr). pose proof (at_time_extends n m Hnm) as [Hs Hmv _].
  apply prefix_length in Hs.
  destruct (decide (i < moved (state m))) as [Him|Him]; [by exists m|].
  pose proof (recv_round_moves m tick Hr ltac:(lia)) as Hgrow.
  pose proof (at_time_extends n (S m) ltac:(lia)) as [Hs' _ _]. apply prefix_length in Hs'.
  destruct (IH (S i - moved (state (S m))) ltac:(lia) (S m) eq_refl ltac:(lia)) as (k & Hk & Hik).
  exists k. split; [lia|done].
Qed.

Lemma eventually_flushed i n :
  fair → i < length (sent (state n)) → ∃ m, n ≤ m ∧ i < flushed (state m).
Proof.
  intros Hfair Hi. destruct (eventually_moved i n Hfair Hi) as (m & Hnm & Hm).
  destruct Hfair as [_ Ht]. destruct (Ht m) as (k & Hmk & Hr).
  exists (S k). split; [lia|]. simpl. rewrite Hr. simpl. rewrite (round_run c _ false true (at_time_inv k)). cbn [select].
  destruct (on_tick_moved (state k)) as [_ ->].
  pose proof (at_time_extends m k Hmk) as [_ Hmv _]. lia.
Qed.

Lemma flushed_lookup i n e :
  i < flushed (state n) → sent (state n) !! i = Some e → concat (batches (state n)) !! i = Some e.
Proof.
  intros Hi. rewrite <- (wi_order _ _ (at_time_inv n)). by rewrite lookup_app_l.
Qed.

End Schedule.

End Writer.

(** ** The theorems *)

(** C18: Whatever senders, timer and task do in whatever order, the events the channel accepted are,
    in order and each once, those of the flushed batches, then those buffered, then those queued.
    Batches are never empty and never longer than the configured size (one event when that is 0),
    the channel holds at most 1024 events, and the statements sent to the database are the rows of
    exactly the batches whose connection was made.  The task never leaves its loop.  All this is for a
    flush interval other than 0 (the program configures 100 ms): with 0 the timer panics, so that the
    task is gone after its first round and nothing is ever flushed. *)
Theorem log_exactly_once connects c actions :
  let w := run connects (spawn c) actions in
  (flush_interval_ms c ≠ 0%Z →
   concat (batches w) ++ buffer w ++ channel w = sent w ∧
   Forall (λ b, 0 < length b ≤ Nat.max 1 (buffer_size c)) (batches w) ∧
   length (buffer w) < Nat.max 1 (buffer_size c) ∧ length (channel w) ≤ channel_capacity ∧
   statements w = concat (imap (λ i b, flush (connects i) (table c) b) (batches w)) ∧
   running w = true) ∧
  (flush_interval_ms c = 0%Z →
   batches w = [] ∧ statements w = [] ∧ ∀ order tick, Round order tick ∈ actions → running w = false).
Proof.
  intros w. split; intros Hi.
  - destruct (run_keeps connects c actions Hi) as [_ _ ? ? ? ? ? ?]. by split_and!.
  - destruct (run_timerless connects c actions Hi) as [(_ & ? & ?) ?]. by split_and!.
Qed.

(** C17: No accepted event is kept back: under every fair schedule an event that was accepted is
    part of a flushed batch at some later time, at the position in which it was accepted, whatever
    else is logged, and after the last sender is gone as well.  (The flush interval is not 0, which
    would make the task panic.) *)
Theorem accepted_events_are_flushed connects c schedule n i e :
  flush_interval_ms c ≠ 0%Z → fair schedule →
  sent (at_time connects (spawn c) schedule n) !! i = Some e →
  ∃ m, n ≤ m ∧ concat (batches (at_time connects (spawn c) schedule m)) !! i = Some e.
Proof.
  intros Hint Hfair Hi. pose proof (lookup_lt_Some _ _ _ Hi) as Hlt.
  destruct (eventually_flushed connects c Hint schedule i n Hfair Hlt) as (m & Hnm & Hm).
  exists m. split; [done|]. apply flushed_lookup; [done..|].
  destruct (ex_sent _ _ (at_time_extends connects c Hint schedule n m Hnm)) as [more ->].
  by rewrite lookup_app_l.
Qed.

(** ** Witnesses *)

Definition event (q : string) : QueryEvent :=
  {| ts := 0; ev_qname := q; ev_qtype := 1; ev_client := "192.0.2.1"; ev_rcode := 0; ev_answers := 1;
     latency_ms := 3; from_cache := false; ev_blocked := false |}.

Definition log_cfg : QueryLogConfig :=
  {| postgres_url := None; table := "dns_logs"; buffer_size := 64; flush_interval_ms := 100 |}.

(** One event, then the two kinds of rounds in turn. *)
Definition turns (n : nat) : Action :=
  match n with
  | O => Log (event "a.example.")
  | S k => if Nat.even k then Round true true else Round false true
  end.

Lemma turns_fair : fair turns.
Proof.
  split; intros n.
  - exists (S (2 * n)), true. split; [lia|]. cbn [turns]. by rewrite Nat.even_mul.
  - exists (S (S (2 * n))). split; [lia|]. cbn [turns]. by rewrite Nat.even_succ, Nat.odd_mul.
Qed.

Lemma accepted_events_are_flushed_witness :
  ∃ m, 1 ≤ m ∧
    concat (batches (at_time (λ _, true) (spawn log_cfg) turns m)) !! 0 = Some (event "a.example.").
Proof.
  apply (accepted_events_are_flushed (λ _, true) log_cfg turns 1 0 (event "a.example.")).
  - discriminate.
  - exact turns_fair.
  - reflexivity.
Defined.

(** One event and one round: the event is buffered; without a timer the task is gone. *)
Lemma log_exactly_once_witness :
  let actions := [Log (event "a.example."); Round true false] in
  let w := run (λ _, true) (spawn log_cfg) actions in
  let timerless_cfg := {| postgres_url := None; table := "dns_logs"; buffer_size := 64; flush_interval_ms := 0 |} in
  buffer w = [event "a.example."] ∧ concat (batches w) ++ buffer w ++ channel w = sent w ∧
  running (run (λ _, true) (spawn timerless_cfg) actions) = false.
Proof.
  cbn zeta. destruct (log_exactly_once (λ _, true) log_cfg [Log (event "a.example."); Round true false]) as [Hrun _].
  destruct (log_exactly_once (λ _, true) {| postgres_url := None; table := "dns_logs"; buffer_size := 64; flush_interval_ms := 0 |}
    [Log (event "a.example."); Round true false]) as [_ Hnone].
  destruct (Hrun ltac:(discriminate)) as [Horder _]. destruct (Hnone eq_refl) as (_ & _ & Hstop).
  split; [reflexivity|]. split; [exact Horder|]. apply (Hstop true false). right. left.
Defined.

End QueryLogProps.
