(* ===== verification/Udp.v ===== *)
(** * The UDP listener ([src/net/udp.rs])

    A listener of its own that filters a query and forwards it.  Each datagram is handled by a task;
    what the resolver answers is a parameter, as are the sockets. *)

From Stdlib Require Import Ascii String ZArith Lia.
From stdpp Require Import base list gmap strings numbers.
From S2P Require Import Prelude RustString RustNum RustNet Metrics Cache Config Blocklist Dns Filter.

Local Open Scope Z_scope.

Module Udp.
Import Metrics Dns.

Inductive UdpError :=
  | BadUdpAddr (addr : string)
  | BindUdpFailed (a : SocketAddr)
  | ParseQueryFailed
  | SerializeFailed
  | SendFailed (peer : SocketAddr).

(** The buffer a datagram is received into; what does not fit is lost. *)
Definition BUF_SIZE : nat := 4096.

Section Udp.
Context `{Hickory} {Regex : Type}.
Context (is_match : Regex → string → bool).

Definition bind (addr : string) : result UdpError SocketAddr := ok_or (BadUdpAddr addr) (parse_socket_addr addr).

(** A response to [req] with this code, and nothing else in it. *)
Definition refusal (req : Message) (code : ResponseCode) : Message :=
  {| msg_id := msg_id req; msg_is_response := true; op_code := Op_Query; response_code := code;
     authoritative := false; recursion_desired := false; recursion_available := false; truncation := false;
     queries := []; answers := [] |}.

(** The response to a query that was forwarded. *)
Definition forwarded {E} (req : Message) (name : string) (qtype : RecordType) (lookup : result E (list Rec)) : Message :=
  {| msg_id := msg_id req; msg_is_response := true; op_code := Op_Query;
     response_code := match lookup with Ok _ => NoError | Err _ => ServFail end;
     authoritative := false; recursion_desired := false; recursion_available := true; truncation := false;
     queries := [(default root (from_utf8 name), qtype)];
     answers := match lookup with Ok l => l | Err _ => [] end |}.

(** Encoding and sending: what is sent to the peer. *)
Definition send (sends : list Z → SocketAddr → bool) (peer : SocketAddr) (resp : Message) :
    result UdpError (list Z) :=
  bytes ← ok_or SerializeFailed (message_to_vec resp);
  _ ← ensure (sends bytes peer) (SendFailed peer);
  Ok bytes.

(** The answer to one datagram, the counters, and the name asked upstream, if any. *)
Definition handle_query {E} (sends : list Z → SocketAddr → bool)
    (lookup : string → RecordType → result E (list Rec)) (filter : Filter.Filter Regex) (m : MetricsRegistry)
    (peer : SocketAddr) (data : list Z) : result UdpError (list Z) * MetricsRegistry * option (string * RecordType) :=
  match message_from_vec data with
  | None => (Err ParseQueryFailed, m, None)
  | Some req =>
      match head (queries req) with
      | None => (send sends peer (refusal req FormErr), m, None)
      | Some (n, qtype) =>
          let qname := to_string n in
          let client_ip := sock_ip peer in
          let '(blocked, m) := Filter.is_blocked is_match filter m qname client_ip in
          if blocked then (send sends peer (refusal req NXDomain), m, None)
          else
            let name := Str.trim_end_matches "." qname in
            (send sends peer (forwarded req name qtype (lookup name qtype)), m, Some (name, qtype))
      end
  end.

(** The receiving loop over what the socket delivers, an error or a datagram with its sender: the
    tasks it spawns, in order. *)
Definition run_loop {E} (arrivals : list (result E (list Z * SocketAddr))) : list (SocketAddr * list Z) :=
  omap (λ r, match r with Ok (d, peer) => Some (peer, take BUF_SIZE d) | Err _ => None end) arrivals.

(** The tasks in the order in which they reach the counters of the filter, which is all that they
    share: what becomes of each, and the counters in the end. *)
Fixpoint handle_tasks {E} (sends : list Z → SocketAddr → bool)
    (lookup : string → RecordType → result E (list Rec)) (filter : Filter.Filter Regex) (m : MetricsRegistry)
    (tasks : list (SocketAddr * list Z)) :
    list (SocketAddr * result UdpError (list Z) * option (string * RecordType)) * MetricsRegistry :=
  match tasks with
  | [] => ([], m)
  | (peer, data) :: rest =>
      let '(r, m, asked) := handle_query sends lookup filter m peer data in
      let '(out, m) := handle_tasks sends lookup filter m rest in
      ((peer, r, asked) :: out, m)
  end.

End Udp.
End Udp.
