(* ===== verification/UdpProps.v ===== *)
(** * Properties of the UDP listener *)

From Stdlib Require Import Ascii String ZArith Lia.
From stdpp Require Import base list gmap strings numbers.
From S2P Require Import Prelude RustString RustNum RustNet Metrics Cache Config Blocklist Dns DnsSample Filter FilterProps Udp.

Local Open Scope Z_scope.

Module UdpProps.
Import Metrics Dns FilterProps Udp.

(** What is sent decodes to the response it was made from. *)
Lemma send_roundtrip `{Hickory} sends peer resp bytes :
  send sends peer resp = Ok bytes → faithful resp = true →
  ∃ m', message_from_vec bytes = Some m' ∧ msg_id m' = msg_id resp ∧ response_code m' = response_code resp ∧
    answers m' = wire <$> answers resp ∧ queries m' = prod_map (set_fqdn true) id <$> queries resp.
Proof.
  intros (b & Hb%ok_or_Ok & (u & _ & [= <-])%bind_Ok)%bind_Ok Hf.
  destruct (message_roundtrip _ _ Hb Hf) as (m' & ? & ? & ? & ? & ? & ? & ?). by exists m'.
Qed.

(** The tasks are those of the datagrams received. *)
Lemma run_loop_received {E} (arrivals : list (result E (list Z * SocketAddr))) :
  run_loop arrivals = (λ p, (p.2, take BUF_SIZE p.1)) <$> omap result_ok arrivals.
Proof.
  induction arrivals as [|[[d peer]|e] l IH]; [done| |exact IH].
  change (run_loop (Ok (d, peer) :: l)) with ((peer, take BUF_SIZE d) :: run_loop l). by rewrite IH.
Qed.

Section Answers.
Context `{Hickory} {Regex E : Type} (is_match : Regex → string → bool) (sends : list Z → SocketAddr → bool).
Context (lookup : string → RecordType → result E (list Rec)) (filter : Filter.Filter Regex).

(** Whether the filter blocks the question for the sender, and whether it counts that. *)
Definition blocks (peer : SocketAddr) (n : Name) : bool := verdict is_match filter (to_string n) (sock_ip peer).
Definition counts (peer : SocketAddr) (n : Name) : bool := counted is_match filter (to_string n) (sock_ip peer).

(** The code and the records of the answer, and the name asked upstream. *)
Definition content (peer : SocketAddr) (req : Message) : ResponseCode * list Rec * option (string * RecordType) :=
  match head (queries req) with
  | None => (FormErr, [], None)
  | Some (n, qtype) =>
      let name := Str.trim_end_matches "." (to_string n) in
      if blocks peer n then (NXDomain, [], None)
      else match lookup name qtype with
           | Ok l => (NoError, l, Some (name, qtype))
           | Err _ => (ServFail, [], Some (name, qtype))
           end
  end.

(** How a datagram is answered: a response with that content is sent, and it reads back under the
    id of the request; nothing is sent for a datagram that does not parse. *)
Definition answered (peer : SocketAddr) (data : list Z) (r : result UdpError (list Z))
    (asked : option (string * RecordType)) : Prop :=
  match message_from_vec data with
  | None => r = Err ParseQueryFailed ∧ asked = None
  | Some req =>
      ∃ resp, r = send sends peer resp ∧ msg_is_response resp = true ∧
        content peer req = (response_code resp, answers resp, asked) ∧
        ∀ bytes, r = Ok bytes → faithful resp = true →
          ∃ answer, message_from_vec bytes = Some answer ∧ msg_id answer = msg_id req ∧
            response_code answer = response_code resp ∧ answers answer = wire <$> answers resp
  end.

(** Whether the datagram is counted as blocked. *)
Definition counted_datagram (task : SocketAddr * list Z) : bool :=
  match message_from_vec task.2 ≫= (λ req, head (queries req)) with
  | Some (n, _) => counts task.1 n
  | None => false
  end.

Lemma handle_query_answered m peer data r m' asked :
  handle_query is_match sends lookup filter m peer data = (r, m', asked) →
  answered peer data r asked ∧
  m' = if counted_datagram (peer, data) then increment m BlockedTotal 1 else m.
Proof.
  unfold handle_query, answered, counted_datagram. cbn [fst snd].
  destruct (message_from_vec data) as [req|]; [|by intros [= <- <- <-]]. cbn [mbind option_bind].
  assert (∀ resp, msg_id resp = msg_id req → ∀ bytes, send sends peer resp = Ok bytes → faithful resp = true →
    ∃ answer, message_from_vec bytes = Some answer ∧ msg_id answer = msg_id req ∧
      response_code answer = response_code resp ∧ answers answer = wire <$> answers resp) as Hback.
  { intros resp Hid bytes Hs Hf. destruct (send_roundtrip _ _ _ _ Hs Hf) as (a & ? & ? & ? & ? & _).
    exists a. split_and!; [done|congruence|done..]. }
  unfold content. destruct (head (queries req)) as [[n qtype]|].
  - rewrite is_blocked_verdict. fold (blocks peer n) (counts peer n).
    destruct (blocks peer n); intros [= <- <- <-]; (split; [|done]).
    + exists (refusal req NXDomain). split_and!; try done. by apply Hback.
    + eexists (forwarded req _ qtype (lookup _ qtype)). split_and!; [done|done|by destruct (lookup _ qtype)|by apply Hback].
  - intros [= <- <- <-]. split; [|done]. exists (refusal req FormErr). split_and!; try done. by apply Hback.
Qed.

Lemma handle_tasks_answered m tasks :
  filled m →
  let '(out, m') := handle_tasks is_match sends lookup filter m tasks in
  Forall2 (λ task o, o.1.1 = task.1 ∧ answered task.1 task.2 o.1.2 o.2) tasks out ∧ filled m' ∧
  ∀ name, read m' name =
    if decide (BlockedTotal = name)
    then wrap 64 (read m name + Z.of_nat (length (base.filter (λ t, counted_datagram t = true) tasks))) else read m name.
Proof.
  revert m. induction tasks as [|[peer data] tasks IH]; intros m Hm; cbn [handle_tasks].
  { split_and!; [done|done|]. intros name. case_decide; [|done]. change (Z.of_nat (length _)) with 0.
    rewrite Z.add_0_r, wrap_small; [done|]. destruct (Hm name) as (v & Hv & ?). unfold read. by rewrite Hv. }
  destruct (handle_query _ _ _ _ _ _ _) as [[r m1] asked] eqn:Hq.
  apply handle_query_answered in Hq as [Hans ->].
  assert (filled (if counted_datagram (peer, data) then increment m BlockedTotal 1 else m)) as Hm1
    by (destruct (counted_datagram _); [by apply increment_filled|done]).
  specialize (IH _ Hm1). destruct (handle_tasks _ _ _ _ _ tasks) as [out m'].
  destruct IH as (Hall & Hm' & Hread). split_and!; [by constructor|done|].
  intros name. rewrite Hread, filter_cons. destruct (counted_datagram (peer, data)) eqn:Hc.
  - rewrite (decide_True (P := true = true)) by done. rewrite read_increment by done. cbn [length].
    case_decide; [subst name|done]. rewrite Nat2Z.inj_succ. unfold wrap. rewrite Zplus_mod_idemp_l. f_equal. lia.
  - by rewrite (decide_False (P := false = true)) by done.
Qed.

End Answers.

(** C35: What the listener makes of what arrives.  In whatever order the tasks run, there is one for
    each datagram that was received, cut to the buffer, and none for a receive error, and its sender
    is answered as the datagram alone says: under the id of the request; with FORMERR when it has no
    question; with NXDOMAIN and no records when the filter blocks the name for the sender, and then
    nothing is asked upstream (the configured sinkhole addresses, which the documentation says are
    returned for a blocked name, are not used); otherwise with what the resolver answers for the name
    without its final dots, or SERVFAIL when it fails; not at all when it does not parse.  The order does
    not show in the counters either: the blocked names that are counted are added up, within 64 bits, and nothing
    else changes. *)
Theorem udp_answers `{Hickory} {Regex E E'} (is_match : Regex → string → bool) sends
    (lookup : string → RecordType → result E (list Rec)) filter m (arrivals : list (result E' (list Z * SocketAddr))) tasks :
  filled m → tasks ≡ₚ run_loop arrivals →
  let '(out, m') := handle_tasks is_match sends lookup filter m tasks in
  Forall2 (λ task o, o.1.1 = task.1 ∧ answered is_match sends lookup filter task.1 task.2 o.1.2 o.2) tasks out ∧
  length out = length (omap result_ok arrivals) ∧
  (∀ peer data, (peer, data) ∈ tasks ↔ ∃ d, Ok (d, peer) ∈ arrivals ∧ data = take BUF_SIZE d) ∧
  ∀ name, read m' name =
    if decide (BlockedTotal = name)
    then wrap 64 (read m name +
                  Z.of_nat (length (base.filter (λ t, counted_datagram is_match filter t = true) (run_loop arrivals))))
    else read m name.
Proof.
  intros Hm Hp. pose proof (handle_tasks_answered is_match sends lookup filter m tasks Hm) as Hall.
  destruct (handle_tasks _ _ _ _ _ tasks) as [out m']. destruct Hall as (Hall & _ & Hread). split_and!; [done| | |].
  - by rewrite <- (Forall2_length Hall), (Permutation_length Hp), run_loop_received, length_fmap.
  - intros peer data. rewrite Hp, run_loop_received, list_elem_of_fmap. split.
    + intros ([d p] & [= -> ->] & ([[d' p']|e] & Hin & [= <- <-])%list_elem_of_omap). eauto.
    + intros (d & Hin & ->). exists (d, peer). split; [done|]. apply list_elem_of_omap. by exists (Ok (d, peer)).
  - intros name. rewrite Hread. by rewrite (Permutation_length (filter_Permutation _ _ _ Hp)).
Qed.

(** ** Witness *)

Section Witnesses.
Import DnsSample.

Definition question : MessageOf SName :=
  {| msg_id := 4711; msg_is_response := false; op_code := Op_Query; response_code := NoError;
     authoritative := false; recursion_desired := true; recursion_available := false; truncation := false;
     queries := [({| s_labels := ["ads"; "e"]%string; s_fqdn := true |}, RT_A)]; answers := [] |}.

Definition blocking_filter : Filter.Filter unit :=
  {| Filter.cname_chain_limit := 8; Filter.cname_cloaking := true; Filter.rebinding := true;
     Filter.blocklist := Blocklist.insert Blocklist.new "e"; Filter.allowlist := Blocklist.Allowlist_new;
     Filter.per_client := []; Filter.sinkhole_v4 := ipv4 0 0 0 0; Filter.sinkhole_v6 := v6_unspecified;
     Filter.regex_blocklist := [] |}.

Definition client : SocketAddr := SockV4 (ipv4 192 0 2 9) 4000.

(** The question, a receive error, a datagram that is no message, and the question again. *)
Definition received : list (result unit (list Z * SocketAddr)) :=
  let q := default [] (s_to_vec question) in [Ok (q, client); Err tt; Ok ([], client); Ok (q, client)].

(** Their tasks, the last one first. *)
Definition handled :=
  @handle_tasks sample unit (λ _ _, false) unit (λ _ _, true) (λ _ _, Err tt) blocking_filter Metrics.new
    (rev (@run_loop unit received)).

(** What the client reads, and whether anything was asked upstream. *)
Definition client_reads : list (option (Z * ResponseCode * bool)) :=
  (λ o, bytes ← result_ok o.1.2;
        answer ← s_from_vec bytes;
        Some (msg_id answer, response_code answer, bool_decide (is_Some o.2))) <$> handled.1.

Lemma udp_answers_witness :
  client_reads = [Some (4711, NXDomain, false); None; Some (4711, NXDomain, false)] ∧
  length handled.1 = 3%nat ∧ read handled.2 BlockedTotal = 2.
Proof.
  pose proof (@udp_answers sample unit unit unit (λ _ _, false) (λ _ _, true) (λ _ _, Err tt) blocking_filter Metrics.new
    received (rev (run_loop received)) new_filled) as Ha.
  fold handled in Ha. destruct Ha as (_ & Hlen & _ & Hread); [symmetry; apply Permutation_rev|].
  split; [vm_compute; reflexivity|]. split; [exact Hlen|]. rewrite Hread. vm_compute. reflexivity.
Defined.

End Witnesses.

End UdpProps.
