(* ===== verification/Secondary.v ===== *)
(** * Zone transfer from a primary ([src/core/zone/secondary.rs]) and NOTIFY ([src/net/handler.rs])

    The primary is a function from its address and the framed query to the bytes that have arrived
    from it and what follows them: the end of the stream, an error, or nothing yet.  No read has a
    time limit, so a transfer has finished or still waits for the primary.  The catalog that serves
    every other request is a parameter. *)

From Stdlib Require Import Ascii String ZArith Lia.
From stdpp Require Import base list gmap strings numbers.
From S2P Require Import Prelude RustString RustNum RustNet Metrics Cache Config Dns Zone.

Local Open Scope Z_scope.

(** ** AXFR *)

Module Secondary.
Import Dns.

Inductive AxfrError :=
  | BadPrimary (addr : string)
  | BadZoneName (zone : string)
  | ConnectFailed
  | SerializeFailed
  | WriteFailed
  | ReadFailed
  | ParseFailed
  | Refused (rcode : ResponseCode).

(** What follows the bytes of a stream: the end, as the peer closed it, another I/O error, or nothing
    so far, as the connection is open and the peer has sent no more. *)
Inductive StreamEnd := Eof | Broken | Open.

(** A transfer that has finished, or one that waits for the primary to send more. *)
Inductive Transfer {E A : Type} := Finished (r : result E A) | Waiting.
#[global] Arguments Transfer : clear implicits.

(** The continuation of a transfer whose result is used. *)
Definition after_transfer {E A B} (t : Transfer E A) (f : A → B) : Transfer E B :=
  match t with
  | Finished (Ok a) => Finished (Ok (f a))
  | Finished (Err e) => Finished (Err e)
  | Waiting => Waiting
  end.

#[local] Notation fail e := (Finished (Err e)).

Section Axfr.
Context `{Hickory}.

(** The variables of the receiving loop. *)
Record AxfrState := {
  records : list Rec;
  saw_soa_start : bool;
  soa_serial : option Z
}.

Definition axfr_init : AxfrState := {| records := []; saw_soa_start := false; soa_serial := None |}.

(** One answer record. *)
Definition take_record (st : AxfrState) (rr : Rec) : AxfrState :=
  match data rr with
  | RD_SOA _ _ serial _ _ _ _ =>
      if negb (saw_soa_start st) then
        {| records := records st ++ [rr]; saw_soa_start := true; soa_serial := Some serial |}
      else st
  | _ => {| records := records st ++ [rr]; saw_soa_start := saw_soa_start st;
            soa_serial := soa_serial st |}
  end.

(** The check at the end of a round: whether the transfer is complete. *)
Definition transfer_done (st : AxfrState) (response : Message) : bool :=
  negb (truncation response) && saw_soa_start st && existsb (is_type RT_SOA) (records st).

(** The receiving loop over the bytes that arrive; each round takes at least two. *)
Fixpoint receive (fuel : nat) (stream : list Z) (ending : StreamEnd) (st : AxfrState) :
    option (Transfer AxfrError (list Rec)) :=
  match fuel with
  | O => None
  | S k =>
      if (length stream <? 2)%nat then
        Some (match ending with Eof => Finished (Ok (records st)) | Broken => fail ReadFailed | Open => Waiting end)
      else
        let msg_len := Z.to_nat (be_combine (take 2 stream)) in
        let stream := drop 2 stream in
        if (msg_len =? 0)%nat then Some (Finished (Ok (records st)))
        else if (length stream <? msg_len)%nat then
          Some (match ending with Eof | Broken => fail ReadFailed | Open => Waiting end)
        else
          match message_from_vec (take msg_len stream) with
          | None => Some (fail ParseFailed)
          | Some response =>
              if negb (bool_decide (response_code response = NoError)) then
                Some (fail (Refused (response_code response)))
              else
                let st := foldl take_record st (answers response) in
                if transfer_done st response then Some (Finished (Ok (records st)))
                else receive k (drop msg_len stream) ending st
          end
  end.

(** The primary: a failed connection, or, for the bytes written to it, a failed write or what has
    arrived from it. *)
Context (primary : SocketAddr → option (list Z → option (list Z * StreamEnd))).

(** The query id is the low half of the nanoseconds of the wall clock. *)
Definition axfr_query (nanos : Z) (origin : Name) : Message :=
  {| msg_id := wrap 16 (Z.land nanos 0xFFFF); msg_is_response := false; op_code := Op_Query;
     response_code := NoError; authoritative := false; recursion_desired := false;
     recursion_available := false; truncation := false;
     queries := [(origin, RT_AXFR)]; answers := [] |}.

Definition frame_query (bytes : list Z) : list Z :=
  be_split 2 (wrap 16 (Z.of_nat (length bytes))) ++ bytes.

Definition axfr_records_from_primary (nanos : Z) (zone_name primary_addr : string) :
    option (Transfer AxfrError (list Rec)) :=
  match parse_socket_addr primary_addr with
  | None => Some (fail (BadPrimary primary_addr))
  | Some sock_addr =>
      match from_ascii zone_name with
      | None => Some (fail (BadZoneName zone_name))
      | Some origin =>
          match primary sock_addr with
          | None => Some (fail ConnectFailed)
          | Some exchange =>
              match message_to_vec (axfr_query nanos origin) with
              | None => Some (fail SerializeFailed)
              | Some query_bytes =>
                  match exchange (frame_query query_bytes) with
                  | None => Some (fail WriteFailed)
                  | Some (stream, ending) => receive (S (length stream)) stream ending axfr_init
                  end
              end
          end
      end
  end.

End Axfr.

(** The records of a transfer in a zone of their own, which starts empty. *)
Definition axfr_from_primary `{Zone.ZoneLib} (primary : SocketAddr → option (list Z → option (list Z * StreamEnd)))
    (nanos : Z) (zone_name primary_addr : string) :
    option (Transfer AxfrError (list ((Zone.LowerName * RecordType) * list Rec))) :=
  match from_ascii zone_name with
  | None => Some (fail (BadZoneName zone_name))
  | Some _ =>
      t ← axfr_records_from_primary primary nanos zone_name primary_addr;
      Some (after_transfer t (λ records, foldl (λ z record, Zone.upsert_mut record z) [] records))
  end.

End Secondary.

(** ** NOTIFY *)

Module Handler.
Import Dns Secondary.

Record SecondaryZoneInfo := { sec_name : string; sec_primaries : list string }.

Section Handler.
Context `{Hickory}.

(** A request: its operation code, the queried name as it was sent if the query section is readable,
    and its bytes. *)
Record Request := {
  req_op : OpCode;
  req_query : option Name;
  req_bytes : list Z
}.

(** The first configured zone with the notified name, or that name and one more dot. *)
Definition matching (secondaries : list SecondaryZoneInfo) (zone_name : string) : option SecondaryZoneInfo :=
  head (base.filter (λ s, sec_name s = zone_name ∨ sec_name s = zone_name +:+ ".") secondaries).

(** The serial of the first SOA answer of the message, 0 without one; it is only logged. *)
Definition notified_serial (bytes : list Z) : Z :=
  match message_from_vec bytes with
  | Some msg =>
      match head (base.filter (λ r, is_type RT_SOA r = true) (answers msg)) with
      | Some r => match data r with RD_SOA _ _ serial _ _ _ _ => serial | _ => 0 end
      | None => 0
      end
  | None => 0
  end.

(** The refresh task: the primaries are tried in turn until one transfer succeeds; the zone that
    was transferred is dropped.  While a transfer waits, no further primary is tried.  Returns the
    primaries that are asked. *)
Fixpoint refresh_task {Zone E} (axfr_from_primary : string → string → Transfer E Zone) (name : string)
    (primaries : list string) : list string :=
  match primaries with
  | [] => []
  | p :: rest =>
      match axfr_from_primary name p with
      | Finished (Ok _) | Waiting => [p]
      | Finished (Err _) => p :: refresh_task axfr_from_primary name rest
      end
  end.

(** What handling a request does: the response code it is answered with, and the zone whose
    refresh is spawned.  [sends] says whether the response can be sent. *)
Record Handled := { rcode : ResponseCode; refresh : option SecondaryZoneInfo }.

Definition send_code (sends : bool) (code : ResponseCode) : ResponseCode :=
  if sends then code else ServFail.

(** The name of a request is read in lower case. *)
Definition handle_notify (secondaries : list SecondaryZoneInfo) (sends : bool) (request : Request) : Handled :=
  match req_query request with
  | None => {| rcode := send_code sends FormErr; refresh := None |}
  | Some n =>
      let zone_name := to_utf8 (to_lowercase n) in
      let _ := notified_serial (req_bytes request) in
      {| rcode := send_code sends NoError; refresh := matching secondaries zone_name |}
  end.

Definition handle_request (catalog : Request → Handled) (secondaries : list SecondaryZoneInfo)
    (sends : bool) (request : Request) : Handled :=
  if bool_decide (req_op request = Op_Notify) then handle_notify secondaries sends request
  else catalog request.

End Handler.
End Handler.
