(* ===== verification/SecondaryProps.v ===== *)
(** * Properties of zone transfer and NOTIFY *)

From Stdlib Require Import Ascii String ZArith Lia.
From stdpp Require Import base list gmap strings numbers.
From S2P Require Import Prelude RustString RustNum RustNet Metrics Cache Config Dns DnsSample Zone Keys ZoneSample.
From S2P Require Import Secondary.

Local Open Scope Z_scope.

Module SecondaryProps.
Import Dns Secondary.

Section Axfr.
Context `{Hickory}.

Definition is_soa (r : Rec) : bool :=
  match data r with RD_SOA _ _ _ _ _ _ _ => true | _ => false end.

(** The records with every SOA record after the first removed. *)
Fixpoint drop_soas (l : list Rec) : list Rec :=
  match l with [] => [] | r :: l' => if is_soa r then drop_soas l' else r :: drop_soas l' end.

Fixpoint keep_first_soa (l : list Rec) : list Rec :=
  match l with [] => [] | r :: l' => if is_soa r then r :: drop_soas l' else r :: keep_first_soa l' end.

(** One record: kept unless it is a SOA record after the first. *)
Lemma take_record_records st r :
  records (take_record st r) = records st ++ (if is_soa r && saw_soa_start st then [] else [r]) ∧
  saw_soa_start (take_record st r) = saw_soa_start st || is_soa r.
Proof.
  unfold take_record, is_soa. destruct (data r); cbn; rewrite ?orb_false_r; try done.
  destruct (saw_soa_start st) eqn:E; cbn; [by rewrite app_nil_r|done].
Qed.

Lemma take_records_seen l st :
  saw_soa_start st = true →
  records (foldl take_record st l) = records st ++ drop_soas l ∧
  saw_soa_start (foldl take_record st l) = true.
Proof.
  revert st. induction l as [|r l IH]; intros st Hs; cbn [foldl drop_soas]; [by rewrite app_nil_r|].
  destruct (take_record_records st r) as [Hr Hs']. rewrite Hs in Hr, Hs'.
  destruct (IH (take_record st r) Hs') as [-> ->]. split; [|done]. rewrite Hr, andb_true_r.
  destruct (is_soa r); [by rewrite app_nil_r|by rewrite <- (assoc_L (++))].
Qed.

Lemma take_records_fresh l st :
  saw_soa_start st = false →
  records (foldl take_record st l) = records st ++ keep_first_soa l ∧
  saw_soa_start (foldl take_record st l) = existsb is_soa l.
Proof.
  revert st. induction l as [|r l IH]; intros st Hs; cbn [foldl keep_first_soa existsb]; [by rewrite app_nil_r|].
  destruct (take_record_records st r) as [Hr Hs']. rewrite Hs, andb_false_r in Hr. rewrite Hs in Hs'.
  destruct (is_soa r); cbn [orb] in *.
  - destruct (take_records_seen l (take_record st r) Hs') as [-> ->]. rewrite Hr.
    by rewrite <- (assoc_L (++)).
  - destruct (IH (take_record st r) Hs') as [-> ->]. rewrite Hr. by rewrite <- (assoc_L (++)).
Qed.

(** The result of the loop has what the loop had, at most one of it a SOA record. *)
Definition soa_count (l : list Rec) : nat := length (base.filter (λ r, is_soa r = true) l).

Record recv_inv (st : AxfrState) : Prop := {
  ri_count : (soa_count (records st) ≤ 1)%nat;
  ri_seen : saw_soa_start st = existsb is_soa (records st)
}.

Lemma soa_count_app l l' : soa_count (l ++ l') = (soa_count l + soa_count l')%nat.
Proof. unfold soa_count. by rewrite list.filter_app, length_app. Qed.

Lemma soa_count_0 l : existsb is_soa l = false ↔ soa_count l = 0%nat.
Proof.
  induction l as [|r l IH]; [done|]. cbn [existsb]. unfold soa_count in *.
  destruct (is_soa r) eqn:E; cbn [orb].
  - rewrite filter_cons_True by done. done.
  - rewrite filter_cons_False by congruence. done.
Qed.

Lemma soa_count_singleton r : soa_count [r] = if is_soa r then 1%nat else 0%nat.
Proof.
  unfold soa_count. destruct (is_soa r) eqn:E.
  - by rewrite filter_cons_True.
  - by rewrite filter_cons_False by congruence.
Qed.

Lemma take_record_inv st r : recv_inv st → recv_inv (take_record st r).
Proof.
  intros [Hc Hs]. destruct (take_record_records st r) as [Hr Hs']. split; rewrite Hr.
  - rewrite soa_count_app. destruct (is_soa r) eqn:E; cbn [andb].
    + destruct (saw_soa_start st); [unfold soa_count at 2; simpl; lia|].
      symmetry in Hs. apply soa_count_0 in Hs. rewrite Hs, soa_count_singleton, E. lia.
    + rewrite soa_count_singleton, E. lia.
  - rewrite existsb_app, Hs', Hs. destruct (is_soa r) eqn:E; cbn [andb]; rewrite ?orb_false_r.
    + destruct (existsb is_soa (records st)); simpl; [done|by rewrite E].
    + simpl. by rewrite E, !orb_false_r.
Qed.

(** The loop has a result for every stream: it waits only on an open connection, and what it returns
    has at most one SOA record. *)
Lemma receive_run fuel stream ending st :
  (length stream < fuel)%nat → recv_inv st →
  ∃ t, receive fuel stream ending st = Some t ∧
    match t with
    | Finished (Ok rs) => (soa_count rs ≤ 1)%nat
    | Finished (Err _) => True
    | Waiting => ending = Open
    end.
Proof.
  revert stream st. induction fuel as [|fuel IH]; intros stream st Hf Hinv; [lia|]. cbn [receive].
  destruct (Nat.ltb_spec (length stream) 2) as [|H2].
  { eexists. split; [done|]. destruct ending; [apply Hinv|done..]. }
  cbv zeta. destruct (_ =? 0)%nat; [eexists; split; [done|]; apply Hinv|].
  destruct (_ <? _)%nat; [eexists; split; [done|]; by destruct ending|].
  destruct (message_from_vec _) as [resp|]; [|by eexists].
  destruct (negb _); [by eexists|].
  assert (recv_inv (foldl take_record st (answers resp))) as Hinv'.
  { apply foldl_invariant; [|done]. intros; by apply take_record_inv. }
  destruct (transfer_done _ resp).
  - eexists. split; [done|]. apply Hinv'.
  - apply IH; [|done]. rewrite !length_drop. lia.
Qed.

(** What has finished is not changed by what arrives later. *)
Lemma receive_stable fuel fuel' stream more ending st r :
  (fuel ≤ fuel')%nat → receive fuel stream Open st = Some (Finished r) →
  receive fuel' (stream ++ more) ending st = Some (Finished r).
Proof.
  revert fuel' stream st. induction fuel as [|fuel IH]; intros fuel' stream st Hf; [done|].
  destruct fuel' as [|fuel']; [lia|]. cbn [receive]. rewrite length_app.
  destruct (Nat.ltb_spec (length stream) 2) as [|H2]; [done|]. rewrite (proj2 (Nat.ltb_ge (length stream + length more) 2)) by lia.
  cbv zeta. rewrite take_app_le, drop_app_le by lia. destruct (_ =? 0)%nat; [done|].
  rewrite length_app. destruct (Nat.ltb_spec (length (drop 2 stream)) (Z.to_nat (be_combine (take 2 stream)))) as [|Hl];
    [done|]. rewrite (proj2 (Nat.ltb_ge (length (drop 2 stream) + length more) _)), take_app_le, drop_app_le by lia.
  destruct (message_from_vec _) as [resp|]; [|done]. destruct (negb _); [done|].
  destruct (transfer_done _ resp); [done|]. apply IH. lia.
Qed.

(** A message that cannot complete a transfer: it is complete itself and no error, and [cut] says
    whether it is marked as truncated or has no SOA record. *)
Definition keeps_open (cut : bool) (body : list Z) : Prop :=
  0 < Z.of_nat (length body) ≤ 65535 ∧
  ∃ resp, message_from_vec body = Some resp ∧ response_code resp = NoError ∧
    (if cut then truncation resp = true else existsb is_soa (answers resp) = false).

(** One round on a whole message. *)
Lemma receive_message body rest ending st resp k :
  0 < Z.of_nat (length body) ≤ 65535 → message_from_vec body = Some resp → response_code resp = NoError →
  receive (S k) (frame_query body ++ rest) ending st =
  let st := foldl take_record st (answers resp) in
  if transfer_done st resp then Some (Finished (Ok (records st))) else receive k rest ending st.
Proof.
  intros Hlen Hmsg Hrc. cbn [receive]. unfold frame_query. rewrite wrap_small by lia.
  rewrite <- (assoc_L (++)).
  assert (length (be_split 2 (Z.of_nat (length body))) = 2%nat) as H2 by apply length_be_split.
  rewrite length_app, H2, (proj2 (Nat.ltb_ge _ 2)) by lia. cbv zeta.
  rewrite take_app_length', drop_app_length' by done.
  rewrite be_combine_split, Z.mod_small, Nat2Z.id by (change (256 ^ Z.of_nat 2) with 65536; lia).
  rewrite (proj2 (Nat.eqb_neq _ _)) by lia. rewrite length_app, (proj2 (Nat.ltb_ge _ _)) by lia.
  rewrite take_app_length, drop_app_length, Hmsg, Hrc. by rewrite bool_decide_true.
Qed.

Lemma receive_endless cut bodies st fuel :
  (length bodies < fuel)%nat → Forall (keeps_open cut) bodies → (cut = true ∨ saw_soa_start st = false) →
  receive fuel (bodies ≫= frame_query) Open st = Some Waiting.
Proof.
  revert st fuel. induction bodies as [|body bodies IH]; intros st fuel Hf Hall Hst;
    (destruct fuel as [|fuel]; [cbn in Hf; lia|]); [done|].
  apply list.Forall_cons in Hall as [(Hlen & resp & Hmsg & Hrc & Hopen) Hall].
  change ((body :: bodies) ≫= frame_query) with (frame_query body ++ (bodies ≫= frame_query)).
  rewrite (receive_message body _ _ st resp fuel Hlen Hmsg Hrc). cbv zeta.
  assert (cut = true ∨ saw_soa_start (foldl take_record st (answers resp)) = false) as Hst'.
  { destruct Hst as [->|Hs]; [by left|]. destruct cut; [by left|right].
    by rewrite (proj2 (take_records_fresh (answers resp) st Hs)). }
  assert (transfer_done (foldl take_record st (answers resp)) resp = false) as ->.
  { unfold transfer_done. destruct cut; [by rewrite Hopen|]. destruct Hst' as [|Hs]; [done|]. rewrite Hs. by rewrite andb_false_r. }
  apply IH; [cbn in Hf; lia|done..].
Qed.

Lemma recv_inv_init : recv_inv axfr_init.
Proof. split; simpl; [unfold soa_count; simpl; lia|done]. Qed.

Lemma is_soa_type r : is_soa r = true → is_type RT_SOA r = true.
Proof.
  unfold is_soa, is_type, record_type. intros Hr. apply bool_decide_eq_true. by destruct (data r).
Qed.

Lemma keep_first_soa_has l : existsb is_soa l = true → existsb (is_type RT_SOA) (keep_first_soa l) = true.
Proof.
  induction l as [|r l IH]; [done|]. cbn [existsb keep_first_soa]. destruct (is_soa r) eqn:E; cbn [existsb orb].
  - intros _. by rewrite is_soa_type.
  - intros Hl. by rewrite IH, orb_true_r.
Qed.

Lemma receive_first_message body rest ending resp k :
  0 < Z.of_nat (length body) ≤ 65535 →
  message_from_vec body = Some resp → response_code resp = NoError → truncation resp = false →
  existsb is_soa (answers resp) = true →
  receive (S k) (frame_query body ++ rest) ending axfr_init = Some (Finished (Ok (keep_first_soa (answers resp)))).
Proof.
  intros Hlen Hmsg Hrc Htc Hsoa. rewrite (receive_message body rest ending axfr_init resp k Hlen Hmsg Hrc). cbv zeta.
  destruct (take_records_fresh (answers resp) axfr_init eq_refl) as [Hr Hs].
  unfold transfer_done. rewrite Hr, Hs, Hsoa, Htc. cbn [records axfr_init app negb andb].
  by rewrite keep_first_soa_has.
Qed.

(** A primary that has accepted the query and from which these bytes have arrived so far. *)
Definition so_far (stream : list Z) (ending : StreamEnd) : SocketAddr → option (list Z → option (list Z * StreamEnd)) :=
  λ _, Some (λ _, Some (stream, ending)).

(** With a readable address and zone name and a query that can be sent, a transfer is the loop. *)
Lemma transfer_receives nanos zone addr origin stream ending :
  is_Some (parse_socket_addr addr) → from_ascii zone = Some origin →
  is_Some (message_to_vec (axfr_query nanos origin)) →
  axfr_records_from_primary (so_far stream ending) nanos zone addr =
  receive (S (length stream)) stream ending axfr_init.
Proof. intros [sock Ha] Hz [q Hq]. unfold axfr_records_from_primary. by rewrite Ha, Hz, Hq. Qed.

Lemma length_bodies bodies : (length bodies ≤ length (bodies ≫= frame_query))%nat.
Proof.
  induction bodies as [|b bodies IH]; [done|]. change ((b :: bodies) ≫= frame_query) with (frame_query b ++ (bodies ≫= frame_query)).
  unfold frame_query at 1. rewrite !length_app, length_be_split. cbn [length]. lia.
Qed.

End Axfr.

(** The names the handler takes for a notified name. *)
Definition named `{Hickory} (n : Name) (s : Handler.SecondaryZoneInfo) : Prop :=
  let zone_name := to_utf8 (to_lowercase n) in
  Handler.sec_name s = zone_name ∨ Handler.sec_name s = zone_name +:+ ".".

#[export] Instance named_dec `{Hickory} n s : Decision (named n s).
Proof. unfold named. apply _. Defined.

Lemma named_ends_with_dot `{Hickory} n s :
  Str.ends_with "." (to_utf8 (to_lowercase n)) = true → named n s → Str.ends_with "." (Handler.sec_name s) ≠ false.
Proof.
  intros Hdot [->| ->]; [congruence|].
  assert (Str.ends_with "." (to_utf8 (to_lowercase n) +:+ ".") = true) as ->; [|done].
  apply StrFacts.ends_with_true. by eexists.
Qed.

(** A name with a capital is not taken for any notified name. *)
Lemma named_lower `{Hickory} n s : named n s → Str.to_ascii_lowercase (Handler.sec_name s) = Handler.sec_name s.
Proof. intros [->| ->]; [|rewrite StrFacts.to_ascii_lowercase_app]; by rewrite to_utf8_lowercase. Qed.

Lemma matching_first `{Hickory} n secondaries :
  match Handler.matching secondaries (to_utf8 (to_lowercase n)) with
  | Some s => ∃ before after, secondaries = before ++ s :: after ∧ named n s ∧
                Forall (λ s', ¬ named n s') before
  | None => Forall (λ s', ¬ named n s') secondaries
  end.
Proof. exact (head_filter_first (named n) secondaries). Qed.

(** ** The theorems *)

#[local] Existing Instance Zone.LowerName_eq_dec.

(** The store leaves alone what is not transferred. *)
Lemma upserts_other `{Zone.ZoneLib} (records : list Rec) z k :
  Forall (λ r, (Zone.lower (rname r), record_type r) ≠ k) records →
  Zone.zone_get k (foldl (λ z r, Zone.upsert_mut r z) z records) = Zone.zone_get k z.
Proof.
  revert z. induction records as [|r records IH]; intros z Hall; [done|].
  apply list.Forall_cons in Hall as [Hr Hall]. cbn [foldl]. rewrite IH by done. by apply Zone.upsert_other, not_eq_sym.
Qed.

(** Every transfer has an outcome; only one whose connection is open waits. *)
Lemma transfer_outcome `{Hickory} primary nanos zone addr :
  ∃ t, axfr_records_from_primary primary nanos zone addr = Some t ∧
    match t with
    | Finished (Ok rs) => from_ascii zone ≠ None ∧ (soa_count rs ≤ 1)%nat
    | Finished (Err _) => True
    | Waiting => ∃ sock exchange query stream, primary sock = Some exchange ∧ exchange query = Some (stream, Open)
    end.
Proof.
  unfold axfr_records_from_primary. destruct (parse_socket_addr addr) as [sock|]; [|by eexists].
  destruct (from_ascii zone); [|by eexists]. destruct (primary sock) as [exchange|] eqn:Ep; [|by eexists].
  destruct (message_to_vec _) as [q|]; [|by eexists].
  destruct (exchange _) as [[stream ending]|] eqn:Ee; [|by eexists].
  destruct (receive_run (S (length stream)) stream ending axfr_init) as (t & Ht & Hres); [lia|apply recv_inv_init|].
  exists t. split; [done|]. destruct t as [[rs|e]|]; [done..|]. subst ending. by eexists _, _, _, _.
Qed.

(** C31: How a transfer goes.  Whatever has arrived from the primary so far, the transfer has finished
    or waits for more, and it waits only while the connection is open.  A finished one is not changed by
    anything that arrives later; when it succeeded, it has at most one SOA record, as the closing SOA is
    dropped, and the zone built from it has nothing under a name and type that was not transferred;
    building the zone fails as the transfer does.  As no read has a time limit, the program does not
    ensure that a transfer ends: with a primary that accepts the query and sends nothing it waits for
    ever, and so it does with one that keeps sending messages that are all truncated or all without a
    SOA record, however many.  The other primaries of a zone are then not asked: the refresh stops at
    the first one that stays silent. *)
Theorem axfr_ends_or_waits `{Zone.ZoneLib} nanos zone addr :
  (∀ primary, ∃ t z, axfr_records_from_primary primary nanos zone addr = Some t ∧
     axfr_from_primary primary nanos zone addr = Some z ∧
     match t with
     | Finished (Ok rs) =>
         (length (base.filter (λ x, is_soa x = true) rs) ≤ 1)%nat ∧
         ∃ content, z = Finished (Ok content) ∧
           ∀ k, Forall (λ x, (Zone.lower (rname x), record_type x) ≠ k) rs → Zone.zone_get k content = None
     | Finished (Err e) => z = Finished (Err e) ∨ (from_ascii zone = None ∧ z = Finished (Err (BadZoneName zone)))
     | Waiting => z = Waiting ∧ ∃ sock exchange query stream,
         primary sock = Some exchange ∧ exchange query = Some (stream, Open)
     end) ∧
  (∀ stream more ending r,
     axfr_records_from_primary (so_far stream Open) nanos zone addr = Some (Finished r) →
     axfr_records_from_primary (so_far (stream ++ more) ending) nanos zone addr = Some (Finished r)) ∧
  (∀ origin cut bodies others,
     is_Some (parse_socket_addr addr) → from_ascii zone = Some origin →
     is_Some (message_to_vec (axfr_query nanos origin)) → Forall (keeps_open cut) bodies →
     let primary := so_far (bodies ≫= frame_query) Open in
     axfr_records_from_primary primary nanos zone addr = Some Waiting ∧
     Handler.refresh_task (λ z a, default Waiting (axfr_from_primary primary nanos z a)) zone (addr :: others) = [addr]).
Proof.
  split_and!.
  - intros primary. destruct (transfer_outcome primary nanos zone addr) as (t & Ht & Hres). exists t.
    unfold axfr_from_primary. rewrite Ht. destruct (from_ascii zone) as [origin|] eqn:Ho; cbn [mbind option_bind].
    + eexists. split_and!; [done..|]. destruct t as [[rs|e]|]; cbn [after_transfer]; [|by left|done].
      destruct Hres as [_ Hc]. split; [done|]. eexists. split; [done|]. intros k Hk. by rewrite upserts_other.
    + eexists. split_and!; [done..|]. destruct t as [[rs|e]|]; [by destruct Hres|by right|].
      unfold axfr_records_from_primary in Ht. rewrite Ho in Ht. by destruct (parse_socket_addr addr).
  - intros stream more ending r. unfold axfr_records_from_primary, so_far.
    destruct (parse_socket_addr addr); [|done]. destruct (from_ascii zone); [|done].
    destruct (message_to_vec _); [|done]. apply receive_stable. rewrite length_app. lia.
  - intros origin cut bodies others Ha Hz Hq Hall primary.
    assert (axfr_records_from_primary primary nanos zone addr = Some Waiting) as Hw.
    { unfold primary. rewrite (transfer_receives nanos zone addr origin) by done.
      apply (receive_endless cut); [pose proof (length_bodies bodies); lia|done|by right]. }
    split; [done|]. cbn [Handler.refresh_task]. unfold axfr_from_primary. by rewrite Hz, Hw.
Qed.

(** C32: When the first message of the primary is not truncated and has a SOA record, the transfer
    ends with it: its answers, without the SOA records after the first, are the whole result.  So
    a zone sent in one message arrives complete, and of a zone sent in several messages everything
    after the first is lost, whatever the primary sends. *)
Theorem axfr_first_message_decides `{Hickory} primary nanos zone addr sock origin exchange query body rest ending resp :
  parse_socket_addr addr = Some sock → from_ascii zone = Some origin →
  message_to_vec (axfr_query nanos origin) = Some query →
  primary sock = Some exchange →
  exchange (frame_query query) = Some (frame_query body ++ rest, ending) →
  0 < Z.of_nat (length body) ≤ 65535 →
  message_from_vec body = Some resp → response_code resp = NoError → truncation resp = false →
  existsb is_soa (answers resp) = true →
  axfr_records_from_primary primary nanos zone addr = Some (Finished (Ok (keep_first_soa (answers resp)))).
Proof.
  intros Ha Hz Hq Hc Hp Hlen Hmsg Hrc Htc Hsoa. unfold axfr_records_from_primary.
  rewrite Ha, Hz, Hc, Hq, Hp. by apply receive_first_message.
Qed.

(** Every request but a NOTIFY goes to the catalog.  A NOTIFY whose query cannot be read is
    answered with FORMERR and starts nothing.  A readable one is always acknowledged, and starts a
    refresh of the first configured zone whose name is the notified name in lower case, or that name
    followed by a dot, or of none when there is no such zone; so a zone configured with a capital, or
    (as the notified name ends in a dot) without a trailing dot, is never refreshed.  The refresh asks
    the primaries in order, up to the first that succeeds or never finishes. *)
Lemma notify_behaviour `{Hickory} {Zone E} (axfr : string → string → Transfer E Zone) catalog secondaries sends request n name primaries :
  (Handler.req_op request ≠ Op_Notify →
     Handler.handle_request catalog secondaries sends request = catalog request) ∧
  (Handler.req_op request = Op_Notify → Handler.req_query request = None →
     Handler.handle_request catalog secondaries sends request =
       {| Handler.rcode := if sends then FormErr else ServFail; Handler.refresh := None |}) ∧
  (Handler.req_op request = Op_Notify → Handler.req_query request = Some n →
     let h := Handler.handle_request catalog secondaries sends request in
     Handler.rcode h = (if sends then NoError else ServFail) ∧
     match Handler.refresh h with
     | Some s => ∃ before after, secondaries = before ++ s :: after ∧ named n s ∧
                   Forall (λ s', ¬ named n s') before
     | None => Forall (λ s', ¬ named n s') secondaries
     end ∧
     (Str.ends_with "." (to_utf8 (to_lowercase n)) = true →
      Forall (λ s, Str.ends_with "." (Handler.sec_name s) = false ∨
                   Str.to_ascii_lowercase (Handler.sec_name s) ≠ Handler.sec_name s) secondaries →
      Handler.refresh h = None)) ∧
  (∃ rest, primaries = Handler.refresh_task axfr name primaries ++ rest ∧
     (rest ≠ [] → ∃ p, list.last (Handler.refresh_task axfr name primaries) = Some p ∧
        match axfr name p with Finished (Err _) => False | _ => True end)).
Proof.
  split_and!.
  - intros Hop. unfold Handler.handle_request. by rewrite bool_decide_false.
  - intros Hop Hq. unfold Handler.handle_request, Handler.handle_notify.
    by rewrite bool_decide_true, Hq by done.
  - intros Hop Hq h. unfold h, Handler.handle_request, Handler.handle_notify.
    rewrite bool_decide_true, Hq by done. cbn [Handler.rcode Handler.refresh].
    pose proof (matching_first n secondaries) as Hfirst.
    split_and!; [by destruct sends|done|]. intros Hdot Hall.
    destruct (Handler.matching secondaries _) as [s|]; [|done].
    destruct Hfirst as (before & after & -> & Hname & _).
    destruct (proj1 (list.Forall_forall _ _) Hall s ltac:(set_solver)) as [Hs|Hs].
    + by destruct (named_ends_with_dot n s Hdot Hname).
    + by destruct (Hs (named_lower n s Hname)).
  - induction primaries as [|p ps (rest & Hps & Hr)]; simpl; [by exists []|].
    destruct (axfr name p) as [[z|e]|] eqn:Em.
    + exists ps. split; [done|]. intros _. exists p. by rewrite Em.
    + exists rest. simpl. split; [by rewrite <- Hps|]. intros (p' & Hl & Hz)%Hr. exists p'.
      split; [|done]. rewrite last_cons, Hl. done.
    + exists ps. split; [done|]. intros _. exists p. by rewrite Em.
Qed.

(** ** Witnesses *)

Section Witnesses.
Import DnsSample ZoneSample.

Definition zone : @Name sample := ({| s_labels := ["e"]%string; s_fqdn := true |} : SName).
Definition soa : RecordOf SName := from_rdata zone 3600 (RD_SOA zone zone 7 1 2 3 4).
Definition host : RecordOf SName := from_rdata zone 60 (RD_A (ipv4 192 0 2 1)).

Definition axfr_message : MessageOf SName :=
  {| msg_id := 0; msg_is_response := false; op_code := Op_Query; response_code := NoError;
     authoritative := false; recursion_desired := false;
     recursion_available := false; truncation := false; queries := []; answers := [soa; host; soa] |}.

Definition axfr_body : list Z := default [] (s_to_vec axfr_message).

(** A primary that sends one complete message and then more. *)
Definition one_primary : SocketAddr → option (list Z → option (list Z * StreamEnd)) :=
  λ _, Some (λ _, Some (frame_query axfr_body ++ [1; 2; 3], Broken)).

Lemma axfr_first_message_decides_witness :
  @axfr_records_from_primary sample one_primary 5 "e." "192.0.2.53:53" = Some (Finished (Ok [soa; host])).
Proof.
  eapply (@axfr_first_message_decides sample one_primary 5 "e." "192.0.2.53:53"
            (SockV4 (ipv4 192 0 2 53) 53) zone
            (λ _, Some (frame_query axfr_body ++ [1; 2; 3], Broken)) (default [] (s_to_vec (axfr_query 5 zone)))
            axfr_body [1; 2; 3] Broken axfr_message).
  - vm_compute. reflexivity.
  - reflexivity.
  - reflexivity.
  - reflexivity.
  - reflexivity.
  - split; vm_compute; [reflexivity|discriminate].
  - vm_compute. reflexivity.
  - reflexivity.
  - reflexivity.
  - reflexivity.
Defined.

(** A transfer that has finished, one that waits after a message without a SOA record, and a refresh
    whose first primary stays silent. *)
Definition host_body : list Z :=
  default [] (s_to_vec {| msg_id := 0; msg_is_response := false; op_code := Op_Query; response_code := NoError;
     authoritative := false; recursion_desired := false;
     recursion_available := false; truncation := false; queries := []; answers := [host] |}).

Lemma axfr_ends_or_waits_witness :
  @axfr_records_from_primary sample (so_far (frame_query axfr_body ++ [1; 2; 3]) Eof) 5 "e." "192.0.2.53:53" =
    Some (Finished (Ok [soa; host])) ∧
  @axfr_records_from_primary sample (so_far (frame_query host_body ++ frame_query host_body) Open) 5 "e." "192.0.2.53:53" =
    Some Waiting ∧
  Handler.refresh_task (λ z a, default Waiting (@axfr_from_primary sample sample_zone (so_far [] Open) 5 z a)) "e."
    ["192.0.2.53:53"; "192.0.2.54:53"]%string = ["192.0.2.53:53"%string].
Proof.
  destruct (@axfr_ends_or_waits sample sample_zone 5 "e." "192.0.2.53:53") as (_ & Hstable & Hwait).
  split_and!.
  - apply Hstable. vm_compute. reflexivity.
  - destruct (Hwait zone false [host_body; host_body] []) as [Hw _]; [by eexists|reflexivity|by eexists| |].
    + assert (keeps_open (H := sample) false host_body).
      { split; [split; vm_compute; [reflexivity|discriminate]|]. eexists. split; [vm_compute; reflexivity|].
        split; reflexivity. }
      by repeat apply Forall_cons_2.
    + cbn [mbind list_bind] in Hw. by rewrite app_nil_r in Hw.
  - by destruct (Hwait zone true [] ["192.0.2.54:53"%string]) as [_ Hr]; [by eexists|reflexivity|by eexists|apply Forall_nil_2|].
Defined.

(** A NOTIFY for a zone that is configured without its trailing dot. *)
Definition undotted : Handler.SecondaryZoneInfo :=
  {| Handler.sec_name := "e"; Handler.sec_primaries := ["192.0.2.53:53"%string] |}.

Definition notify_request : @Handler.Request sample :=
  {| Handler.req_op := Op_Notify; Handler.req_query := Some zone; Handler.req_bytes := [] |}.

Definition no_catalog : @Handler.Request sample → Handler.Handled :=
  λ _, {| Handler.rcode := NotImp; Handler.refresh := None |}.

Lemma notify_behaviour_witness :
  Handler.refresh (@Handler.handle_request sample no_catalog [undotted] true notify_request) = None.
Proof.
  destruct (@notify_behaviour sample unit unit (λ _ _, Finished (Ok tt)) no_catalog [undotted] true notify_request
              zone "e" []) as (_ & _ & Hn & _).
  destruct (Hn eq_refl eq_refl) as (_ & _ & Hnone). apply Hnone; [reflexivity|].
  each_element ltac:(left; reflexivity).
Defined.

End Witnesses.

End SecondaryProps.
