(* ===== verification/Catalog.v ===== *)
(** * Catalog zones ([src/core/zone/catalog.rs])

    A catalog zone lists member zones: a PTR record per member and address records for its
    primaries. *)

From Stdlib Require Import Ascii String ZArith Lia.
From stdpp Require Import base list gmap strings numbers.
From S2P Require Import Prelude RustString RustNum RustNet Metrics Cache Config Dns Zone Secondary.

Local Open Scope Z_scope.

Module Catalog.
Import Dns Zone Secondary.

Section Catalog.
Context `{Hickory}.

Record CatalogZoneHandler := { cat_origin : Name; cat_type : ZoneType }.

(** The transfer of the catalog zone itself. *)
Definition sync_catalog (primary : SocketAddr → option (list Z → option (list Z * StreamEnd)))
    (nanos : Z) (h : CatalogZoneHandler) (primary_addr : string) :
    option (Transfer AxfrError (list Rec)) :=
  axfr_records_from_primary primary nanos (to_string (cat_origin h)) primary_addr.

Definition verify_version (h : CatalogZoneHandler) (records : list Rec) : bool :=
  match from_ascii ("version." +:+ to_string (cat_origin h)) with
  | None => false
  | Some version_name =>
      existsb (λ r, name_eqb (rname r) version_name &&
                    match data r with
                    | RD_TXT txt => existsb (λ t, bool_decide (t = "2"%string)) txt
                    | _ => false
                    end) records
  end.

(** The entry of one record: the unique id and the member zone. *)
Definition member_of (suffix : string) (r : Rec) : option (string * Name) :=
  if is_type RT_PTR r then
    prefix ← Str.strip_suffix suffix (to_string (rname r));
    match data r with
    | RD_PTR target => Some (Str.trim_end_matches "." prefix, target)
    | _ => None
    end
  else None.

Definition parse_member_zones (h : CatalogZoneHandler) (records : list Rec) : list (string * Name) :=
  let suffix := "zones." +:+ to_string (cat_origin h) in
  omap (member_of suffix) records.

Definition primary_of (primaries_subdomain : Name) (r : Rec) : option IpAddr :=
  if name_eqb (rname r) primaries_subdomain then
    match data r with
    | RD_A ip => Some (IpV4 ip)
    | RD_AAAA ip => Some (IpV6 ip)
    | _ => None
    end
  else None.

Definition parse_primaries (h : CatalogZoneHandler) (records : list Rec) (unique_id : string) : list IpAddr :=
  match from_ascii ("primaries." +:+ unique_id +:+ ".zones." +:+ to_string (cat_origin h)) with
  | None => []
  | Some primaries_subdomain => omap (primary_of primaries_subdomain) records
  end.

(** The task that [load_catalog_zone] spawns: the primaries are asked in turn until one answers,
    and the members of its answer are reported (and otherwise dropped).  [sync] is the outcome of a
    transfer; while one waits, no further primary is asked.  Returns the primaries asked and the members found. *)
Fixpoint catalog_primaries {E} (h : CatalogZoneHandler) (sync : string → Transfer E (list Rec))
    (primaries : list string) : list string * option (list (string * Name * list IpAddr)) :=
  match primaries with
  | [] => ([], None)
  | primary :: rest =>
      match sync primary with
      | Finished (Ok records) =>
          ([primary],
           if verify_version h records then
             Some ((λ m, (m, parse_primaries h records m.1)) <$> parse_member_zones h records)
           else None)
      | Finished (Err _) => let '(asked, found) := catalog_primaries h sync rest in (primary :: asked, found)
      | Waiting => ([primary], None)
      end
  end.

Definition catalog_task {E} (zone_name : string) (sync : string → Transfer E (list Rec))
    (primaries : list string) : list string * option (list (string * Name * list IpAddr)) :=
  match from_ascii zone_name with
  | None => ([], None)
  | Some origin => catalog_primaries {| cat_origin := origin; cat_type := Zone.Secondary |} sync primaries
  end.

End Catalog.
End Catalog.
