(* ===== verification/Notify.v ===== *)
(** * The NOTIFY sender ([src/core/zone/notify.rs])

    The message that announces a zone, which the handler of [Secondary] answers, and what is read
    from such a message. *)

From Stdlib Require Import Ascii String ZArith Lia.
From stdpp Require Import base list gmap strings numbers.
From S2P Require Import Prelude RustString RustNum RustNet Metrics Cache Dns.

Local Open Scope Z_scope.

Module Notify.
Import Dns.

Inductive NotifyError :=
  | BadSecondary (addr : string)
  | BadNotifyZone (zone : string)
  | NotifySerialize
  | NotifyBind
  | NotifySend (addr : SocketAddr)
  | NoQuery.

Section Notify.
Context `{Hickory}.

(** The id is the low half of the nanoseconds of the wall clock. *)
Definition notify_message (nanos : Z) (origin : Name) : Message :=
  {| msg_id := wrap 16 (Z.land nanos 0xFFFF); msg_is_response := false; op_code := Op_Notify;
     response_code := NoError; authoritative := true; recursion_desired := false;
     recursion_available := false; truncation := false; queries := [(origin, RT_SOA)]; answers := [] |}.

(** [bound] and [sends] say whether the socket can be bound and the datagram sent.  The serial is
    only logged.  Returns where the datagram goes and its bytes. *)
Definition send_notify (nanos : Z) (bound : bool) (sends : SocketAddr → list Z → bool)
    (zone_name secondary_addr : string) (serial : Z) : result NotifyError (SocketAddr * list Z) :=
  sock_addr ← ok_or (BadSecondary secondary_addr) (parse_socket_addr secondary_addr);
  origin ← ok_or (BadNotifyZone zone_name) (from_ascii zone_name);
  bytes ← ok_or NotifySerialize (message_to_vec (notify_message nanos origin));
  _ ← ensure bound NotifyBind;
  _ ← ensure (sends sock_addr bytes) (NotifySend sock_addr);
  Ok (sock_addr, bytes).

(** The zone and the serial a NOTIFY message carries. *)
Definition handle_notify (msg : Message) : result NotifyError (string * Z) :=
  query ← ok_or NoQuery (head (queries msg));
  let zone_name := to_utf8 query.1 in
  let serial := match head (base.filter (λ r, is_type RT_SOA r = true) (answers msg)) with
                | Some r => match data r with RD_SOA _ _ serial _ _ _ _ => serial | _ => 0 end
                | None => 0
                end in
  Ok (zone_name, serial).

End Notify.
End Notify.
