(* ===== verification/CatalogProps.v ===== *)
(** * Properties of catalog zones and of the NOTIFY sender *)

From Stdlib Require Import Ascii String ZArith Lia.
From stdpp Require Import base list gmap strings numbers.
From S2P Require Import Prelude RustString RustNum RustNet Metrics Cache Config Dns DnsSample Zone Secondary.
From S2P Require Import SecondaryProps Catalog Notify.

Local Open Scope Z_scope.

Module CatalogProps.
Import Dns Catalog.

Section Members.
Context `{Hickory}.

(** ** Reading members *)

Lemma member_of_Some suffix r id target :
  member_of suffix r = Some (id, target) ↔
  data r = RD_PTR target ∧
  ∃ prefix, to_string (rname r) = prefix +:+ suffix ∧ id = Str.trim_end_matches "." prefix.
Proof.
  unfold member_of, is_type, record_type. split.
  - case_bool_decide as Ht; [|done]. intros (prefix & Hp%StrFacts.strip_suffix_Some & Hd)%bind_Some.
    destruct (data r) eqn:Ed; try done. injection Hd as <- <-. by eauto.
  - intros (Hd & prefix & Hp & ->). rewrite Hd. rewrite bool_decide_true by done.
    apply StrFacts.strip_suffix_Some in Hp. by rewrite Hp.
Qed.

(** ** Writing members *)

Definition address_record (n : Name) (ip : IpAddr) : Rec :=
  from_rdata n 0 (match ip with IpV4 a => RD_A a | IpV6 a => RD_AAAA a end).

(** The records of a catalog, given the owner names of a member and of its primaries. *)
Definition member_records (owner primaries_owner : string → Name) (m : string * Name * list IpAddr) : list Rec :=
  let '(id, target, ips) := m in
  from_rdata (owner id) 0 (RD_PTR target) :: (address_record (primaries_owner id) <$> ips).

Definition catalog_records (owner primaries_owner : string → Name)
    (members : list (string * Name * list IpAddr)) : list Rec :=
  members ≫= member_records owner primaries_owner.

Lemma address_not_member suffix n (ips : list IpAddr) : omap (member_of suffix) (address_record n <$> ips) = [].
Proof. induction ips as [|[] ips IH]; [done|exact IH|exact IH]. Qed.

Lemma primaries_of_own n (ips : list IpAddr) :
  name_eqb n n = true → omap (primary_of n) (address_record n <$> ips) = ips.
Proof.
  intros Hn. induction ips as [|ip ips IH]; [done|]. rewrite fmap_cons, list_omap_cons.
  unfold primary_of at 1. cbn [rname from_rdata address_record]. rewrite Hn, IH. by destruct ip.
Qed.

Lemma primaries_of_other n n' (ips : list IpAddr) :
  name_eqb n' n = false → omap (primary_of n) (address_record n' <$> ips) = [].
Proof.
  intros Hn. induction ips as [|ip ips IH]; [done|]. rewrite fmap_cons, list_omap_cons.
  unfold primary_of at 1. cbn [rname from_rdata address_record]. by rewrite Hn, IH.
Qed.

Lemma ptr_not_primary n r target : data r = RD_PTR target → primary_of n r = None.
Proof. intros Hd. unfold primary_of. rewrite Hd. by destruct (name_eqb _ _). Qed.

Context (owner primaries_owner : string → Name) (h : CatalogZoneHandler).

(** The owner names are the ones the catalog format prescribes. *)
Record named_as_prescribed (ids : list string) : Prop := {
  np_ids id : id ∈ ids → Str.trim_end_matches "." id = id;
  np_owner id : id ∈ ids → to_string (owner id) = id +:+ ".zones." +:+ to_string (cat_origin h);
  np_primaries id : id ∈ ids →
    from_ascii ("primaries." +:+ id +:+ ".zones." +:+ to_string (cat_origin h)) = Some (primaries_owner id);
  np_distinct id id' : id ∈ ids → id' ∈ ids →
    name_eqb (primaries_owner id) (primaries_owner id') = bool_decide (id = id')
}.

Lemma member_of_owner ids id target :
  named_as_prescribed ids → id ∈ ids →
  member_of ("zones." +:+ to_string (cat_origin h)) (from_rdata (owner id) 0 (RD_PTR target)) = Some (id, target).
Proof.
  intros Hn Hid. apply member_of_Some. split; [done|]. exists (id +:+ ".").
  split; [cbn [rname from_rdata]; rewrite (np_owner _ Hn id Hid); by rewrite <- StrFacts.app_assoc|].
  rewrite StrFacts.trim_end_matches_snoc. by rewrite (np_ids _ Hn).
Qed.

Lemma members_read_back members :
  named_as_prescribed members.*1.*1 →
  parse_member_zones h (catalog_records owner primaries_owner members) = members.*1.
Proof.
  intros Hn. unfold parse_member_zones.
  assert (∀ l, (∀ m, m ∈ l → m.1.1 ∈ members.*1.*1) →
    omap (member_of ("zones." +:+ to_string (cat_origin h))) (catalog_records owner primaries_owner l) = l.*1) as Hall.
  { induction l as [|[[id target] ips] l IH]; intros Hl; [done|].
    change (catalog_records owner primaries_owner ((id, target, ips) :: l)) with
      (member_records owner primaries_owner (id, target, ips) ++ catalog_records owner primaries_owner l).
    rewrite omap_app, IH by set_solver. cbn [member_records]. rewrite list_omap_cons, address_not_member.
    rewrite (member_of_owner _ id target Hn); [done|]. apply (Hl (id, target, ips)). set_solver. }
  apply Hall. intros m Hm. apply list_elem_of_fmap_2, list_elem_of_fmap_2, Hm.
Qed.

Lemma primaries_read_back members id target ips :
  named_as_prescribed members.*1.*1 → NoDup members.*1.*1 → (id, target, ips) ∈ members →
  parse_primaries h (catalog_records owner primaries_owner members) id = ips.
Proof.
  intros Hn Hnd Hin. assert (∀ m, m ∈ members → m.1.1 ∈ members.*1.*1) as Hids.
  { intros m Hm. apply list_elem_of_fmap_2, list_elem_of_fmap_2, Hm. }
  unfold parse_primaries. rewrite (np_primaries _ Hn id (Hids _ Hin)).
  apply list_elem_of_split in Hin as (before & after & Hm).
  assert (∀ l, (∀ m, m ∈ l → m ∈ members ∧ m.1.1 ≠ id) →
    omap (primary_of (primaries_owner id)) (catalog_records owner primaries_owner l) = []) as Hother.
  { induction l as [|[[id' t'] ips'] l IH]; intros Hl; [done|].
    change (catalog_records owner primaries_owner ((id', t', ips') :: l)) with
      (member_records owner primaries_owner (id', t', ips') ++ catalog_records owner primaries_owner l).
    destruct (Hl (id', t', ips') ltac:(set_solver)) as [Hin' Hne].
    rewrite omap_app, IH by set_solver. cbn [member_records].
    rewrite list_omap_cons, (ptr_not_primary _ _ t') by done. rewrite app_nil_r.
    apply primaries_of_other. rewrite (np_distinct _ Hn); [by apply bool_decide_false| |].
    - apply (Hids _ Hin').
    - apply (Hids (id, target, ips)). rewrite Hm. set_solver. }
  assert (id ∈ members.*1.*1) as Hid by (apply (Hids (id, target, ips)); rewrite Hm; set_solver).
  rewrite Hm in Hnd. rewrite !fmap_app, !fmap_cons in Hnd. apply list.NoDup_app in Hnd as (_ & Hb & Ha).
  apply list.NoDup_cons in Ha as [Ha _]. cbn [fst] in *.
  rewrite Hm. unfold catalog_records. rewrite bind_app. cbn [mbind list_bind].
  fold (catalog_records owner primaries_owner before). fold (catalog_records owner primaries_owner after).
  rewrite !omap_app, (Hother before), (Hother after). cbn [member_records].
  - rewrite list_omap_cons, (ptr_not_primary _ _ target) by done. rewrite app_nil_r. simpl.
    apply primaries_of_own. rewrite (np_distinct _ Hn id id Hid Hid). by apply bool_decide_true.
  - intros m Hma. split; [rewrite Hm; set_solver|]. intros <-. apply Ha.
    apply list_elem_of_fmap_2, list_elem_of_fmap_2, Hma.
  - intros m Hmb. split; [rewrite Hm; set_solver|]. intros <-.
    apply (Hb m.1.1); [apply list_elem_of_fmap_2, list_elem_of_fmap_2, Hmb|set_solver].
Qed.

End Members.

(** ** Properties *)

(** C33: Which members a catalog has: a record gives one exactly when it is a PTR record whose owner
    name ends in the text "zones." followed by the catalog's name; the member is its target and the
    id is what precedes, without final dots (the text need not begin at a label).  Nothing else is
    reported and the order is kept.  Conversely, a catalog written as the format prescribes, with
    distinct ids, is read back member by member, each with its own primaries in order. *)
Theorem catalog_members `{Hickory} h records id target members owner primaries_owner :
  ((id, target) ∈ parse_member_zones h records ↔
     ∃ r prefix, r ∈ records ∧ data r = RD_PTR target ∧
       to_string (rname r) = prefix +:+ "zones." +:+ to_string (cat_origin h) ∧
       id = Str.trim_end_matches "." prefix) ∧
  (∀ before after, parse_member_zones h (before ++ after) =
     parse_member_zones h before ++ parse_member_zones h after) ∧
  (named_as_prescribed owner primaries_owner h members.*1.*1 → NoDup members.*1.*1 →
   (λ m, (m, parse_primaries h (catalog_records owner primaries_owner members) m.1)) <$>
     parse_member_zones h (catalog_records owner primaries_owner members) = members).
Proof.
  split_and!.
  - unfold parse_member_zones. rewrite list_elem_of_omap. split.
    + intros (r & Hr & (Hd & prefix & Hp & Hid)%member_of_Some). by exists r, prefix.
    + intros (r & prefix & Hr & Hd & Hp & Hid). exists r. split; [done|]. apply member_of_Some. by eauto.
  - intros before after. unfold parse_member_zones. by rewrite omap_app.
  - intros Hn Hnd. rewrite (members_read_back owner primaries_owner h members Hn), <- list_fmap_compose.
    rewrite <- (list_fmap_id members) at 2. apply list_fmap_ext. intros i [[m t] ips] Hm%list_elem_of_lookup_2.
    cbn. f_equal. by eapply primaries_read_back.
Qed.

(** C34: A NOTIFY from this program reaches this program: a datagram is sent only to the address
    given, and when the receiver decodes it, it is a NOTIFY for the zone with its name made
    absolute, so that the receiver acknowledges it.  It refreshes the first secondary zone whose
    configured name is that name in lower case, or that with one more dot, and none when there is no
    such zone: the receiver reads the notified name in lower case and compares it with the configured
    name as it is written, so a zone that is configured with a capital letter is never refreshed.
    The serial of the sender is not in the message: the receiver reads 0 whatever it is. *)
Theorem notify_reaches_secondary `{Hickory} nanos bound sends zone addr serial sock bytes origin
    catalog secondaries :
  Notify.send_notify nanos bound sends zone addr serial = Ok (sock, bytes) →
  from_ascii zone = Some origin →
  faithful (Notify.notify_message nanos origin) = true →
  parse_socket_addr addr = Some sock ∧
  ∃ msg, message_from_vec bytes = Some msg ∧ op_code msg = Op_Notify ∧
    Notify.handle_notify msg = Ok (to_utf8 (set_fqdn true origin), 0) ∧
    Handler.notified_serial bytes = 0 ∧
    let handled := Handler.handle_request catalog secondaries true
      {| Handler.req_op := op_code msg; Handler.req_query := fst <$> head (queries msg);
         Handler.req_bytes := bytes |} in
    let notified := to_utf8 (to_lowercase (set_fqdn true origin)) in
    Handler.rcode handled = NoError ∧
    match Handler.refresh handled with
    | Some s => ∃ before after, secondaries = before ++ s :: after ∧
        (Handler.sec_name s = notified ∨ Handler.sec_name s = notified +:+ ".") ∧
        Forall (λ s', Handler.sec_name s' ≠ notified ∧ Handler.sec_name s' ≠ notified +:+ ".") before ∧
        Str.to_ascii_lowercase (Handler.sec_name s) = Handler.sec_name s
    | None => Forall (λ s', Handler.sec_name s' ≠ notified ∧ Handler.sec_name s' ≠ notified +:+ ".") secondaries
    end.
Proof.
  intros (sock' & Hsock%ok_or_Ok & Hs)%bind_Ok Ho Hf.
  apply bind_Ok in Hs as (o & Ho'%ok_or_Ok & Hs). rewrite Ho in Ho'. injection Ho' as <-.
  apply bind_Ok in Hs as (b & Hb%ok_or_Ok & Hs). apply bind_Ok in Hs as (? & _ & Hs).
  apply bind_Ok in Hs as (? & _ & [= <- <-]). split; [done|].
  destruct (message_roundtrip _ _ Hb Hf) as (msg & Hmsg & Ha & _ & _ & _ & Hop & Hq).
  cbn in Ha, Hop, Hq. exists msg. unfold Notify.handle_notify, Handler.notified_serial.
  rewrite Hmsg, Hop, Hq, Ha. do 4 (split; [done|]). cbn zeta. unfold Handler.handle_request.
  rewrite bool_decide_true by done. cbn [fmap list_fmap head fst Handler.handle_notify Handler.req_query option_fmap option_map].
  unfold Handler.handle_notify. cbn. split; [done|].
  pose proof (SecondaryProps.matching_first (set_fqdn true origin) secondaries) as Hfirst.
  destruct (Handler.matching secondaries _) as [s|].
  - destruct Hfirst as (before & after & -> & Hn & Hb'). exists before, after. split_and!; [done|done| |].
    + eapply list.Forall_impl; [exact Hb'|]. intros s' Hs'. split; intros E; apply Hs'; [by left|by right].
    + by eapply SecondaryProps.named_lower.
  - eapply list.Forall_impl; [exact Hfirst|]. intros s' Hs'. split; intros E; apply Hs'; [by left|by right].
Qed.

(** ** Witnesses *)

Section Witnesses.
Import DnsSample.

Definition catalog_handler : @CatalogZoneHandler sample :=
  {| cat_origin := {| s_labels := ["c"; "t"]%string; s_fqdn := true |} : SName; cat_type := Zone.Secondary |}.

Definition member_owner (id : string) : @Name sample :=
  {| s_labels := [id; "zones"; "c"; "t"]%string; s_fqdn := true |}.
Definition member_primaries_owner (id : string) : @Name sample :=
  {| s_labels := ["primaries"; id; "zones"; "c"; "t"]%string; s_fqdn := true |}.

Definition two_members : list (string * @Name sample * list IpAddr) :=
  [("m1"%string, SecondaryProps.zone, [IpV4 (ipv4 192 0 2 1); IpV4 (ipv4 192 0 2 2)]);
   ("m2"%string, SecondaryProps.zone, [IpV4 (ipv4 192 0 2 3)])].

Lemma two_members_named :
  named_as_prescribed member_owner member_primaries_owner catalog_handler two_members.*1.*1.
Proof.
  split.
  - intros id Hid. repeat (apply elem_of_cons in Hid as [->|Hid]; [reflexivity|]). by apply elem_of_nil in Hid.
  - intros id Hid. repeat (apply elem_of_cons in Hid as [->|Hid]; [reflexivity|]). by apply elem_of_nil in Hid.
  - intros id Hid. repeat (apply elem_of_cons in Hid as [->|Hid]; [reflexivity|]). by apply elem_of_nil in Hid.
  - intros id id' Hid Hid'.
    repeat (apply elem_of_cons in Hid as [->|Hid];
      [repeat (apply elem_of_cons in Hid' as [->|Hid']; [reflexivity|]); by apply elem_of_nil in Hid'|]).
    by apply elem_of_nil in Hid.
Qed.

Lemma catalog_members_witness :
  parse_member_zones catalog_handler
    (catalog_records member_owner member_primaries_owner two_members) =
  [("m1"%string, SecondaryProps.zone); ("m2"%string, SecondaryProps.zone)] ∧
  (λ m, (m, parse_primaries catalog_handler
              (catalog_records member_owner member_primaries_owner two_members) m.1)) <$>
    parse_member_zones catalog_handler
      (catalog_records member_owner member_primaries_owner two_members) = two_members.
Proof.
  split; [vm_compute; reflexivity|].
  destruct (@catalog_members sample catalog_handler [] EmptyString SecondaryProps.zone two_members
              member_owner member_primaries_owner) as (_ & _ & Hback).
  apply Hback; [apply two_members_named|].
  apply list.NoDup_cons; split; [vm_compute; by intros [=]%list_elem_of_singleton|].
  apply list.NoDup_cons; split; [apply not_elem_of_nil|apply NoDup_nil_2].
Defined.

Definition dotted_zone : Handler.SecondaryZoneInfo :=
  {| Handler.sec_name := "e."; Handler.sec_primaries := ["192.0.2.53:53"%string] |}.

(** The same zone, written with a capital. *)
Definition capital_zone : Handler.SecondaryZoneInfo :=
  {| Handler.sec_name := "E."; Handler.sec_primaries := ["192.0.2.53:53"%string] |}.

Definition capital_name : @Name sample := ({| s_labels := ["E"]%string; s_fqdn := true |} : SName).

Lemma notify_reaches_secondary_witness :
  let bytes := default [] (s_to_vec (Notify.notify_message 70000 capital_name)) in
  let request := λ msg, {| Handler.req_op := op_code msg; Handler.req_query := fst <$> head (queries msg); Handler.req_bytes := bytes |} in
  ∃ msg, @message_from_vec sample bytes = Some msg ∧ Notify.handle_notify msg = Ok ("E."%string, 0) ∧
    Handler.rcode (Handler.handle_request SecondaryProps.no_catalog [capital_zone; dotted_zone] true (request msg)) = NoError ∧
    Handler.refresh (Handler.handle_request SecondaryProps.no_catalog [capital_zone; dotted_zone] true (request msg)) =
      Some dotted_zone ∧
    Handler.refresh (Handler.handle_request SecondaryProps.no_catalog [capital_zone] true (request msg)) = None.
Proof.
  cbn zeta.
  destruct (@notify_reaches_secondary sample 70000 true (λ _ _, true) "E." "192.0.2.7:53" 2026
    (SockV4 (ipv4 192 0 2 7) 53) (default [] (s_to_vec (Notify.notify_message 70000 capital_name)))
    capital_name SecondaryProps.no_catalog [capital_zone; dotted_zone])
    as (_ & msg & Hmsg & _ & Hn & _ & Hcode & _).
  - vm_compute. reflexivity.
  - reflexivity.
  - reflexivity.
  - exists msg. split; [exact Hmsg|]. split; [exact Hn|]. split; [exact Hcode|].
    vm_compute in Hmsg. injection Hmsg as <-. split; vm_compute; reflexivity.
Defined.

End Witnesses.

End CatalogProps.
