(* ===== verification/ZoneManager.v ===== *)
(** * The zone manager ([src/core/zone/mod.rs])

    At start-up the zones of the configuration are loaded in order.  Primary zones are read from
    their files, signed when asked, and put into the catalog of the server; secondary and catalog
    zones start a task that transfers them.  The operations that sign a zone belong to the server
    library and are parameters; [Signed] is a zone that has been given a key. *)

From Stdlib Require Import Ascii String ZArith Lia.
From stdpp Require Import base list gmap strings numbers.
From S2P Require Import Prelude RustString RustNum RustNet Metrics Cache Config Dns Zone Keys Secondary Catalog.

Local Open Scope Z_scope.

(** ** The catalog of the server: handlers by lower-case name *)

Module ZoneCatalog.

Section ZoneCatalog.
Context {L H : Type} `{EqDecision L}.

Definition find (k : L) (c : list (L * H)) : option H :=
  snd <$> head (base.filter (λ p, p.1 = k) c).

Definition upsert (k : L) (h : H) (c : list (L * H)) : list (L * H) :=
  (k, h) :: base.filter (λ p, p.1 ≠ k) c.

Lemma find_upsert k k' h c : find k' (upsert k h c) = if decide (k = k') then Some h else find k' c.
Proof.
  unfold find, upsert. rewrite filter_cons. destruct (decide (k = k')) as [->|Hk]; simpl.
  - by rewrite decide_True.
  - rewrite decide_False by done. do 2 f_equal. rewrite list_filter_filter_l; [done|].
    intros p <-. by apply not_eq_sym.
Qed.

End ZoneCatalog.
End ZoneCatalog.

Module ZoneManager.
Import Dns Zone Keys.

Inductive ManagerError :=
  | MissingFile (zone : string)
  | LoadFailed (zone : string) (e : ZoneError)
  | InvalidZoneName (zone : string)
  | ResolveKeyFailed (zone : string) (e : KeyError)
  | LoadSignerFailed (zone : string) (e : KeyError)
  | AddKeyFailed (zone : string)
  | SecureFailed (zone : string).

(** The tasks that loading spawns. *)
Inductive Task :=
  | SyncSecondary (name : string) (primaries : list string)
  | SyncCatalog (name : string) (primaries : list string).

Section ZoneManager.
Context `{KeyLib}.
Context {Signed : Type}.
Context (add_zone_signing_key : Signer → ZoneMap LowerName Name → option Signed).
Context (secure_zone : Signed → option Signed).

Inductive Authority :=
  | PlainZone (z : ZoneMap LowerName Name)
  | SignedZone (z : Signed).

(** The manager, with what it shares with the rest of the process: the files, the random numbers
    (how many keys have been drawn) and the tasks that were spawned. *)
Record ZoneManager := {
  catalog : list (LowerName * Authority);
  cfg : Config.Config;
  secondaries : list Handler.SecondaryZoneInfo;
  fs : Fs;
  seed : nat;
  tasks : list Task
}.

Definition new (fs : Fs) (seed : nat) (cfg : Config.Config) : ZoneManager :=
  {| catalog := []; cfg := cfg; secondaries := []; fs := fs; seed := seed; tasks := [] |}.

Definition with_files (m : ZoneManager) (fs' : Fs) : ZoneManager :=
  {| catalog := catalog m; cfg := cfg m; secondaries := secondaries m; fs := fs'; seed := S (seed m);
     tasks := tasks m |}.

Definition with_catalog (m : ZoneManager) (c : list (LowerName * Authority)) : ZoneManager :=
  {| catalog := c; cfg := cfg m; secondaries := secondaries m; fs := fs m; seed := seed m;
     tasks := tasks m |}.

Definition spawn (m : ZoneManager) (t : Task) : ZoneManager :=
  {| catalog := catalog m; cfg := cfg m; secondaries := secondaries m; fs := fs m; seed := seed m;
     tasks := tasks m ++ [t] |}.

(** The records of the zone, before any signing. *)
Definition read_primary (m : ZoneManager) (z : Config.ZoneConfig) (zones_dir : string) :
    result ManagerError (LowerName * ZoneMap LowerName Name) :=
  let zone_name := Config.zone_name z in
  file_path ← ok_or (MissingFile zone_name) (Config.zone_file z);
  authority ← match load_zone_file_with_proof (fs m) file_path zone_name zones_dir Primary
                     (Some (Config.soa_rname (cfg m))) (Config.nx_proof_kind hex_decode z) with
              | Ok a => Ok a
              | Err e => Err (LoadFailed zone_name e)
              end;
  origin ← ok_or (InvalidZoneName zone_name) (from_ascii zone_name);
  Ok (lower origin, authority).

(** The key is looked up or generated, loaded and given to the zone, which is then signed. *)
Definition sign_primary (m : ZoneManager) (z : Config.ZoneConfig) (authority : ZoneMap LowerName Name) :
    result ManagerError Authority * ZoneManager :=
  let zone_name := Config.zone_name z in
  let keys_dir := Config.keys_dir (Config.dnssec_keys (cfg m)) in
  let '(resolved, fs') := resolve_key_path (seed m) (fs m) zone_name (Config.dnssec_key z)
                            (Config.dnssec_algorithm z) keys_dir in
  let m := with_files m fs' in
  (match resolved with
   | Err e => Err (ResolveKeyFailed zone_name e)
   | Ok key_path =>
       match load_signer (fs m) key_path zone_name (Config.dnssec_algorithm z) with
       | Err e => Err (LoadSignerFailed zone_name e)
       | Ok signer =>
           signed ← ok_or (AddKeyFailed zone_name) (add_zone_signing_key signer authority);
           secured ← ok_or (SecureFailed zone_name) (secure_zone signed);
           Ok (SignedZone secured)
       end
   end, m).

Definition load_primary (m : ZoneManager) (z : Config.ZoneConfig) (zones_dir : string) :
    result ManagerError unit * ZoneManager :=
  match read_primary m z zones_dir with
  | Err e => (Err e, m)
  | Ok (origin, authority) =>
      let '(done, m) := if Config.dnssec_signing z then sign_primary m z authority
                        else (Ok (PlainZone authority), m) in
      match done with
      | Err e => (Err e, m)
      | Ok a => (Ok tt, with_catalog m (ZoneCatalog.upsert origin a (catalog m)))
      end
  end.

Definition load_secondary (m : ZoneManager) (z : Config.ZoneConfig) : ZoneManager :=
  let m := {| catalog := catalog m; cfg := cfg m;
              secondaries := secondaries m ++
                [{| Handler.sec_name := Config.zone_name z; Handler.sec_primaries := Config.zone_primaries z |}];
              fs := fs m; seed := seed m; tasks := tasks m |} in
  spawn m (SyncSecondary (Config.zone_name z) (Config.zone_primaries z)).

Definition load_catalog_zone (m : ZoneManager) (z : Config.ZoneConfig) : ZoneManager :=
  spawn m (SyncCatalog (Config.zone_name z) (Config.zone_primaries z)).

(** One round of the loop of [load_all]; the other kinds, known or not, only make a log line. *)
Definition load_zone (m : ZoneManager) (z : Config.ZoneConfig) (zones_dir : string) :
    result ManagerError unit * ZoneManager :=
  let kind x := bool_decide (Config.zone_kind z = x) in
  if kind "primary"%string then load_primary m z zones_dir
  else if kind "secondary"%string then (Ok tt, load_secondary m z)
  else if kind "catalog"%string then (Ok tt, load_catalog_zone m z)
  else (Ok tt, m).

Fixpoint load_zones (m : ZoneManager) (zones : list Config.ZoneConfig) (zones_dir : string) :
    result ManagerError unit * ZoneManager :=
  match zones with
  | [] => (Ok tt, m)
  | z :: rest =>
      match load_zone m z zones_dir with
      | (Ok _, m) => load_zones m rest zones_dir
      | (Err e, m) => (Err e, m)
      end
  end.

(** The result, and the manager at the end, whose tasks run on in either case. *)
Definition load_all (m : ZoneManager) :
    result ManagerError (list (LowerName * Authority) * list Handler.SecondaryZoneInfo) * ZoneManager :=
  let '(r, m) := load_zones m (Config.zones (cfg m)) (Config.zones_dir (cfg m)) in
  (match r with Ok _ => Ok (catalog m, secondaries m) | Err e => Err e end, m).

End ZoneManager.

(** What a task does: the primaries it asks.  The zone that a transfer yields, and the members of a
    catalog, are dropped. *)
Definition run_task `{Hickory} {E Z'} (axfr : string → string → Secondary.Transfer E Z')
    (sync : string → string → Secondary.Transfer E (list Rec)) (t : Task) : list string :=
  match t with
  | SyncSecondary name primaries => Handler.refresh_task axfr name primaries
  | SyncCatalog name primaries => (Catalog.catalog_task name (sync name) primaries).1
  end.

End ZoneManager.
