(* ===== verification/ZoneManagerProps.v ===== *)
(** * Properties of the zone manager

    Loading keeps an invariant over the zones handled so far; the theorem reads it off at the end
    or where a zone failed. *)

From Stdlib Require Import Ascii String ZArith Lia.
From stdpp Require Import base list gmap strings numbers.
From S2P Require Import Prelude RustString RustNum RustNet Metrics Cache Config ConfigProps Dns DnsSample Zone Keys.
From S2P Require Import ZoneSample Secondary Catalog ZoneManager.

Local Open Scope Z_scope.

Module ZoneManagerProps.
Import Dns Zone Keys ZoneManager.

Section Load.
Context `{KeyLib}.
Context {Signed : Type}.
Context (add_zone_signing_key : Signer → ZoneMap LowerName Name → option Signed).
Context (secure_zone : Signed → option Signed).

#[local] Notation ZoneManager := (@ZoneManager _ _ Signed).
#[local] Notation load_zone := (load_zone add_zone_signing_key secure_zone).
#[local] Notation load_zones := (load_zones add_zone_signing_key secure_zone).
#[local] Notation load_primary := (load_primary add_zone_signing_key secure_zone).

Definition primary (z : Config.ZoneConfig) : Prop := Config.zone_kind z = "primary"%string.

Definition zone_key (z : Config.ZoneConfig) : option LowerName := lower <$> from_ascii (Config.zone_name z).

(** What a secondary zone is registered as, and the task a zone starts. *)
Definition info (z : Config.ZoneConfig) : option Handler.SecondaryZoneInfo :=
  if bool_decide (Config.zone_kind z = "secondary"%string)
  then Some {| Handler.sec_name := Config.zone_name z; Handler.sec_primaries := Config.zone_primaries z |}
  else None.

Definition task_of (z : Config.ZoneConfig) : option Task :=
  if bool_decide (Config.zone_kind z = "secondary"%string)
  then Some (SyncSecondary (Config.zone_name z) (Config.zone_primaries z))
  else if bool_decide (Config.zone_kind z = "catalog"%string)
  then Some (SyncCatalog (Config.zone_name z) (Config.zone_primaries z))
  else None.

(** The content a zone is served with: that of its file, or what signing with a key loaded for it
    made of that. *)
Inductive served (c : Config.Config) (z : Config.ZoneConfig) (k : LowerName) : @Authority _ _ Signed → Prop :=
  | served_plain (m : ZoneManager) records :
      cfg m = c → Config.dnssec_signing z = false →
      read_primary m z (Config.zones_dir c) = Ok (k, records) →
      served c z k (PlainZone records)
  | served_signed (m : ZoneManager) records files path signer keyed secured :
      cfg m = c → Config.dnssec_signing z = true →
      read_primary m z (Config.zones_dir c) = Ok (k, records) →
      load_signer files path (Config.zone_name z) (Config.dnssec_algorithm z) = Ok signer →
      add_zone_signing_key signer records = Some keyed → secure_zone keyed = Some secured →
      served c z k (SignedZone secured).

(** ** One zone *)

Lemma read_primary_key (m : ZoneManager) z dir k records :
  read_primary m z dir = Ok (k, records) → zone_key z = Some k.
Proof.
  intros (f & _ & Hr)%bind_Ok. apply bind_Ok in Hr as (a & _ & Hr).
  apply bind_Ok in Hr as (o & Ho%ok_or_Ok & [= <- _]). unfold zone_key. by rewrite Ho.
Qed.

(** The zone an error names, when it is one that can occur. *)
Definition error_zone (e : ManagerError) : option string :=
  match e with
  | MissingFile n | LoadFailed n _ | ResolveKeyFailed n _ | LoadSignerFailed n _
  | AddKeyFailed n | SecureFailed n => Some n
  | InvalidZoneName _ => None
  end.

Lemma read_primary_Err (m : ZoneManager) z dir e :
  read_primary m z dir = Err e →
  error_zone e = Some (Config.zone_name z) ∧ (e = MissingFile (Config.zone_name z) → Config.zone_file z = None).
Proof.
  intros [(Hf & <-)%ok_or_Err|(f & _ & Hr)]%bind_Err; [done|].
  apply bind_Err in Hr as [Hr|(a & Ha & Hr)]; [case_match; by simplify_eq|].
  apply bind_Err in Hr as [(Ho & _)%ok_or_Err|(o & _ & Hr)]; [|done].
  destruct (load_zone_file_with_proof _ _ _ _ _ _ _) eqn:El; [|done]. exfalso.
  unfold load_zone_file_with_proof in El. case_match; [done|].
  apply bind_Ok in El as (o & Ho'%ok_or_Ok & _). congruence.
Qed.

(** A name that cannot be read is found out when the file is loaded. *)
Lemma unreadable_name_fails (m : ZoneManager) z dir e m' :
  load_primary m z dir = (Err e, m') → zone_key z = None → e ≠ MissingFile (Config.zone_name z) →
  ∃ e', e = LoadFailed (Config.zone_name z) e'.
Proof.
  unfold ZoneManager.load_primary. intros Hl Hk Hne. destruct (read_primary m z dir) as [[k a]|e0] eqn:Er.
  - apply read_primary_key in Er. congruence.
  - injection Hl as <- _. apply bind_Err in Er as [(_ & <-)%ok_or_Err|(f & _ & Er)]; [done|].
    apply bind_Err in Er as [Er|(a & Ha & _)]; [case_match; simplify_eq; eauto|]. exfalso.
    unfold zone_key in Hk. apply fmap_None in Hk. case_match eqn:El; [|done].
    unfold load_zone_file_with_proof in El. destruct (negb _); [done|]. by rewrite Hk in El.
Qed.

(** A step of loading changes nothing but files, tasks, registrations and the catalog. *)
Lemma sign_primary_frame (m : ZoneManager) z a r m' :
  sign_primary add_zone_signing_key secure_zone m z a = (r, m') →
  catalog m' = catalog m ∧ secondaries m' = secondaries m ∧ tasks m' = tasks m ∧ cfg m' = cfg m.
Proof.
  unfold sign_primary. destruct (resolve_key_path _ _ _ _ _ _) as [resolved fs']. by intros [= _ <-].
Qed.

Lemma sign_primary_Err (m : ZoneManager) z a e m' :
  sign_primary add_zone_signing_key secure_zone m z a = (Err e, m') →
  error_zone e = Some (Config.zone_name z) ∧ e ≠ MissingFile (Config.zone_name z).
Proof.
  unfold sign_primary. destruct (resolve_key_path _ _ _ _ _ _) as [[path|e'] fs']; [|by intros [= <- _]].
  destruct (load_signer _ _ _ _) as [signer|e']; [|by intros [= <- _]]. intros [= He _].
  apply bind_Err in He as [(_ & <-)%ok_or_Err|(k & _ & He)]; [done|].
  by apply bind_Err in He as [(_ & <-)%ok_or_Err|(s & _ & He)].
Qed.

Lemma load_primary_Err (m : ZoneManager) z dir e m' :
  load_primary m z dir = (Err e, m') →
  error_zone e = Some (Config.zone_name z) ∧
  (e = MissingFile (Config.zone_name z) → Config.zone_file z = None) ∧
  catalog m' = catalog m ∧ secondaries m' = secondaries m ∧ tasks m' = tasks m.
Proof.
  unfold ZoneManager.load_primary. destruct (read_primary m z dir) as [[k a]|e'] eqn:Er.
  - destruct (Config.dnssec_signing z); [|done].
    destruct (sign_primary _ _ m z a) as [[au|e'] m1] eqn:Es; [done|]. intros [= -> <-].
    destruct (sign_primary_frame _ _ _ _ _ Es) as (? & ? & ? & _).
    destruct (sign_primary_Err _ _ _ _ _ Es) as [? Hne]. split_and!; [done| |done..].
    intros ->. by destruct Hne.
  - intros [= -> <-]. apply read_primary_Err in Er as [??]. done.
Qed.

Lemma load_primary_Ok (m : ZoneManager) z m' :
  load_primary m z (Config.zones_dir (cfg m)) = (Ok tt, m') →
  ∃ k a, zone_key z = Some k ∧ served (cfg m) z k a ∧
    catalog m' = ZoneCatalog.upsert k a (catalog m) ∧
    secondaries m' = secondaries m ∧ tasks m' = tasks m ∧ cfg m' = cfg m ∧
    (Config.dnssec_signing z = false → fs m' = fs m).
Proof.
  unfold ZoneManager.load_primary. destruct (read_primary m z _) as [[k a]|e'] eqn:Er; [|done].
  pose proof (read_primary_key _ _ _ _ _ Er) as Hk.
  destruct (Config.dnssec_signing z) eqn:Ed.
  - destruct (sign_primary _ _ m z a) as [[au|e'] m1] eqn:Es; [|done]. intros [= <-].
    destruct (sign_primary_frame _ _ _ _ _ Es) as (Hc & ? & ? & ?). exists k, au.
    cbn [catalog secondaries tasks cfg with_catalog]. rewrite Hc. split_and!; try done.
    revert Es. unfold sign_primary. destruct (resolve_key_path _ _ _ _ _ _) as [[path|] fs']; [|done].
    destruct (load_signer _ _ _ _) as [signer|] eqn:El; [|done]. intros [= Hs _].
    apply bind_Ok in Hs as (keyed & Hkey%ok_or_Ok & Hs). apply bind_Ok in Hs as (secured & Hsec%ok_or_Ok & [= <-]).
    by apply (served_signed _ _ _ m a (fs (with_files m fs')) path signer keyed).
  - intros [= <-]. exists k, (PlainZone a). split_and!; try done. by apply (served_plain _ _ _ m).
Qed.

(** ** The invariant of the loop *)

Record loaded (c : Config.Config) (files : Fs) (handled : list Config.ZoneConfig) (m : ZoneManager) : Prop := {
  ld_cfg : cfg m = c;
  ld_secondaries : secondaries m = omap info handled;
  ld_tasks : tasks m = omap task_of handled;
  ld_served k a : ZoneCatalog.find k (catalog m) = Some a →
    ∃ before z after, handled = before ++ z :: after ∧ primary z ∧ zone_key z = Some k ∧ served c z k a ∧
      Forall (λ z', ¬ (primary z' ∧ zone_key z' = Some k)) after;
  ld_all z k : z ∈ handled → primary z → zone_key z = Some k → is_Some (ZoneCatalog.find k (catalog m));
  ld_files : Forall (λ z, primary z → Config.dnssec_signing z = false) handled → fs m = files
}.

Lemma loaded_new c files n : loaded c files [] (new files n c).
Proof. split; try done. intros z k Hz. by apply elem_of_nil in Hz. Qed.

(** A zone that is not a primary one leaves the catalog and the files alone. *)
Lemma loaded_other c files handled m m' z :
  loaded c files handled m → ¬ primary z →
  cfg m' = cfg m → catalog m' = catalog m → fs m' = fs m →
  secondaries m' = secondaries m ++ option_list (info z) →
  tasks m' = tasks m ++ option_list (task_of z) →
  loaded c files (handled ++ [z]) m'.
Proof.
  intros [Hc Hs Ht Hv Ha Hf] Hz Ec Ek Ef Es Et.
  split; [congruence| | | | |].
  - rewrite Es, Hs, omap_app. done.
  - rewrite Et, Ht, omap_app. done.
  - intros k a. rewrite Ek. intros (before & z' & after & -> & ? & ? & ? & Hafter)%Hv.
    exists before, z', (after ++ [z]). rewrite <- app_assoc. split_and!; try done.
    apply Forall_app. split; [done|]. constructor; [by intros []|done].
  - intros z' k [Hz'| ->%list_elem_of_singleton]%elem_of_app Hp Hk; [|done]. rewrite Ek. by eapply Ha.
  - intros [Hall _]%Forall_app. rewrite Ef. by apply Hf.
Qed.

Lemma loaded_primary c files handled m m' z :
  loaded c files handled m → primary z →
  load_primary m z (Config.zones_dir c) = (Ok tt, m') →
  loaded c files (handled ++ [z]) m'.
Proof.
  intros [Hc Hs Ht Hv Ha Hf] Hz Hl. rewrite <- Hc in Hl.
  apply load_primary_Ok in Hl as (k & a & Hk & Hsv & Ek & Es & Et & Ec & Ef). rewrite Hc in Hsv.
  assert (info z = None ∧ task_of z = None) as [Hi Htk].
  { unfold info, task_of. by rewrite (Hz : Config.zone_kind z = _). }
  split; [congruence| | | | |].
  - rewrite Es, Hs, omap_app. simpl. by rewrite Hi, app_nil_r.
  - rewrite Et, Ht, omap_app. simpl. by rewrite Htk, app_nil_r.
  - intros k' a'. rewrite Ek, ZoneCatalog.find_upsert. case_decide as Hkk.
    + intros [= <-]. subst k'. by exists handled, z, [].
    + intros (before & z' & after & -> & ? & ? & ? & Hafter)%Hv.
      exists before, z', (after ++ [z]). rewrite <- app_assoc. split_and!; try done.
      apply Forall_app. split; [done|]. constructor; [|done]. intros [_ Hk']. congruence.
  - intros z' k' Hin Hp Hk'. apply elem_of_app in Hin as [Hz'|Hz'%list_elem_of_singleton];
      rewrite Ek, ZoneCatalog.find_upsert; case_decide; try done; [by eapply Ha|congruence].
  - intros [Hall Hz1]%Forall_app. apply list.Forall_cons in Hz1 as [Hz1 _].
    rewrite Ef by auto. by apply Hf.
Qed.

Lemma loaded_step c files handled m m' z :
  loaded c files handled m → load_zone m z (Config.zones_dir c) = (Ok tt, m') →
  loaded c files (handled ++ [z]) m'.
Proof.
  intros Hl. unfold ZoneManager.load_zone. case_bool_decide as Hp; [by apply loaded_primary|].
  assert (¬ primary z) as Hn by done.
  case_bool_decide as Hsec; [|case_bool_decide as Hcat].
  - intros [= <-]. eapply loaded_other; [done..| |]; unfold info, task_of; by rewrite bool_decide_true.
  - intros [= <-]. eapply loaded_other; [done..| |]; unfold info, task_of.
    + by rewrite bool_decide_false, app_nil_r.
    + by rewrite bool_decide_false, bool_decide_true.
  - intros [= <-]. eapply loaded_other; [done..| |]; unfold info, task_of.
    + by rewrite bool_decide_false, app_nil_r.
    + by rewrite !bool_decide_false, app_nil_r.
Qed.

(** All zones are handled, or the first primary zone that fails ends the loop. *)
Lemma load_zones_loaded c files zones handled m r m' :
  loaded c files handled m → load_zones m zones (Config.zones_dir c) = (r, m') →
  match r with
  | Ok _ => loaded c files (handled ++ zones) m'
  | Err e => ∃ before z after m1, zones = before ++ z :: after ∧ primary z ∧
      loaded c files (handled ++ before) m1 ∧ load_primary m1 z (Config.zones_dir c) = (Err e, m')
  end.
Proof.
  revert handled m. induction zones as [|z zones IH]; intros handled m Hl.
  - intros [= <- <-]. by rewrite app_nil_r.
  - cbn [ZoneManager.load_zones]. destruct (load_zone m z _) as [[[]|e] m1] eqn:Ez.
    + intros Hr. pose proof (IH _ _ (loaded_step _ _ _ _ _ _ Hl Ez) Hr) as Hdone.
      destruct r as [u|e]; [by rewrite <- app_assoc in Hdone|].
      destruct Hdone as (before & z' & after & m2 & -> & Hp & Hm2 & He).
      exists (z :: before), z', after, m2. by rewrite <- app_assoc in Hm2.
    + intros [= <- <-]. exists [], z, zones, m. rewrite app_nil_r. revert Ez.
      unfold ZoneManager.load_zone. case_bool_decide; [done|].
      by repeat case_bool_decide.
Qed.

End Load.
(** Under a valid configuration only secondary zones start tasks. *)
Lemma valid_tasks zones :
  Forall ConfigProps.ZoneValid zones →
  omap task_of zones = (λ i, SyncSecondary (Handler.sec_name i) (Handler.sec_primaries i)) <$> omap info zones.
Proof.
  induction 1 as [|z zones Hz Hzs IH]; [done|]. cbn [omap list_omap]. unfold task_of at 1, info at 1.
  case_bool_decide as Hk; cbn [fmap list_fmap]; [by rewrite IH|].
  case_bool_decide as Hc; [|done]. exfalso. pose proof (ConfigProps.zv_kind z Hz) as Hin.
  rewrite Hc in Hin. by vm_compute in Hin; set_solver.
Qed.

(** C8: Loading the zones of a valid configuration either handles all of them or stops at the first
    primary zone that fails, and the error names that zone; it is never that a file name is missing, and
    a zone whose name cannot be read is reported as one whose file cannot be loaded.  In both cases the secondary zones handled are registered in order and
    each has its transfer task, and nothing else is started.  On success the catalog serves exactly
    the names of primary zones, each with the content of the last zone of that name: its file's, or
    what signing with a key loaded for it made of it; in particular no other kind of zone is served.
    Without signing no file is touched. *)
Theorem zones_loaded `{KeyLib} {Signed} add_key (secure : Signed → option Signed) files n c r m :
  ConfigProps.Valid c →
  load_all add_key secure (new files n c) = (r, m) →
  ∃ handled rest, Config.zones c = handled ++ rest ∧
    secondaries m = omap info handled ∧
    tasks m = (λ i, SyncSecondary (Handler.sec_name i) (Handler.sec_primaries i)) <$> secondaries m ∧
    match r with
    | Ok (cat, secs) =>
        rest = [] ∧ secs = secondaries m ∧
        (∀ k, is_Some (ZoneCatalog.find k cat) ↔
              ∃ z, z ∈ Config.zones c ∧ primary z ∧ zone_key z = Some k) ∧
        (∀ k a, ZoneCatalog.find k cat = Some a →
           ∃ before z after, Config.zones c = before ++ z :: after ∧ primary z ∧ zone_key z = Some k ∧
             served add_key secure c z k a ∧
             Forall (λ z', ¬ (primary z' ∧ zone_key z' = Some k)) after) ∧
        (Forall (λ z, primary z → Config.dnssec_signing z = false) (Config.zones c) → fs m = files)
    | Err e =>
        ∃ z after, rest = z :: after ∧ primary z ∧ error_zone e = Some (Config.zone_name z) ∧
          e ≠ MissingFile (Config.zone_name z) ∧
          (zone_key z = None → ∃ e', e = LoadFailed (Config.zone_name z) e')
    end.
Proof.
  intros Hv. unfold load_all. change (cfg (new files n c)) with c.
  destruct (load_zones _ _ _ _ _) as [r' m'] eqn:El. intros [= <- <-].
  pose proof (ConfigProps.v_zones c Hv) as Hzones.
  pose proof (load_zones_loaded add_key secure c files _ [] _ _ _ (loaded_new add_key secure c files n) El) as Hl.
  destruct r' as [u|e]; cbn [app] in Hl.
  - destruct Hl as [_ Hs Ht Hserved Hall Hfs]. exists (Config.zones c), [].
    rewrite app_nil_r. split_and!; try done.
    + by rewrite Ht, Hs, (valid_tasks (Config.zones c)).
    + intros k. split.
      * intros [a (before & z & after & Hz & ? & ? & _)%Hserved]. exists z. rewrite (Hz : Config.zones c = _).
        split_and!; [set_solver|done..].
      * intros (z & ? & ? & ?). by eapply Hall.
  - destruct Hl as (before & z & after & m1 & Hz & Hp & [_ Hs Ht _ _ _] & He).
    pose proof (unreadable_name_fails _ _ _ _ _ _ _ He) as Hbad.
    apply load_primary_Err in He as (Hn & Hm & _ & Es & Et). exists before, (z :: after).
    rewrite Hz in Hzones. apply Forall_app in Hzones as [Hbefore [Hzv _]%list.Forall_cons].
    split_and!; [done|by rewrite Es, Hs|by rewrite Et, Ht, Es, Hs, (valid_tasks before)|].
    assert (e ≠ MissingFile (Config.zone_name z)) as Hne.
    { intros Hmiss%Hm. destruct (ConfigProps.zv_primary z Hzv Hp) as [f Hf]. congruence. }
    exists z, after. split_and!; [done..|]. intros Hk. by apply Hbad.
Qed.

(** ** Witness *)

Section Witnesses.
Import DnsSample ZoneSample.

Definition zone_of (name kind : string) (file : option string) (primaries : list string) (signing : bool) : Config.ZoneConfig :=
  {| Config.zone_name := name; Config.zone_kind := kind; Config.zone_file := file;
     Config.zone_primaries := primaries; Config.dnssec_signing := signing;
     Config.dnssec_algorithm := "ed25519"; Config.dnssec_key := None; Config.nx_proof := None |}.

Definition with_zones (zs : list Config.ZoneConfig) : Config.Config :=
  ConfigProps.config_with [] Config.CacheSection_default zs.

(** A signed zone, a secondary one, and one whose file does not exist. *)
Definition three_zones : Config.Config :=
  with_zones [zone_of "e." "primary" (Some "/z/e"%string) [] true;
              zone_of "s." "secondary" None ["192.0.2.1:53"%string] false;
              zone_of "g." "primary" (Some "/z/g"%string) [] false].

Definition zone_files : @Fs sample sample_zone := {| files := ∅; zones := {[ "/z/e"%string := [] ]} |}.

Definition add_key (s : @Signer sample sample_zone sample_keys) (z : SZone) : option SZone := Some z.

Definition loaded_three := @load_all sample sample_zone sample_keys SZone add_key Some (new zone_files 0 three_zones).

Lemma three_zones_valid : ConfigProps.Valid three_zones.
Proof. apply (ConfigProps.validate_Ok _ tt). vm_compute. reflexivity. Qed.

Lemma zones_loaded_witness :
  match loaded_three.1 with Err e => e = LoadFailed "g." (FileNotFound "/z/g") | Ok _ => False end ∧
  tasks loaded_three.2 = [SyncSecondary "s." ["192.0.2.1:53"%string]] ∧
  ∃ handled rest, Config.zones three_zones = handled ++ rest ∧ secondaries loaded_three.2 = omap info handled.
Proof.
  split_and!; [vm_compute; reflexivity..|].
  destruct (@zones_loaded sample sample_zone sample_keys SZone add_key Some zone_files 0 three_zones
              loaded_three.1 loaded_three.2 three_zones_valid (surjective_pairing _))
    as (handled & rest & Hz & Hs & _). by exists handled, rest.
Defined.

End Witnesses.

End ZoneManagerProps.
