(* ===== verification/Net.v ===== *)
(** * Assembly of the server ([src/net/mod.rs])

    [Persist] is the response cache on disk: loading it at start-up, saving it at the end.  [Net] is
    the rest of [Net::run]: the catalog with its forwarder, the certificate, and the listeners.
    Sockets are parameters that say whether binding and registering succeed, given what has been
    registered before.  The snapshot of the cache is kept apart from the other files. *)

From Stdlib Require Import Ascii String ZArith Lia.
From stdpp Require Import base list gmap strings numbers.
From S2P Require Import Prelude RustString RustNum RustNet Metrics Cache Config Dns Zone Keys Secondary Catalog.
From S2P Require Import ZoneManager Blocklist Filter Dns64 Resolver Forward.

Local Open Scope Z_scope.

(** ** The cache on disk *)

Module Persist.
Import Cache.

(** [Path::parent]: the path without its last component, [None] for a root or an empty path. *)
Definition components (p : string) : list string :=
  let proper := base.filter (λ s : string, s ≠ EmptyString ∧ s ≠ "."%string) in
  match Str.split "/" p with
  | "."%string :: rest => "."%string :: proper rest
  | l => proper l
  end.

Definition parent (p : string) : option string :=
  match components p with
  | [] => None
  | cs => Some ((if Str.starts_with "/" p then "/" else EmptyString)%string +:+ join "/" (removelast cs))
  end.

(** What the file system tells about a snapshot: whether it is there, the time since it was last
    changed where that can be found out; and the creation of directories.  A file that was written
    is there. *)
Class SnapshotFs `{Storage} := {
  snapshot_exists : Fs → string → bool;
  snapshot_age : Fs → string → option Z;
  snapshot_dirs : Fs → string → result IoError Fs;
  written_exists fs p s fs' : fs_write fs p s = Ok fs' → snapshot_exists fs' p = true
}.

Section Persist.
Context `{SnapshotFs}.

(** The stale window does not come from the configuration. *)
Definition cache_cfg (cfg : Config.Config) : CacheConfig :=
  {| size_limit := Z.to_nat (Config.cache_size (Config.cache cfg)); serve_stale := from_secs 30;
     prefetch := Config.cache_prefetch (Config.cache cfg) |}.

Definition new_shared_cache (cfg : CacheConfig) : Cache := new cfg.

(** The product of days and seconds wraps at 64 bits. *)
Definition max_age (cfg : Config.Config) : Z :=
  from_secs (wrap 64 (Config.persistent_max_age_days (Config.cache cfg) * 86400)).

(** The outer option is divergence, as in [load_from_file]. *)
Definition load_persistent_cache (now : Z) (fs : Fs) (cfg : Config.Config) :
    option (result IoError (option Cache)) :=
  match Config.cache_persistent (Config.cache cfg) with
  | None => Some (Ok None)
  | Some path =>
      if negb (snapshot_exists fs path) then Some (Ok None)
      else if match snapshot_age fs path with Some age => max_age cfg <? age | None => false end
      then Some (Ok None)
      else r ← load_from_file now fs path;
           Some (match r with Ok c => Ok (Some c) | Err e => Err e end)
  end.

(** [iter] is the order in which the [HashMap] yields its items. *)
Definition save_persistent_cache (iter : list (CacheKey * CacheEntry)) (fs : Fs) (cfg : Config.Config) :
    result IoError Fs :=
  match Config.cache_persistent (Config.cache cfg) with
  | None => Ok fs
  | Some path =>
      fs ← match parent path with
           | Some p => if bool_decide (p = EmptyString) then Ok fs else snapshot_dirs fs p
           | None => Ok fs
           end;
      save_to_file iter fs path
  end.

(** The cache the server starts with. *)
Definition initial_cache (now : Z) (fs : Fs) (cfg : Config.Config) : option Cache :=
  let cache := new_shared_cache (cache_cfg cfg) in
  match Config.cache_persistent (Config.cache cfg) with
  | None => Some cache
  | Some _ =>
      r ← load_persistent_cache now fs cfg;
      Some (match r with Ok (Some loaded) => loaded | Ok None => cache | Err _ => cache end)
  end.

(** What is left on disk at the end; a failure is only logged. *)
Definition final_save (iter : list (CacheKey * CacheEntry)) (fs : Fs) (cfg : Config.Config) : Fs :=
  match save_persistent_cache iter fs cfg with Ok fs' => fs' | Err _ => fs end.

End Persist.
End Persist.

(** ** Catalog, certificate and listeners *)

Module Net.
Import Dns Zone Keys ZoneManager.

Inductive Transport := OverUdp | OverTcp | OverTls | OverHttps | OverQuic.

Section Net.
Context `{KeyLib}.

(** Certificate chains with their keys. *)
Notation Certified := (list Cert * CertKey)%type.

Inductive Listener :=
  | UdpSocket (a : SocketAddr)
  | NativeTcp (a : SocketAddr) (timeout_secs buffer : Z)
  | ProxyTcp (a : SocketAddr) (allow : list string)
  | Dot (a : SocketAddr) (timeout_secs : Z) (cert : Certified)
  | Doh (a : SocketAddr) (timeout_secs : Z) (cert : Certified) (host : option string) (path : string)
  | Doq (a : SocketAddr) (timeout_secs : Z) (cert : Certified).

Inductive StartError :=
  | ZonesFailed (e : ManagerError)
  | ResolverFailed (e : Resolver.ResolverError)
  | BadListenAddr (t : Transport) (addr : string)
  | BindFailed (t : Transport) (a : SocketAddr)
  | RegisterFailed (t : Transport) (a : SocketAddr)
  | CertFailed (e : CertError).

(** *** The catalog *)

Context {Signed Regex IoError : Type}.
Context (add_zone_signing_key : Signer → ZoneMap LowerName Name → option Signed).
Context (secure_zone : Signed → option Signed).
Context (exists_ : string → bool) (read_to_string : string → option string).
Context (build : list Resolver.NameServer → Resolver.ResolverOpts → bool → bool).
Context (fs_read_to_string fetch_url : string → result IoError string).
Context (regex_new : string → option Regex).

Inductive ZoneHandler :=
  | FileZone (a : @Authority _ _ Signed)
  | Forwarder (r : Resolver.ResolverWrap) (f : @Forward.CacheForwardAuthority _ Regex).

(** The prefix of the [dns64] section, or else that of the [resolver] section, if it parses. *)
Definition dns64_prefix_of (cfg : Config.Config) : option Dns64.Dns64Prefix :=
  s ← match Config.prefix (Config.dns64 cfg) with
      | Some p => Some p
      | None => Config.dns64_prefix (Config.resolver cfg)
      end;
  Dns64.parse s.

(** [iter] is the order of the per-client rules; [None] would be lists that never finish loading. *)
Definition build_cache_forwarder (cfg : Config.Config) (iter : list (string * Config.PerClientFilter)) :
    option (result StartError ZoneHandler) :=
  let dnssec_enabled := Config.validation (Config.dnssec cfg) in
  match Resolver.from_config exists_ read_to_string build (Config.resolver cfg) dnssec_enabled with
  | Err e => Some (Err (ResolverFailed e))
  | Ok resolver_wrap =>
      filter ← Filter.new fs_read_to_string fetch_url regex_new (Config.filter cfg) iter;
      Some (Ok (Forwarder resolver_wrap
        (Forward.with_dns64_always_synthesize root dnssec_enabled
           (Config.qname_minimization (Config.resolver cfg)) filter (dns64_prefix_of cfg)
           (Config.always_synthesize (Config.dns64 cfg)) (Config.ecs (Config.resolver cfg)))))
  end.

(** The catalog, and the manager with the files and the tasks it left. *)
Definition build_catalog (files : Fs) (seed : nat) (cfg : Config.Config)
    (iter : list (string * Config.PerClientFilter)) :
    option (result StartError (list (LowerName * ZoneHandler) * list Handler.SecondaryZoneInfo) *
            @ZoneManager.ZoneManager _ _ Signed) :=
  let '(loaded, m) := load_all add_zone_signing_key secure_zone (ZoneManager.new files seed cfg) in
  match loaded with
  | Err e => Some (Err (ZonesFailed e), m)
  | Ok (catalog, secondaries) =>
      f ← build_cache_forwarder cfg iter;
      Some (match f with
            | Err e => Err e
            | Ok forwarder =>
                Ok (ZoneCatalog.upsert (lower root) forwarder (prod_map id FileZone <$> catalog), secondaries)
            end, m)
  end.

(** *** The certificate *)

Definition has_tls_listeners (cfg : Config.Config) : bool :=
  negb (bool_decide (Config.listen_tls cfg = [])) || negb (bool_decide (Config.listen_https cfg = [])) ||
  negb (bool_decide (Config.listen_quic cfg = [])).

Definition server_certificate (seed : nat) (files : Fs) (cfg : Config.Config) :
    result StartError (option Certified) * Fs :=
  if has_tls_listeners cfg then
    let '(paths, files) :=
      match resolve_cert_paths files (Config.tls_cert (Config.tls cfg)) (Config.tls_key (Config.tls cfg))
              (Config.host cfg) (Config.letsencrypt_dir (Config.tls cfg)) with
      | Ok paths => (Ok paths, files)
      | Err e =>
          if Config.self_signed_enabled (Config.tls cfg)
          then generate_self_signed seed files (Config.host cfg) (Config.keys_dir (Config.dnssec_keys cfg))
          else (Err e, files)
      end in
    (match paths with
     | Err e => Err (CertFailed e)
     | Ok (cert_path, key_path) =>
         match load_tls_cert files cert_path key_path with
         | Ok c => Ok (Some c)
         | Err e => Err (CertFailed e)
         end
     end, files)
  else (Ok None, files).

(** *** The listeners *)

Context (binds : list Listener → Transport → SocketAddr → bool).
Context (registers : list Listener → Listener → bool).

(** Registering a plain socket cannot fail. *)
Definition registered (server : list Listener) (t : Transport) (l : Listener) : bool :=
  match t with OverUdp | OverTcp => true | _ => registers server l end.

(** One of the loops of [run]: every address is parsed, bound and registered before the next. *)
Fixpoint register_all (t : Transport) (listener : SocketAddr → Listener) (addrs : list string)
    (server : list Listener) : result StartError (list Listener) :=
  match addrs with
  | [] => Ok server
  | addr :: rest =>
      sock_addr ← ok_or (BadListenAddr t addr) (parse_socket_addr addr);
      _ ← ensure (binds server t sock_addr) (BindFailed t sock_addr);
      _ ← ensure (registered server t (listener sock_addr)) (RegisterFailed t sock_addr);
      register_all t listener rest (server ++ [listener sock_addr])
  end.

Definition register_plain (cfg : Config.Config) : result StartError (list Listener) :=
  server ← register_all OverUdp UdpSocket (Config.listen cfg) [];
  register_all OverTcp
    (λ a, if Config.proxy_enable (Config.proxy cfg) then ProxyTcp a (Config.proxy_allow (Config.proxy cfg))
          else NativeTcp a 5 4096) (Config.listen cfg) server.

Definition register_encrypted (cfg : Config.Config) (cert : option Certified) (server : list Listener) :
    result StartError (list Listener) :=
  match cert with
  | None => Ok server
  | Some c =>
      server ← register_all OverTls (λ a, Dot a 30 c) (Config.listen_tls cfg) server;
      server ← register_all OverHttps (λ a, Doh a 30 c (Some (Config.host cfg)) "/dns-query") (Config.listen_https cfg) server;
      register_all OverQuic (λ a, Doq a 30 c) (Config.listen_quic cfg) server
  end.

(** What is served once everything is registered. *)
Record Server := {
  srv_catalog : list (LowerName * ZoneHandler);
  srv_secondaries : list Handler.SecondaryZoneInfo;
  srv_listeners : list Listener
}.

(** [run] up to the point where it serves, with the files it leaves. *)
Definition start (files : Fs) (seed : nat) (cfg : Config.Config)
    (iter : list (string * Config.PerClientFilter)) : option (result StartError Server * Fs) :=
  '(catalog, m) ← build_catalog files seed cfg iter;
  match catalog with
  | Err e => Some (Err e, fs m)
  | Ok (catalog, secondaries) =>
      match register_plain cfg with
      | Err e => Some (Err e, fs m)
      | Ok server =>
          let '(cert, files) := server_certificate (ZoneManager.seed m) (fs m) cfg in
          Some (cert ← cert;
                listeners ← register_encrypted cfg cert server;
                Ok {| srv_catalog := catalog; srv_secondaries := secondaries; srv_listeners := listeners |},
                files)
      end
  end.

End Net.
End Net.
