(* ===== verification/NetProps.v ===== *)
(** * Properties of the assembly of the server *)

From Stdlib Require Import Ascii String ZArith Lia.
From stdpp Require Import base list gmap strings numbers.
From S2P Require Import Prelude RustString RustNum RustNet Metrics Cache CacheSpec CacheProps Config ConfigProps.
From S2P Require Import Blocklist BlocklistProps Dns DnsSample Zone Keys ZoneSample Filter Secondary Catalog.
From S2P Require Import ZoneManager ZoneManagerProps Dns64 Resolver Forward Net.

Local Open Scope Z_scope.

(** ** The cache on disk *)

Module PersistProps.
Import Cache CacheSpec CacheProps Persist.

(** Any snapshot file, not only one that was saved, loads into a well-formed cache. *)
Lemma load_row_wf now c row :
  wf c → (0 < size_limit (config c))%nat →
  ∃ c', load_row now c row = Some c' ∧ wf c' ∧ config c' = config c.
Proof.
  intros Hwf Hpos. destruct row as [[[key bytes] secs] n].
  destruct (insert_run now c key bytes (from_secs secs)) as (c1 & Hrun & Hwf1 & Hcfg & _ & _ & Habs); [done..|].
  eexists. unfold load_row. rewrite Hrun. cbn [mbind option_bind]. split_and!; [done| |done].
  destruct (entries c1 !! key) as [e|] eqn:He.
  - assert (alter (set_hit_count n) key (entries c1) = <[key := set_hit_count n e]> (entries c1)) as ->.
    { by rewrite <- (insert_id (entries c1) key e He) at 1; rewrite alter_insert_eq. }
    apply wf_update; [done|by eexists].
  - rewrite alter_id by congruence. by destruct c1.
Qed.

Lemma load_rows_wf now rows c :
  wf c → (0 < size_limit (config c))%nat →
  ∃ c', load_rows now c rows = Some c' ∧ wf c' ∧ config c' = config c.
Proof.
  revert c. induction rows as [|row rows IH]; intros c Hwf Hpos; [by exists c|].
  destruct (load_row_wf now c row) as (c1 & Hrow & Hwf1 & Hcfg); [done..|].
  destruct (IH c1) as (c' & Hrows & Hwf' & Hcfg'); [done|by rewrite Hcfg|].
  exists c'. cbn [load_rows]. rewrite Hrow. cbn [mbind option_bind]. split_and!; [done..|congruence].
Qed.

Section Persist.
Context `{SnapshotFs}.

Lemma load_from_file_wf now fs path :
  ∃ r, load_from_file now fs path = Some r ∧
    ∀ c, r = Ok c → wf c ∧ (0 < size_limit (config c))%nat.
Proof.
  unfold load_from_file. destruct (fs_read_to_string fs path) as [text|e]; [|by eexists].
  destruct (json_from_str text) as [rows|]; [|by eexists].
  destruct (load_rows_wf now rows (new (load_config rows))) as (c & Hrun & Hwf & Hcfg).
  - apply wf_new.
  - unfold load_config. cbn [new config size_limit]. lia.
  - rewrite Hrun. eexists. split; [done|]. intros c' [= <-]. split; [done|]. rewrite Hcfg.
    unfold load_config. cbn [new config size_limit]. lia.
Qed.

Lemma initial_cache_wf cfg now fs :
  0 < Config.cache_size (Config.cache cfg) →
  ∃ c, initial_cache now fs cfg = Some c ∧ wf c ∧ (0 < size_limit (config c))%nat.
Proof.
  intros Hpos. unfold initial_cache, load_persistent_cache.
  assert (wf (new (cache_cfg cfg)) ∧ (0 < size_limit (config (new (cache_cfg cfg))))%nat) as [Hwf Hsz].
  { split; [apply wf_new|]. cbn [new config cache_cfg size_limit]. lia. }
  destruct (Config.cache_persistent _) as [path|]; [|by eexists].
  destruct (snapshot_exists fs path); cbn [negb]; [|by eexists].
  case_match; [by eexists|]. destruct (load_from_file_wf now fs path) as (r & Hr & Hok). rewrite Hr.
  destruct r as [c|e]; eexists; (split; [done|]); [by apply Hok|done].
Qed.

(** A snapshot that was written and is not too old is what the next run starts with. *)
Lemma initial_cache_saved cfg now fs path c iter fs0 :
  Config.cache_persistent (Config.cache cfg) = Some path → iter ≡ₚ map_to_list (entries c) →
  save_persistent_cache iter fs0 cfg = Ok fs →
  (∀ age, snapshot_age fs path = Some age → age ≤ max_age cfg) →
  ∃ c', initial_cache now fs cfg = Some c' ∧
    entries c' = loaded_entry now <$> entries c ∧
    config c' = {| size_limit := Nat.max (len c) 100; serve_stale := from_secs 30; prefetch := 0 |}.
Proof.
  intros Hp Hiter Hsave Hage. unfold initial_cache, load_persistent_cache.
  unfold save_persistent_cache in Hsave. rewrite Hp in Hsave |- *.
  apply bind_Ok in Hsave as (fs1 & _ & Hsave).
  assert (snapshot_exists fs path = true) as ->.
  { apply bind_Ok in Hsave as (text & _ & Hw). by eapply written_exists. }
  destruct (save_load_roundtrip c iter fs1 fs path now Hiter Hsave) as (c' & Hl & He & Hc).
  exists c'. cbn [negb]. rewrite Hl. split; [|done]. case_match eqn:Em; [|done].
  destruct (snapshot_age fs path) as [age|]; [|done]. apply Z.ltb_lt in Em. pose proof (Hage age eq_refl). lia.
Qed.

End Persist.

(** C12: The cache across a restart.  Start-up always returns a cache that satisfies the invariant of
    the cache and has room, whatever is on disk.  Without a snapshot, with one older than the
    configured age or with one that cannot be read, it is the empty cache of the configuration.
    When the last run saved its cache and the file is not too old, it has the same keys with the
    same responses and hit counts, the clock of each restarting with the whole seconds of its
    original TTL; the size, stale window and prefetch factor then no longer come from the
    configuration. *)
Theorem restart_keeps_cache `{SnapshotFs} cfg now fs :
  0 < Config.cache_size (Config.cache cfg) →
  (∃ c, initial_cache now fs cfg = Some c ∧ wf c ∧ (0 < size_limit (config c))%nat) ∧
  ((∀ path, Config.cache_persistent (Config.cache cfg) = Some path →
      snapshot_exists fs path = false ∨ (∃ age, snapshot_age fs path = Some age ∧ max_age cfg < age) ∨
      ∃ e, load_from_file now fs path = Some (Err e)) →
   initial_cache now fs cfg = Some (new (cache_cfg cfg))) ∧
  (∀ path c iter fs0,
     Config.cache_persistent (Config.cache cfg) = Some path → iter ≡ₚ map_to_list (entries c) →
     save_persistent_cache iter fs0 cfg = Ok fs →
     (∀ age, snapshot_age fs path = Some age → age ≤ max_age cfg) →
     ∃ c', initial_cache now fs cfg = Some c' ∧
       entries c' = loaded_entry now <$> entries c ∧
       config c' = {| size_limit := Nat.max (len c) 100; serve_stale := from_secs 30; prefetch := 0 |}).
Proof.
  intros Hpos. split_and!; [by apply initial_cache_wf| |].
  - unfold initial_cache, load_persistent_cache. intros Hnone.
    destruct (Config.cache_persistent _) as [path|]; [|done].
    destruct (Hnone path eq_refl) as [-> | [(age & -> & Hage)|(e & ->)]]; [done| |].
    + destruct (snapshot_exists fs path); [|done]. cbn [negb]. by rewrite (proj2 (Z.ltb_lt _ _) Hage).
    + destruct (snapshot_exists fs path); [|done]. cbn [negb]. by case_match.
  - intros path c iter fs0. apply initial_cache_saved.
Qed.

(** *** Witness *)

#[export] Instance map_snapshots : @SnapshotFs map_storage.
Proof.
  refine {| snapshot_exists fs p := bool_decide (is_Some ((fs : gmap string string) !! p));
            snapshot_age _ _ := Some (from_secs 3600); snapshot_dirs fs _ := Ok fs |}.
  intros fs p s fs' [= <-]. by apply bool_decide_eq_true; rewrite lookup_insert_eq.
Defined.

Definition persistent_config : Config.Config :=
  ConfigProps.config_with []
    {| Config.cache_size := 2; Config.cache_serve_stale := true; Config.cache_prefetch := 2;
       Config.cache_persistent := Some "/var/cache.json"%string; Config.persistent_max_age_days := 7 |} [].

(** The cache of two entries comes back with room for a hundred. *)
Lemma restart_keeps_cache_witness :
  ∃ fs c, save_persistent_cache (map_to_list (entries two_entries)) ∅ persistent_config = Ok fs ∧
    initial_cache 77 fs persistent_config = Some c ∧
    entries c !! key_b = Some (fresh_entry 77 [4; 5] (from_secs 300)) ∧ size_limit (config c) = 100%nat.
Proof.
  destruct (save_persistent_cache (map_to_list (entries two_entries)) ∅ persistent_config) as [fs|e] eqn:E;
    [|discriminate E].
  destruct (restart_keeps_cache persistent_config 77 fs) as (_ & _ & Hback); [reflexivity|].
  destruct (Hback "/var/cache.json"%string two_entries (map_to_list (entries two_entries)) ∅)
    as (c & Hc & He & Hcfg); [reflexivity|reflexivity|exact E| |].
  - intros age [= <-]. vm_compute. discriminate.
  - exists fs, c. split_and!; [reflexivity|exact Hc| |].
    + rewrite He. vm_compute. reflexivity.
    + rewrite Hcfg. vm_compute. reflexivity.
Defined.

End PersistProps.

(** ** Start-up *)

Module NetProps.
Import Dns Zone Keys ZoneManager ZoneManagerProps Net.

Section Register.
Context `{KeyLib}.
Context (binds : list Listener → Transport → SocketAddr → bool) (registers : list Listener → Listener → bool).

#[local] Notation register_all := (register_all binds registers).

Lemma register_all_Ok t mk addrs server r :
  register_all t mk addrs server = Ok r →
  ∃ socks, mapM parse_socket_addr addrs = Some socks ∧ r = server ++ (mk <$> socks).
Proof.
  revert server. induction addrs as [|addr addrs IH]; intros server.
  - intros [= <-]. exists []. by rewrite app_nil_r.
  - intros (a & Ha%ok_or_Ok & Hr)%bind_Ok. apply bind_Ok in Hr as (? & _ & Hr). apply bind_Ok in Hr as (? & _ & Hr).
    apply IH in Hr as (socks & Hs & ->). exists (a :: socks). simpl. rewrite Ha, Hs. simpl.
    by rewrite <- app_assoc.
Qed.

(** Which errors a loop can end with, given that its addresses are readable. *)
Definition listener_error (t : Transport) (e : StartError) : Prop :=
  match e with
  | BindFailed t' _ => t' = t
  | RegisterFailed t' _ => t' = t ∧ t ≠ OverUdp ∧ t ≠ OverTcp
  | _ => False
  end.

Lemma register_all_Err t mk addrs server e :
  Forall (λ a, is_Some (parse_socket_addr a)) addrs →
  register_all t mk addrs server = Err e → listener_error t e.
Proof.
  intros Hall. revert server. induction Hall as [|addr addrs [a Ha] Hall IH]; intros server; [done|].
  cbn [Net.register_all]. rewrite Ha. cbn [ok_or mbind result_bind].
  intros [(_ & <-)%ensure_Err|(? & _ & Hr)]%bind_Err; [done|].
  apply bind_Err in Hr as [(Hreg & <-)%ensure_Err|(? & _ & Hr)]; [|by eapply IH].
  destruct t; done.
Qed.

(** The listeners behind the certificate. *)
Definition encrypted (c : Config.Config) (cert : list Cert * CertKey) (tls https quic : list SocketAddr) : list Listener :=
  ((λ a, Dot a 30 cert) <$> tls) ++
  ((λ a, Doh a 30 cert (Some (Config.host c)) "/dns-query") <$> https) ++
  ((λ a, Doq a 30 cert) <$> quic).

Definition plain (c : Config.Config) (socks : list SocketAddr) : list Listener :=
  (UdpSocket <$> socks) ++
  ((λ a, if Config.proxy_enable (Config.proxy c) then ProxyTcp a (Config.proxy_allow (Config.proxy c))
         else NativeTcp a 5 4096) <$> socks).

Lemma register_plain_Ok c r :
  register_plain binds registers c = Ok r →
  ∃ socks, mapM parse_socket_addr (Config.listen c) = Some socks ∧ r = plain c socks.
Proof.
  intros (s & Hs & Hr)%bind_Ok. apply register_all_Ok in Hs as (socks & Hm & ->).
  apply register_all_Ok in Hr as (socks' & Hm' & ->). rewrite Hm in Hm'. injection Hm' as <-. by exists socks.
Qed.

Lemma register_encrypted_Ok c cert server r :
  register_encrypted binds registers c (Some cert) server = Ok r →
  ∃ tls https quic, mapM parse_socket_addr (Config.listen_tls c) = Some tls ∧
    mapM parse_socket_addr (Config.listen_https c) = Some https ∧
    mapM parse_socket_addr (Config.listen_quic c) = Some quic ∧
    r = server ++ encrypted c cert tls https quic.
Proof.
  intros (s & Hs & Hr)%bind_Ok. apply register_all_Ok in Hs as (tls & Htls & ->).
  apply bind_Ok in Hr as (s & Hs & Hr). apply register_all_Ok in Hs as (https & Hhttps & ->).
  apply register_all_Ok in Hr as (quic & Hquic & ->). exists tls, https, quic. split_and!; [done..|].
  unfold encrypted. by rewrite <- !app_assoc.
Qed.

Lemma register_encrypted_Err c cert server e :
  Forall (λ a, is_Some (parse_socket_addr a)) (Config.all_listeners c) →
  register_encrypted binds registers c cert server = Err e → ∃ t, listener_error t e.
Proof.
  unfold Config.all_listeners. rewrite !Forall_app. intros (_ & Ht & Hq & Hh). destruct cert as [cert|]; [|done].
  intros [Hs%register_all_Err|(s & _ & Hr)]%bind_Err; [by eexists|done|].
  apply bind_Err in Hr as [Hs%register_all_Err|(s' & _ & Hr%register_all_Err)]; try done; by eexists.
Qed.

Lemma register_plain_Err c e :
  Forall (λ a, is_Some (parse_socket_addr a)) (Config.all_listeners c) →
  register_plain binds registers c = Err e → ∃ t, listener_error t e.
Proof.
  unfold Config.all_listeners. rewrite !Forall_app. intros (Hl & _).
  intros [Hs%register_all_Err|(s & _ & Hr%register_all_Err)]%bind_Err; try done; by eexists.
Qed.

(** The certificate is asked for exactly when a listener needs one, and it is usable. *)
Lemma server_certificate_spec seed files c r files' :
  server_certificate seed files c = (r, files') →
  match r with
  | Ok None => has_tls_listeners c = false ∧ files' = files
  | Ok (Some (chain, key)) => has_tls_listeners c = true ∧ chain ≠ [] ∧ certified chain key = true
  | Err e => has_tls_listeners c = true ∧ ∃ e', e = CertFailed e'
  end.
Proof.
  unfold server_certificate. destruct (has_tls_listeners c); [|by intros [= <- <-]].
  destruct (match resolve_cert_paths _ _ _ _ _ with Ok _ => _ | Err _ => _ end) as [[[cp kp]|e] fs'];
    [|intros [= <- _]; by eauto].
  destruct (load_tls_cert fs' cp kp) as [[chain key]|e] eqn:El; intros [= <- _]; [|by eauto].
  split; [done|]. apply bind_Ok in El as (ch & _ & El). case_bool_decide as Hne; [done|].
  apply bind_Ok in El as (k & _ & El). destruct (certified ch k) eqn:Hc; [|done]. injection El as <- <-.
  split; [|done]. by intros ->.
Qed.

End Register.

Section Start.
Context `{KeyLib} {Signed Regex IoError : Type}.
Context (add_key : Signer → ZoneMap LowerName Name → option Signed) (secure : Signed → option Signed).
Context (exists_ : string → bool) (read_to_string : string → option string).
Context (build : list Resolver.NameServer → Resolver.ResolverOpts → bool → bool).
Context (rd fu : string → result IoError string) (regex_new : string → option Regex).
Context (binds : list Listener → Transport → SocketAddr → bool) (registers : list Listener → Listener → bool).

#[local] Notation start := (start add_key secure exists_ read_to_string build rd fu regex_new binds registers).
#[local] Notation build_catalog := (build_catalog add_key secure exists_ read_to_string build rd fu regex_new).
#[local] Notation build_cache_forwarder := (Net.build_cache_forwarder (Signed := Signed) exists_ read_to_string build rd fu regex_new).

Lemma filter_new_returns cfg iter : ∃ f, Filter.new rd fu regex_new cfg iter = Some f.
Proof.
  unfold Filter.new, Blocklist.load_sources, Blocklist.Allowlist_load_sources.
  destruct (BlocklistProps.load_all_inv rd fu (Config.blocklists cfg)) as (b & -> & _).
  destruct (BlocklistProps.load_all_inv rd fu (Config.allowlists cfg)) as (a & -> & _). by eexists.
Qed.

(** The forwarder as it is configured. *)
Definition configured (c : Config.Config) (w : Resolver.ResolverWrap) (f : @Forward.CacheForwardAuthority _ Regex) : Prop :=
  Resolver.from_config exists_ read_to_string build (Config.resolver c) (Config.validation (Config.dnssec c)) = Ok w ∧
  Forward.origin f = root ∧ Forward.dnssec_enabled f = Config.validation (Config.dnssec c) ∧
  Forward.dns64_prefix f = dns64_prefix_of c ∧
  Forward.dns64_always_synthesize f = Config.always_synthesize (Config.dns64 c).

Lemma build_cache_forwarder_returns c iter :
  ∃ r, build_cache_forwarder c iter = Some r ∧
    match r with
    | Ok h => ∃ w f, h = Forwarder w f ∧ configured c w f
    | Err e => ∃ e', e = ResolverFailed e'
    end.
Proof.
  unfold Net.build_cache_forwarder.
  destruct (Resolver.from_config _ _ _ _ _) as [w|e] eqn:Ew; [|eexists; split; [done|]; by eexists].
  destruct (filter_new_returns (Config.filter c) iter) as [f ->]. cbn [mbind option_bind].
  eexists. split; [done|]. eexists w, _. split; [done|]. by split_and!.
Qed.

Lemma find_file_zones (l : list (LowerName * @Authority _ _ Signed)) k :
  ZoneCatalog.find k (prod_map id (FileZone (Regex := Regex)) <$> l) = FileZone <$> ZoneCatalog.find k l.
Proof.
  unfold ZoneCatalog.find. induction l as [|[k' a] l IH]; [done|].
  rewrite fmap_cons, !filter_cons. cbn [fst prod_map id]. case_decide; [done|]. exact IH.
Qed.

Lemma build_catalog_returns files seed c iter :
  ∃ r m, build_catalog files seed c iter = Some (r, m) ∧
    match r with
    | Ok (cat, secs) => ∃ zones w f,
        load_all add_key secure (ZoneManager.new files seed c) = (Ok (zones, secs), m) ∧ configured c w f ∧
        ∀ k, ZoneCatalog.find k cat =
             if decide (lower root = k) then Some (Forwarder w f) else FileZone <$> ZoneCatalog.find k zones
    | Err (ZonesFailed e) => load_all add_key secure (ZoneManager.new files seed c) = (Err e, m)
    | Err e => ∃ e', e = ResolverFailed e'
    end.
Proof.
  unfold Net.build_catalog. destruct (load_all _ _ _) as [[[zones secs]|e] m] eqn:El; [|by exists (Err (ZonesFailed e)), m].
  destruct (build_cache_forwarder_returns c iter) as (r & -> & Hr). cbn [mbind option_bind].
  eexists _, m. split; [done|]. destruct r as [h|e].
  - destruct Hr as (w & f & -> & Hf). exists zones, w, f. split_and!; [done..|]. intros k.
    by rewrite ZoneCatalog.find_upsert, find_file_zones.
  - destruct Hr as [e' ->]. by eauto.
Qed.

(** Whatever the configuration, the start ends, and the catalog of a server has the zones that were
    loaded and the configured forwarder at the root. *)
Lemma start_returns files seed c iter :
  ∃ r files', start files seed c iter = Some (r, files') ∧
    ∀ srv, r = Ok srv → ∃ zones m w f,
      load_all add_key secure (ZoneManager.new files seed c) = (Ok (zones, srv_secondaries srv), m) ∧
      configured c w f ∧
      ∀ k, ZoneCatalog.find k (srv_catalog srv) =
           if decide (lower root = k) then Some (Forwarder w f) else FileZone <$> ZoneCatalog.find k zones.
Proof.
  unfold Net.start. destruct (build_catalog_returns files seed c iter) as (r & m & -> & Hr).
  cbn [mbind option_bind]. destruct r as [[cat secs]|e]; [|by eexists _, _].
  destruct (register_plain binds registers c); [|by eexists _, _].
  destruct (server_certificate _ _ c) as [cert files']. eexists _, files'. split; [done|].
  intros srv (? & _ & Hs)%bind_Ok. apply bind_Ok in Hs as (? & _ & [= <-]).
  destruct Hr as (zones & w & f & Hr). by exists zones, m, w, f.
Qed.

(** C7: Starting the server with a valid configuration always ends: with a server or with an error
    that is not a bad address, names a certificate only when an encrypted listener is configured,
    and names the registration of no plain listener.  A server has, in this order, a UDP socket and
    a TCP listener (native, or behind the PROXY parser when that is enabled) on every plain address,
    and one listener per encrypted address, all with one certificate that matches its key.  Its
    catalog answers the root zone with the configured forwarder, even if a zone file for the root
    was loaded, and every other name with what the zone manager loaded for it.  Without encrypted
    listeners no certificate file is read or written. *)
Theorem server_start files seed c iter :
  ConfigProps.Valid c →
  ∃ r files', start files seed c iter = Some (r, files') ∧
    match r with
    | Ok srv => ∃ zones m w f socks,
        load_all add_key secure (ZoneManager.new files seed c) = (Ok (zones, srv_secondaries srv), m) ∧
        configured c w f ∧
        (∀ k, ZoneCatalog.find k (srv_catalog srv) =
              if decide (lower root = k) then Some (Forwarder w f) else FileZone <$> ZoneCatalog.find k zones) ∧
        mapM parse_socket_addr (Config.listen c) = Some socks ∧
        ((has_tls_listeners c = false ∧ files' = fs m ∧ srv_listeners srv = plain c socks) ∨
         ∃ chain key tls https quic, has_tls_listeners c = true ∧ chain ≠ [] ∧ certified chain key = true ∧
           mapM parse_socket_addr (Config.listen_tls c) = Some tls ∧
           mapM parse_socket_addr (Config.listen_https c) = Some https ∧
           mapM parse_socket_addr (Config.listen_quic c) = Some quic ∧
           srv_listeners srv = plain c socks ++ encrypted c (chain, key) tls https quic)
    | Err (ZonesFailed e) => ∃ m, load_all add_key secure (ZoneManager.new files seed c) = (Err e, m)
    | Err (ResolverFailed _) => True
    | Err (CertFailed _) => has_tls_listeners c = true
    | Err e => ∃ t, listener_error t e
    end.
Proof.
  intros Hv. pose proof (ConfigProps.v_listen c Hv) as Hl. unfold Net.start.
  destruct (build_catalog_returns files seed c iter) as (r & m & -> & Hr). cbn [mbind option_bind].
  destruct r as [[cat secs]|e]; [|exists (Err e), (fs m); split; [done|]].
  2: { destruct e; try (by destruct Hr); by exists m. }
  destruct Hr as (zones & w & f & Hload & Hf & Hfind).
  destruct (register_plain binds registers c) as [server|e] eqn:Hp.
  2: { exists (Err e), (fs m). split; [done|]. apply register_plain_Err in Hp as [t Ht]; [|done].
       destruct e; try (by destruct Ht); by exists t. }
  apply register_plain_Ok in Hp as (socks & Hsocks & ->).
  destruct (server_certificate _ _ c) as [cert files'] eqn:Hc.
  eexists _, files'. split; [done|]. apply server_certificate_spec in Hc.
  destruct cert as [[[chain key]|]|e]; cbn [mbind result_bind].
  - destruct Hc as (Htls & Hne & Hcert).
    destruct (register_encrypted binds registers c (Some (chain, key)) (plain c socks)) as [ls|e] eqn:He.
    + apply register_encrypted_Ok in He as (tls & https & quic & ? & ? & ? & ->).
      exists zones, m, w, f, socks. split_and!; [done..|]. right. by exists chain, key, tls, https, quic.
    + apply register_encrypted_Err in He as [t Ht]; [|done]. destruct e; try (by destruct Ht); by exists t.
  - destruct Hc as [Htls ->]. exists zones, m, w, f, socks. split_and!; [done..|]. by left.
  - by destruct Hc as (Htls & e' & ->).
Qed.

End Start.

(** *** Witness *)

Section Witnesses.
Import DnsSample ZoneSample.

(** The default listeners and one for TLS, one signed zone and one secondary zone; the certificate is on disk. *)
Definition two_zones : Config.Config :=
  ConfigProps.config_with ["0.0.0.0:853"%string] Config.CacheSection_default
    [zone_of "e." "primary" (Some "/z/e"%string) [] true;
     zone_of "s." "secondary" None ["192.0.2.1:53"%string] false].

Definition disk : @Fs sample sample_zone :=
  {| files := {[ "/etc/letsencrypt/live/localhost/fullchain.pem"%string := [1];
                 "/etc/letsencrypt/live/localhost/privkey.pem"%string := [2] ]};
     zones := {[ "/z/e"%string := [] ]} |}.

Definition started :=
  @start sample sample_zone sample_keys SZone unit unit add_key Some (λ _, false) (λ _, None) (λ _ _ _, true)
    (λ _, Err tt) (λ _, Err tt) (λ _, None) (λ _ _ _, true) (λ _ _, true) disk 0 two_zones [].

Definition listener_count : option nat :=
  '(r, _) ← started; match r with Ok srv => Some (length (srv_listeners srv)) | Err _ => None end.

Lemma server_start_witness :
  Config.validate two_zones = Ok tt ∧ listener_count = Some 5%nat ∧
  ∃ r files', started = Some (r, files') ∧
    match r with Err (BadListenAddr _ _) => False | _ => True end.
Proof.
  split; [vm_compute; reflexivity|]. split; [vm_compute; reflexivity|].
  destruct (@server_start sample sample_zone sample_keys SZone unit unit add_key Some (λ _, false) (λ _, None)
    (λ _ _ _, true) (λ _, Err tt) (λ _, Err tt) (λ _, None) (λ _ _ _, true) (λ _ _, true) disk 0 two_zones [])
    as (r & files' & Hs & Hr).
  - apply (ConfigProps.validate_Ok _ tt). vm_compute. reflexivity.
  - exists r, files'. split; [exact Hs|]. destruct r as [srv|[]]; try exact I.
    destruct Hr as [t' Ht]. exact Ht.
Defined.

End Witnesses.
End NetProps.
