(* ===== verification/System.v ===== *)
(** * The running server: composition of its parts

    [Serving] is the server between start and shutdown, as a step relation on the shared world: the
    requests that reach the forwarder and the prefetch tasks that they spawn ([src/core/resolver/forward.rs]).
    While one of them waits for the lock of the cache the others run: [interferes] says what they
    can do to the cache, and is defined by the requests themselves.  [Run] is [Net::run] as a whole
    ([src/net/mod.rs]): the cache from disk, the start, the serving, the cache back to disk. *)

From Stdlib Require Import Ascii String ZArith Lia.
From stdpp Require Import base list gmap strings numbers.
From S2P Require Import Prelude RustString RustNum RustNet Metrics Cache CacheSpec Config Dns Zone Keys Secondary.
From S2P Require Import Catalog ZoneManager Blocklist Filter Dns64 Resolver Forward Net.

Local Open Scope Z_scope.

(** ** Requests and prefetch tasks *)

Module Serving.
Import Metrics Cache Dns Forward.

Section Serving.
Context `{Hickory} {Regex RequestInfo : Type} (a : CacheForwardAuthority Regex).

(** What is known of the surroundings of every task (its upstream servers and clock), the questions
    that clients ask, and those that prefetch tasks may be running for. *)
Context (E : Env → Prop) (Q P : Name → RecordType → Prop).

(** What the other tasks can do to the cache: nothing, a lookup or a prefetch (in which yet others
    interfere), or any number of these one after the other. *)
Inductive interferes : Cache → Cache → Prop :=
  | interferes_none c : interferes c c
  | interferes_lookup (env : Env) n t (info : option RequestInfo) w r w' :
      (∀ k c, interferes c (others k c)) → E env → filled (w_metrics w) → Q n t →
      lookup a n t info w = Some (r, w') → interferes (w_cache w) (w_cache w')
  | interferes_prefetch (env : Env) n t w w' :
      (∀ k c, interferes c (others k c)) → E env → filled (w_metrics w) → P n t →
      prefetch_task n t w = Some (tt, w') → interferes (w_cache w) (w_cache w')
  | interferes_seq c c' c'' : interferes c c' → interferes c' c'' → interferes c c''.

(** An environment in which the other tasks are those of this server. *)
Definition own_tasks (env : Env) : Prop := E env ∧ ∀ k c, interferes c (others k c).

(** The shared world, and the prefetch tasks that have been spawned and not run yet. *)
Record Running := { world : World; pending : list (Name * RecordType) }.

Inductive Label :=
  | Answered (n : Name) (t : RecordType) (r : result LookupError (list Rec))
  | Prefetched (n : Name) (t : RecordType).

Inductive serve_step (s : Running) : Label → Running → Prop :=
  | serve_request (env : Env) n t (info : option RequestInfo) r spawned w :
      own_tasks env → Q n t → lookup a n t info (world s) = Some ((r, spawned), w) →
      serve_step s (Answered n t r)
        {| world := w; pending := if (spawned : bool) then (n, t) :: pending s else pending s |}
  | serve_prefetch (env : Env) n t before after w :
      own_tasks env → pending s = before ++ (n, t) :: after →
      prefetch_task n t (world s) = Some (tt, w) →
      serve_step s (Prefetched n t) {| world := w; pending := before ++ after |}.

(** A sequence of steps with its labels, oldest first. *)
Inductive serve_steps : Running → list Label → Running → Prop :=
  | serve_nil s : serve_steps s [] s
  | serve_snoc s trace s' l s'' :
      serve_steps s trace s' → serve_step s' l s'' → serve_steps s (trace ++ [l]) s''.

End Serving.
End Serving.

(** ** [Net::run] *)

Module Run.
Import Metrics Cache Dns Zone Keys ZoneManager Persist Net Serving.

Inductive RunError := StartFailed (e : StartError) | ServerFailed.

Section Run.
Context `{KeyLib} `{SnapshotFs} {Signed Regex IoError RequestInfo : Type}.
Context (add_zone_signing_key : Signer → ZoneMap LowerName Name → option Signed).
Context (secure_zone : Signed → option Signed).
Context (exists_ : string → bool) (read_to_string : string → option string).
Context (build : list Resolver.NameServer → Resolver.ResolverOpts → bool → bool).
Context (fs_read_to_string fetch_url : string → result IoError string).
Context (regex_new : string → option Regex).
Context (binds : list Listener → Transport → SocketAddr → bool).
Context (registers : list Listener → Listener → bool).

#[local] Notation start := (Net.start add_zone_signing_key secure_zone exists_ read_to_string build
  fs_read_to_string fetch_url regex_new binds registers).

(** The state in which the server begins to serve with a cache. *)
Definition ready (c : Cache) (m : MetricsRegistry) : Running :=
  {| world := {| w_cache := c; w_metrics := m; w_calls := []; w_ticks := 0 |}; pending := [] |}.

(** [stopped] is the result of [block_until_done]; the snapshot is written only when it is good, and
    a failure to write it is only logged. *)
Definition shut_down (stopped : bool) (iter : list (CacheKey * CacheEntry)) (snapshots : Cache.Fs)
    (cfg : Config.Config) : result RunError unit * Cache.Fs :=
  if stopped then (Ok tt, final_save iter snapshots cfg) else (Err ServerFailed, snapshots).

Context (E : Env → Prop) (Q P : Name → RecordType → Prop).

(** One run of the server from the snapshots on disk to those it leaves, with what it served.  The
    start fails, or the forwarder of the catalog serves until the server stops; the snapshot is
    written in the order in which the map of the cache is then traversed. *)
Inductive run (now : Z) (files : Zone.Fs) (seed : nat) (cfg : Config.Config)
    (rules : list (string * Config.PerClientFilter)) (m : MetricsRegistry) (snapshots : Cache.Fs) :
    list Label → result RunError unit → Cache.Fs → Prop :=
  | run_failed c e files' :
      initial_cache now snapshots cfg = Some c →
      start files seed cfg rules = Some (Err e, files') →
      run now files seed cfg rules m snapshots [] (Err (StartFailed e)) snapshots
  | run_served c srv files' w f trace s stopped iter r snapshots' :
      initial_cache now snapshots cfg = Some c →
      start files seed cfg rules = Some (Ok srv, files') →
      ZoneCatalog.find (lower root) (srv_catalog srv) = Some (Forwarder w f) →
      serve_steps (RequestInfo := RequestInfo) f E Q P (ready c m) trace s →
      iter ≡ₚ map_to_list (entries (w_cache (world s))) →
      shut_down stopped iter snapshots cfg = (r, snapshots') →
      run now files seed cfg rules m snapshots trace r snapshots'.

End Run.
End Run.

(** ** All that a started server does *)

Module Whole.
Import Metrics Cache Dns Zone Keys ZoneManager Net Serving.

Section Whole.
Context `{KeyLib} {Signed Regex RequestInfo ZoneReply TransferError Transferred : Type}.

#[local] Notation ZoneHandler := (ZoneHandler (Signed := Signed) (Regex := Regex)).

(** The search of the catalog for the handler of a name and what a loaded zone replies to a question
    are library code. *)
Context (route : list (LowerName * ZoneHandler) → LowerName → option ZoneHandler).
Context (zone_reply : Authority (Signed := Signed) → Name → RecordType → ZoneReply).

(** The server, its forwarder, the surroundings of the forwarder's tasks, and the questions of clients. *)
Context (srv : Server (Signed := Signed) (Regex := Regex)) (f : Forward.CacheForwardAuthority Regex).
Context (E : Env → Prop) (Q P : Name → RecordType → Prop).

(** The questions that the catalog gives to the forwarder. *)
Definition to_forwarder (n : Name) (t : RecordType) : Prop :=
  Q n t ∧ ∃ w, route (srv_catalog srv) (lower n) = Some (Forwarder w f).

(** The forwarder with its cache, and the refresh tasks that have been spawned and not run yet. *)
Record State := { running : Running; refreshes : list Handler.SecondaryZoneInfo }.

Inductive Event :=
  | Forwarded (l : Label)
  | FromZone (n : Name) (t : RecordType) (r : ZoneReply)
  | Notified (request : Handler.Request) (code : ResponseCode)
  | Refreshed (name : string) (asked : list string).

(** A request that is no NOTIFY goes to the handler that the catalog has for its name; a NOTIFY may
    spawn a refresh, which asks the primaries and drops what it gets (a transfer that waits here is one
    that never ends). *)
Inductive step (s : State) : Event → State → Prop :=
  | step_forwarder l r :
      serve_step (RequestInfo := RequestInfo) f E to_forwarder P (running s) l r →
      step s (Forwarded l) {| running := r; refreshes := refreshes s |}
  | step_zone n t a :
      Q n t → route (srv_catalog srv) (lower n) = Some (FileZone a) →
      step s (FromZone n t (zone_reply a n t)) s
  | step_notify other sends request handled :
      Handler.req_op request = Op_Notify →
      Handler.handle_request other (srv_secondaries srv) sends request = handled →
      step s (Notified request (Handler.rcode handled))
        {| running := running s; refreshes := refreshes s ++ option_list (Handler.refresh handled) |}
  | step_refresh (axfr : string → string → Secondary.Transfer TransferError Transferred) before i after :
      refreshes s = before ++ i :: after →
      step s (Refreshed (Handler.sec_name i)
                (Handler.refresh_task axfr (Handler.sec_name i) (Handler.sec_primaries i)))
        {| running := running s; refreshes := before ++ after |}.

(** A sequence of steps with its events, oldest first. *)
Inductive steps : State → list Event → State → Prop :=
  | steps_nil s : steps s [] s
  | steps_snoc s trace s' e s'' : steps s trace s' → step s' e s'' → steps s (trace ++ [e]) s''.

(** What the forwarder did. *)
Definition forwarder_labels (trace : list Event) : list Label :=
  omap (λ e, match e with Forwarded l => Some l | _ => None end) trace.

End Whole.
End Whole.
