(* ===== verification/SystemProps.v ===== *)
(** * Properties of the running server *)

From Stdlib Require Import Ascii String ZArith Lia.
From stdpp Require Import base list gmap strings numbers.
From S2P Require Import Prelude RustString RustNum RustNet Metrics Cache CacheSpec CacheProps Config ConfigProps.
From S2P Require Import Dns DnsSample Zone Keys ZoneSample Secondary Catalog ZoneManager ZoneManagerProps Blocklist.
From S2P Require Import Filter Dns64 Resolver Forward ForwardSafe ForwardProps Net NetProps System.

Local Open Scope Z_scope.

(** ** Interference *)

Module ServingProps.
Import Metrics Cache CacheSpec Dns Forward ForwardSafe ForwardProps Serving.

(** An operation on the cache, whatever it does to the counters. *)
Definition cache_op (c c' : Cache) : Prop := ∃ m m', step (c, m) (c', m').

(** [c'] is a consistent successor of [c] by operations of the cache. *)
Record evolves (c c' : Cache) : Prop := {
  ev_wf : wf c';
  ev_config : config c' = config c;
  ev_ops : rtc cache_op c c'
}.

Lemma evolves_refl c : wf c → evolves c c.
Proof. by split. Qed.

Lemma evolves_trans c c' c'' : evolves c c' → evolves c' c'' → evolves c c''.
Proof. intros [_ E1 H1] [Hwf E2 H2]. split; [done|congruence|by etrans]. Qed.

Lemma lookup_with_metrics_cache now c m m' key :
  (lookup_with_metrics now c m key).1.2 = (lookup_with_metrics now c m' key).1.2.
Proof. unfold lookup_with_metrics. by destruct (Cache.lookup now c key) as [[r|] c']. Qed.

Lemma evolves_step c m c' m' :
  step (c, m) (c', m') → wf c → (0 < size_limit (config c))%nat → evolves c c'.
Proof.
  intros Hs Hwf Hpos.
  assert (filled Metrics.new) as Hm by apply new_filled.
  assert (∃ m1, step (c, Metrics.new) (c', m1)) as [m1 Hs1].
  { inversion Hs; subst; try (by (eexists; econstructor)).
    match goal with Hl : lookup_with_metrics ?t _ _ ?k = _ |- _ =>
      pose proof (lookup_with_metrics_cache t c m Metrics.new k) as Hc; rewrite Hl in Hc; simpl in Hc;
      destruct (lookup_with_metrics t c Metrics.new k) as [[r2 c2] m2] eqn:E2; simpl in Hc; subst c2;
      exists m2; by eapply step_lookup_with_metrics
    end. }
  destruct (step_keeps _ _ _ _ Hs1 Hwf Hpos Hm) as (Hwf' & Hcfg & _).
  split; [done|done|]. apply rtc_once. by exists m, m'.
Qed.

Section Interference.
Context `{Hickory}.

(** The other tasks only let a consistent cache with room evolve. *)
Definition guarded (env : Env) : Prop :=
  ∀ k c, wf c → (0 < size_limit (config c))%nat → evolves c (others k c).

Lemma guarded_rely (env : Env) : guarded env → rely.
Proof. intros Hg k c Hwf Hpos. by destruct (Hg k c Hwf Hpos). Qed.

Lemma activity_evolves (env : Env) K x y :
  guarded env → rtc (activity K) x y → wf x.1 → (0 < size_limit (config x.1))%nat → evolves x.1 y.1.
Proof.
  intros Hg. induction 1 as [x|x y z Ha _ IH]; intros Hwf Hpos; [by apply evolves_refl|].
  assert (evolves x.1 y.1) as Hxy.
  { destruct Ha as [now key c m r c' m' Hl|now key bytes ttl c m c' _ Hi|c m name k|k c m]; simpl in *.
    - by eapply evolves_step; [eapply step_lookup_with_metrics|..].
    - by eapply (evolves_step c m c' m); [eapply step_insert|..].
    - by apply evolves_refl.
    - by apply Hg. }
  eapply evolves_trans; [exact Hxy|]. apply IH; [apply Hxy|]. by rewrite (ev_config _ _ Hxy).
Qed.

Lemma ext_evolves (env : Env) S K w w' : guarded env → ok w → ext S K w w' → evolves (w_cache w) (w_cache w').
Proof.
  intros Hg [Hwf Hpos _] [_ _ _ Ha]. exact (activity_evolves env K (shared w) (shared w') Hg Ha Hwf Hpos).
Qed.

Context {Regex RequestInfo : Type} (a : CacheForwardAuthority Regex) (E : Env → Prop) (Q P : Name → RecordType → Prop).
#[local] Notation interferes := (interferes (RequestInfo := RequestInfo) a E Q P).
#[local] Notation own_tasks := (own_tasks (RequestInfo := RequestInfo) a E Q P).

Lemma interferes_evolves c c' :
  interferes c c' → wf c → (0 < size_limit (config c))%nat → evolves c c'.
Proof.
  induction 1 as [c|env n t info w [r sp] w' _ IH _ Hm _ Hrun|env n t w w' _ IH _ Hm _ Hrun|c c' c'' _ IH1 _ IH2];
    intros Hwf Hpos.
  - by apply evolves_refl.
  - assert (ok w) as Hok by by split.
    destruct (lookup_ext a n t info w (guarded_rely env IH) Hok) as (r1 & sp1 & w1 & Hrun1 & Hext).
    rewrite Hrun in Hrun1. injection Hrun1 as <- <- <-. by eapply ext_evolves.
  - assert (ok w) as Hok by by split.
    destruct (prefetch_ext n t w (guarded_rely env IH) Hok) as (w1 & Hrun1 & Hext).
    rewrite Hrun in Hrun1. injection Hrun1 as <-. by eapply ext_evolves.
  - destruct (IH1 Hwf Hpos) as [Hwf1 Hcfg1 H1]. eapply evolves_trans; [by split|].
    apply IH2; [done|by rewrite Hcfg1].
Qed.

Lemma own_tasks_guarded env : own_tasks env → guarded env.
Proof. intros [_ Ho] k c. apply interferes_evolves, Ho. Qed.

Lemma own_tasks_rely env : own_tasks env → rely.
Proof. intros Ho. by apply guarded_rely, own_tasks_guarded. Qed.

(** ** Serving *)

#[local] Notation serve_step := (serve_step (RequestInfo := RequestInfo) a E Q P).
#[local] Notation serve_steps := (serve_steps (RequestInfo := RequestInfo) a E Q P).

(** What may go upstream on behalf of a step, given all the queries made so far. *)
Definition allowed (log : list (Name * RecordType)) (l : Label) (q : Name * RecordType) : Prop :=
  match l with
  | Answered n t _ => ∃ env : Env, E env ∧ wanted a n t log q
  | Prefetched n t => q = (set_fqdn false n, t)
  end.

Lemma allowed_later log more l q : allowed log l q → allowed (more ++ log) l q.
Proof. destruct l; simpl; [|done]. intros (env & He & Hw). exists env. split; [done|]. by apply wanted_later. Qed.

Definition asked (trace : list Label) : list (Name * RecordType) :=
  omap (λ l, match l with Answered n t _ => Some (n, t) | Prefetched _ _ => None end) trace.
Definition prefetched (trace : list Label) : list (Name * RecordType) :=
  omap (λ l, match l with Answered _ _ _ => None | Prefetched n t => Some (n, t) end) trace.

Lemma serve_step_keeps s l s' :
  serve_step s l s' → ok (world s) →
  ok (world s') ∧ evolves (w_cache (world s)) (w_cache (world s')) ∧
  (∃ new, w_calls (world s') = new ++ w_calls (world s) ∧ Forall (allowed (w_calls (world s')) l) new) ∧
  ∃ q, match l with Answered n t _ => (q = [] ∨ q = [(n, t)]) ∧ pending s' = q ++ pending s
       | Prefetched n t => q = [(n, t)] ∧ q ++ pending s' ≡ₚ pending s end.
Proof.
  intros Hs Hok. destruct Hs as [env n t info r sp w Ho _ Hrun|env n t before after w Ho Hp Hrun].
  - destruct (lookup_ext a n t info _ (own_tasks_rely env Ho) Hok) as (r1 & sp1 & w1 & Hrun1 & Hext).
    rewrite Hrun in Hrun1. injection Hrun1 as <- <- <-. split_and!.
    + apply Hext.
    + eapply ext_evolves; [by eapply own_tasks_guarded|done|exact Hext].
    + destruct (ext_calls _ _ _ _ Hext) as (new & Hnew & Hall). exists new. split; [done|].
      eapply list.Forall_impl; [exact Hall|]. intros q Hq. exists env. split; [apply Ho|exact Hq].
    + destruct sp; [exists [(n, t)]|exists []]; split; auto.
  - destruct (prefetch_ext n t _ (own_tasks_rely env Ho) Hok) as (w1 & Hrun1 & Hext).
    rewrite Hrun in Hrun1. injection Hrun1 as <-. split_and!.
    + apply Hext.
    + eapply ext_evolves; [by eapply own_tasks_guarded|done|exact Hext].
    + apply Hext.
    + exists [(n, t)]. split; [done|]. cbn [pending]. rewrite Hp. by rewrite <- Permutation_middle.
Qed.

(** Every request is answered, and every spawned task can run, however the others interfere. *)
Lemma serve_progress (s : Running) (env : Env) :
  ok (world s) → own_tasks env →
  (∀ n t (info : option RequestInfo), Q n t → ∃ r s', serve_step s (Answered n t r) s') ∧
  (∀ n t, (n, t) ∈ pending s → ∃ s', serve_step s (Prefetched n t) s').
Proof.
  intros Hok Ho. pose proof (own_tasks_rely env Ho) as Hrely. split.
  - intros n t info HQ. destruct (lookup_ext a n t info _ Hrely Hok) as (r & sp & w & Hrun & _).
    eexists r, _. by eapply serve_request.
  - intros n t (before & after & Hp)%list_elem_of_split.
    destruct (prefetch_ext n t _ Hrely Hok) as (w & Hrun & _). eexists. by eapply serve_prefetch.
Qed.

Lemma serve_steps_keep s trace s' :
  serve_steps s trace s' → ok (world s) →
  ok (world s') ∧ evolves (w_cache (world s)) (w_cache (world s')) ∧
  (∃ new, w_calls (world s') = new ++ w_calls (world s) ∧
     Forall (λ q, ∃ l, l ∈ trace ∧ allowed (w_calls (world s')) l q) new) ∧
  prefetched trace ++ pending s' ⊆+ pending s ++ asked trace.
Proof.
  induction 1 as [s|s trace s1 l s2 _ IH Hl]; intros Hok.
  { split_and!; [done|apply evolves_refl, Hok|by exists []|]. unfold prefetched, asked. simpl. by rewrite app_nil_r. }
  destruct (IH Hok) as (Hok1 & Hev1 & (new1 & Hc1 & Hf1) & Hsub).
  destruct (serve_step_keeps s1 l s2 Hl Hok1) as (Hok2 & Hev2 & (new2 & Hc2 & Hf2) & q & Hq).
  split_and!; [done|by eapply evolves_trans| |].
  - exists (new2 ++ new1). split; [by rewrite Hc2, Hc1, (assoc_L (++))|]. apply Forall_app. split.
    + eapply list.Forall_impl; [exact Hf2|]. intros x Hx. exists l. split; [set_solver|done].
    + eapply list.Forall_impl; [exact Hf1|]. intros x (l' & Hin & Hx). exists l'.
      split; [set_solver|]. rewrite Hc2. by apply allowed_later.
  - unfold prefetched, asked in *. rewrite !omap_app. destruct l as [n t r|n t]; simpl; rewrite ?app_nil_r.
    + destruct Hq as [[-> | ->] ->]; simpl.
      * etrans; [exact Hsub|]. rewrite (assoc_L (++)). apply submseteq_inserts_r. done.
      * rewrite <- Permutation_middle, (assoc_L (++)). rewrite <- Permutation_cons_append. by apply submseteq_skip.
    + destruct Hq as [-> Hp]. rewrite <- (assoc_L (++)), Hp. exact Hsub.
Qed.

End Interference.

(** ** An entry that nothing replaces

    Without prefetching and with room for all keys in use, an entry is only ever touched: the
    requests for its question find it, the others store elsewhere. *)

Section Frozen.
Context `{Hickory} {Regex RequestInfo : Type} (a : CacheForwardAuthority Regex).
Context (E : Env → Prop) (Q : Name → RecordType → Prop).
Context (K : gset CacheKey) (key : CacheKey) (bytes : list Z) (msg : Message).
Context (Hmsg : message_from_vec bytes = Some msg).
Context (HQ : ∀ n t, Q n t → t ≠ RT_ANY ∧ cache_key (to_utf8 n) t None ∈ K).

#[local] Notation no_prefetch := (λ (_ : Name) (_ : RecordType), False).
#[local] Notation interferes := (interferes (RequestInfo := RequestInfo) a E Q no_prefetch).
#[local] Notation own_tasks := (own_tasks (RequestInfo := RequestInfo) a E Q no_prefetch).
#[local] Notation serve_steps := (serve_steps (RequestInfo := RequestInfo) a E Q no_prefetch).

Record frozen (c : Cache) : Prop := {
  fz_wf : wf c;
  fz_keys : dom (entries c) ⊆ K;
  fz_room : (size K < size_limit (config c))%nat;
  fz_prefetch : prefetch (config c) = 0;
  fz_entry : ∃ e, entries c !! key = Some e ∧ response_bytes e = bytes
}.

Lemma frozen_pos c : frozen c → (0 < size_limit (config c))%nat.
Proof. intros [_ _ Hr _ _]. lia. Qed.

Lemma frozen_lookup now k c : frozen c → frozen (Cache.lookup now c k).2.
Proof.
  intros Hf. pose proof (wf_lookup now c k (fz_wf c Hf)) as Hwf. revert Hwf. unfold Cache.lookup.
  destruct (entries c !! k) as [e'|] eqn:Ek; [|done]. cbn [snd]. intros Hwf.
  destruct Hf as [_ Hk Hr Hp (e & He & Hb)]. split; [done| |done|done|]; cbn [entries].
  - rewrite dom_insert_L. apply elem_of_dom_2 in Ek. set_solver.
  - destruct (decide (k = key)) as [->|Hne]; [|rewrite lookup_insert_ne by done; by exists e].
    rewrite lookup_insert_eq. eexists. split; [done|]. rewrite He in Ek. by injection Ek as <-.
Qed.

(** There is always room, so an insertion only stores. *)
Lemma frozen_insert now k c b d c' :
  k ∈ K → k ≠ key → insert now c k b d = Some c' → frozen c → frozen c'.
Proof.
  intros Hin Hne Hi [Hwf Hk Hr Hp (e & He & Hb)].
  assert (size (entries c) < size_limit (config c))%nat as Hlt.
  { rewrite <- (size_dom (D := gset CacheKey)). pose proof (subseteq_size _ _ Hk). lia. }
  revert Hi. unfold insert. cbn [evict_while]. rewrite (proj2 (Nat.leb_gt _ _) Hlt).
  cbn [mbind option_bind]. intros [= <-].
  split; [by apply wf_store| |done|done|exists e]; unfold store; cbn [entries].
  - rewrite dom_insert_L. set_solver.
  - by rewrite lookup_insert_ne.
Qed.

Lemma activity_frozen (env : Env) (K' : CacheKey → Prop) x y :
  (∀ k c, frozen c → frozen (others k c)) → (∀ k, K' k → k ∈ K ∧ k ≠ key) →
  rtc (activity K') x y → frozen x.1 → frozen y.1.
Proof.
  intros Ho HK'. induction 1 as [x|x y z Ha _ IH]; intros Hx; [done|]. apply IH.
  destruct Ha as [now k c m r c' m' Hl|now k b ttl c m c' Hk Hi|c m name i|k c m]; simpl in *.
  - pose proof (frozen_lookup now k c Hx) as Hf. unfold lookup_with_metrics in Hl.
    destruct (Cache.lookup now c k) as [[r'|] c1]; simpl in *; simplify_eq; [done|].
    destruct Hf as [Hwf' ????]. split; [by apply (wf_record_miss c1 m)|done..].
  - apply HK' in Hk as [Hk Hne]. by eapply frozen_insert.
  - done.
  - by apply Ho.
Qed.

(** One request: the entry stays, nothing is prefetched, and the question of the entry is answered
    from it. *)
Lemma request_frozen (env : Env) n t (info : option RequestInfo) w r sp w' :
  rely → (∀ k c, frozen c → frozen (others k c)) → Q n t → ok w → frozen (w_cache w) →
  lookup a n t info w = Some ((r, sp), w') →
  frozen (w_cache w') ∧ sp = false ∧
  (cache_key (to_utf8 n) t None = key → r = Ok (answers msg) ∧ w_calls w' = w_calls w).
Proof.
  intros Hrely Ho Hq Hok Hf Hrun. destruct (HQ n t Hq) as [Hany HK].
  destruct (check_cache_run (cache_key (to_utf8 n) t None) w) as (sp1 & w1 & Hc & Hcalls & _ & Hsp).
  assert (sp1 = false) as -> by by apply Hsp, fz_prefetch, Ho. clear Hsp.
  destruct (lookup_run a n t info w Hany) as (cached & sp2 & w2 & Hc2 & Hl).
  rewrite Hc in Hc2. injection Hc2 as <- <- <-. rewrite Hrun in Hl.
  destruct (fz_entry _ (Ho (w_ticks w) _ Hf)) as (e & He & Hb).
  destruct (decide (cache_key (to_utf8 n) t None = key)) as [Hkey|Hkey].
  - rewrite Hkey, He in Hl, Hc. cbn in Hl. rewrite Hb, Hmsg in Hl. injection Hl as -> -> ->.
    split_and!; [|done|done].
    destruct (safe_check_cache (λ _, True) (λ _, False) Hrely key w Hok) as (x & w2 & Hc2 & Hext).
    rewrite Hc in Hc2. injection Hc2 as _ <-.
    by apply (activity_frozen env (λ _, False) (shared w) (shared w1) Ho); [|apply Hext|].
  - destruct (lookup_ext a n t info w Hrely Hok) as (r1 & sp3 & w3 & Hrun3 & Hext).
    rewrite Hrun in Hrun3. injection Hrun3 as <- <- <-. split_and!; [| |done].
    + apply (activity_frozen env (question_key n t) (shared w) (shared w') Ho); [|apply Hext|done].
      intros k. unfold question_key. rewrite bool_decide_false by done. by intros ->.
    + case_match; [by simplify_eq|]. case_match; [|done]. by case_match; simplify_eq.
Qed.

Lemma interferes_frozen c c' : interferes c c' → frozen c → frozen c'.
Proof.
  induction 1 as [c|env n t info w [r sp] w' Ho IH HE Hm Hq Hrun|env n t w w' _ _ _ _ Hfalse _|c c' c'' _ IH1 _ IH2];
    intros Hf; [done| |done|by auto].
  assert (ok w) as Hok by (split; [apply Hf|by apply frozen_pos|done]).
  by destruct (request_frozen env n t info w r sp w' (own_tasks_rely _ _ _ _ env (conj HE Ho)) IH Hq Hok Hf Hrun).
Qed.

Lemma serve_frozen s trace s' :
  serve_steps s trace s' → ok (world s) → frozen (w_cache (world s)) → pending s = [] →
  frozen (w_cache (world s')) ∧ pending s' = [] ∧
  ∀ n t r, Answered n t r ∈ trace → cache_key (to_utf8 n) t None = key → r = Ok (answers msg).
Proof.
  induction 1 as [s|s trace s1 l s2 Hsteps IH Hl]; intros Hok Hf Hp.
  { split_and!; [done|done|]. intros n t r Hin. by apply elem_of_nil in Hin. }
  destruct (IH Hok Hf Hp) as (Hf1 & Hp1 & Hall).
  destruct (serve_steps_keep _ _ _ _ _ _ _ Hsteps Hok) as (Hok1 & _).
  destruct Hl as [env n t info r sp w Ho Hq Hrun|env n t before after w _ Hp2 _].
  2: { rewrite Hp1 in Hp2. by destruct before. }
  destruct (request_frozen env n t info _ r sp w (own_tasks_rely _ _ _ _ env Ho)
              (λ k c, interferes_frozen c _ (proj2 Ho k c)) Hq Hok1 Hf1 Hrun) as (Hf2 & -> & Hr).
  split_and!; [done|done|]. intros n' t' r' [Hin|Hin%list_elem_of_singleton]%elem_of_app Hk; [by eapply Hall|].
  injection Hin as -> -> ->. by apply Hr.
Qed.

End Frozen.
End ServingProps.

(** ** A whole run *)

Module RunProps.
Import Metrics Cache CacheSpec CacheProps Dns Zone Keys ZoneManager ZoneManagerProps Persist PersistProps Net NetProps.
Import Forward ForwardSafe ForwardProps Serving ServingProps Run.

Section Run.
Context `{KeyLib} `{SnapshotFs} {Signed Regex IoError RequestInfo : Type}.
Context (add_key : Signer → ZoneMap LowerName Name → option Signed) (secure : Signed → option Signed).
Context (exists_ : string → bool) (read_to_string : string → option string).
Context (build : list Resolver.NameServer → Resolver.ResolverOpts → bool → bool).
Context (rd fu : string → result IoError string) (regex_new : string → option Regex).
Context (binds : list Listener → Transport → SocketAddr → bool) (registers : list Listener → Listener → bool).
Context (E : Env → Prop) (Q P : Name → RecordType → Prop).

#[local] Notation start := (Net.start add_key secure exists_ read_to_string build rd fu regex_new binds registers).
#[local] Notation run := (Run.run (RequestInfo := RequestInfo) add_key secure exists_ read_to_string build rd fu
  regex_new binds registers E Q P).
#[local] Notation serve_steps f := (Serving.serve_steps (RequestInfo := RequestInfo) f E Q P).
#[local] Notation serve_step f := (Serving.serve_step (RequestInfo := RequestInfo) f E Q P).

(** C1: A run of the server.  With room for at least one entry, start-up ends: with an error, and then
    the run fails and leaves the snapshot alone, or with a server whose root is a forwarder.  Then,
    whatever questions are asked, whatever upstream answers, and however the requests and prefetch
    tasks interleave at the lock of the cache: in every state that is reached the cache is consistent
    and came from the first one by operations of the cache; every query sent upstream is the question
    of a prefetch, or one that a question asked for: the name with its type (with minimization, as
    many of its peeled names as are configured), with DNS64 its A question, the A and AAAA questions
    of the target of an alias in an answer that upstream gave to it, or for ANY those of the name;
    there are at most as many prefetches as requests for the same
    question; every further request is answered and every spawned prefetch runs to its end.  The
    server can stop in every such state; the run succeeds exactly when it stops well, and otherwise
    the snapshot is what it was. *)
Theorem run_total_and_safe now files seed cfg rules m snapshots :
  0 < Config.cache_size (Config.cache cfg) → filled m →
  ∃ c r files', initial_cache now snapshots cfg = Some c ∧ start files seed cfg rules = Some (r, files') ∧
    match r with
    | Err e => run now files seed cfg rules m snapshots [] (Err (StartFailed e)) snapshots
    | Ok srv => ∃ w f,
        ZoneCatalog.find (lower root) (srv_catalog srv) = Some (Forwarder w f) ∧
        ∀ trace s, serve_steps f (ready c m) trace s →
          ok (world s) ∧ evolves c (w_cache (world s)) ∧
          Forall (λ q, ∃ l, l ∈ trace ∧ allowed f E (w_calls (world s)) l q) (w_calls (world s)) ∧
          prefetched trace ++ pending s ⊆+ asked trace ∧
          (∀ env, own_tasks (RequestInfo := RequestInfo) f E Q P env →
             (∀ n t (info : option RequestInfo), Q n t → ∃ r s', serve_step f s (Answered n t r) s') ∧
             (∀ n t, (n, t) ∈ pending s → ∃ s', serve_step f s (Prefetched n t) s')) ∧
          ∀ stopped, ∃ r snapshots', run now files seed cfg rules m snapshots trace r snapshots' ∧
            (r = Ok tt ↔ stopped = true) ∧ (stopped = false → snapshots' = snapshots)
    end.
Proof.
  intros Hpos Hm. destruct (initial_cache_wf cfg now snapshots Hpos) as (c & Hc & Hwf & Hsz).
  destruct (start_returns add_key secure exists_ read_to_string build rd fu regex_new binds registers
              files seed cfg rules) as (r & files' & Hs & Hsrv).
  exists c, r, files'. split_and!; [done|done|]. destruct r as [srv|e]; [|by eapply run_failed].
  destruct (Hsrv srv eq_refl) as (zones & mg & w & f & _ & _ & Hfind).
  assert (ZoneCatalog.find (lower root) (srv_catalog srv) = Some (Forwarder w f)) as Hroot.
  { rewrite Hfind. by rewrite decide_True. }
  exists w, f. split; [done|]. intros trace s Hsteps.
  destruct (serve_steps_keep f E Q P _ _ _ Hsteps) as (Hok & Hev & (new & Hcalls & Hall) & Hsub); [by split|].
  cbn [ready world w_cache w_calls pending] in *. rewrite app_nil_r in Hcalls. subst new.
  split_and!; [done..| |].
  - intros env Ho. by apply (serve_progress f E Q P s env).
  - intros stopped. destruct (shut_down stopped (map_to_list (entries (w_cache (world s)))) snapshots cfg)
      as [r snapshots'] eqn:Ed. exists r, snapshots'. split.
    + eapply run_served; [exact Hc|exact Hs|exact Hroot|exact Hsteps|reflexivity|exact Ed].
    + unfold shut_down in Ed. destruct stopped; simplify_eq; naive_solver.
Qed.

(** ** Which part of the server answers a name

    The search of the catalog is library code: it is assumed to take the handler of a name if there
    is one and to go on with the parent otherwise. *)

Notation Handler := (ZoneHandler (Signed := Signed) (Regex := Regex)).

Context (route : list (LowerName * Handler) → LowerName → option Handler).
Context (parent : LowerName → option LowerName) (depth : LowerName → nat).
Context (parent_other : ∀ k, k ≠ lower root → ∃ p, parent k = Some p ∧ (depth p < depth k)%nat).
Context (route_here : ∀ cat k h, ZoneCatalog.find k cat = Some h → route cat k = Some h).
Context (route_up : ∀ cat k p, ZoneCatalog.find k cat = None → parent k = Some p → route cat k = route cat p).

(** [p] is [k] or encloses it. *)
Definition encloses (p k : LowerName) : Prop := rtc (λ x y, parent x = Some y) k p.

(** [p] is the closest of the names satisfying [X] that enclose [k]. *)
Definition closest (X : LowerName → Prop) (k p : LowerName) : Prop :=
  encloses p k ∧ X p ∧ ∀ q, encloses q k → X q → encloses q p.

Lemma closest_ext (X Y : LowerName → Prop) k p : (∀ q, X q ↔ Y q) → closest X k p → closest Y k p.
Proof. intros HXY (Hp & HX & Hall). split_and!; [done|by apply HXY|]. intros q Hq HY. by apply Hall, HXY. Qed.

Lemma route_closest cat k :
  is_Some (ZoneCatalog.find (lower root) cat) →
  ∃ p h, closest (λ q, is_Some (ZoneCatalog.find q cat)) k p ∧ ZoneCatalog.find p cat = Some h ∧
    route cat k = Some h.
Proof.
  intros Hroot. induction k as [k IH] using (induction_ltof1 _ depth). unfold ltof in IH.
  destruct (ZoneCatalog.find k cat) as [h|] eqn:Ek.
  { exists k, h. split; [|split; [done|by apply route_here]]. split_and!; [apply rtc_refl|by eexists|by intros]. }
  destruct (decide (k = lower root)) as [->|Hne]; [by rewrite Ek in Hroot; destruct Hroot|].
  destruct (parent_other k Hne) as (p & Hp & Hd).
  destruct (IH p Hd) as (q & h & (Hq & HX & Hall) & Hf & Hr).
  exists q, h. split; [|split; [done|by rewrite (route_up cat k p Ek Hp)]]. split_and!; [|done|].
  - by apply rtc_l with p.
  - intros x [<-|(y & Hy & Hx)]%rtc_inv HXx; [by rewrite Ek in HXx; destruct HXx|].
    apply Hall; [|done]. rewrite Hp in Hy. by injection Hy as <-.
Qed.

(** The names that a part of the server is responsible for: the root and the configured primary zones. *)
Definition answering (cfg : Config.Config) (k : LowerName) : Prop :=
  k = lower root ∨ ∃ z, z ∈ Config.zones cfg ∧ primary z ∧ zone_key z = Some k.

Lemma load_all_loaded files seed cfg zones secs mg :
  load_all add_key secure (ZoneManager.new files seed cfg) = (Ok (zones, secs), mg) →
  loaded add_key secure cfg files (Config.zones cfg) mg ∧ zones = catalog mg.
Proof.
  unfold load_all. cbn [ZoneManager.cfg ZoneManager.new].
  destruct (load_zones add_key secure _ _ _) as [r m1] eqn:El. intros Hr.
  pose proof (load_zones_loaded add_key secure cfg files _ [] _ _ _ (loaded_new add_key secure cfg files seed) El) as Hl.
  destruct r as [[]|e]; [|done]. by injection Hr as <- _ <-.
Qed.

(** Which part of a started server answers a name.  Every name is answered: by the closest among the
    root and the configured primary zones that encloses it.  Under the root it is the configured
    forwarder, even when a zone file for the root is configured; under a primary zone it is the
    content of that zone, the last one configured with that name.  Secondary and catalog zones answer
    nothing: names in them go to what encloses them. *)
Lemma catalog_routes files seed cfg rules srv files' k :
  start files seed cfg rules = Some (Ok srv, files') →
  ∃ p h, closest (answering cfg) k p ∧ route (srv_catalog srv) k = Some h ∧
    ((p = lower root ∧ ∃ w f, h = Forwarder w f ∧ configured exists_ read_to_string build cfg w f) ∨
     (p ≠ lower root ∧ ∃ before z after a, Config.zones cfg = before ++ z :: after ∧
        primary z ∧ zone_key z = Some p ∧ Forall (λ z', ¬ (primary z' ∧ zone_key z' = Some p)) after ∧
        served add_key secure cfg z p a ∧ h = FileZone a)).
Proof.
  intros Hs. destruct (start_returns add_key secure exists_ read_to_string build rd fu regex_new binds registers
    files seed cfg rules) as (r & fs' & Hs' & Hsrv).
  rewrite Hs in Hs'. injection Hs' as <- <-.
  destruct (Hsrv srv eq_refl) as (zones & mg & w & f & Hload & Hf & Hfind).
  apply load_all_loaded in Hload as [[_ _ _ Hv Ha _] ->].
  destruct (route_closest (srv_catalog srv) k) as (p & h & Hc & Hp & Hr).
  { rewrite Hfind, decide_True by done. by eexists. }
  exists p, h. split; [|split; [done|]].
  - refine (closest_ext _ _ _ _ _ Hc). intros q. cbn beta. rewrite Hfind. unfold answering. case_decide as Hq; split.
    + by left.
    + by eexists.
    + rewrite fmap_is_Some. intros [a Hz]. right.
      destruct (Hv q a Hz) as (before & z & after & Heq & Hpz & Hk & _). exists z. rewrite Heq. set_solver.
    + rewrite fmap_is_Some. intros [->|(z & Hin & Hpz & Hk)]; [done|]. by eapply Ha.
  - rewrite Hfind in Hp. case_decide as Hroot.
    + left. injection Hp as <-. split; [done|]. by exists w, f.
    + right. split; [done|]. apply fmap_Some in Hp as (a & Hz & ->).
      destruct (Hv p a Hz) as (before & z & after & Heq & Hpz & Hk & Hsd & Hafter). by exists before, z, after, a.
Qed.

End Run.

(** C9: What a snapshot holds is served for ever.  When the server starts with a snapshot that the last
    run saved, and clients ask only for names and types of a set that leaves room in the cache, then
    however requests interleave and whatever the clock reads, no prefetch is ever started and every
    request for a question in the snapshot is answered with the records stored then; the TTLs of the
    records play no part. *)
Theorem restored_answers_never_refresh `{Hickory} `{SnapshotFs} {Regex RequestInfo}
    (a : CacheForwardAuthority Regex) (E : Env → Prop) (Q : Name → RecordType → Prop) cfg now fs path old iter fs0 m
    (K : gset CacheKey) key e msg :
  0 < Config.cache_size (Config.cache cfg) → Config.cache_persistent (Config.cache cfg) = Some path →
  iter ≡ₚ map_to_list (entries old) → save_persistent_cache iter fs0 cfg = Ok fs →
  (∀ age, snapshot_age fs path = Some age → age ≤ max_age cfg) → filled m →
  dom (entries old) ⊆ K → (size K < Nat.max (len old) 100)%nat →
  (∀ n t, Q n t → t ≠ RT_ANY ∧ cache_key (to_utf8 n) t None ∈ K) →
  entries old !! key = Some e → message_from_vec (response_bytes e) = Some msg →
  ∃ c, initial_cache now fs cfg = Some c ∧
    ∀ trace s, serve_steps (RequestInfo := RequestInfo) a E Q (λ _ _, False) (ready c m) trace s →
      pending s = [] ∧
      (∀ n t r, Answered n t r ∈ trace → cache_key (to_utf8 n) t None = key → r = Ok (answers msg)) ∧
      ∃ e', entries (w_cache (world s)) !! key = Some e' ∧ response_bytes e' = response_bytes e.
Proof.
  intros Hpos Hp Hiter Hsave Hage Hm HK Hroom HQ He Hmsg.
  destruct (initial_cache_saved cfg now fs path old iter fs0 Hp Hiter Hsave Hage) as (c & Hc & Hent & Hcfg).
  destruct (initial_cache_wf cfg now fs Hpos) as (c' & Hc' & Hwf & Hsz).
  rewrite Hc in Hc'. injection Hc' as <-. exists c. split; [done|]. intros trace s Hsteps.
  assert (frozen K key (response_bytes e) c) as Hf.
  { split; [done| |by rewrite Hcfg|by rewrite Hcfg|].
    - by rewrite Hent, dom_fmap_L.
    - exists (loaded_entry now e). by rewrite Hent, lookup_fmap, He. }
  destruct (serve_frozen a E Q K key (response_bytes e) msg Hmsg HQ (ready c m) trace s Hsteps)
    as (Hf' & Hpend & Hans); [by split|done|done|].
  split_and!; [done|done|apply Hf'].
Qed.

(** ** Witnesses *)

Section Witnesses.
Import DnsSample ZoneSample.

Definition sample_run (snapshots : gmap string string) (trace : list (@Label sample)) (r : result RunError unit)
    (snapshots' : gmap string string) : Prop :=
  @Run.run sample sample_zone sample_keys map_storage map_snapshots SZone unit unit unit add_key Some
    (λ _, false) (λ _, None) (λ _ _ _, true) (λ _, Err tt) (λ _, Err tt) (λ _, None) (λ _ _ _, true) (λ _ _, true)
    (λ _, True) (λ _ _, True) (λ _ _, True) 0 disk 0 two_zones [] Metrics.new snapshots trace r snapshots'.

Lemma started_ok : match started with Some (Ok _, _) => True | _ => False end.
Proof. vm_compute. exact I. Qed.

(** The server starts, serves nothing, and stops. *)
Lemma run_total_and_safe_witness :
  ∃ snapshots', sample_run ∅ [] (Ok tt) snapshots'.
Proof.
  destruct (@run_total_and_safe sample sample_zone sample_keys map_storage map_snapshots SZone unit unit unit add_key
    Some (λ _, false) (λ _, None) (λ _ _ _, true) (λ _, Err tt) (λ _, Err tt) (λ _, None) (λ _ _ _, true)
    (λ _ _, true) (λ _, True) (λ _ _, True) (λ _ _, True) 0 disk 0 two_zones [] Metrics.new ∅) as (c & r & files' & _ & Hs & Hr).
  - vm_compute. reflexivity.
  - apply new_filled.
  - pose proof started_ok as Hok. unfold started in Hok. rewrite Hs in Hok.
    destruct r as [srv|e]; [|destruct Hok]. destruct Hr as (w & f & _ & Hall).
    destruct (Hall [] _ (serve_nil _ _ _ _ _)) as (_ & _ & _ & _ & _ & Hend).
    destruct (Hend true) as (r & snapshots' & Hrun & Hok' & _). exists snapshots'.
    rewrite (proj2 Hok' eq_refl) in Hrun. exact Hrun.
Defined.

Definition s_parent (k : SName) : option SName :=
  match s_labels k with
  | [] => if s_fqdn k then None else Some {| s_labels := []; s_fqdn := true |}
  | _ :: l => Some {| s_labels := l; s_fqdn := s_fqdn k |}
  end.

Definition s_depth (k : SName) : nat := length (s_labels k) + (if s_fqdn k then 0 else 1).

Fixpoint s_route_from {A} (fuel : nat) (cat : list (SName * A)) (k : SName) : option A :=
  match ZoneCatalog.find k cat, fuel, s_parent k with
  | Some h, _, _ => Some h
  | None, S fuel, Some p => s_route_from fuel cat p
  | None, _, _ => None
  end.
Definition s_route {A} (cat : list (SName * A)) (k : SName) : option A := s_route_from (s_depth k) cat k.

Lemma s_parent_depth k p : s_parent k = Some p → s_depth k = S (s_depth p).
Proof. unfold s_parent, s_depth. destruct k as [[|x l] []]; intros [= <-]; simpl; lia. Qed.

Lemma s_route_up {A} (cat : list (SName * A)) k p :
  ZoneCatalog.find k cat = None → s_parent k = Some p → s_route cat k = s_route cat p.
Proof.
  intros Hk Hp. unfold s_route. rewrite (s_parent_depth k p Hp). simpl. by rewrite Hk, Hp.
Qed.

Lemma s_route_here {A} (cat : list (SName * A)) k h : ZoneCatalog.find k cat = Some h → s_route cat k = Some h.
Proof. intros Hk. unfold s_route. destruct (s_depth k); simpl; by rewrite Hk. Qed.

Lemma s_parent_other k : k ≠ @lower sample sample_zone (@root sample) → ∃ p, s_parent k = Some p ∧ (s_depth p < s_depth k)%nat.
Proof.
  intros Hk. destruct (s_parent k) as [p|] eqn:Hp.
  - exists p. split; [done|]. rewrite (s_parent_depth k p Hp). lia.
  - unfold s_parent in Hp. by destruct k as [[|x l] []].
Qed.

(** A name below the primary zone [e.] *)
Definition below_e : SName := {| s_labels := ["www"; "e"]%string; s_fqdn := true |}.

Lemma catalog_routes_witness :
  ∃ srv fs h, started = Some (Ok srv, fs) ∧ s_route (srv_catalog srv) below_e = Some h.
Proof.
  pose proof started_ok as Hok. destruct started as [[[srv|e] fs]|] eqn:Hs; [|destruct Hok|destruct Hok].
  destruct (@catalog_routes sample sample_zone sample_keys SZone unit unit add_key Some (λ _, false) (λ _, None)
    (λ _ _ _, true) (λ _, Err tt) (λ _, Err tt) (λ _, None) (λ _ _ _, true) (λ _ _, true)
    s_route s_parent s_depth s_parent_other s_route_here s_route_up disk 0 two_zones [] srv fs below_e Hs)
    as (p & h & _ & Hr & _).
  exists srv, fs, h. split; [reflexivity|exact Hr].
Defined.

Definition host_key : CacheKey := @cache_key sample (@to_utf8 sample host_name) RT_A None.

Definition only_host (n : @Name sample) (t : RecordType) : Prop := n = host_name ∧ t = RT_A.

(** The entry of the example expired long ago; after a restart it answers the question again. *)
Lemma restored_answers_never_refresh_witness :
  ∃ fs c r s, save_persistent_cache (map_to_list (entries (w_cache stale_world))) ∅ persistent_config = Ok fs ∧
    initial_cache 77 fs persistent_config = Some c ∧
    serve_steps (RequestInfo := unit) authority (λ _, True) only_host (λ _ _, False) (ready c Metrics.new)
      [Answered host_name RT_A r] s ∧
    r = Ok [from_rdata host_name 60 (RD_A (ipv4 192 0 2 9))].
Proof.
  destruct (save_persistent_cache (map_to_list (entries (w_cache stale_world))) ∅ persistent_config) as [fs|e] eqn:E;
    [|discriminate E].
  destruct (@restored_answers_never_refresh sample map_storage map_snapshots unit unit authority (λ _, True) only_host
    persistent_config 77 fs "/var/cache.json"%string (w_cache stale_world)
    (map_to_list (entries (w_cache stale_world))) ∅ Metrics.new {[host_key]} host_key
    (fresh_entry (-1000000000000) stored_bytes (from_secs 1)) stored_message) as (c & Hc & Hall).
  - reflexivity.
  - reflexivity.
  - reflexivity.
  - exact E.
  - intros age [= <-]. vm_compute. discriminate.
  - apply new_filled.
  - vm_compute. intros x Hx. exact Hx.
  - vm_compute. lia.
  - intros n t [-> ->]. split; [discriminate|]. by apply elem_of_singleton.
  - vm_compute. reflexivity.
  - vm_compute. reflexivity.
  - destruct (initial_cache_wf persistent_config 77 fs) as (c' & Hc' & Hwf & Hsz); [reflexivity|].
    rewrite Hc in Hc'. injection Hc' as <-.
    destruct (serve_progress (RequestInfo := unit) authority (λ _, True) only_host (λ _ _, False) (ready c Metrics.new) quiet_env)
      as [Hask _].
    + split; [exact Hwf|exact Hsz|apply new_filled].
    + split; [done|]. intros k d. apply interferes_none.
    + destruct (Hask host_name RT_A None) as (r & s & Hs); [by split|]. exists fs, c, r, s.
      assert (serve_steps (RequestInfo := unit) authority (λ _, True) only_host (λ _ _, False) (ready c Metrics.new)
                [Answered host_name RT_A r] s) as Hsteps
        by exact (serve_snoc _ _ _ _ _ [] _ _ _ (serve_nil _ _ _ _ _) Hs).
      split_and!; [reflexivity|exact Hc|exact Hsteps|].
      destruct (Hall _ _ Hsteps) as (_ & Hr & _). apply (Hr host_name RT_A r); [by left|reflexivity].
Defined.

End Witnesses.
End RunProps.
