(* ===== verification/AnswerProps.v ===== *)
(** * Where the answers of the server come from

    An invariant of the cache through every task, over a relation [G] between questions and the
    answers that upstream gives to them: what is stored under a question encodes such an answer.
    [keeps] is the partial logic in which it is carried through the phases of the forwarder. *)

From Stdlib Require Import Ascii String ZArith Lia.
From stdpp Require Import base list gmap strings numbers.
From S2P Require Import Prelude RustString RustNum RustNet Metrics Cache CacheSpec CacheProps Config Dns DnsSample.
From S2P Require Import Blocklist Filter Dns64 QnameMin QnameMinProps Forward ForwardSafe ForwardProps Net NetProps System SystemProps.

Local Open Scope Z_scope.

Module AnswerProps.
Import Metrics Cache CacheSpec CacheProps Dns Forward ForwardSafe ForwardProps Serving Persist PersistProps.

(** An insertion adds its own entry and may drop others. *)
Lemma evict_while_sub fuel c c' key e :
  evict_while fuel c = Some c' → entries c' !! key = Some e → entries c !! key = Some e.
Proof.
  revert c. induction fuel as [|fuel IH]; intros c; cbn [evict_while]; (destruct (_ <=? _)%nat; [|by intros [= <-]]); [done|].
  intros Hrun He. specialize (IH _ Hrun He). unfold evict_lru in IH.
  destruct (access_order c) as [|k l]; [done|]. cbn [entries] in IH. by apply lookup_delete_Some in IH as [_ ?].
Qed.

Lemma insert_sub now c key bytes d c' k e :
  insert now c key bytes d = Some c' → entries c' !! k = Some e →
  (k = key ∧ response_bytes e = bytes) ∨ entries c !! k = Some e.
Proof.
  unfold insert. intros (c1 & Hrun & [= <-])%bind_Some. cbn [store entries].
  destruct (decide (key = k)) as [<-|Hne].
  - rewrite lookup_insert_eq. intros [= <-]. by left.
  - rewrite lookup_insert_ne by done. intros He. right. by eapply evict_while_sub.
Qed.

Lemma lookup_bytes now c key k e :
  entries (Cache.lookup now c key).2 !! k = Some e →
  ∃ e', entries c !! k = Some e' ∧ response_bytes e = response_bytes e'.
Proof.
  unfold Cache.lookup. destruct (entries c !! key) as [e0|] eqn:E0; [|by exists e]. cbn [snd entries].
  destruct (decide (key = k)) as [<-|Hne].
  - rewrite lookup_insert_eq. intros [= <-]. by exists e0.
  - rewrite lookup_insert_ne by done. by exists e.
Qed.

Section Genuine.
Context `{Hickory} {Regex RequestInfo : Type} (a : CacheForwardAuthority Regex).
Context (G : Name → RecordType → list Rec → Prop).

(** The upstream servers give a question only answers that [G] relates to it. *)
Definition honest (env : Env) : Prop := ∀ calls n t ans, upstream calls n t = Ok ans → G n t ans.

(** What [forward_query] passes on: upstream's answer to the name, or, with minimization, to one of
    its ancestors. *)
Definition passed (n : Name) (t : RecordType) (ans : list Rec) : Prop :=
  ∃ m, (m = set_fqdn false n ∨
        Config.qmin_enable (qname_minimization a) = true ∧ labels m `suffix_of` labels (set_fqdn false n)) ∧
    G m t ans.

(** The records that DNS64 adds: none, or those of an A answer, each address embedded in the prefix. *)
Definition synthesized (n : Name) (t : RecordType) (syn : list Rec) : Prop :=
  syn = [] ∨
  ∃ prefix a_answers, dns64_prefix a = Some prefix ∧ t = RT_AAAA ∧ G (set_fqdn false (set_fqdn false n)) RT_A a_answers ∧
    syn = (λ x, from_rdata (set_fqdn false n) (min_a_ttl a_answers) (RD_AAAA x)) <$>
            omap (λ x, Dns64.synthesize_one x prefix) (a_addresses a_answers).

(** The records that may be stored for a question. *)
Definition stored (n : Name) (t : RecordType) (records : list Rec) : Prop :=
  ∃ ans syn, passed n t ans ∧ synthesized n t syn ∧
    (records = ans ∨ records = extend_dname (ans ++ syn) (set_fqdn false n)).

(** The addresses that flattening appends: upstream's for the target of a CNAME record. *)
Definition target_answer (target : Name) (t : RecordType) (l : list Rec) : Prop :=
  l = [] ∨ G (default root (from_ascii (to_utf8 target))) t l.

Definition flattened (records extended : list Rec) : Prop :=
  match synthetic_target records with
  | None => extended = records
  | Some target => ∃ l4 l6, target_answer target RT_A l4 ∧ target_answer target RT_AAAA l6 ∧
                     extended = records ++ l4 ++ l6
  end.

(** The answers to a question: upstream's, the extended records when DNS64 added some, or what was
    stored for a name of the same text, as it reads back. *)
Inductive genuine_answer (n : Name) (t : RecordType) : list Rec → Prop :=
  | as_received ans : passed n t ans → genuine_answer n t ans
  | as_synthesized ans syn extended :
      passed n t ans → synthesized n t syn → syn ≠ [] →
      flattened (extend_dname (ans ++ syn) (set_fqdn false n)) extended → genuine_answer n t extended
  | as_cached n' records :
      to_utf8 n' = to_utf8 n → stored n' t records → genuine_answer n t (wire <$> records).

Definition genuine_entry (key : CacheKey) (bytes : list Z) : Prop :=
  ∃ n t subnet id records, key = cache_key (to_utf8 n) t subnet ∧ stored n t records ∧
    message_to_vec (answer_message id records) = Some bytes.

Definition genuine (c : Cache) : Prop :=
  ∀ key e, entries c !! key = Some e → genuine_entry key (response_bytes e).

Lemma genuine_insert now c key bytes d c' :
  genuine c → genuine_entry key bytes → insert now c key bytes d = Some c' → genuine c'.
Proof. intros Hc Hk Hi k e He. destruct (insert_sub _ _ _ _ _ _ _ _ Hi He) as [[-> ->]|He']; [done|by apply Hc]. Qed.

Lemma genuine_lookup now c m key : genuine c → genuine (lookup_with_metrics now c m key).1.2.
Proof.
  intros Hc k e He. unfold lookup_with_metrics in He.
  assert (entries (Cache.lookup now c key).2 !! k = Some e) as He'.
  { by destruct (Cache.lookup now c key) as [[r|] c1]. }
  apply lookup_bytes in He' as (e' & He' & ->). by apply Hc in He'.
Qed.

Lemma passed_direct n t ans : G (set_fqdn false n) t ans → passed n t ans.
Proof. intros HG. exists (set_fqdn false n). auto. Qed.

Lemma stored_direct n t ans : G (set_fqdn false n) t ans → stored n t ans.
Proof. intros HG. exists ans, []. split_and!; [by apply passed_direct|by left|by left]. Qed.

(** Entries read back as the records that were stored, in their wire form. *)
Context (Hfaithful : ∀ n t records id, stored n t records → faithful (answer_message id records) = true).

Lemma entry_answer n t subnet bytes msg :
  genuine_entry (cache_key (to_utf8 n) t subnet) bytes → message_from_vec bytes = Some msg →
  genuine_answer n t (answers msg).
Proof.
  intros (n' & t' & sn & id & rs & Hkey & Hst & Hb) Hmsg.
  destruct (message_roundtrip _ _ Hb (Hfaithful n' t' rs id Hst)) as (msg' & Hmsg' & Ha & _).
  rewrite Hmsg in Hmsg'. injection Hmsg' as <-. rewrite Ha. cbn [answers answer_message].
  unfold cache_key in Hkey. injection Hkey as Hn Ht _. apply rtype_code_inj in Ht as <-. by apply as_cached with n'.
Qed.

Section Env.
Context (env : Env) (Hhonest : honest env) (Hothers : ∀ k c, genuine c → genuine (others k c)).

(** If [m] returns, the cache is still genuine and the result satisfies [R]. *)
Definition keeps {A} (m : M A) (R : A → Prop) : Prop :=
  ∀ w x w', genuine (w_cache w) → m w = Some (x, w') → genuine (w_cache w') ∧ R x.

Lemma kept_ret {A} (x : A) (R : A → Prop) : R x → keeps (mret x) R.
Proof. by intros HR w y w' Hw [= <- <-]. Qed.

Lemma kept_bind {A B} (m : M A) (f : A → M B) R R' :
  keeps m R → (∀ x, R x → keeps (f x) R') → keeps (m ≫= f) R'.
Proof.
  intros Hm Hf w y w' Hw (x & w1 & H1 & H2)%bind_run. destruct (Hm _ _ _ Hw H1) as [Hw1 Hx]. by eapply Hf.
Qed.

Lemma kept_weaken {A} (m : M A) (R R' : A → Prop) : keeps m R → (∀ x, R x → R' x) → keeps m R'.
Proof. intros Hm HR w x w' Hw Hrun. destruct (Hm _ _ _ Hw Hrun) as [? ?]. auto. Qed.

Lemma kept_frame {A} (m : M A) : keeps_cache m → keeps m (λ _, True).
Proof. intros Hk w x w' Hw Hrun. split; [|done]. by rewrite (Hk _ _ _ Hrun). Qed.

Lemma kept_resolver n t : keeps (resolver_lookup n t) (λ r, ∀ ans, r = Ok ans → G n t ans).
Proof. intros w x w' Hw [= <- <-]. split; [done|]. intros ans. apply Hhonest. Qed.

Lemma kept_lock : keeps lock_cache (λ _, True).
Proof. intros w x w' Hw [= <- <-]. split; [|done]. by apply Hothers. Qed.

Lemma kept_insert key bytes d : genuine_entry key bytes → keeps (cache_insert key bytes d) (λ _, True).
Proof.
  intros Hk w x w' Hw (t & w1 & [= <- <-] & H1)%bind_run. unfold act in H1. cbn [w_cache tick] in H1.
  destruct (insert _ _ key bytes d) as [c|] eqn:Hi; [|done]. injection H1 as _ <-. split; [|done].
  by eapply genuine_insert.
Qed.

Lemma kept_cache_lookup key :
  keeps (cache_lookup key) (λ r, ∀ bytes st h, r = Some (bytes, st, h) → genuine_entry key bytes).
Proof.
  intros w x w' Hw (t & w1 & [= <- <-] & H1)%bind_run. unfold act in H1. cbn [w_cache w_metrics tick] in H1.
  pose proof (genuine_lookup (clock (w_ticks w)) (w_cache w) (w_metrics w) key Hw) as Hg.
  destruct (lookup_with_metrics _ (w_cache w) (w_metrics w) key) as [[r c] m] eqn:El. injection H1 as <- <-.
  split; [exact Hg|]. intros bytes st h ->. unfold lookup_with_metrics, Cache.lookup in El.
  destruct (entries (w_cache w) !! key) as [e|] eqn:He; [|done]. injection El as <- _ _ _ _. by apply (Hw key e).
Qed.

Lemma kept_store n t subnet records :
  stored n t records → keeps (store_answer (cache_key (to_utf8 n) t subnet) records) (λ _, True).
Proof.
  intros Hs. unfold store_answer. apply kept_bind with (λ _, True).
  { apply kept_frame. by intros w x w' [= _ <-]. }
  intros id _. destruct (message_to_vec _) as [bytes|] eqn:Hb; [|by apply kept_ret].
  apply kept_bind with (λ _, True); [apply kept_lock|]. intros _ _. apply kept_insert. by exists n, t, subnet, id, records.
Qed.

Lemma kept_check_cache n t subnet :
  keeps (check_cache (cache_key (to_utf8 n) t subnet)) (λ p, ∀ records, p.1 = Some records → genuine_answer n t records).
Proof.
  unfold check_cache. apply kept_bind with (λ _, True); [apply kept_lock|]. intros _ _.
  eapply kept_bind; [apply kept_cache_lookup|]. intros [[[bytes st] h]|] Hr; [|by apply kept_ret].
  apply kept_bind with (λ _, True).
  { apply kept_frame. intros w x w' (t' & w1 & [= _ <-] & [= _ <-])%bind_run. done. }
  intros pf _. apply kept_ret. cbn [fst]. intros records (msg & Hm & ->)%fmap_Some.
  eapply entry_answer; [by eapply Hr|done].
Qed.

(** *** The upstream query *)

Definition found (n : Name) (t : RecordType) (records : list Rec) : Prop :=
  ∃ m, labels m `suffix_of` labels n ∧ G m t records.

(** The state of the loop holds no records yet or those of an ancestor. *)
Definition tracked (n : Name) (t : RecordType) (st : QnameMin.MinState) : Prop :=
  QnameMin.last_records st = [] ∨ found n t (QnameMin.last_records st).

Lemma kept_min_loop n t i ls st :
  Forall (λ m, labels m `suffix_of` labels n) ls → tracked n t st →
  keeps (QnameMin.min_loop (H0 := QnameMin.HickoryMinResolver) t i ls st) (tracked n t).
Proof.
  revert i st. induction ls as [|m ls IH]; intros i st Hls Hst; cbn [QnameMin.min_loop]; [by apply kept_ret|].
  apply Forall_cons_1 in Hls as [Hm Hls].
  apply kept_bind with (tracked n t); [|intros st' Hst'; by apply IH].
  unfold QnameMin.min_step. eapply kept_bind; [apply kept_resolver|].
  intros [[|r rs]|e] Hans; apply kept_ret; [done| |done].
  right. exists m. auto.
Qed.

Lemma kept_minimization n t config :
  keeps (QnameMin.resolve_with_minimization (H0 := QnameMin.HickoryMinResolver) n t config)
    (λ r, ∀ res, r = Ok res → found n t (QnameMin.records res)).
Proof.
  destruct (QnameMinProps.peel_labels_run n) as (ls & Hpeel & _ & Hls & _).
  assert (∀ f, keeps (act (λ w, Some (tt, with_metrics (f w) w))) (λ _, True)) as Hcount.
  { intros f. apply kept_frame. by intros w x w' [= _ <-]. }
  unfold QnameMin.resolve_with_minimization. destruct (_ =? 0); [by apply kept_ret|].
  apply kept_bind with (λ l, l = ls).
  { intros w x w' Hw. unfold QnameMin.or_diverge, act. rewrite Hpeel. by intros [= <- <-]. }
  intros l ->. cbv zeta. eapply kept_bind.
  { apply kept_min_loop; [by apply Forall_take|by left]. }
  intros st Hst. apply kept_bind with (λ _, True); [apply Hcount|]. intros _ _.
  destruct (QnameMin.last_records st) as [|x l] eqn:El.
  - eapply kept_bind; [apply kept_resolver|]. intros [rs|e] Hans; [|by apply kept_ret].
    apply kept_bind with (λ _, True); [apply Hcount|]. intros _ _. apply kept_ret.
    intros res [= <-]. exists n. split; [done|]. by apply Hans.
  - apply kept_ret. intros res [= <-]. unfold tracked in Hst. rewrite El in Hst. by destruct Hst.
Qed.

Lemma kept_forward_query n t :
  keeps (forward_query a (set_fqdn false n) t) (λ r, ∀ ans, r = Ok ans → passed n t ans).
Proof.
  unfold forward_query. destruct (Config.qmin_enable _) eqn:Hq.
  - eapply kept_bind; [apply kept_minimization|]. intros [res|e] Hres; apply kept_ret; [|done].
    intros ans [= <-]. destruct (Hres res eq_refl) as (m & Hm & HG). exists m. auto.
  - eapply kept_weaken; [apply kept_resolver|]. intros r Hr ans ->. by apply passed_direct, Hr.
Qed.

(** *** DNS64 and flattening *)

Lemma kept_dns64 n t ans : keeps (dns64_records a (set_fqdn false n) t ans) (synthesized n t).
Proof.
  assert (keeps (mret []) (synthesized n t)) as Hnone by (apply kept_ret; by left).
  unfold dns64_records. destruct (dns64_prefix a) as [prefix|] eqn:Hp; [|done].
  case_bool_decide as Ht; [|done]. destruct (_ || _); [|done].
  eapply kept_bind; [apply kept_resolver|]. intros [l|e] Hl; [|done].
  destruct (a_addresses l) as [|v4 addrs] eqn:Ha; [done|].
  intros w x w' Hw. unfold act, Dns64.synthesize_aaaa. intros [= <- <-]. split; [done|].
  right. exists prefix, l. rewrite Ha. auto.
Qed.

Lemma kept_target target t :
  keeps (resolver_lookup (default root (from_ascii (to_utf8 target))) t) (λ r, target_answer target t (ok_answers r)).
Proof. eapply kept_weaken; [apply kept_resolver|]. intros [l|e] Hl; [right; by apply Hl|by left]. Qed.

Lemma kept_flatten records : keeps (flatten records) (flattened records).
Proof.
  unfold flatten, flattened. destruct (synthetic_target records) as [target|]; [|by apply kept_ret].
  eapply kept_bind; [apply kept_target|]. intros r4 H4. eapply kept_bind; [apply kept_target|]. intros r6 H6.
  apply kept_ret. by exists (ok_answers r4), (ok_answers r6).
Qed.

Lemma kept_resolve_miss n t subnet :
  keeps (resolve_miss a (cache_key (to_utf8 n) t subnet) n t) (λ r, ∀ records, r = Ok records → genuine_answer n t records).
Proof.
  unfold resolve_miss. eapply kept_bind; [apply kept_forward_query|].
  intros [ans|e] Hans; [|by apply kept_ret]. specialize (Hans ans eq_refl).
  eapply kept_bind; [apply kept_dns64|]. intros syn Hsyn. cbv zeta.
  eapply kept_bind; [apply kept_frame, ForwardProps.keeps_check_cname|]. intros [] _; [by apply kept_ret|].
  eapply kept_bind; [apply kept_frame, ForwardProps.keeps_check_rebinding|]. intros _ _.
  eapply kept_bind; [apply kept_store; exists ans, syn; auto|]. intros _ _.
  eapply kept_bind; [apply kept_flatten|]. intros ext Hext.
  destruct syn as [|r syn]; apply kept_ret; intros records [= <-]; [by apply as_received|].
  by apply as_synthesized with ans (r :: syn).
Qed.

Lemma kept_any_round n t : keeps (any_round n t) (λ r, ∀ records, r = Some records → genuine_answer n t records).
Proof.
  unfold any_round. apply kept_bind with (λ _, True); [apply kept_lock|]. intros _ _.
  eapply kept_bind; [apply kept_cache_lookup|]. intros hit Hhit. cbv beta in Hhit.
  destruct hit as [[[bytes st] h]|]; [destruct (message_from_vec bytes) as [msg|] eqn:Hm; [destruct (answers msg) as [|r l] eqn:Ha|]|].
  2: { apply kept_ret. intros records [= <-]. rewrite <- Ha. eapply entry_answer; [by eapply Hhit|done]. }
  all: eapply kept_bind; [apply kept_resolver|]; intros [[|r l]|e] Hup; try by apply kept_ret.
  all: eapply kept_bind; [apply kept_store, stored_direct; auto|]; intros _ _; apply kept_ret;
    intros records [= <-]; apply as_received, passed_direct; auto.
Qed.

(** The types an answer to a question of type [t] can have been asked for. *)
Definition types_for (t : RecordType) : list RecordType := if bool_decide (t = RT_ANY) then [RT_A; RT_AAAA] else [t].

Lemma kept_lookup n t (info : option RequestInfo) :
  keeps (lookup a n t info) (λ p, ∀ records, p.1 = Ok records → ∃ t', t' ∈ types_for t ∧ genuine_answer n t' records).
Proof.
  unfold lookup, types_for. case_bool_decide as Hany.
  - eapply kept_bind with (λ r, ∀ records, r = Ok records → ∃ t', t' ∈ [RT_A; RT_AAAA] ∧ genuine_answer n t' records).
    + unfold lookup_any. eapply kept_bind; [apply kept_any_round|]. intros [l|] Hl.
      { apply kept_ret. intros records [= <-]. exists RT_A. split; [set_solver|]. by apply Hl. }
      eapply kept_bind; [apply kept_any_round|]. intros [l|] Hl6; [|by apply kept_ret].
      apply kept_ret. intros records [= <-]. exists RT_AAAA. split; [set_solver|]. by apply Hl6.
    + intros r Hr. apply kept_ret. exact Hr.
  - eapply kept_bind; [apply kept_check_cache|]. intros [[records|] sp] Hc.
    { apply kept_ret. intros ? [= <-]. exists t. split; [set_solver|]. by apply Hc. }
    eapply kept_bind; [apply kept_resolve_miss|]. intros r Hr. apply kept_ret.
    intros records Heq. exists t. split; [set_solver|]. by apply Hr.
Qed.

Lemma kept_prefetch n t : keeps (prefetch_task n t) (λ _, True).
Proof.
  unfold prefetch_task. eapply kept_bind; [apply kept_resolver|]. intros [ans|e] Hans; [|by apply kept_ret].
  apply kept_store, stored_direct. auto.
Qed.

End Env.

(** ** Through all tasks *)

Context (Q P : Name → RecordType → Prop).

#[local] Notation interferes := (interferes (RequestInfo := RequestInfo) a honest Q P).
#[local] Notation serve_steps := (serve_steps (RequestInfo := RequestInfo) a honest Q P).

Lemma interferes_genuine c c' : interferes c c' → genuine c → genuine c'.
Proof.
  induction 1 as [c|env n t info w r w' _ IH HE _ _ Hrun|env n t w w' _ IH HE _ _ Hrun|c c' c'' _ IH1 _ IH2];
    intros Hc; [done| | |by auto].
  - exact (proj1 (kept_lookup env HE IH n t info w r w' Hc Hrun)).
  - exact (proj1 (kept_prefetch env HE IH n t w tt w' Hc Hrun)).
Qed.

Lemma serve_genuine s trace s' :
  serve_steps s trace s' → genuine (w_cache (world s)) →
  genuine (w_cache (world s')) ∧
  ∀ n t records, Answered n t (Ok records) ∈ trace → ∃ t', t' ∈ types_for t ∧ genuine_answer n t' records.
Proof.
  induction 1 as [s|s trace s1 l s2 _ IH Hl]; intros Hc.
  { split; [done|]. intros n t records Hin. by apply elem_of_nil in Hin. }
  destruct (IH Hc) as [Hc1 Hall].
  destruct Hl as [env n t info r sp w [HE Ho] _ Hrun|env n t before after w [HE Ho] _ Hrun].
  - destruct (kept_lookup env HE (λ k c, interferes_genuine c _ (Ho k c)) n t info _ _ _ Hc1 Hrun)
      as [Hc2 Hr]. split; [done|].
    intros n' t' records [Hin|Hin%list_elem_of_singleton]%elem_of_app; [by apply Hall|]. injection Hin as -> -> <-. by apply Hr.
  - destruct (kept_prefetch env HE (λ k c, interferes_genuine c _ (Ho k c)) n t _ _ _ Hc1 Hrun) as [Hc2 _].
    split; [done|]. intros n' t' records [Hin|Hin%list_elem_of_singleton]%elem_of_app; [by apply Hall|done].
Qed.

End Genuine.

(** C4: Answers come from upstream, for the question they answer.  Whatever the configuration, when
    the upstream servers give a question only answers that a relation [G] allows, then in every
    interleaving of requests and prefetches every positive answer to a question (for ANY, to its A
    or AAAA question) is one of these: an answer of upstream to that very name, or with QNAME
    minimization to an ancestor of it; with DNS64, that answer with the addresses of an answer to the
    A question of the name, each embedded in the prefix, the DNAME substitutions of the name and
    upstream's addresses of the CNAME target; or what was stored of these for a name with the same
    text, in its wire form.  The cache holds only such records, and still does after it was saved
    and loaded by another run. *)
Theorem answers_are_genuine `{Hickory} `{SnapshotFs} {Regex RequestInfo} (a : CacheForwardAuthority Regex)
    (G : Name → RecordType → list Rec → Prop) Q P c m trace s :
  (∀ n t records id, stored a G n t records → faithful (answer_message id records) = true) →
  genuine a G c → serve_steps (RequestInfo := RequestInfo) a (honest G) Q P (Run.ready c m) trace s →
  (∀ n t records, Answered n t (Ok records) ∈ trace →
     ∃ t', t' ∈ types_for t ∧ genuine_answer a G n t' records) ∧
  genuine a G (w_cache (world s)) ∧
  (∀ cfg now fs path iter fs0 c',
     Config.cache_persistent (Config.cache cfg) = Some path → iter ≡ₚ map_to_list (entries (w_cache (world s))) →
     save_persistent_cache iter fs0 cfg = Ok fs → (∀ age, snapshot_age fs path = Some age → age ≤ max_age cfg) →
     initial_cache now fs cfg = Some c' → genuine a G c').
Proof.
  intros Hf Hc Hsteps. destruct (serve_genuine a G Hf Q P _ _ _ Hsteps Hc) as [Hc' Hall]. split_and!; [done|done|].
  intros cfg now fs path iter fs0 c' Hp Hi Hs Hage Hinit key e He.
  destruct (initial_cache_saved cfg now fs path _ iter fs0 Hp Hi Hs Hage) as (c2 & Hc2 & Hent & _).
  rewrite Hinit in Hc2. injection Hc2 as <-. rewrite Hent, lookup_fmap in He.
  apply fmap_Some in He as (e0 & He0 & ->). by apply (Hc' key e0).
Qed.

(** ** Witness *)

Section Witnesses.
Import DnsSample ServingProps.

(** A forwarder with QNAME minimization of one step and the well-known DNS64 prefix. *)
Definition busy_authority : @CacheForwardAuthority sample unit :=
  Forward.new (root : @Name sample) true
    {| Config.qmin_enable := true; Config.qmin_mode := Config.Strict; Config.qmin_max_iterations := 1 |}
    plain_filter (Some Dns64.well_known).

Definition v4_answers (n : @Name sample) (t : RecordType) (l : list (RecordOf SName)) : Prop := v4_only n t = Ok l.

Definition anything (n : @Name sample) (t : RecordType) : Prop := True.

(** The address 192.0.2.1 embedded in the prefix. *)
Definition embedded : RecordOf SName :=
  from_rdata (@set_fqdn sample false host_name) 60
    (RD_AAAA (V6Octets [0; 100; 255; 155; 0; 0; 0; 0; 0; 0; 0; 0; 192; 0; 2; 1])).

(** An AAAA question for a name with an A record only is answered with the embedded address. *)
Lemma answers_are_genuine_witness :
  ∃ s, serve_steps (RequestInfo := unit) busy_authority (honest v4_answers) anything anything
         (Run.ready (Cache.new small) Metrics.new) [Answered host_name RT_AAAA (Ok [embedded])] s ∧
    genuine_answer busy_authority v4_answers host_name RT_AAAA [embedded].
Proof.
  destruct (@lookup sample quiet_env unit unit busy_authority host_name RT_AAAA None
              (world (Run.ready (Cache.new small) Metrics.new))) as [[[r sp] w]|] eqn:E; [|discriminate E].
  assert (r = Ok [embedded]) as ->.
  { assert (fst <$> (fst <$> @lookup sample quiet_env unit unit busy_authority host_name RT_AAAA None
                (world (Run.ready (Cache.new small) Metrics.new))) = Some (Ok [embedded])) as Hv by reflexivity.
    rewrite E in Hv. by injection Hv. }
  assert (serve_steps (RequestInfo := unit) busy_authority (honest v4_answers) anything anything
            (Run.ready (Cache.new small) Metrics.new) [Answered host_name RT_AAAA (Ok [embedded])]
            {| world := w; pending := if sp then [(host_name, RT_AAAA)] else [] |}) as Hsteps.
  { eapply (serve_snoc _ _ _ _ _ []); [apply serve_nil|]. eapply serve_request; [|done|exact E].
    split; [by intros calls n t ans|]. intros k d. apply interferes_none. }
  set (s := {| world := w; pending := if sp then [(host_name, RT_AAAA)] else [] |}) in Hsteps.
  exists s. split; [exact Hsteps|].
  destruct (@answers_are_genuine sample map_storage map_snapshots unit unit busy_authority v4_answers anything anything
    (Cache.new small) Metrics.new [Answered host_name RT_AAAA (Ok [embedded])] s) as [Hall _].
  - reflexivity.
  - intros key e He. cbn [entries Cache.new] in He. by apply lookup_empty_Some in He.
  - exact Hsteps.
  - destruct (Hall host_name RT_AAAA [embedded]) as (t' & Ht & Hans); [by left|].
    apply list_elem_of_singleton in Ht as ->. exact Hans.
Defined.

End Witnesses.

End AnswerProps.
