(* ===== verification/ServerProps.v ===== *)
(** * What a started server answers

    The parts together: the catalog of [Net.start], the zones of [ZoneManager], the forwarder with its
    cache, and the NOTIFY handler, in the runs of [System.Whole]. *)

From Stdlib Require Import Ascii String ZArith Lia.
From stdpp Require Import base list gmap strings numbers.
From S2P Require Import Prelude RustString RustNum RustNet Metrics Cache CacheSpec CacheProps Config Dns DnsSample.
From S2P Require Import Zone Keys ZoneSample Secondary Catalog ZoneManager ZoneManagerProps.
From S2P Require Import Blocklist Filter Dns64 Resolver Forward ForwardSafe ForwardProps Net NetProps.
From S2P Require Import System SystemProps AnswerProps.

Local Open Scope Z_scope.

Module ServerProps.
Import Metrics Cache CacheSpec Dns Zone Keys ZoneManager ZoneManagerProps Net NetProps.
Import Forward ForwardSafe Serving ServingProps RunProps AnswerProps Whole.

Section Whole.
Context `{KeyLib} {Signed Regex RequestInfo ZoneReply TransferError Transferred : Type}.

#[local] Notation ZoneHandler := (ZoneHandler (Signed := Signed) (Regex := Regex)).
Context (route : list (LowerName * ZoneHandler) → LowerName → option ZoneHandler).
Context (zone_reply : Authority (Signed := Signed) → Name → RecordType → ZoneReply).
Context (srv : Server (Signed := Signed) (Regex := Regex)) (f : CacheForwardAuthority Regex).
Context (E : Env → Prop) (Q P : Name → RecordType → Prop).

#[local] Notation step := (step (RequestInfo := RequestInfo) (TransferError := TransferError)
  (Transferred := Transferred) route zone_reply srv f E Q P).
#[local] Notation steps := (steps (RequestInfo := RequestInfo) (TransferError := TransferError)
  (Transferred := Transferred) route zone_reply srv f E Q P).
#[local] Notation forwarded := (to_forwarder route srv f Q).
#[local] Notation serve_steps := (serve_steps (RequestInfo := RequestInfo) f E forwarded P).

(** A run of the server is, for the forwarder, a run of its own. *)
Lemma steps_forwarder s trace s' :
  steps s trace s' → serve_steps (running s) (forwarder_labels trace) (running s').
Proof.
  induction 1 as [s|s trace s1 e s2 _ IH He]; [apply serve_nil|].
  unfold forwarder_labels. rewrite omap_app. destruct He; simpl; rewrite ?app_nil_r; try exact IH.
  by eapply serve_snoc.
Qed.

Lemma forwarder_label l trace : l ∈ forwarder_labels (ZoneReply := ZoneReply) trace ↔ Forwarded l ∈ trace.
Proof.
  unfold forwarder_labels. rewrite list_elem_of_omap. split.
  - by intros ([l'| | |] & Hin & [= <-]).
  - intros Hin. by exists (Forwarded l).
Qed.

(** Only questions of the catalog's choice reach the forwarder. *)
Lemma answered_forwarded s trace s' n t r :
  serve_steps s trace s' → Answered n t r ∈ trace → forwarded n t.
Proof.
  induction 1 as [s|s trace s1 l s2 _ IH Hl]; [by intros ?%elem_of_nil|].
  intros [Hin|Hin%list_elem_of_singleton]%elem_of_app; [by apply IH|]. by destruct Hl; simplify_eq.
Qed.

Lemma from_zone s trace s' n t r :
  steps s trace s' → FromZone n t r ∈ trace →
  ∃ a, route (srv_catalog srv) (lower n) = Some (FileZone a) ∧ r = zone_reply a n t.
Proof.
  induction 1 as [s|s trace s1 e s2 _ IH He]; [by intros ?%elem_of_nil|].
  intros [Hin|Hin%list_elem_of_singleton]%elem_of_app; [by apply IH|].
  destruct He; simplify_eq. by eexists.
Qed.

Lemma refresh_task_prefix {Z Er} (axfr : string → string → Secondary.Transfer Er Z) name l :
  Handler.refresh_task axfr name l `prefix_of` l.
Proof.
  induction l as [|p l IH]; simpl; [done|]. destruct (axfr name p) as [[]|]; [| by apply prefix_cons|]; by apply prefix_cons, prefix_nil.
Qed.

Lemma refresh_known other sends request i :
  Handler.req_op request = Op_Notify →
  Handler.refresh (Handler.handle_request other (srv_secondaries srv) sends request) = Some i →
  i ∈ srv_secondaries srv.
Proof.
  intros Hop. unfold Handler.handle_request. rewrite bool_decide_true by done. unfold Handler.handle_notify.
  destruct (Handler.req_query request); [|done]. cbn [Handler.refresh]. unfold Handler.matching.
  intros Hh%head_Some_elem_of. by apply list_elem_of_filter in Hh as [_ ?].
Qed.

(** Only zones registered as secondary ones are refreshed, from their own primaries. *)
Lemma refreshed_known s trace s' :
  steps s trace s' → Forall (λ i, i ∈ srv_secondaries srv) (refreshes s) →
  Forall (λ i, i ∈ srv_secondaries srv) (refreshes s') ∧
  ∀ name asked, Refreshed name asked ∈ trace →
    ∃ i, i ∈ srv_secondaries srv ∧ Handler.sec_name i = name ∧ asked `prefix_of` Handler.sec_primaries i.
Proof.
  induction 1 as [s|s trace s1 e s2 _ IH He]; intros Hs.
  { split; [done|]. intros name asked Hin. by apply elem_of_nil in Hin. }
  destruct (IH Hs) as [Hknown Hall]. clear IH.
  assert (Forall (λ i, i ∈ srv_secondaries srv) (refreshes s2) ∧
    ∀ name asked, Refreshed name asked = e →
      ∃ i, i ∈ srv_secondaries srv ∧ Handler.sec_name i = name ∧ asked `prefix_of` Handler.sec_primaries i) as [Hknown2 He'].
  { destruct He as [l r _|n t a _ _|other sends request handled Hop <-|axfr before i after Hr];
      cbn [refreshes]; try done.
    - split; [|done]. apply Forall_app. split; [done|].
      destruct (Handler.refresh _) as [i|] eqn:Ei; [|done]. apply Forall_singleton. by eapply refresh_known.
    - rewrite Hr in Hknown. apply Forall_app in Hknown as [Hb [Hi Ha]%Forall_cons_1].
      split; [by apply Forall_app|]. intros name asked [= -> ->]. exists i. split_and!; [done|done|].
      apply refresh_task_prefix. }
  split; [done|]. intros name asked [Hin|Hin%list_elem_of_singleton]%elem_of_app; [by apply Hall|by apply He'].
Qed.

End Whole.

(** ** From the configuration to the answers *)

Section Started.
Context `{KeyLib} {Signed Regex IoError RequestInfo ZoneReply TransferError Transferred : Type}.
Context (add_key : Signer → ZoneMap LowerName Name → option Signed) (secure : Signed → option Signed).
Context (exists_ : string → bool) (read_to_string : string → option string).
Context (build : list Resolver.NameServer → Resolver.ResolverOpts → bool → bool).
Context (rd fu : string → result IoError string) (regex_new : string → option Regex).
Context (binds : list Listener → Transport → SocketAddr → bool) (registers : list Listener → Listener → bool).

#[local] Notation ZoneHandler := (ZoneHandler (Signed := Signed) (Regex := Regex)).
#[local] Notation start := (Net.start add_key secure exists_ read_to_string build rd fu regex_new binds registers).

(** The search of the catalog, and what a loaded zone replies. *)
Context (route : list (LowerName * ZoneHandler) → LowerName → option ZoneHandler).
Context (zone_reply : Authority (Signed := Signed) → Name → RecordType → ZoneReply).
Context (parent : LowerName → option LowerName) (depth : LowerName → nat).
Context (parent_other : ∀ k, k ≠ lower root → ∃ p, parent k = Some p ∧ (depth p < depth k)%nat).
Context (route_here : ∀ cat k h, ZoneCatalog.find k cat = Some h → route cat k = Some h).
Context (route_up : ∀ cat k p, ZoneCatalog.find k cat = None → parent k = Some p → route cat k = route cat p).

#[local] Notation steps := (steps (RequestInfo := RequestInfo) (TransferError := TransferError)
  (Transferred := Transferred) route zone_reply).
#[local] Notation step := (step (RequestInfo := RequestInfo) (TransferError := TransferError)
  (Transferred := Transferred) route zone_reply).
#[local] Notation closest := (closest parent).

(** The part of the server responsible for a name: the zone that [z] configures. *)
Definition zone_of_name (cfg : Config.Config) (n : Name) (a : Authority (Signed := Signed)) : Prop :=
  ∃ k before z after, closest (answering cfg) (lower n) k ∧ k ≠ lower root ∧
    Config.zones cfg = before ++ z :: after ∧ primary z ∧ zone_key z = Some k ∧
    Forall (λ z', ¬ (primary z' ∧ zone_key z' = Some k)) after ∧ served add_key secure cfg z k a.

Lemma route_zone files seed cfg rules srv files' n a :
  start files seed cfg rules = Some (Ok srv, files') →
  route (srv_catalog srv) (lower n) = Some (FileZone a) → zone_of_name cfg n a.
Proof.
  intros Hs Hr. destruct (catalog_routes add_key secure exists_ read_to_string build rd fu regex_new binds registers
    route parent depth parent_other route_here route_up files seed cfg rules srv files' (lower n) Hs)
    as (k & h & Hc & Hr' & Hh). rewrite Hr in Hr'. injection Hr' as <-.
  destruct Hh as [(_ & w & f & [=] & _)|(Hk & before & z & after & a' & Heq & Hp & Hz & Ha & Hsd & [= <-])].
  by exists k, before, z, after.
Qed.

Lemma route_forwarder files seed cfg rules srv files' n w f :
  start files seed cfg rules = Some (Ok srv, files') →
  route (srv_catalog srv) (lower n) = Some (Forwarder w f) → closest (answering cfg) (lower n) (lower root).
Proof.
  intros Hs Hr. destruct (catalog_routes add_key secure exists_ read_to_string build rd fu regex_new binds registers
    route parent depth parent_other route_here route_up files seed cfg rules srv files' (lower n) Hs)
    as (k & h & Hc & Hr' & Hh). rewrite Hr in Hr'. injection Hr' as <-.
  destruct Hh as [(-> & _)|(_ & before & z & after & a' & _ & _ & _ & _ & _ & [=])]. done.
Qed.

(** The catalog of a started server has one forwarder, which is what it gives for every name outside the zones. *)
Lemma route_total files seed cfg rules srv files' w f n :
  start files seed cfg rules = Some (Ok srv, files') →
  ZoneCatalog.find (lower root) (srv_catalog srv) = Some (Forwarder w f) →
  (∃ a, route (srv_catalog srv) (lower n) = Some (FileZone a)) ∨
  route (srv_catalog srv) (lower n) = Some (Forwarder w f).
Proof.
  intros Hs Hroot. destruct (start_returns add_key secure exists_ read_to_string build rd fu regex_new binds registers
    files seed cfg rules) as (r & fs' & Hs' & Hsrv). rewrite Hs in Hs'. injection Hs' as <- <-.
  destruct (Hsrv srv eq_refl) as (zones & mg & w' & f' & _ & _ & Hfind).
  destruct (route_closest route parent depth parent_other route_here route_up (srv_catalog srv) (lower n))
    as (k & h & _ & Hk & ->); [by eexists|]. rewrite Hfind in Hk, Hroot.
  rewrite decide_True in Hroot by done. injection Hroot as -> ->.
  case_decide; [by right; f_equal; injection Hk|]. apply fmap_Some in Hk as (a & _ & ->). left. by eexists.
Qed.

Lemma secondaries_configured files seed cfg rules srv files' i :
  start files seed cfg rules = Some (Ok srv, files') → i ∈ srv_secondaries srv →
  ∃ z, z ∈ Config.zones cfg ∧ info z = Some i.
Proof.
  intros Hs Hi. destruct (start_returns add_key secure exists_ read_to_string build rd fu regex_new binds registers
    files seed cfg rules) as (r & fs' & Hs' & Hsrv). rewrite Hs in Hs'. injection Hs' as <- <-.
  destruct (Hsrv srv eq_refl) as (zones & mg & w & f & Hload & _ & _).
  unfold load_all in Hload. cbn [ZoneManager.cfg ZoneManager.new] in Hload.
  destruct (load_zones _ _ _ _ _) as [r m1] eqn:El.
  pose proof (load_zones_loaded add_key secure cfg files _ [] _ _ _ (loaded_new add_key secure cfg files seed) El) as Hl.
  destruct r as [[]|e]; [|done]. injection Hload as _ Hsec _. rewrite <- Hsec in Hi.
  rewrite (ld_secondaries _ _ _ _ _ _ Hl) in Hi. by apply list_elem_of_omap in Hi.
Qed.

(** C2: What a started server answers, from its configuration.  However requests, prefetches, NOTIFY
    messages and refreshes interleave, every question gets an answer, from one of two places.  A
    question in a configured primary zone is answered from the closest one that encloses its name, the
    last one configured with that name, and always from the content that was loaded at start-up: no
    request, NOTIFY or refresh changes it.  Any other question, in a secondary zone too, is answered by the
    configured forwarder, with what upstream answered to it or what was made of that (when upstream gives
    only answers that a relation [G] allows).  A NOTIFY leads to nothing but transfers of secondary zones
    from their own primaries, in order. *)
Theorem server_answers files seed cfg rules srv files' :
  start files seed cfg rules = Some (Ok srv, files') →
  ∃ w f, ZoneCatalog.find (lower root) (srv_catalog srv) = Some (Forwarder w f) ∧
    configured exists_ read_to_string build cfg w f ∧
    ∀ (G : Name → RecordType → list Rec → Prop) Q P c m trace s,
      (∀ n t records id, stored f G n t records → faithful (answer_message id records) = true) →
      genuine f G c → wf c → (0 < size_limit (config c))%nat → filled m →
      steps srv f (honest G) Q P {| running := Run.ready c m; refreshes := [] |} trace s →
      (∀ n t r, FromZone n t r ∈ trace → ∃ a, zone_of_name cfg n a ∧ r = zone_reply a n t) ∧
      (∀ n t records, Forwarded (Answered n t (Ok records)) ∈ trace →
         closest (answering cfg) (lower n) (lower root) ∧
         ∃ t', t' ∈ types_for t ∧ genuine_answer f G n t' records) ∧
      (∀ name asked, Refreshed name asked ∈ trace → ∃ z, z ∈ Config.zones cfg ∧
         Config.zone_kind z = "secondary"%string ∧ Config.zone_name z = name ∧
         asked `prefix_of` Config.zone_primaries z) ∧
      (∀ env n t (info : option RequestInfo), Q n t →
         own_tasks (RequestInfo := RequestInfo) f (honest G) (to_forwarder route srv f Q) P env →
         ∃ e s', step srv f (honest G) Q P s e s' ∧
           ((∃ r, e = FromZone n t r) ∨ ∃ r, e = Forwarded (Answered n t r))).
Proof.
  intros Hs. destruct (start_returns add_key secure exists_ read_to_string build rd fu regex_new binds registers
    files seed cfg rules) as (r & fs' & Hs' & Hsrv). rewrite Hs in Hs'. injection Hs' as <- <-.
  destruct (Hsrv srv eq_refl) as (zones & mg & w & f & _ & Hcfg & Hfind).
  assert (ZoneCatalog.find (lower root) (srv_catalog srv) = Some (Forwarder w f)) as Hroot
    by by rewrite Hfind, decide_True.
  exists w, f. split_and!; [done|done|]. intros G Q P c m trace s Hf Hc Hwf Hpos Hm Hsteps.
  pose proof (steps_forwarder route zone_reply srv f _ Q P _ _ _ Hsteps) as Hserve. cbn [running] in Hserve.
  split_and!.
  - intros n t r Hin. destruct (from_zone route zone_reply srv f _ Q P _ _ _ n t r Hsteps Hin) as (a & Hr & ->).
    exists a. split; [|done]. by eapply route_zone.
  - intros n t records Hin%forwarder_label.
    destruct (answered_forwarded route srv f _ Q P _ _ _ _ _ _ Hserve Hin) as (_ & w' & Hr).
    split; [by eapply route_forwarder|].
    exact (proj2 (serve_genuine f G Hf _ P _ _ _ Hserve Hc) n t records Hin).
  - intros name asked Hin. destruct (refreshed_known route zone_reply srv f _ Q P _ _ _ Hsteps) as [_ Hall]; [done|].
    destruct (Hall name asked Hin) as (i & Hi & <- & Hpre).
    destruct (secondaries_configured _ _ _ _ _ _ i Hs Hi) as (z & Hz & Hinfo).
    unfold ZoneManagerProps.info in Hinfo. case_bool_decide; [|done]. injection Hinfo as <-. by exists z.
  - intros env n t info HQ Ho.
    destruct (serve_steps_keep f _ _ P _ _ _ Hserve) as (Hok & _); [by split|].
    destruct (route_total files seed cfg rules srv files' w f n Hs Hroot) as [[a Hr]|Hr].
    + eexists _, _. split; [by eapply step_zone|]. left. by eexists.
    + destruct (serve_progress f (honest G) (to_forwarder route srv f Q) P (running s) env Hok Ho) as [Hask _].
      destruct (Hask n t info) as (r & s' & Hstep); [by split; [|exists w]|].
      eexists _, _. split; [by eapply step_forwarder|]. right. by eexists.
Qed.

End Started.

(** ** Witness *)

Section Witnesses.
Import DnsSample ZoneSample ForwardProps.

(** The catalog of the example: a zone above one name, no zone above another, one secondary zone. *)
Definition sample_secondary : Handler.SecondaryZoneInfo :=
  {| Handler.sec_name := "s."; Handler.sec_primaries := ["192.0.2.1:53"%string] |}.

Definition from_zone_file (srv : @Server sample sample_zone sample_keys SZone unit) (n : @Name sample) : bool :=
  match s_route (srv_catalog srv) (@lower sample sample_zone n) with Some (FileZone _) => true | _ => false end.

Definition names_secondary (srv : @Server sample sample_zone sample_keys SZone unit) : bool :=
  match srv_secondaries srv with
  | [i] => String.eqb (Handler.sec_name i) "s." && bool_decide (Handler.sec_primaries i = ["192.0.2.1:53"%string])
  | _ => false
  end.

Lemma started_routes :
  match started with
  | Some (Ok srv, _) => from_zone_file srv below_e && negb (from_zone_file srv host_name) && names_secondary srv
  | _ => false
  end = true.
Proof. vm_compute. reflexivity. Qed.

(** A NOTIFY for the secondary zone. *)
Definition notify_s : @Handler.Request sample :=
  {| Handler.req_op := Op_Notify; Handler.req_query := Some ({| s_labels := ["s"%string]; s_fqdn := true |} : SName);
     Handler.req_bytes := [] |}.

Definition says_type (a : @Authority sample sample_zone SZone) (n : @Name sample) (t : RecordType) : RecordType := t.

#[local] Notation example_steps srv f := (@steps sample sample_zone sample_keys SZone unit unit RecordType unit unit
  s_route says_type srv f (honest v4_answers) anything anything).

Definition example_start : @State sample :=
  {| running := Run.ready (Cache.new small) Metrics.new; refreshes := [] |}.

(** One question of each kind, a NOTIFY, and the refresh it asks for. *)
Definition example_trace (r : result LookupError (list (RecordOf SName))) : list (@Event sample RecordType) :=
  [FromZone below_e RT_A RT_A; Forwarded (Answered host_name RT_A r); Notified notify_s NoError;
   Refreshed "s."%string ["192.0.2.1:53"%string]].

Lemma example_run srv (f : @CacheForwardAuthority sample unit) w a :
  s_route (srv_catalog srv) (@lower sample sample_zone below_e) = Some (FileZone a) →
  s_route (srv_catalog srv) (@lower sample sample_zone host_name) = Some (Forwarder w f) →
  srv_secondaries srv = [sample_secondary] →
  ∃ r s, example_steps srv f example_start (example_trace r) s.
Proof.
  intros Ha Hfwd Hsecs.
  destruct (serve_progress (RequestInfo := unit) f (honest v4_answers) (@to_forwarder sample sample_zone sample_keys SZone unit s_route srv f anything) anything
    (Run.ready (Cache.new small) Metrics.new) quiet_env) as [Hask _].
  { split; [apply wf_new|vm_compute; lia|apply new_filled]. }
  { split; [by intros calls n t ans|]. intros k d. apply interferes_none. }
  destruct (Hask host_name RT_A None) as (r & run1 & Hrun); [split; [exact I|exists w; exact Hfwd]|].
  exists r, {| running := run1; refreshes := [] |}.
  change (example_trace r) with
    (((([] ++ [FromZone below_e RT_A RT_A]) ++ [Forwarded (Answered host_name RT_A r)]) ++ [Notified notify_s NoError]) ++
     [Refreshed "s."%string ["192.0.2.1:53"%string]]).
  eapply steps_snoc; [eapply steps_snoc; [eapply steps_snoc; [eapply steps_snoc; [apply steps_nil|]|]|]|].
  - exact (@step_zone sample sample_zone sample_keys SZone unit unit RecordType unit unit s_route says_type srv f (honest v4_answers) anything anything example_start below_e RT_A a I Ha).
  - exact (@step_forwarder sample sample_zone sample_keys SZone unit unit RecordType unit unit s_route says_type srv f (honest v4_answers) anything anything example_start _ _ Hrun).
  - pose proof (@step_notify sample sample_zone sample_keys SZone unit unit RecordType unit unit s_route says_type srv f
      (honest v4_answers) anything anything {| running := run1; refreshes := [] |}
      (λ _, {| Handler.rcode := NoError; Handler.refresh := None |}) true notify_s _ eq_refl eq_refl) as Hn.
    rewrite Hsecs in Hn. exact Hn.
  - exact (@step_refresh sample sample_zone sample_keys SZone unit unit RecordType unit unit s_route says_type srv f (honest v4_answers) anything anything
      {| running := run1; refreshes := [sample_secondary] |} (λ _ _, Secondary.Finished (Ok tt) : Secondary.Transfer unit unit) [] sample_secondary [] eq_refl).
Qed.

Lemma server_answers_witness :
  ∃ srv fs f r s, started = Some (Ok srv, fs) ∧ example_steps srv f example_start (example_trace r) s ∧
    (∃ a, zone_of_name add_key Some s_parent two_zones below_e a) ∧
    ∃ z, z ∈ Config.zones two_zones ∧ Config.zone_name z = "s."%string ∧
         Config.zone_primaries z = ["192.0.2.1:53"%string].
Proof.
  pose proof started_routes as Hroutes.
  destruct started as [[[srv|e] fs]|] eqn:Hs; [|discriminate Hroutes|discriminate Hroutes].
  apply andb_true_iff in Hroutes as [[Hz Hhost]%andb_true_iff Hsec].
  destruct (@server_answers sample sample_zone sample_keys SZone unit unit unit RecordType unit unit add_key Some
    (λ _, false) (λ _, None) (λ _ _ _, true) (λ _, Err tt) (λ _, Err tt) (λ _, None) (λ _ _ _, true) (λ _ _, true)
    s_route says_type s_parent s_depth s_parent_other s_route_here s_route_up disk 0 two_zones [] srv fs Hs)
    as (w & f & Hroot & _ & Hall).
  unfold from_zone_file in Hz. destruct (s_route (srv_catalog srv) (@lower sample sample_zone below_e)) as [[a|w1 f1]|] eqn:Ha;
    [|discriminate Hz|discriminate Hz].
  assert (s_route (srv_catalog srv) (@lower sample sample_zone host_name) = Some (Forwarder w f)) as Hfwd.
  { destruct (@route_total sample sample_zone sample_keys SZone unit unit add_key Some
      (λ _, false) (λ _, None) (λ _ _ _, true) (λ _, Err tt) (λ _, Err tt) (λ _, None) (λ _ _ _, true) (λ _ _, true)
      s_route s_parent s_depth s_parent_other s_route_here s_route_up disk 0 two_zones [] srv fs w f host_name Hs Hroot)
      as [[a' Ha']|Hf]; [|exact Hf]. unfold from_zone_file in Hhost. rewrite Ha' in Hhost. discriminate Hhost. }
  assert (srv_secondaries srv = [sample_secondary]) as Hsecs.
  { unfold names_secondary in Hsec. destruct (srv_secondaries srv) as [|[nm pr] [|]]; try discriminate Hsec.
    apply andb_true_iff in Hsec as [Hnm%String.eqb_eq Hpr%bool_decide_eq_true_1]. simpl in Hnm, Hpr. by subst. }
  destruct (example_run srv f w a Ha Hfwd Hsecs) as (r & s & Hsteps).
  exists srv, fs, f, r, s. split; [reflexivity|]. split; [exact Hsteps|].
  destruct (Hall v4_answers anything anything (Cache.new small) Metrics.new (example_trace r) s) as (Hzone & _ & Href & _).
  - reflexivity.
  - intros key e He. cbn [entries Cache.new] in He. by apply lookup_empty_Some in He.
  - apply wf_new.
  - vm_compute. lia.
  - apply new_filled.
  - exact Hsteps.
  - split.
    + destruct (Hzone below_e RT_A RT_A) as (a' & Ha' & _); [by left|]. by exists a'.
    + destruct (Href "s."%string ["192.0.2.1:53"%string]) as (z & Hin & _ & Hn & _); [do 3 right; by left|].
      exists z. split; [exact Hin|]. split; [exact Hn|].
      apply list_elem_of_In in Hin. destruct Hin as [<-|[<-|[]]]; [discriminate Hn|reflexivity].
Defined.

End Witnesses.
End ServerProps.
