(* ===== verification/Api.v ===== *)
(** * The HTTP interface ([src/api/mod.rs])

    The table of routes, one definition per handler, and the dispatch of a request.  The matching of
    paths against the table is the framework's and is the class [Axum]; extracting the parameters of
    a path and the body of a request is written out where the code depends on it. *)

From Stdlib Require Import Ascii String ZArith Lia.
From stdpp Require Import base list gmap strings numbers.
From S2P Require Import Prelude RustString RustNum RustNet Metrics Cache Config Blocklist Dns Zone Keys Filter.

Local Open Scope Z_scope.

Module Api.
Import Metrics Dns Zone Keys.

Definition CARGO_PKG_VERSION : string := "0.6.5-alpha".

Definition OK : Z := 200.
Definition BAD_REQUEST : Z := 400.
Definition NOT_FOUND : Z := 404.
Definition METHOD_NOT_ALLOWED : Z := 405.
Definition INTERNAL_SERVER_ERROR : Z := 500.

(** ** What is answered *)

Record ServerInfo := {
  info_version : string;
  info_hostname : string;
  info_dns_listen : list string;
  info_api_listen : string;
  info_zones_loaded : nat;
  info_dnssec_validation : bool;
  info_cache_size : Z;
  info_log_level : string
}.

Record ZoneSummary := {
  zs_name : string;
  zs_kind : string;
  zs_file : option string;
  zs_primaries : list string
}.

Record FilterStats := {
  fs_cname_cloaking : bool;
  fs_rebinding : bool;
  fs_blocklist_entries : nat;
  fs_regex_patterns : nat
}.

Record RecOptionsUpdate := {
  upd_qname_minimization : option bool;
  upd_ecs : option bool;
  upd_dns64_always_synthesize : option bool;
  upd_dns64_prefix : option string
}.

Inductive ApiError :=
  | ZoneNotFound (search : string)
  | RecordFailed (e : ZoneError).

Inductive Body :=
  | HealthBody (status version : string)
  | StatsBody (s : FilterStats)
  | InfoBody (i : ServerInfo)
  | ZonesBody (zones : list ZoneSummary) (total : nat)
  | ZoneBody (z : ZoneSummary)
  | RecordsBody (records : list RecordSummary) (total : nat)
  | DeletedBody (deleted : nat)
  | MessageBody (message : string)
  | TextBody (content_type body : string)
  | ErrorBody (e : ApiError)
  | FrameworkBody.

Record Response := { status : Z; body : Body }.

Definition json (b : Body) : Response := {| status := OK; body := b |}.
Definition error (code : Z) (e : ApiError) : Response := {| status := code; body := ErrorBody e |}.
(** A rejection by the framework, before the handler runs. *)
Definition rejected (code : Z) : Response := {| status := code; body := FrameworkBody |}.

(** ** Routes *)

Inductive Method := GET | HEAD | POST | OtherMethod.

Inductive Segment := Lit (s : string) | Param (name : string).

Inductive HandlerName :=
  | H_health | H_filter_stats | H_server_info | H_list_zones | H_zone_detail
  | H_list_records | H_create_record | H_get_records | H_delete_record | H_rec_options | H_metrics.

#[export] Instance Method_eq_dec : EqDecision Method.
Proof. solve_decision. Defined.

Notation Route := (list Segment * list (Method * HandlerName))%type.

Definition routes : list Route :=
  let api := Lit "api" in let zones := Lit "zones" in let name := Param "name" in let records := Lit "records" in
  [([api; Lit "health"], [(GET, H_health)]);
   ([api; Lit "filter"; Lit "stats"], [(GET, H_filter_stats)]);
   ([api; Lit "info"], [(GET, H_server_info)]);
   ([api; zones], [(GET, H_list_zones)]);
   ([api; zones; name], [(GET, H_zone_detail)]);
   ([api; zones; name; records], [(GET, H_list_records); (POST, H_create_record)]);
   ([api; zones; name; records; Param "rtype"], [(GET, H_get_records)]);
   ([api; zones; name; records; name; Param "rtype"], [(GET, H_get_records)]);
   ([api; zones; name; records; Lit "delete"], [(POST, H_delete_record)]);
   ([api; Lit "rec"; Lit "options"], [(POST, H_rec_options)])].

Definition metrics_route : Route := ([Lit "metrics"], [(GET, H_metrics)]).

Definition metrics_enabled (config : Config.Config) : bool := Config.metrics_enable (Config.metrics config).

Definition app_routes (config : Config.Config) : list Route :=
  routes ++ (if metrics_enabled config then [metrics_route] else []).

(** The path a pattern describes when its parameters have these values. *)
Fixpoint instantiate (p : list Segment) (values : list string) : option (list string) :=
  match p, values with
  | [], [] => Some []
  | Lit s :: p, _ => cons s <$> instantiate p values
  | Param _ :: p, v :: values => cons v <$> instantiate p values
  | _, _ => None
  end.

(** Of two patterns for one path, the first has a literal where they first differ in kind. *)
Fixpoint preferred (p q : list Segment) : bool :=
  match p, q with
  | Lit _ :: _, Param _ :: _ => true
  | Lit _ :: p, Lit _ :: q => preferred p q
  | Param _ :: p, Param _ :: q => preferred p q
  | _, _ => false
  end.

(** The router: a path goes to a pattern it is an instance of, with the segments of the parameters;
    it goes to some pattern when there is one, and literals take precedence.  The literals are
    compared with the segments as they are sent; only the parameters are decoded. *)
Class Axum := {
  route_path : list (list Segment) → list string → option (nat * list string);
  route_sound table path i values :
    route_path table path = Some (i, values) → ∃ p, table !! i = Some p ∧ instantiate p values = Some path;
  route_complete table path i p values :
    table !! i = Some p → instantiate p values = Some path → is_Some (route_path table path);
  route_prefers table path i values p j q values' :
    route_path table path = Some (i, values) → table !! i = Some p → table !! j = Some q →
    instantiate q values' = Some path → preferred q p = false;
  (** The value of a path parameter: its segment without the percent encoding, if that is text. *)
  percent_decode : string → option string;
  percent_decode_plain s : Str.contains "%"%char s = false → percent_decode s = Some s
}.

(** ** State and handlers *)

Section Handlers.
Context `{KeyLib} {Regex : Type}.

Record ApiState := {
  config : Config.Config;
  zones : list ZoneSummary;
  filter : Filter.Filter Regex
}.

Definition zone_summary (z : Config.ZoneConfig) : ZoneSummary :=
  {| zs_name := Config.zone_name z; zs_kind := Config.zone_kind z; zs_file := Config.zone_file z;
     zs_primaries := Config.zone_primaries z |}.

Record Api := {
  listen : string;
  tls_cert : option string;
  tls_key : option string;
  state : ApiState
}.

(** The filter is loaded again, apart from that of the forwarder. *)
Definition new (cfg : Config.Config) (f : Filter.Filter Regex) : Api :=
  {| listen := Config.api_listen (Config.api cfg); tls_cert := Config.api_tls_cert (Config.api cfg);
     tls_key := Config.api_tls_key (Config.api cfg);
     state := {| config := cfg; zones := zone_summary <$> Config.zones cfg; filter := f |} |}.

Definition metrics_handler (m : MetricsRegistry) : Response := json (TextBody "text/plain; version=0.0.4" (serialize m)).

Definition filter_stats (st : ApiState) : Response :=
  json (StatsBody {| fs_cname_cloaking := Config.cname_cloaking (Config.filter (config st));
                     fs_rebinding := Config.rebinding (Config.filter (config st));
                     fs_blocklist_entries := Blocklist.len (Filter.blocklist (filter st));
                     fs_regex_patterns := length (Config.regex_blocklist (Config.filter (config st))) |}).

Definition health : Response := json (HealthBody "ok" CARGO_PKG_VERSION).

Definition server_info (st : ApiState) : Response :=
  let c := config st in
  json (InfoBody {| info_version := CARGO_PKG_VERSION; info_hostname := Config.host c; info_dns_listen := Config.listen c;
                    info_api_listen := Config.api_listen (Config.api c); info_zones_loaded := length (zones st);
                    info_dnssec_validation := Config.validation (Config.dnssec c);
                    info_cache_size := Config.cache_size (Config.cache c);
                    info_log_level := Config.log_level (Config.log c) |}).

Definition list_zones (st : ApiState) : Response := json (ZonesBody (zones st) (length (zones st))).

(** The name that is looked for ends in a dot. *)
Definition dotted (name : string) : string := if Str.ends_with "." name then name else name +:+ ".".

Definition zone_detail (st : ApiState) (name : string) : Response :=
  let search := dotted name in
  match head (base.filter (λ z, zs_name z = search) (zones st)) with
  | Some z => json (ZoneBody z)
  | None => error NOT_FOUND (ZoneNotFound search)
  end.

Definition find_zone (st : ApiState) (name : string) : result Response Config.ZoneConfig :=
  let search := dotted name in
  ok_or (error NOT_FOUND (ZoneNotFound search))
    (head (base.filter (λ z, Config.zone_name z = search) (Config.zones (config st)))).

Definition list_records (st : ApiState) (fs : Fs) (zone_name : string) : Response :=
  match find_zone st zone_name with
  | Err r => r
  | Ok z =>
      match Zone.list_records fs z (Config.zones_dir (config st)) with
      | Ok records => json (RecordsBody records (length records))
      | Err e => error INTERNAL_SERVER_ERROR (RecordFailed e)
      end
  end.

Definition get_records (st : ApiState) (fs : Fs) (zone_name name rtype : string) : Response :=
  match find_zone st zone_name with
  | Err r => r
  | Ok z =>
      match Zone.get_records fs z (Config.zones_dir (config st)) name rtype with
      | Ok records => json (RecordsBody records (length records))
      | Err e => error BAD_REQUEST (RecordFailed e)
      end
  end.

Definition create_record (st : ApiState) (fs : Fs) (zone_name : string) (create : RecordCreate) : Response * Fs :=
  match find_zone st zone_name with
  | Err r => (r, fs)
  | Ok z =>
      match insert_record fs z (Config.zones_dir (config st)) create with
      | (Ok _, fs) => (json (MessageBody ("record added to zone " +:+ zone_name)), fs)
      | (Err e, fs) => (error BAD_REQUEST (RecordFailed e), fs)
      end
  end.

Definition delete_record (st : ApiState) (fs : Fs) (zone_name : string) (delete : RecordDelete) : Response * Fs :=
  match find_zone st zone_name with
  | Err r => (r, fs)
  | Ok z =>
      match delete_records fs z (Config.zones_dir (config st)) delete with
      | (Ok deleted, fs) => (json (DeletedBody deleted), fs)
      | (Err e, fs) => (error BAD_REQUEST (RecordFailed e), fs)
      end
  end.

(** [config_path] is the environment variable; the payload is not used. *)
Definition rec_options_update (toml_to_string : Config.Config → option string) (config_path : option string)
    (st : ApiState) (fs : Fs) (payload : RecOptionsUpdate) : Response * Fs :=
  let path := default "/etc/heimdallr/config.toml"%string config_path in
  let fs := if path_exists fs path then
              match toml_to_string (config st) with
              | Some text => (write_file fs path text).2
              | None => fs
              end
            else fs in
  (json (MessageBody "M7.3/M7.4: runtime toggle + persistence (stub; full RBAC + persistence M7.4 follow-up)"), fs).

(** ** Dispatch *)

(** A request: the path in its segments, and what the body extractors make of the body (a value, or
    the status of their rejection). *)
Record ApiRequest := {
  method : Method;
  path : list string;
  create_body : result Z RecordCreate;
  delete_body : result Z RecordDelete;
  options_body : result Z RecOptionsUpdate
}.

(** The values of the path parameters.  A parameter that does not decode to text is a bad request, for
    every path extractor; after that, a path extractor for another number of parameters than the route
    has is an internal error. *)
Definition decoded `{Axum} (values : list string) : result Response (list string) :=
  ok_or (rejected BAD_REQUEST) (mapM percent_decode values).
Definition extract1 `{Axum} (values : list string) : result Response string :=
  values ← decoded values;
  match values with [v] => Ok v | _ => Err (rejected INTERNAL_SERVER_ERROR) end.
Definition extract3 `{Axum} (values : list string) : result Response (string * string * string) :=
  values ← decoded values;
  match values with [a; b; c] => Ok (a, b, c) | _ => Err (rejected INTERNAL_SERVER_ERROR) end.
Definition extract_body {A} (b : result Z A) : result Response A :=
  match b with Ok a => Ok a | Err code => Err (rejected code) end.

(** The result of the extractors, or their rejection. *)
Definition extracted {A} (fs : Fs) (r : result Response A) (k : A → Response * Fs) : Response * Fs :=
  match r with Ok a => k a | Err resp => (resp, fs) end.

Definition call `{Axum} (toml_to_string : Config.Config → option string) (config_path : option string) (m : MetricsRegistry)
    (st : ApiState) (fs : Fs) (h : HandlerName) (values : list string) (req : ApiRequest) : Response * Fs :=
  match h with
  | H_health => (health, fs)
  | H_filter_stats => (filter_stats st, fs)
  | H_server_info => (server_info st, fs)
  | H_list_zones => (list_zones st, fs)
  | H_zone_detail => extracted fs (extract1 values) (λ n, (zone_detail st n, fs))
  | H_list_records => extracted fs (extract1 values) (λ n, (list_records st fs n, fs))
  | H_create_record =>
      extracted fs (extract1 values) (λ n, extracted fs (extract_body (create_body req)) (create_record st fs n))
  | H_get_records => extracted fs (extract3 values) (λ '(z, n, t), (get_records st fs z n t, fs))
  | H_delete_record =>
      extracted fs (extract1 values) (λ n, extracted fs (extract_body (delete_body req)) (delete_record st fs n))
  | H_rec_options =>
      extracted fs (extract_body (options_body req)) (rec_options_update toml_to_string config_path st fs)
  | H_metrics => (metrics_handler m, fs)
  end.

(** A route for GET also answers HEAD. *)
Definition accepts (route_method : Method) (m : Method) : bool :=
  match route_method, m with
  | GET, GET | GET, HEAD | POST, POST => true
  | _, _ => false
  end.

Definition respond `{Axum} (toml_to_string : Config.Config → option string) (config_path : option string)
    (m : MetricsRegistry) (st : ApiState) (fs : Fs) (req : ApiRequest) : Response * Fs :=
  let table := app_routes (config st) in
  match route_path table.*1 (path req) with
  | None => (rejected NOT_FOUND, fs)
  | Some (i, values) =>
      match table !! i with
      | None => (rejected NOT_FOUND, fs)
      | Some (_, methods) =>
          match head (base.filter (λ p, accepts p.1 (method req) = true) methods) with
          | None => (rejected METHOD_NOT_ALLOWED, fs)
          | Some (_, h) => call toml_to_string config_path m st fs h values req
          end
      end
  end.

(** ** Starting to listen *)

Inductive ServeError :=
  | ApiCertsUnreadable (path : string)
  | ApiKeyUnreadable (path : string)
  | ApiCertificate
  | BadApiListen (addr : string)
  | ApiBindFailed (addr : string)
  | ApiAcceptFailed.

Inductive Serving :=
  | OverTls (addr : SocketAddr) (certs : list Cert) (key : CertKey)
  | Plain (addr : string).

(** TLS is used when both a certificate and a key are configured, plain HTTP otherwise. *)
Definition run (binds : string → bool) (fs : Fs) (a : Api) : result ServeError Serving :=
  match tls_cert a, tls_key a with
  | Some cert_path, Some key_path =>
      certs ← ok_or (ApiCertsUnreadable cert_path) (read_chain fs cert_path);
      key ← ok_or (ApiKeyUnreadable key_path) (read_private_key fs key_path);
      _ ← ensure (certified certs key) ApiCertificate;
      addr ← ok_or (BadApiListen (listen a)) (parse_socket_addr (listen a));
      _ ← ensure (binds (listen a)) (ApiBindFailed (listen a));
      Ok (OverTls addr certs key)
  | _, _ =>
      _ ← ensure (binds (listen a)) (ApiBindFailed (listen a));
      Ok (Plain (listen a))
  end.

(** *** Connections *)

(** What the loop of the TLS server waits for: a connection, a failure to accept one, or the
    shutdown signal. *)
Inductive AcceptEvent {Stream : Type} :=
  | Incoming (stream : Stream)
  | AcceptError
  | Signal.

(** The loop over the events so far: the connections that got a task of their own, and the result
    if the loop is over. *)
Fixpoint accept_loop {Stream} (events : list (@AcceptEvent Stream)) : list Stream * option (result ServeError unit) :=
  match events with
  | [] => ([], None)
  | Incoming stream :: rest => let '(served, r) := accept_loop rest in (stream :: served, r)
  | AcceptError :: _ => ([], Some (Err ApiAcceptFailed))
  | Signal :: _ => ([], Some (Ok tt))
  end.

(** The task of a connection: a stream whose handshake fails is dropped, any other is handed to the
    HTTP library with the router. *)
Definition connection_task {Stream Tls} (handshake : Stream → option Tls) (serve_connection : Tls → Fs → Fs)
    (stream : Stream) (fs : Fs) : Fs :=
  match handshake stream with
  | Some tls => serve_connection tls fs
  | None => fs
  end.

End Handlers.
End Api.
