(* ===== verification/ApiProps.v ===== *)
(** * Properties of the HTTP interface *)

From Stdlib Require Import Ascii String ZArith Lia.
From stdpp Require Import base list gmap strings numbers.
From S2P Require Import Prelude RustString RustNum RustNet Metrics Cache Config ConfigProps Blocklist Dns DnsSample.
From S2P Require Import Zone Keys ZoneSample ZoneProps Filter Api.

Local Open Scope Z_scope.

Module ApiProps.
Import Metrics Dns Zone ZoneProps Keys Api.

(** ** Paths and patterns *)

Fixpoint is_instance (p : list Segment) (path : list string) : bool :=
  match p, path with
  | [], [] => true
  | Lit s :: p, x :: path => bool_decide (s = x) && is_instance p path
  | Param _ :: p, _ :: path => is_instance p path
  | _, _ => false
  end.

Lemma instantiate_matches p values path : instantiate p values = Some path → is_instance p path = true.
Proof.
  revert values path. induction p as [|[s|n] p IH]; intros values path; simpl.
  - destruct values; [by intros [= <-]|done].
  - intros (rest & Hr & ->)%fmap_Some. simpl. rewrite bool_decide_true by done. by eapply IH.
  - destruct values as [|v values]; [done|]. intros (rest & Hr & ->)%fmap_Some. by eapply IH.
Qed.

Lemma instantiate_inj p values values' path :
  instantiate p values = Some path → instantiate p values' = Some path → values = values'.
Proof.
  revert values values' path. induction p as [|[s|n] p IH]; intros values values' path; simpl.
  - by destruct values, values'.
  - intros (rest & Hr & ->)%fmap_Some (rest' & Hr' & [= <-])%fmap_Some. by eapply IH.
  - destruct values as [|v values], values' as [|v' values']; try done.
    intros (rest & Hr & ->)%fmap_Some (rest' & Hr' & [= <- <-])%fmap_Some. f_equal. by eapply IH.
Qed.

Section Router.
Context `{Axum}.

(** The only matching pattern, or the one preferred to every other, gets the path. *)
Lemma route_path_is table path i p values :
  table !! i = Some p → instantiate p values = Some path →
  (∀ j q, table !! j = Some q → is_instance q path = true → j = i ∨ preferred p q = true) →
  route_path table path = Some (i, values).
Proof.
  intros Hi Hp Hother. destruct (route_complete table path i p values Hi Hp) as [[j v] Hr].
  destruct (route_sound _ _ _ _ Hr) as (q & Hq & Hv).
  destruct (Hother j q Hq (instantiate_matches _ _ _ Hv)) as [->|Hpref].
  - rewrite Hi in Hq. injection Hq as <-. by rewrite Hr, (instantiate_inj _ _ _ _ Hv Hp).
  - pose proof (route_prefers _ _ _ _ _ _ _ _ Hr Hq Hi Hp). congruence.
Qed.

End Router.

(** Looks at every route of the table: those that cannot match and those less specific are left out. *)
Ltac each_route j Hj :=
  repeat (destruct j as [|j];
          [cbn in Hj; injection Hj as <-;
           first [solve [vm_compute; discriminate] | solve [cbn; rewrite ?andb_false_r; discriminate] | by left | by right | idtac]|]);
  try (cbn in Hj; discriminate Hj).

Section Respond.
Context `{KeyLib} `{Axum} {Regex : Type}.
Context (toml : Config.Config → option string) (config_path : option string) (m : MetricsRegistry).
Context (st : ApiState (Regex := Regex)) (fs : Fs).

#[local] Notation respond := (respond toml config_path m st fs).

Lemma respond_route req i p methods values h :
  app_routes (config st) !! i = Some (p, methods) → instantiate p values = Some (path req) →
  (∀ j q, (app_routes (config st)).*1 !! j = Some q → is_instance q (path req) = true → j = i ∨ preferred p q = true) →
  head (base.filter (λ x, accepts x.1 (method req) = true) methods) = Some h →
  respond req = call toml config_path m st fs h.2 values req.
Proof.
  intros Hi Hp Hother Hh. unfold Api.respond.
  rewrite (route_path_is _ _ i p values); [|by rewrite list_lookup_fmap, Hi|done|done].
  rewrite Hi, Hh. by destruct h.
Qed.

(** A handler that is called for something else than reading. *)
Definition writes (h : HandlerName) : bool :=
  match h with H_create_record | H_delete_record | H_rec_options => true | _ => false end.

Lemma extracted_fs {A} (r : result Response A) (k : A → Response * Fs) :
  (extracted fs r k).2 ≠ fs → ∃ a, r = Ok a ∧ extracted fs r k = k a.
Proof. destruct r as [a|resp]; [by exists a|done]. Qed.

Lemma call_reads h values req : writes h = false → (call toml config_path m st fs h values req).2 = fs.
Proof.
  destruct h; try done; intros _; cbn [call];
    match goal with |- context [extracted fs ?r _] => by destruct r as [[[]]|] || by destruct r end.
Qed.

(** What happened when a request changed the files. *)
Inductive changed (req : ApiRequest) (fs' : Fs) : Prop :=
  | changed_create seg z cfg create :
      path req = ["api"; "zones"; seg; "records"]%string → percent_decode seg = Some z →
      find_zone st z = Ok cfg → create_body req = Ok create →
      fs' = (insert_record fs cfg (Config.zones_dir (config st)) create).2 → changed req fs'
  | changed_delete seg z cfg delete :
      path req = ["api"; "zones"; seg; "records"; "delete"]%string → percent_decode seg = Some z →
      find_zone st z = Ok cfg → delete_body req = Ok delete →
      fs' = (delete_records fs cfg (Config.zones_dir (config st)) delete).2 → changed req fs'
  | changed_options file text :
      path req = ["api"; "rec"; "options"]%string →
      file = default "/etc/heimdallr/config.toml"%string config_path → path_exists fs file = true →
      toml (config st) = Some text → fs' = (write_file fs file text).2 → changed req fs'.

Lemma create_changes seg z create req :
  path req = ["api"; "zones"; seg; "records"]%string → percent_decode seg = Some z → create_body req = Ok create →
  (create_record st fs z create).2 ≠ fs → changed req (create_record st fs z create).2.
Proof.
  intros Hp Hd Hb. unfold create_record. destruct (find_zone st z) as [cfg|r] eqn:Hz; [|done]. intros _.
  eapply changed_create; [done..|]. by destruct (insert_record _ _ _ _) as [[]].
Qed.

Lemma delete_changes seg z delete req :
  path req = ["api"; "zones"; seg; "records"; "delete"]%string → percent_decode seg = Some z → delete_body req = Ok delete →
  (delete_record st fs z delete).2 ≠ fs → changed req (delete_record st fs z delete).2.
Proof.
  intros Hp Hd Hb. unfold delete_record. destruct (find_zone st z) as [cfg|r] eqn:Hz; [|done]. intros _.
  eapply changed_delete; [done..|]. by destruct (delete_records _ _ _ _) as [[]].
Qed.

Lemma options_changes payload req :
  path req = ["api"; "rec"; "options"]%string →
  (rec_options_update toml config_path st fs payload).2 ≠ fs →
  changed req (rec_options_update toml config_path st fs payload).2.
Proof.
  intros Hp. unfold rec_options_update. cbn [snd].
  destruct (path_exists fs _) eqn:He; [|done]. destruct (toml (config st)) as [text|] eqn:Ht; [|done]. intros _.
  by eapply changed_options.
Qed.

(** The routes that write, and the paths that lead to them. *)
Lemma writing_route i p methods values rm h path' req :
  app_routes (config st) !! i = Some (p, methods) → instantiate p values = Some path' →
  head (base.filter (λ x, accepts x.1 (method req) = true) methods) = Some (rm, h) → writes h = true →
  method req = POST ∧
  ((h = H_create_record ∧ ∃ z, values = [z] ∧ path' = ["api"; "zones"; z; "records"]%string) ∨
   (h = H_delete_record ∧ ∃ z, values = [z] ∧ path' = ["api"; "zones"; z; "records"; "delete"]%string) ∨
   (h = H_rec_options ∧ path' = ["api"; "rec"; "options"]%string)).
Proof.
  unfold app_routes, routes, metrics_route. intros Hi Hp Hh Hw. revert Hp Hh Hw.
  destruct (metrics_enabled (config st));
    repeat (destruct i as [|i];
      [injection Hi as <- <-; destruct (method req); intros Hp Hh Hw; vm_compute in Hh; try discriminate Hh;
       injection Hh as <- <-; try discriminate Hw; (split; [done|])|]); try discriminate Hi.
  all: cbn in Hp; destruct values as [|z [|z' values]]; try discriminate Hp; injection Hp as <-; eauto 10.
Qed.

(** ** Looking up zones *)

Lemma dotted_ends z : Str.ends_with "." (dotted z) = true.
Proof.
  unfold dotted. destruct (Str.ends_with "." z) eqn:E; [done|].
  apply StrFacts.ends_with_true. by exists z.
Qed.

Lemma find_zone_Ok z cfg :
  find_zone st z = Ok cfg → cfg ∈ Config.zones (config st) ∧ Config.zone_name cfg = dotted z.
Proof.
  unfold find_zone. intros Hf%ok_or_Ok.
  assert (cfg ∈ base.filter (λ c, Config.zone_name c = dotted z) (Config.zones (config st))) as Hin.
  { destruct (base.filter _ _) as [|c l]; [done|]. injection Hf as ->. set_solver. }
  apply list_elem_of_filter in Hin as [??]. done.
Qed.

Lemma find_zone_Err z r :
  find_zone st z = Err r →
  r = error NOT_FOUND (ZoneNotFound (dotted z)) ∧
  Forall (λ c, Config.zone_name c ≠ dotted z) (Config.zones (config st)).
Proof.
  unfold find_zone. intros (Hf & <-)%ok_or_Err. split; [done|].
  destruct (base.filter _ _) as [|c l] eqn:E; [|done]. apply list.Forall_forall. intros c Hc Hn.
  assert (c ∈ base.filter (λ c, Config.zone_name c = dotted z) (Config.zones (config st))) as Hin
    by (apply list_elem_of_filter; done).
  rewrite E in Hin. by apply elem_of_nil in Hin.
Qed.

(** ** Where the requests of the record editor go *)

Lemma extract1_decoded seg z : percent_decode seg = Some z → extract1 [seg] = Ok z.
Proof. unfold extract1, decoded. intros Hd. cbn [mapM]. by rewrite Hd. Qed.

Lemma extract1_undecoded seg : percent_decode seg = None → extract1 [seg] = Err (rejected BAD_REQUEST).
Proof. unfold extract1, decoded. intros Hd. cbn [mapM]. by rewrite Hd. Qed.

Lemma extract1_Ok values z : extract1 values = Ok z → ∃ seg, values = [seg] ∧ percent_decode seg = Some z.
Proof.
  unfold extract1, decoded. intros (l & Hl%ok_or_Ok%mapM_Some & Hz)%bind_Ok.
  destruct Hl as [|seg v segs l Hv [|]]; [done| |done]. injection Hz as <-. by exists seg.
Qed.

Lemma extract3_decoded a b c :
  extract3 [a; b; c] =
  match percent_decode a, percent_decode b, percent_decode c with
  | Some x, Some y, Some z => Ok (x, y, z)
  | _, _, _ => Err (rejected BAD_REQUEST)
  end.
Proof.
  unfold extract3, decoded. cbn [mapM].
  by destruct (percent_decode a), (percent_decode b), (percent_decode c).
Qed.

Lemma respond_create req seg z create :
  method req = POST → path req = ["api"; "zones"; seg; "records"]%string → percent_decode seg = Some z → create_body req = Ok create →
  respond req = create_record st fs z create.
Proof.
  intros Hm Hp Hd Hb. erewrite (respond_route req 5 _ _ [seg] (POST, H_create_record));
    [cbn [call snd]; by rewrite (extract1_decoded _ _ Hd), Hb|done|by rewrite Hp| |by rewrite Hm].
  rewrite Hp. unfold app_routes. intros j q Hj. destruct (metrics_enabled _); each_route j Hj.
Qed.

Lemma respond_delete req seg z delete :
  method req = POST → path req = ["api"; "zones"; seg; "records"; "delete"]%string → percent_decode seg = Some z →
  delete_body req = Ok delete →
  respond req = delete_record st fs z delete.
Proof.
  intros Hm Hp Hd Hb. erewrite (respond_route req 8 _ _ [seg] (POST, H_delete_record));
    [cbn [call snd]; by rewrite (extract1_decoded _ _ Hd), Hb|done|by rewrite Hp| |by rewrite Hm].
  rewrite Hp. unfold app_routes. intros j q Hj. destruct (metrics_enabled _); each_route j Hj.
Qed.

Lemma respond_get req a b c :
  method req = GET → path req = ["api"; "zones"; a; "records"; b; c]%string →
  respond req =
  (match percent_decode a, percent_decode b, percent_decode c with
   | Some z, Some n, Some t => get_records st fs z n t
   | _, _, _ => rejected BAD_REQUEST
   end, fs).
Proof.
  intros Hm Hp. erewrite (respond_route req 7 _ _ [a; b; c] (GET, H_get_records));
    [cbn [call snd]; rewrite extract3_decoded;
     by destruct (percent_decode a), (percent_decode b), (percent_decode c)|done|by rewrite Hp| |by rewrite Hm].
  rewrite Hp. unfold app_routes. intros j q Hj. destruct (metrics_enabled _); each_route j Hj.
Qed.

End Respond.

Section Lifecycle.
Context `{KeyLib} `{Axum} {Regex : Type}.
Context (toml : Config.Config → option string) (config_path : option string) (m : MetricsRegistry).
Context (st : ApiState (Regex := Regex)).

#[local] Notation respond := (respond toml config_path m st).

(** The path asks for the records of a name and a type in a zone. *)
Definition asks_for (get : ApiRequest) (z n t : string) : Prop :=
  ∃ a b c, path get = ["api"; "zones"; a; "records"; b; c]%string ∧
    percent_decode a = Some z ∧ percent_decode b = Some n ∧ percent_decode c = Some t.

(** What a GET for a name and type answers when the file of the zone reads as [raw]. *)
Lemma get_after_edit fs fs' z cfg origin zone raw get name rt n t :
  find_zone st z = Ok cfg → load_handler fs cfg (Config.zones_dir (config st)) = Ok zone →
  from_ascii (Config.zone_name cfg) = Some origin →
  reads_as fs' cfg (Config.zones_dir (config st)) origin raw → rt ≠ RT_SOA →
  method get = GET → asks_for get z n t → parse_record_type t = Ok rt → from_ascii n = Some name →
  ∃ l zone', respond fs' get = (json (RecordsBody l (length l)), fs') ∧
    l = summaries (λ k, bool_decide (k = (lower name, rt))) zone' ∧
    zone_get (lower name, rt) zone' = zone_get (lower name, rt) raw.
Proof.
  intros Hz Hl Ho Hraw Ht Hm (a & b & c & Hp & Ha & Hb & Hc) Hpt Hn.
  destruct (load_again fs fs' cfg _ zone origin raw Hl Ho Hraw) as (zone' & Hl' & Hother).
  rewrite (respond_get toml config_path m st fs' get a b c Hm Hp), Ha, Hb, Hc. unfold get_records. rewrite Hz.
  rewrite (get_records_run fs' cfg _ zone' n t name rt Hl' Hpt Hn).
  eexists _, zone'. split; [done|]. split; [done|]. apply Hother. congruence.
Qed.

(** Every GET for the name, in any spelling, and the type lists records of which [answer] holds. *)
Definition gets (fs' : Fs) (z : string) (name : Name) (rt : RecordType) (answer : list RecordSummary → Prop) : Prop :=
  ∀ get n name' t, method get = GET → asks_for get z n t →
    parse_record_type t = Ok rt → from_ascii n = Some name' → lower name' = lower name →
    ∃ l, respond fs' get = (json (RecordsBody l (length l)), fs') ∧ answer l.

Lemma gets_edited fs fs' z cfg origin zone raw name rt answer :
  find_zone st z = Ok cfg → load_handler fs cfg (Config.zones_dir (config st)) = Ok zone →
  from_ascii (Config.zone_name cfg) = Some origin →
  reads_as fs' cfg (Config.zones_dir (config st)) origin raw → rt ≠ RT_SOA →
  (∀ zone', zone_get (lower name, rt) zone' = zone_get (lower name, rt) raw →
     answer (summaries (λ k, bool_decide (k = (lower name, rt))) zone')) →
  gets fs' z name rt answer.
Proof.
  intros Hz Hl Ho Hraw Ht Hans get n name' t Hm Hp Hpt Hn Hlow.
  destruct (get_after_edit fs fs' z cfg origin zone raw get name' rt n t Hz Hl Ho Hraw) as (l & zone' & Hget & -> & Hset);
    [done..|]. eexists. split; [exact Hget|]. rewrite Hlow in *. by apply Hans.
Qed.

(** C20: The life of a record over HTTP.  A creation that is answered with 200 was accepted with a
    readable zone, type, name and data.  Suppose the zone library reads the file it left as the zone
    that was written.  If the type is neither SOA nor CNAME (nor ANAME, which is read as CNAME) and the
    name had neither such a record nor an alias, every GET for that name (in any spelling of the same
    lower-case name) and type lists the new record.  But a creation can be answered with 200 and add
    nothing: if the records of the name exclude the new one (an alias beside other data, or the other
    way round) and the name had no record of the type, such a GET lists nothing.  A deletion answered
    with 200 reports the number of records of the set; after it, such a GET lists nothing, for every
    type but SOA.  (Reading a zone replaces the mail box of its SOA record.)  The zone, name and type are
    those that the segments of the path decode to. *)
Theorem record_lifecycle fs fs' resp req seg z cfg :
  let dir := Config.zones_dir (config st) in
  percent_decode seg = Some z →
  find_zone st z = Ok cfg → method req = POST → respond fs req = (resp, fs') → status resp = OK →
  (∀ create, path req = ["api"; "zones"; seg; "records"]%string → create_body req = Ok create →
     ∃ zone origin name rt rd, load_handler fs cfg dir = Ok zone ∧
       from_ascii (Config.zone_name cfg) = Some origin ∧
       parse_record_type (create_type create) = Ok rt ∧ parse_rdata rt (create_data create) = Ok rd ∧
       owner (create_name create) ["@"%string; Config.zone_name cfg; EmptyString] origin name ∧
       let new := from_rdata name (default 3600 (create_ttl create)) rd in
       (reads_as fs' cfg dir origin (upsert_mut new zone) → rt ∉ [RT_SOA; RT_CNAME] →
        zone_get (lower name, rt) zone = None → zone_get (lower name, RT_CNAME) zone = None →
        gets fs' z name rt (λ l, summary new ∈ l)) ∧
       (∀ t', reads_as fs' cfg dir origin (upsert_mut new zone) → rt ≠ RT_SOA → excludes rt t' →
        is_Some (zone_get (lower name, t') zone) → zone_get (lower name, rt) zone = None →
        gets fs' z name rt (λ l, l = []))) ∧
  (∀ delete, path req = ["api"; "zones"; seg; "records"; "delete"]%string → delete_body req = Ok delete →
     ∃ zone origin name rt deleted, resp = json (DeletedBody deleted) ∧ load_handler fs cfg dir = Ok zone ∧
       from_ascii (Config.zone_name cfg) = Some origin ∧
       parse_record_type (delete_type delete) = Ok rt ∧
       owner (delete_name delete) ["@"%string; Config.zone_name cfg] origin name ∧
       deleted = length (default [] (zone_get (lower name, rt) zone)) ∧
       (reads_as fs' cfg dir origin (zone_remove (lower name, rt) zone) → rt ≠ RT_SOA →
        gets fs' z name rt (λ l, l = []))).
Proof.
  intros dir Hdec Hz Hm Hr Hok. split.
  - intros create Hp Hb. rewrite (respond_create toml config_path m st fs req seg z create Hm Hp Hdec Hb) in Hr.
    unfold create_record in Hr. rewrite Hz in Hr.
    destruct (insert_record fs cfg _ create) as [[[]|e] fs1] eqn:Hi; [|by injection Hr as <- _].
    injection Hr as _ <-. apply insert_record_run in Hi as (zone & origin & name & rt & rd & Hl & Ho & Ht & Hd & Hown & _).
    exists zone, origin, name, rt, rd. do 5 (split; [done|]). intros new.
    destruct (parse_rdata_run rt _ _ Hd) as [Hty _]. assert (record_type new = rt) as Hnew by exact Hty. split.
    + intros Hraw Hrt Hfree Halias. apply (gets_edited fs fs1 z cfg origin zone _ name rt _ Hz Hl Ho Hraw); [set_solver|].
      intros zone' Hset. apply (summaries_elem _ _ [new]); [|by left]. rewrite Hset, <- Hnew.
      apply (upsert_fresh new); [rewrite Hnew; set_solver|by rewrite Hnew|done].
    + intros t' Hraw Hrt Hex Ht' Hfree. rewrite (upsert_excluded new zone t') in Hraw by by rewrite ?Hnew.
      apply (gets_edited fs fs1 z cfg origin zone _ name rt _ Hz Hl Ho Hraw Hrt).
      intros zone' Hset. apply summaries_none. by rewrite Hset.
  - intros delete Hp Hb. rewrite (respond_delete toml config_path m st fs req seg z delete Hm Hp Hdec Hb) in Hr.
    unfold delete_record in Hr. rewrite Hz in Hr.
    destruct (delete_records fs cfg _ delete) as [[k|e] fs1] eqn:Hi; [|by injection Hr as <- _].
    injection Hr as <- <-. apply delete_records_run in Hi as (zone & origin & name & rt & Hl & Ho & Ht & Hown & Hk & _).
    exists zone, origin, name, rt, k. do 6 (split; [done|]). intros Hraw Hrt.
    apply (gets_edited fs fs1 z cfg origin zone _ name rt _ Hz Hl Ho Hraw Hrt).
    intros zone' Hset. apply summaries_none. by rewrite Hset, zone_get_remove.
Qed.

End Lifecycle.

(** ** Properties *)

(** C21: The HTTP interface changes files only as it says: when a request leaves the files other than
    they were, it was a POST, and it was the creation or the deletion of a record of a configured
    zone, whose files are then those of that operation, or the options route, which rewrites the
    configuration file with the configuration of start-up, whatever the payload asks for.  In
    particular reading, rejected and misrouted requests change nothing. *)
Theorem api_changes_only_as_asked `{KeyLib} `{Axum} {Regex} toml config_path m (st : ApiState (Regex := Regex)) fs req :
  (respond toml config_path m st fs req).2 ≠ fs →
  method req = POST ∧ changed toml config_path st fs req (respond toml config_path m st fs req).2.
Proof.
  unfold respond. destruct (route_path _ _) as [[i values]|] eqn:Er; [|done].
  destruct (route_sound _ _ _ _ Er) as (p & Hp & Hi). rewrite list_lookup_fmap in Hp.
  destruct (app_routes (config st) !! i) as [[p' methods]|] eqn:Et; [|done]. cbn in Hp. injection Hp as ->.
  destruct (list.head _) as [[rm h]|] eqn:Eh; [|done]. intros Hne.
  destruct (writes h) eqn:Ew; [|by rewrite call_reads in Hne].
  destruct (writing_route st _ _ _ _ _ _ _ req Et Hi Eh Ew) as [Hm Hcase]. split; [done|].
  destruct Hcase as [(-> & seg & -> & Hpath)|[(-> & seg & -> & Hpath)|(-> & Hpath)]]; cbn [call snd] in Hne |- *.
  - destruct (extracted_fs _ _ _ Hne) as (z & Hv & Heq). rewrite Heq in Hne |- *.
    apply extract1_Ok in Hv as (? & [= <-] & Hdec).
    destruct (extracted_fs _ _ _ Hne) as (create & Hb & Heq'). rewrite Heq' in Hne |- *.
    apply (create_changes toml config_path st fs seg); [done..| |done]. unfold extract_body in Hb. by destruct (create_body req); simplify_eq.
  - destruct (extracted_fs _ _ _ Hne) as (z & Hv & Heq). rewrite Heq in Hne |- *.
    apply extract1_Ok in Hv as (? & [= <-] & Hdec).
    destruct (extracted_fs _ _ _ Hne) as (delete & Hb & Heq'). rewrite Heq' in Hne |- *.
    apply (delete_changes toml config_path st fs seg); [done..| |done]. unfold extract_body in Hb. by destruct (delete_body req); simplify_eq.
  - destruct (extracted_fs _ _ _ Hne) as (payload & Hb & Heq). rewrite Heq in Hne |- *. by apply options_changes.
Qed.

(** ** Reading *)

Section Reading.
Context `{KeyLib} {Regex : Type} (st : ApiState (Regex := Regex)) (fs : Fs).

(** [cfg] is the first configured zone whose name is [z] with a final dot. *)
Definition first_named (z : string) (cfg : Config.ZoneConfig) : Prop :=
  ∃ before after, Config.zones (config st) = before ++ cfg :: after ∧ Config.zone_name cfg = dotted z ∧
    Forall (λ c, Config.zone_name c ≠ dotted z) before.

(** The keys that a request for a name and a type selects, if both can be read. *)
Definition selection (n t : string) : result ZoneError (LowerName * RecordType → bool) :=
  rt ← parse_record_type t;
  name ← ok_or (BadRecordName n) (from_ascii n);
  Ok (λ k, bool_decide (k = (lower name, rt))).

(** The reply to a request for the selected records of a zone: all of them, in the order of the zone
    file, with their number; an error with the code [failed] when the zone cannot be loaded or the
    selection makes no sense; 404 when no configured zone has the name. *)
Inductive listing (failed : Z) (z : string) (selected : result ZoneError (LowerName * RecordType → bool)) :
    Response → Prop :=
  | listed cfg zone sel l :
      first_named z cfg → load_handler fs cfg (Config.zones_dir (config st)) = Ok zone → selected = Ok sel →
      l = summary <$> ((base.filter (λ p, sel p.1 = true) zone).*2 ≫= id) →
      listing failed z selected (json (RecordsBody l (length l)))
  | failed_listing cfg e :
      first_named z cfg →
      (zone ← load_handler fs cfg (Config.zones_dir (config st)); sel ← selected; Ok (zone, sel)) = Err e →
      listing failed z selected (error failed (RecordFailed e))
  | unknown_zone :
      Forall (λ c, Config.zone_name c ≠ dotted z) (Config.zones (config st)) →
      listing failed z selected (error NOT_FOUND (ZoneNotFound (dotted z))).

Lemma find_zone_first z cfg : find_zone st z = Ok cfg → first_named z cfg.
Proof.
  unfold find_zone. intros Hf%ok_or_Ok.
  pose proof (head_filter_first (λ c, Config.zone_name c = dotted z) (Config.zones (config st))) as Hh.
  rewrite Hf in Hh. destruct Hh as (before & after & ? & ? & ?). by exists before, after.
Qed.

Lemma summaries_listed sel (zone : ZoneMap LowerName Name) :
  summaries sel zone = summary <$> ((base.filter (λ p, sel p.1 = true) zone).*2 ≫= id).
Proof.
  unfold summaries. induction zone as [|p zone IH]; [done|]. rewrite filter_cons.
  cbn [mbind list_bind]. rewrite IH. destruct (sel p.1).
  - rewrite decide_True by done. cbn. by rewrite fmap_app.
  - by rewrite decide_False.
Qed.

Lemma list_records_listing z : listing INTERNAL_SERVER_ERROR z (Ok (λ _, true)) (list_records st fs z).
Proof.
  unfold list_records. destruct (find_zone st z) as [cfg|r] eqn:Ez.
  - apply find_zone_first in Ez. unfold Zone.list_records.
    destruct (load_handler fs cfg _) as [zone|e] eqn:El; cbn [mbind result_bind].
    + eapply listed; [done..|]. apply summaries_listed.
    + apply (failed_listing _ _ _ cfg); [done|]. by rewrite El.
  - apply find_zone_Err in Ez as [-> Hall]. by apply unknown_zone.
Qed.

Lemma get_records_listing z n t : listing BAD_REQUEST z (selection n t) (get_records st fs z n t).
Proof.
  unfold get_records. destruct (find_zone st z) as [cfg|r] eqn:Ez.
  2: { apply find_zone_Err in Ez as [-> Hall]. by apply unknown_zone. }
  apply find_zone_first in Ez. unfold Zone.get_records.
  assert (∀ e, (zone ← load_handler fs cfg (Config.zones_dir (config st)); sel ← selection n t; Ok (zone, sel)) = Err e →
    listing BAD_REQUEST z (selection n t) (error BAD_REQUEST (RecordFailed e))) as Hfail by by eauto using failed_listing.
  unfold selection in *. destruct (load_handler fs cfg _) as [zone|e] eqn:El; cbn [mbind result_bind] in *; [|by apply Hfail].
  destruct (parse_record_type t) as [rt|e] eqn:Et; cbn [mbind result_bind] in *; [|by apply Hfail].
  destruct (ok_or (BadRecordName n) (from_ascii n)) as [name|e] eqn:En; cbn [mbind result_bind] in *; [|by apply Hfail].
  eapply listed; [done..|]. apply summaries_listed.
Qed.

Lemma undotted_unknown z failed selected r :
  Forall (λ c, Str.ends_with "." (Config.zone_name c) = false) (Config.zones (config st)) →
  listing failed z selected r → status r = NOT_FOUND.
Proof.
  intros Hall Hl.
  assert (∀ cfg, ¬ first_named z cfg) as Hno.
  { intros cfg (before & after & Hz & Hn & _). rewrite Hz in Hall. apply Forall_app in Hall as [_ [Hd _]%Forall_cons_1].
    by rewrite Hn, dotted_ends in Hd. }
  destruct Hl as [cfg zone sel l Hf _ _ _|cfg e Hf _|_]; [by destruct (Hno cfg)..|done].
Qed.

End Reading.

(** C22: What reading a zone over HTTP gives.  The two routes list, in the order of the loaded zone and with
    their number, all records of the first configured zone of that name with a final dot, or those of a
    name and a type in it; a zone that cannot be loaded is an internal error on the first and a bad
    request on the second, as is a bad type or name; without such a zone it is 404, and so for every
    zone that is configured without a final dot.  The zone, name and type are what the segments of the
    path decode to; one that does not decode is a bad request.  The route with a type but no name
    never lists anything: it is an internal error for every zone and type (or a bad request, for one
    that does not decode), and not allowed when the type is sent as "delete".  The counters are served
    exactly when they are enabled. *)
Theorem api_reads `{KeyLib} `{Axum} {Regex} toml config_path m (st : ApiState (Regex := Regex)) fs req a b c :
  method req = GET →
  let r := (respond toml config_path m st fs req).1 in
  let undotted := Forall (λ c, Str.ends_with "." (Config.zone_name c) = false) (Config.zones (config st)) in
  (path req = ["api"; "zones"; a; "records"]%string →
     match percent_decode a with
     | Some z => listing st fs INTERNAL_SERVER_ERROR z (Ok (λ _, true)) r ∧ (undotted → status r = NOT_FOUND)
     | None => status r = BAD_REQUEST
     end) ∧
  (path req = ["api"; "zones"; a; "records"; b; c]%string →
     match percent_decode a, percent_decode b, percent_decode c with
     | Some z, Some n, Some t => listing st fs BAD_REQUEST z (selection n t) r ∧ (undotted → status r = NOT_FOUND)
     | _, _, _ => status r = BAD_REQUEST
     end) ∧
  (path req = ["api"; "zones"; a; "records"; c]%string →
     status r = if bool_decide (c = "delete"%string) then METHOD_NOT_ALLOWED
                else if decide (is_Some (percent_decode a) ∧ is_Some (percent_decode c)) then INTERNAL_SERVER_ERROR
                else BAD_REQUEST) ∧
  (path req = ["metrics"]%string →
     r = if metrics_enabled (config st) then metrics_handler m else rejected NOT_FOUND).
Proof.
  intros Hm r undotted. split_and!.
  - intros Hp. unfold r. erewrite (respond_route toml config_path m st fs req 5 _ _ [a] (GET, H_list_records));
      [|done|by rewrite Hp| |by rewrite Hm].
    2: { rewrite Hp. unfold app_routes. intros j q Hj. destruct (metrics_enabled _); each_route j Hj. }
    cbn [call snd]. destruct (percent_decode a) as [z|] eqn:Ha.
    + rewrite (extract1_decoded _ _ Ha). cbn [extracted fst]. split; [apply list_records_listing|].
      intros Hall. eapply undotted_unknown; [done|]. apply list_records_listing.
    + by rewrite (extract1_undecoded _ Ha).
  - intros Hp. unfold r. rewrite (respond_get toml config_path m st fs req a b c Hm Hp).
    destruct (percent_decode a) as [z|], (percent_decode b) as [n|], (percent_decode c) as [t|]; try done.
    cbn [fst]. split; [apply get_records_listing|].
    intros Hall. eapply undotted_unknown; [done|]. apply get_records_listing.
  - intros Hp. unfold r, respond. rewrite Hp. case_bool_decide as Ht.
    + subst c. erewrite (route_path_is _ _ 8 _ [a]); [cbn; by rewrite Hm|reflexivity|reflexivity|].
      unfold app_routes; intros j q Hj; destruct (metrics_enabled _); each_route j Hj.
    + erewrite (route_path_is _ _ 6 _ [a; c]); [|reflexivity|reflexivity|].
      * cbn. rewrite Hm. cbn. destruct (decide (true = true)); [|done]. cbn [list.head call].
        unfold extract3, decoded. cbn [mapM]. by destruct (percent_decode a), (percent_decode c).
      * unfold app_routes; intros j q Hj; destruct (metrics_enabled _); each_route j Hj;
          cbn; intros Hd; repeat (apply andb_true_iff in Hd as [?%bool_decide_eq_true_1 Hd]); congruence.
  - intros Hp. unfold r. destruct (metrics_enabled (config st)) eqn:Ee.
    + assert (app_routes (config st) = routes ++ [metrics_route]) as Ha by (unfold app_routes; by rewrite Ee).
      erewrite (respond_route toml config_path m st fs req 10 _ _ [] (GET, H_metrics)); [done|by rewrite Ha|by rewrite Hp| |by rewrite Hm].
      rewrite Hp, Ha. intros j q Hj. each_route j Hj.
    + unfold respond. destruct (route_path _ _) as [[i v]|] eqn:Er; [|done].
      destruct (route_sound _ _ _ _ Er) as (q & Hq & Hi). exfalso. rewrite Hp in Hi.
      apply instantiate_matches in Hi. unfold app_routes in Hq. rewrite Ee in Hq. each_route i Hq.
Qed.

(** The accept loop serves exactly the connections before the first failure or signal, each in a task of
    its own whatever becomes of its handshake; a failure to accept is its only error. *)
Lemma accept_loop_spec {Stream} (events : list (@AcceptEvent Stream)) served r :
  accept_loop events = (served, r) ↔
  ∃ rest, events = (Incoming <$> served) ++ rest ∧
    match rest with
    | [] => r = None
    | AcceptError :: _ => r = Some (Err ApiAcceptFailed)
    | Signal :: _ => r = Some (Ok tt)
    | Incoming _ :: _ => False
    end.
Proof.
  revert served. induction events as [|[stream| |] events IH]; intros served; cbn [accept_loop].
  - split; [intros [= <- <-]; by exists []|]. intros (rest & Heq & Hr). by destruct served, rest; simplify_eq.
  - destruct (accept_loop events) as [l r'] eqn:El. split.
    + intros [= <- <-]. destruct (proj1 (IH l) eq_refl) as (rest & -> & Hr). by exists rest.
    + intros (rest & Heq & Hr). destruct served as [|x served]; simpl in Heq; [by subst rest|].
      injection Heq as <- Heq. assert ((l, r') = (served, r)) as Hs by (apply IH; by exists rest).
      by injection Hs as -> ->.
  - split; [intros [= <- <-]; by exists (AcceptError :: events)|]. intros (rest & Heq & Hr).
    destruct served; [|done]. simpl in Heq. subst rest. by subst r.
  - split; [intros [= <- <-]; by exists (Signal :: events)|]. intros (rest & Heq & Hr).
    destruct served; [|done]. simpl in Heq. subst rest. by subst r.
Qed.

(** ** A concrete router

    Among the patterns of a path the one whose captures come latest. *)

Fixpoint captures (p : list Segment) (path : list string) : option (list string) :=
  match p, path with
  | [], [] => Some []
  | Lit s :: p, x :: path => if decide (s = x) then captures p path else None
  | Param _ :: p, x :: path => cons x <$> captures p path
  | _, _ => None
  end.

Lemma captures_Some p path values : captures p path = Some values ↔ instantiate p values = Some path.
Proof.
  revert path values. induction p as [|[s|n] p IH]; intros path values; simpl.
  - destruct path, values; simpl; naive_solver.
  - destruct path as [|x path]; simpl.
    + split; [done|]. by intros (? & _ & [=])%fmap_Some.
    + case_decide as Hs; [subst x; rewrite IH; split|].
      * intros ->. done.
      * by intros (rest & ? & [= <-])%fmap_Some.
      * split; [done|]. by intros (rest & ? & [= ? ?])%fmap_Some.
  - destruct path as [|x path]; simpl.
    + split; [done|]. destruct values; [done|]. by intros (? & _ & [=])%fmap_Some.
    + split.
      * intros (v & Hv & ->)%fmap_Some. apply IH in Hv. by rewrite Hv.
      * destruct values as [|v values]; [done|]. intros (rest & Hr & [= -> ->])%fmap_Some.
        apply IH in Hr. by rewrite Hr.
Qed.

Fixpoint score (p : list Segment) : nat :=
  match p with
  | [] => 0
  | Lit _ :: p => score p
  | Param _ :: p => 2 ^ length p + score p
  end.

Lemma score_bound p : (score p < 2 ^ length p)%nat.
Proof. induction p as [|[s|n] p IH]; simpl; lia. Qed.

Lemma preferred_score p q : length p = length q → preferred p q = true → (score p < score q)%nat.
Proof.
  revert q. induction p as [|[s|n] p IH]; intros [|[s'|n'] q] Hlen Hp; try done; simpl in *; injection Hlen as Hlen.
  - by apply IH.
  - pose proof (score_bound p). rewrite Hlen in *. lia.
  - rewrite Hlen. specialize (IH q Hlen Hp). lia.
Qed.

Lemma captures_length p path values : captures p path = Some values → length p = length path.
Proof.
  revert path values. induction p as [|[s|n] p IH]; intros [|x path] values; simpl; try done.
  - case_decide; [|done]. intros Hc. f_equal. by eapply IH.
  - intros (v & Hv & _)%fmap_Some. f_equal. by eapply IH.
Qed.

Fixpoint candidates (table : list (list Segment)) (path : list string) (i : nat) : list (nat * nat * list string) :=
  match table with
  | [] => []
  | p :: rest =>
      match captures p path with
      | Some v => (i, score p, v) :: candidates rest path (S i)
      | None => candidates rest path (S i)
      end
  end.

Lemma candidates_elem table path k i s v :
  (i, s, v) ∈ candidates table path k ↔
  ∃ j p, i = (k + j)%nat ∧ table !! j = Some p ∧ s = score p ∧ captures p path = Some v.
Proof.
  revert k. induction table as [|p table IH]; intros k; simpl.
  - split; [by intros ?%elem_of_nil|]. by intros (j & p & _ & [=] & _).
  - assert ((i, s, v) ∈ candidates table path (S k) ↔
      ∃ j q, i = (k + S j)%nat ∧ table !! j = Some q ∧ s = score q ∧ captures q path = Some v) as Htail.
    { rewrite IH. split; intros (j & q & -> & ?); exists j, q; (split; [lia|done]). }
    destruct (captures p path) as [v'|] eqn:Ec; [rewrite elem_of_cons|]; rewrite Htail; split.
    + intros [[= -> -> ->]|(j & q & ?)]; [exists 0%nat, p; split_and!; [lia|done..]|by exists (S j), q].
    + intros ([|j] & q & -> & Hq & -> & Hv).
      * left. injection Hq as <-. rewrite Ec in Hv. injection Hv as <-. by rewrite Nat.add_0_r.
      * right. by exists j, q.
    + intros (j & q & ?). by exists (S j), q.
    + intros ([|j] & q & -> & Hq & -> & Hv); [injection Hq as <-; congruence|by exists j, q].
Qed.

Fixpoint best (l : list (nat * nat * list string)) : option (nat * nat * list string) :=
  match l with
  | [] => None
  | x :: l => match best l with
              | None => Some x
              | Some y => if (x.1.2 <=? y.1.2)%nat then Some x else Some y
              end
  end.

Lemma best_spec l :
  match best l with
  | None => l = []
  | Some x => x ∈ l ∧ ∀ y, y ∈ l → (x.1.2 ≤ y.1.2)%nat
  end.
Proof.
  induction l as [|x l IH]; [done|]. simpl. destruct (best l) as [y|].
  - destruct IH as [Hin Hmin]. destruct (Nat.leb_spec (x.1.2) (y.1.2)) as [Hle|Hlt].
    + split; [set_solver|]. intros z [->|Hz]%elem_of_cons; [done|]. specialize (Hmin z Hz). lia.
    + split; [set_solver|]. intros z [->|Hz]%elem_of_cons; [lia|by apply Hmin].
  - subst l. split; [set_solver|]. intros z [->|Hz]%elem_of_cons; [done|]. by apply elem_of_nil in Hz.
Qed.

(** The value of a hexadecimal digit, and the text without its percent encoding; only characters of
    ASCII are decoded here. *)
Definition hex_value (c : ascii) : option nat :=
  let n := nat_of_ascii c in
  if (48 <=? n)%nat && (n <=? 57)%nat then Some (n - 48)%nat
  else if (97 <=? n)%nat && (n <=? 102)%nat then Some (n - 87)%nat
  else if (65 <=? n)%nat && (n <=? 70)%nat then Some (n - 55)%nat
  else None.

Fixpoint sample_decode (s : string) : option string :=
  match s with
  | EmptyString => Some EmptyString
  | String "%" ((String x (String y rest)) as s') =>
      match hex_value x, hex_value y with
      | Some i, Some j =>
          if (i <? 8)%nat then String (ascii_of_nat (16 * i + j)) <$> sample_decode rest else None
      | _, _ => String "%" <$> sample_decode s'
      end
  | String c s' => String c <$> sample_decode s'
  end.

Lemma sample_decode_plain s : Str.contains "%"%char s = false → sample_decode s = Some s.
Proof.
  induction s as [|c s IH]; [done|]. cbn [Str.contains]. intros [Hc Hs]%orb_false_iff.
  assert (c ≠ "%"%char) as Hne by (intros ->; by vm_compute in Hc).
  assert (sample_decode (String c s) = String c <$> sample_decode s) as ->.
  { destruct c as [[] [] [] [] [] [] [] []]; done. }
  by rewrite (IH Hs).
Qed.

#[export] Instance sample_axum : Axum.
Proof.
  refine {| route_path table path := '(i, _, v) ← best (candidates table path 0); Some (i, v);
            percent_decode := sample_decode |}.
  - intros table path i v Hr. pose proof (best_spec (candidates table path 0)) as Hb.
    destruct (best _) as [[[i' s] v']|]; [|done]. destruct Hb as [Hin _]. injection Hr as <- <-.
    apply candidates_elem in Hin as (j & p & -> & Hp & _ & Hc). exists p. by rewrite <- captures_Some.
  - intros table path i p v Hi Hv. pose proof (best_spec (candidates table path 0)) as Hb.
    destruct (best _) as [[[i' s] v']|]; [by eexists|]. exfalso.
    assert ((i, score p, v) ∈ candidates table path 0) as Hin.
    { apply candidates_elem. exists i, p. by rewrite captures_Some. }
    rewrite Hb in Hin. by apply elem_of_nil in Hin.
  - intros table path i v p j q v' Hr Hi Hj Hq. pose proof (best_spec (candidates table path 0)) as Hb.
    destruct (best _) as [[[i' s] v'']|]; [|done]. destruct Hb as [Hin Hmin]. injection Hr as <- <-.
    apply candidates_elem in Hin as (j' & p' & -> & Hp' & -> & Hc). cbn [Nat.add] in Hi; rewrite Hi in Hp'. injection Hp' as <-.
    apply captures_Some in Hq.
    assert (score p ≤ score q)%nat as Hle.
    { apply (Hmin (j, score q, v')). apply candidates_elem. by exists j, q. }
    destruct (preferred q p) eqn:Hpref; [|done]. apply preferred_score in Hpref; [lia|].
    by rewrite (captures_length _ _ _ Hc), (captures_length _ _ _ Hq).
  - apply sample_decode_plain.
Defined.

(** ** Witnesses *)

Section Witnesses.
Import DnsSample ZoneSample.

Definition served_zone : Config.ZoneConfig :=
  {| Config.zone_name := "e."; Config.zone_kind := "primary"; Config.zone_file := Some "/z/e"%string;
     Config.zone_primaries := []; Config.dnssec_signing := false; Config.dnssec_algorithm := "ed25519";
     Config.dnssec_key := None; Config.nx_proof := None |}.

Definition api_config : Config.Config := ConfigProps.config_with [] Config.CacheSection_default [served_zone].

Definition empty_filter : Filter.Filter unit :=
  {| Filter.cname_chain_limit := 8; Filter.cname_cloaking := false; Filter.rebinding := false;
     Filter.blocklist := Blocklist.new; Filter.allowlist := Blocklist.Allowlist_new; Filter.per_client := [];
     Filter.sinkhole_v4 := ipv4 0 0 0 0; Filter.sinkhole_v6 := v6_unspecified; Filter.regex_blocklist := [] |}.

Definition api_state : @ApiState unit := state (new api_config empty_filter).

Definition api_files : @Fs sample sample_zone := {| files := ∅; zones := {[ "/z/e"%string := [] ]} |}.

Definition request (mt : Method) (p : list string) : ApiRequest :=
  {| method := mt; path := p;
     create_body := Ok {| create_name := "www.e."; create_type := "a"; create_ttl := None; create_data := "192.0.2.1" |};
     delete_body := Err 422; options_body := Err 422 |}.

Definition respond_sample (r : ApiRequest) : Response * @Fs sample sample_zone :=
  @respond sample sample_zone unit sample_axum (λ _, None) None Metrics.new api_state api_files r.

Lemma created_differs : (respond_sample (request POST ["api"; "zones"; "e"; "records"]%string)).2 ≠ api_files.
Proof. intros E. apply (f_equal (λ fs : SFs, bool_decide (files fs = ∅))) in E. vm_compute in E. discriminate E. Qed.

Lemma api_changes_only_as_asked_witness :
  status (respond_sample (request POST ["api"; "zones"; "e"; "records"]%string)).1 = OK ∧
  changed (λ _, None) None api_state api_files (request POST ["api"; "zones"; "e"; "records"]%string)
    (respond_sample (request POST ["api"; "zones"; "e"; "records"]%string)).2.
Proof.
  split; [vm_compute; reflexivity|].
  exact (proj2 (@api_changes_only_as_asked sample sample_zone sample_keys sample_axum unit (λ _, None) None Metrics.new
    api_state api_files (request POST ["api"; "zones"; "e"; "records"]%string) created_differs)).
Defined.

(** The library of the examples, reading back the file that the creation of [www.e.] writes. *)
Definition www_e : SName := {| s_labels := ["www"; "e"]%string; s_fqdn := true |}.
Definition created_zone : SZone := [((www_e, RT_A), [from_rdata www_e 3600 (RD_A (ipv4 192 0 2 1))])].
Definition created_text : list Z := text_bytes (@zone_text sample sample_zone {| s_labels := ["e"]%string; s_fqdn := true |} created_zone).

Definition rereading_zone : @ZoneLib sample.
Proof.
  refine {|
    LowerName := SName; lower := s_lower; Fs := SFs; path_exists := s_exists;
    try_from_config fs _ _ p _ :=
      match files fs !! p with
      | Some b => if decide (b = created_text) then Some created_zone else None
      | None => zones fs !! p
      end;
    upsert_mut := s_upsert; create_parent_dir fs _ := (true, fs);
    write_file fs p t := (true, s_write fs p (text_bytes t));
    rdata_try_from_str := @rdata_try_from_str sample sample_zone;
    hex_decode := @hex_decode sample sample_zone; matching_from := @matching_from sample sample_zone;
    rtype_from := @rtype_from sample sample_zone; rtype_to_string := @rtype_to_string sample sample_zone;
    rdata_to_string := @rdata_to_string sample sample_zone |}; try done.
  - apply s_upsert_other.
  - apply s_upsert_fresh.
  - apply s_upsert_excluded.
  - apply (@hex_decode_bytes sample sample_zone).
Defined.

Definition respond_reread (fs : SFs) (r : ApiRequest) : Response * SFs :=
  @respond sample rereading_zone unit sample_axum (λ _, None) None Metrics.new api_state fs r.

Definition after_creation : SFs := (respond_reread api_files (request POST ["api"; "zones"; "e"; "records"]%string)).2.

Lemma record_lifecycle_witness :
  ∃ l, respond_reread after_creation (request GET ["api"; "zones"; "%65"; "records"; "www.e."; "a"]%string) =
       (json (RecordsBody l (length l)), after_creation) ∧
    @summary sample rereading_zone (from_rdata www_e 3600 (RD_A (ipv4 192 0 2 1))) ∈ l.
Proof.
  destruct (@record_lifecycle sample rereading_zone sample_axum unit (λ _, None) None Metrics.new api_state
    api_files after_creation
    (respond_reread api_files (request POST ["api"; "zones"; "e"; "records"]%string)).1
    (request POST ["api"; "zones"; "e"; "records"]%string) "e" "e" served_zone) as [Hcreate _].
  - reflexivity.
  - vm_compute. reflexivity.
  - reflexivity.
  - apply surjective_pairing.
  - vm_compute. reflexivity.
  - destruct (Hcreate {| create_name := "www.e."; create_type := "a"; create_ttl := None; create_data := "192.0.2.1" |})
      as (zone & origin & name & rt & rd & Hl & Ho & Ht & Hd & Hown & Hall & _); [reflexivity|reflexivity|].
    assert (zone = []) as -> by (vm_compute in Hl; by injection Hl).
    assert (origin = {| s_labels := ["e"]%string; s_fqdn := true |}) as -> by (vm_compute in Ho; by injection Ho).
    assert (rt = RT_A) as -> by (vm_compute in Ht; by injection Ht).
    assert (rd = RD_A (ipv4 192 0 2 1)) as -> by (vm_compute in Hd; by injection Hd).
    assert (name = www_e) as -> by (vm_compute in Hown; by injection Hown).
    apply (Hall ltac:(split; vm_compute; reflexivity)) with (n := "www.e."%string) (name' := www_e) (t := "a"%string);
      try (vm_compute; reflexivity); [set_solver|].
    exists "%65"%string, "www.e."%string, "a"%string. split_and!; reflexivity.
Defined.

Lemma api_reads_witness :
  status (respond_sample (request GET ["api"; "zones"; "e"; "records"; "A"]%string)).1 = 500 ∧
  status (respond_sample (request GET ["api"; "zones"; "%65"; "records"]%string)).1 = 200 ∧
  status (respond_sample (request GET ["api"; "zones"; "%ff"; "records"]%string)).1 = 400 ∧
  listing api_state api_files INTERNAL_SERVER_ERROR "e" (Ok (λ _, true))
    (respond_sample (request GET ["api"; "zones"; "%65"; "records"]%string)).1.
Proof.
  destruct (@api_reads sample sample_zone sample_keys sample_axum unit (λ _, None) None Metrics.new
    api_state api_files (request GET ["api"; "zones"; "e"; "records"; "A"]%string) "e" "e" "A" eq_refl)
    as (_ & _ & H500 & _).
  destruct (@api_reads sample sample_zone sample_keys sample_axum unit (λ _, None) None Metrics.new
    api_state api_files (request GET ["api"; "zones"; "%65"; "records"]%string) "%65" "e" "A" eq_refl) as (Hlist & _).
  split; [exact (H500 eq_refl)|]. split; [vm_compute; reflexivity|]. split; [vm_compute; reflexivity|].
  exact (proj1 (Hlist eq_refl)).
Defined.

End Witnesses.

End ApiProps.
