(* ===== verification/Auth.v ===== *)
(** * Sessions ([src/auth/mod.rs])

    The roles of a session.  No route asks for a session. *)

From Stdlib Require Import Ascii String.
From stdpp Require Import base list strings.
From S2P Require Import Prelude RustString.

Module Auth.

Record AuthConfig := {
  enabled : bool;
  rbac_roles : list string;
  totp_issuer : string;
  oidc_provider : option string
}.

Definition AuthConfig_default : AuthConfig :=
  {| enabled := false; rbac_roles := []; totp_issuer := EmptyString; oidc_provider := None |}.

Record AuthSession := {
  user : string;
  roles : list string;
  totp_verified : bool;
  oidc_token : option string
}.

Definition new (u : string) : AuthSession :=
  {| user := u; roles := ["dns_reader"%string]; totp_verified := false; oidc_token := None |}.

Definition has_role (s : AuthSession) (role : string) : bool := bool_decide (role ∈ roles s).

Definition is_authorized_for_toggle (s : AuthSession) (required_role : string) : bool := has_role s required_role.

End Auth.
