(* ===== verification/Apps.v ===== *)
(** * Apps ([src/apps/mod.rs]): the trait of plug-ins, their registry and the zone override *)

From Stdlib Require Import Ascii String ZArith.
From stdpp Require Import base list strings numbers.
From S2P Require Import Prelude RustString RustNum RustNet.

Module Apps.

(** The trait: a name, and an answer for some names (none unless the app says so). *)
Record DnsApp := { app_name : string; handle_query : string → option (list Z) }.

Definition handle_query_default (qname : string) : option (list Z) := None.

Record AppRegistry := { apps : list DnsApp }.

Definition new : AppRegistry := {| apps := [] |}.

Definition register (r : AppRegistry) (app : DnsApp) : AppRegistry := {| apps := apps r ++ [app] |}.

Definition app_route_override (registry : option AppRegistry) (client : IpAddr) (qname : string) : option string :=
  reg ← registry;
  if bool_decide (length (apps reg) = 0%nat) then None else Some (Str.trim_end_matches "." qname).

End Apps.
