(* ===== verification/Main.v ===== *)
(** * The process ([src/main.rs]) and the small modules it starts

    What [main] does before it serves: the configuration, the log settings, the query log writer, and
    the five tasks it then waits for.  [Rec] and [Tasks] are src/core/rec and the tasks of src/core,
    src/dhcp and src/cluster. *)

From Stdlib Require Import Ascii String ZArith Lia.
From stdpp Require Import base list gmap strings numbers.
From S2P Require Import Prelude RustString RustNum RustNet Metrics Cache Config Dns Zone Keys QueryLog Auth.

Local Open Scope Z_scope.

(** ** Recursion options *)

Module Rec.

Record RecOptions := { qname_minimization : bool; case_randomization : bool; ecs : bool }.

Definition RecOptions_default : RecOptions :=
  {| qname_minimization := true; case_randomization := false; ecs := false |}.

End Rec.

(** ** The tasks that do nothing yet *)

Module Tasks.

Definition core_run {E} (cfg : Config.Config) : result E unit := Ok tt.

(** Enabled or not, the result is the same. *)
Definition dhcp_run {E} (enable : bool) : result E unit := if negb enable then Ok tt else Ok tt.
Definition cluster_run {E} (enable : bool) : result E unit := if negb enable then Ok tt else Ok tt.

End Tasks.

(** ** The process *)

Module Main.
Import Config.

Inductive Task := NetTask | CoreTask | ApiTask | DhcpTask | ClusterTask.

#[export] Instance Task_eq_dec : EqDecision Task.
Proof. solve_decision. Defined.

(** What [main] has done when it waits for its tasks, or when it is over. *)
Record Started := {
  log_filter : string;
  log_json : bool;
  provider : Keys.Provider;
  writer : option QueryLog.Writer;
  auth : Auth.AuthConfig;
  tasks : list Task;
  tasks_cfg : Config
}.

Inductive Outcome :=
  | Failed (e : ConfigError)
  | Checked (cfg : Config)
  | Running (s : Started).

(** The settings of the query log; only whether the section is there matters. *)
Definition query_log_config (cfg : Config) : option QueryLog.QueryLogConfig :=
  _ ← query_log (log cfg);
  Some {| QueryLog.postgres_url := Some QueryLog.default_url; QueryLog.table := "dns_logs";
          QueryLog.buffer_size := 64; QueryLog.flush_interval_ms := 100 |}.

(** The filter of the environment, if it is set and readable, or else the flag, or else the file. *)
Definition env_filter (rust_log : option string) (args : Args) (cfg : Config) : string :=
  let level := default (log_level (log cfg)) (arg_log_level args) in
  default level rust_log.

(** The handle of the writer goes out of scope at the end of the block that makes it. *)
Definition spawn_query_log (cfg : Config) : option QueryLog.Writer :=
  q ← query_log_config cfg;
  Some (QueryLog.drop_senders (QueryLog.spawn q)).

Definition main (read_to_string : string → option string) (exists_ : string → bool)
    (toml_from_str : string → option Config) (rust_log : option string) (args : Args) : Outcome :=
  match load_config read_to_string exists_ toml_from_str args with
  | Err e => Failed e
  | Ok cfg =>
      let filter := env_filter rust_log args cfg in
      let json := bool_decide (log_format (log cfg) = "json"%string) in
      if arg_check_config args then Checked cfg
      else Running {| log_filter := filter; log_json := json;
                      provider := Keys.provider_for (Config.provider (dnssec cfg));
                      writer := spawn_query_log cfg; auth := Auth.AuthConfig_default;
                      tasks := [NetTask; CoreTask; ApiTask; DhcpTask; ClusterTask]; tasks_cfg := cfg |}
  end.

(** [try_join!]: the first error among the tasks that have finished, in the order in which they did,
    success when all have, and [None] while it waits. *)
Fixpoint try_join {E} (waiting : list Task) (finished : list (Task * result E unit)) : option (result E unit) :=
  match waiting, finished with
  | [], _ => Some (Ok tt)
  | _, [] => None
  | _, (t, Err e) :: _ => Some (Err e)
  | _, (t, Ok _) :: rest => try_join (base.filter (λ t', t' ≠ t) waiting) rest
  end.

End Main.
