(* ===== verification/MainProps.v ===== *)
(** * Properties of the process *)

From Stdlib Require Import Ascii String ZArith Lia.
From stdpp Require Import base list gmap strings numbers.
From S2P Require Import Prelude RustString RustNum RustNet Metrics Cache Config ConfigProps Dns Zone Keys QueryLog.
From S2P Require Import QueryLogProps Auth Main.

Local Open Scope Z_scope.

Module MainProps.
Import Config ConfigProps Main.

(** A writer without senders that has received nothing never does anything. *)
Definition idle (w : QueryLog.Writer) : Prop :=
  QueryLog.senders w = false ∧ QueryLog.channel w = [] ∧ QueryLog.buffer w = [] ∧
  QueryLog.sent w = [] ∧ QueryLog.batches w = [] ∧ QueryLog.statements w = [].

Lemma act_idle connects w a : idle w → idle (QueryLog.act connects w a).
Proof.
  intros (Hs & Hc & Hb & Hrest). destruct a as [e| |order tick]; cbn [QueryLog.act].
  - by rewrite Hs.
  - done.
  - unfold QueryLog.round. destruct (QueryLog.running w); [|done]. destruct (_ =? 0)%Z; [done|].
    unfold QueryLog.recv. rewrite Hc, Hs. destruct order, tick; cbn; try done;
      unfold QueryLog.on_tick; by rewrite Hb.
Qed.

Lemma run_idle connects w l : idle w → idle (QueryLog.run connects w l).
Proof.
  unfold QueryLog.run. revert w. induction l as [|a l IH]; intros w Hw; [done|]. apply IH. by apply act_idle.
Qed.

Lemma load_config_Valid rd ex toml args c : load_config rd ex toml args = Ok c → Valid c.
Proof.
  unfold load_config. intros (c0 & _ & (u & Hv & [= <-])%bind_Ok)%bind_Ok. by apply validate_Ok in Hv.
Qed.

(** The tasks still waited for after some have finished well. *)
Definition left_over {E} (waiting : list Task) (finished : list (Task * result E unit)) : list Task :=
  base.filter (λ t, t ∉ finished.*1) waiting.

Definition finished_well {E} (p : Task * result E unit) : Prop := p.2 = Ok tt.

Lemma try_join_cons_ok {E} waiting t (rest : list (Task * result E unit)) :
  waiting ≠ [] → try_join waiting ((t, Ok tt) :: rest) = try_join (base.filter (λ t', t' ≠ t) waiting) rest.
Proof. by destruct waiting. Qed.

Lemma left_over_cons {E} waiting t r (rest : list (Task * result E unit)) :
  left_over waiting ((t, r) :: rest) = left_over (base.filter (λ t', t' ≠ t) waiting) rest.
Proof.
  unfold left_over. rewrite list_filter_filter. apply list_filter_iff. intros x. rewrite fmap_cons. simpl. set_solver.
Qed.

Lemma try_join_well {E} waiting (before rest : list (Task * result E unit)) :
  Forall finished_well before → left_over waiting before ≠ [] →
  try_join waiting (before ++ rest) = try_join (left_over waiting before) rest.
Proof.
  intros Hall. revert waiting. induction Hall as [|[t r] before Hr _ IH]; intros waiting Hne.
  { unfold left_over in *. simpl in *. rewrite list_filter_id in Hne |- * by set_solver. done. }
  unfold finished_well in Hr. simpl in Hr. subst r. simpl app. rewrite left_over_cons in Hne |- *.
  rewrite try_join_cons_ok; [by apply IH|]. by intros ->.
Qed.

(** The end of the process: an error, exactly when a task ends with it while tasks are waited for and
    no other has failed before; success, exactly when all have ended well. *)
Lemma try_join_Err {E} waiting (finished : list (Task * result E unit)) e :
  try_join waiting finished = Some (Err e) ↔
  ∃ before t after, finished = before ++ (t, Err e) :: after ∧ Forall finished_well before ∧
    left_over waiting before ≠ [].
Proof.
  split.
  - revert waiting. induction finished as [|[t [[]|e']] finished IH]; intros waiting Hj.
    + by destruct waiting.
    + destruct (decide (waiting = [])) as [->|Hne]; [done|]. rewrite try_join_cons_ok in Hj by done.
      destruct (IH _ Hj) as (before & t' & after & -> & Hall & Hl).
      exists ((t, Ok tt) :: before), t', after. split_and!; [done|by constructor|by rewrite left_over_cons].
    + destruct waiting as [|w waiting]; [done|]. injection Hj as ->.
      exists [], t, finished. split_and!; [done|constructor|].
      unfold left_over. simpl. rewrite filter_cons_True by (simpl; set_solver). done.
  - intros (before & t & after & -> & Hall & Hl). rewrite try_join_well by done.
    by destruct (left_over waiting before).
Qed.

(** All five tasks are waited for at first. *)
Definition all_tasks : list Task := [NetTask; CoreTask; ApiTask; DhcpTask; ClusterTask].

Lemma left_over_nil {E} (before : list (Task * result E unit)) :
  left_over all_tasks before = [] ↔ ∀ t, t ∈ before.*1.
Proof.
  unfold left_over. split.
  - intros Hnil t. destruct (decide (t ∈ before.*1)) as [Ht|Ht]; [done|].
    assert (t ∈ base.filter (λ t, t ∉ before.*1) all_tasks) as Hin.
    { apply list_elem_of_filter. split; [done|]. unfold all_tasks. destruct t; set_solver. }
    rewrite Hnil in Hin. by apply elem_of_nil in Hin.
  - intros Hall. destruct (base.filter _ all_tasks) as [|t l] eqn:El; [done|].
    assert (t ∈ base.filter (λ t, t ∉ before.*1) all_tasks) as Hin by (rewrite El; by left).
    apply list_elem_of_filter in Hin as [Hn _]. by destruct Hn.
Qed.

Lemma left_over_not_nil {E} (before : list (Task * result E unit)) :
  left_over all_tasks before ≠ [] ↔ ∃ t, t ∉ before.*1.
Proof.
  rewrite left_over_nil. split; [|intros [t Ht] Hall; by apply Ht].
  intros Hn. destruct (left_over all_tasks before) as [|t l] eqn:El.
  - destruct Hn. by apply left_over_nil.
  - exists t. assert (t ∈ left_over all_tasks before) as Hin by (rewrite El; by left).
    by apply list_elem_of_filter in Hin as [? _].
Qed.

Lemma try_join_Ok {E} waiting (finished : list (Task * result E unit)) :
  try_join waiting finished = Some (Ok tt) ↔
  ∃ before after, finished = before ++ after ∧ Forall finished_well before ∧ left_over waiting before = [].
Proof.
  split.
  - revert waiting. induction finished as [|[t [[]|e']] finished IH]; intros waiting Hj.
    + destruct waiting; [|done]. by exists [], [].
    + destruct (decide (waiting = [])) as [->|Hne]; [by exists [], ((t, Ok tt) :: finished)|].
      rewrite try_join_cons_ok in Hj by done. destruct (IH _ Hj) as (before & after & -> & Hall & Hl).
      exists ((t, Ok tt) :: before), after. split_and!; [done|by constructor|by rewrite left_over_cons].
    + destruct waiting; [|done]. by exists [], ((t, Err e') :: finished).
  - intros (before & after & -> & Hall & Hl). revert waiting Hl.
    induction Hall as [|[t r] before Hr _ IH]; intros waiting Hl.
    + unfold left_over in Hl. simpl in Hl. rewrite list_filter_id in Hl by set_solver. subst.
      by destruct after as [|[? []] ?].
    + unfold finished_well in Hr. simpl in Hr. subst r. rewrite left_over_cons in Hl.
      destruct (decide (waiting = [])) as [->|Hne]; [done|]. simpl app. rewrite try_join_cons_ok by done.
      by apply IH.
Qed.

(** C36: What the process does with its arguments.  It starts only with a valid configuration; with
    [--check-config] it reports exactly whether there is one and starts nothing.  Otherwise it runs
    its five tasks on that configuration.  It ends well exactly when all five have ended well, and
    with an error exactly when one that was still waited for ends with it, none having failed before,
    whether or not others are still running: a failure of the HTTP server ends the process while the
    DNS server serves.  The core,
    DHCP and cluster tasks never fail.  The environment's log filter goes before the flag, and the
    flag before the file.  A configured query log is of no effect: its writer is left without a
    sender at once, and however its task is scheduled it never accepts an event or sends a
    statement. *)
Theorem main_behaviour {E} rd ex toml rust_log args (finished : list (Task * result E unit)) connects actions :
  match main rd ex toml rust_log args with
  | Failed e => load_config rd ex toml args = Err e
  | Checked c => arg_check_config args = true ∧ load_config rd ex toml args = Ok c ∧ Valid c
  | Running s =>
      arg_check_config args = false ∧ load_config rd ex toml args = Ok (tasks_cfg s) ∧ Valid (tasks_cfg s) ∧
      log_filter s = match rust_log, arg_log_level args with
                     | Some f, _ => f
                     | None, Some l => l
                     | None, None => log_level (log (tasks_cfg s))
                     end ∧
      (try_join (tasks s) finished = Some (Ok tt) ↔
         ∃ before after, finished = before ++ after ∧ Forall finished_well before ∧
           ∀ t, t ∈ before.*1) ∧
      (∀ e, try_join (tasks s) finished = Some (Err e) ↔
         ∃ before t after, finished = before ++ (t, Err e) :: after ∧ Forall finished_well before ∧
           ∃ t', t' ∉ before.*1) ∧
      @Tasks.core_run E (tasks_cfg s) = Ok tt ∧
      @Tasks.dhcp_run E (dhcp_enable (dhcp (tasks_cfg s))) = Ok tt ∧
      @Tasks.cluster_run E (cluster_enable (cluster (tasks_cfg s))) = Ok tt ∧
      (is_Some (writer s) ↔ is_Some (query_log (log (tasks_cfg s)))) ∧
      ∀ w, writer s = Some w →
        QueryLog.sent (QueryLog.run connects w actions) = [] ∧
        QueryLog.statements (QueryLog.run connects w actions) = []
  end.
Proof.
  unfold main. destruct (load_config rd ex toml args) as [c|e] eqn:El; [|done].
  pose proof (load_config_Valid _ _ _ _ _ El) as Hv.
  destruct (arg_check_config args); [done|]. cbn [tasks_cfg log_filter tasks writer].
  split_and!; try done.
  - rewrite try_join_Ok. setoid_rewrite left_over_nil. done.
  - intros e. rewrite try_join_Err. setoid_rewrite left_over_not_nil. done.
  - by destruct (dhcp_enable (dhcp c)).
  - by destruct (cluster_enable (cluster c)).
  - unfold spawn_query_log, query_log_config. destruct (query_log (log c)); simpl; split; intros [? ?]; try done; by eexists.
  - intros w. unfold spawn_query_log, query_log_config. destruct (query_log (log c)); [|done]. intros [= <-].
    match goal with |- context [QueryLog.run _ ?w0 _] => destruct (run_idle connects w0 actions) as (_ & _ & _ & ? & _ & ?) end;
      [by split_and!|done].
Qed.

End MainProps.
